(** * The AI content pipeline: a shallow embedding and its properties

    The Python sources under [ai-content-pipeline/] are embedded as Rocq
    functions.  Python values keep their shape: a [str] is its list of code
    points, JSON-like data is a small value type with association-list
    dictionaries, the SQLite table is a finite map from row id to row, and the
    file system is a finite map from path to file size.  Code that talks to the
    outside (HTTP APIs, SDK clients, ffmpeg, the clock) runs in a state-and-
    exception monad over an abstract world with one oracle per external call.

    What is remote or spawned (HTTP requests, the SDK clients, ffmpeg and
    ffprobe) may answer or fail in any way its oracle chooses.  The machine
    itself is taken to work: creating a directory, opening a local file for
    writing, deleting one, executing an SQL statement whose parameters SQLite
    can bind, and logging all succeed.  The calls to [mkdir] are therefore
    left out and directories are not part of the file system map.  JSON
    numbers are integers. *)

From Stdlib Require Import ZArith NArith QArith List String Ascii Lia.
From Stdlib Require Import Permutation Sorted.
From stdpp Require Import base option list gmap.

Set Warnings "-register-all".

(* ===================================================================== *)
(** * Python values                                                       *)
(* ===================================================================== *)

Module Py.

(** A Python [str] is a sequence of Unicode code points; [len] counts them. *)
Definition pystr := list N.

(** ASCII literals of the source, as code-point lists. *)
Definition lit (s : string) : pystr := map N_of_ascii (list_ascii_of_string s).

Definition len (s : pystr) : Z := Z.of_nat (length s).

(** The characters [str.split()] and [str.strip()] treat as whitespace
    (CPython's [Py_UNICODE_ISSPACE]). *)
Definition isspace (c : N) : bool :=
  ((9 <=? c) && (c <=? 13) || (28 <=? c) && (c <=? 32)
   || (c =? 133) || (c =? 160) || (c =? 5760)
   || (8192 <=? c) && (c <=? 8202)
   || (c =? 8232) || (c =? 8233) || (c =? 8239) || (c =? 8287)
   || (c =? 12288))%N.

(** [s.split()]: the maximal runs of non-whitespace characters, in order.
    [cur] is the run being read, most recent character first. *)
Fixpoint split_aux (cur : pystr) (s : pystr) : list pystr :=
  match s with
  | [] => match cur with [] => [] | _ => [rev cur] end
  | c :: s' =>
      if isspace c
      then match cur with
           | [] => split_aux [] s'
           | _ => rev cur :: split_aux [] s'
           end
      else split_aux (c :: cur) s'
  end.

Definition split (s : pystr) : list pystr := split_aux [] s.

Fixpoint lstrip (s : pystr) : pystr :=
  match s with
  | [] => []
  | c :: s' => if isspace c then lstrip s' else s
  end.

Definition rstrip (s : pystr) : pystr := rev (lstrip (rev s)).

(** [s.strip()] *)
Definition strip (s : pystr) : pystr := rstrip (lstrip s).

(** [sep.join(parts)] *)
Fixpoint join (sep : pystr) (parts : list pystr) : pystr :=
  match parts with
  | [] => []
  | [p] => p
  | p :: rest => p ++ sep ++ join sep rest
  end.

(** [s.replace(c, new)] for a one-character pattern [c]. *)
Fixpoint replace (c : N) (new : pystr) (s : pystr) : pystr :=
  match s with
  | [] => []
  | x :: s' => if (x =? c)%N then new ++ replace c new s' else x :: replace c new s'
  end.

(** [s.startswith(p)] *)
Fixpoint startswith (p s : pystr) : bool :=
  match p, s with
  | [], _ => true
  | _ :: _, [] => false
  | a :: p', b :: s' => (a =? b)%N && startswith p' s'
  end.

(** [l[:n]] for a list: a negative bound counts from the end. *)
Definition slice_to {A} (n : Z) (l : list A) : list A :=
  if (n <? 0)%Z
  then firstn (Z.to_nat (Z.of_nat (length l) + n)) l
  else firstn (Z.to_nat n) l.

(** [enumerate(l)] *)
Fixpoint enumerate_from {A} (i : Z) (l : list A) : list (Z * A) :=
  match l with
  | [] => []
  | x :: l' => (i, x) :: enumerate_from (i + 1)%Z l'
  end.

Definition enumerate {A} (l : list A) : list (Z * A) := enumerate_from 0%Z l.

(** JSON-like values, as the SDKs and [json.loads] hand them to the code.
    A dictionary keeps its insertion order; lookup takes the first binding. *)
Inductive val :=
| VNone
| VBool (b : bool)
| VInt (z : Z)
| VStr (s : pystr)
| VList (l : list val)
| VDict (d : list (pystr * val)).

(** Truthiness, as [if x], [not x] and [x or y] test it. *)
Definition truthy (v : val) : bool :=
  match v with
  | VNone => false
  | VBool b => b
  | VInt z => negb (z =? 0)%Z
  | VStr s => match s with [] => false | _ => true end
  | VList l => match l with [] => false | _ => true end
  | VDict d => match d with [] => false | _ => true end
  end.

(** [x or y] *)
Definition or_else (x y : val) : val := if truthy x then x else y.

Definition pystr_eqb (a b : pystr) : bool := bool_decide (a = b).

Fixpoint assoc (k : pystr) (d : list (pystr * val)) : option val :=
  match d with
  | [] => None
  | (k', v) :: d' => if pystr_eqb k k' then Some v else assoc k d'
  end.

(** [d.get(k, default)] on a dictionary [d]. *)
Definition get (d : list (pystr * val)) (k : pystr) (default : val) : val :=
  match assoc k d with
  | Some v => v
  | None => default
  end.

(** [d[k] = v] *)
Fixpoint setitem (k : pystr) (v : val) (d : list (pystr * val)) : list (pystr * val) :=
  match d with
  | [] => [(k, v)]
  | (k', v') :: d' =>
      if pystr_eqb k k' then (k, v) :: d' else (k', v') :: setitem k v d'
  end.

(** The exceptions the modelled code can meet.  All of them are subclasses of
    [Exception]; [OtherError] stands for whatever else a library raises
    (connection errors, HTTP errors, SDK errors). *)
Inductive exn :=
| ValueError (msg : pystr)
| TypeError
| AttributeError
| KeyError
| ZeroDivisionError
| JSONDecodeError
| TimeoutExpired
| SameFileError
| FileNotFoundError
| IndexError
| UnboundLocalError
| OtherError (tag : pystr).

Inductive result (A : Type) :=
| Ok (a : A)
| Raise (e : exn).
Arguments Ok {A} a.
Arguments Raise {A} e.

Definition is_json_decode_error (e : exn) : bool :=
  match e with JSONDecodeError => true | _ => false end.

Definition is_timeout_expired (e : exn) : bool :=
  match e with TimeoutExpired => true | _ => false end.

(** [a // b] and [a % b] on integers: floor division, the remainder has the
    sign of the divisor, and a zero divisor raises. *)
Definition floordiv (a b : Z) : result Z :=
  if (b =? 0)%Z then Raise ZeroDivisionError else Ok (a / b)%Z.

Definition pymod (a b : Z) : result Z :=
  if (b =? 0)%Z then Raise ZeroDivisionError else Ok (a mod b)%Z.

(** [datetime]: the proleptic Gregorian ordinal of the date and the time of
    day.  The calendar itself (and its year-9999 bound) is not modelled. *)
Record datetime := {
  dt_ordinal : Z;
  dt_hour : Z;
  dt_minute : Z;
  dt_second : Z;
  dt_microsecond : Z
}.

(** [dt + timedelta(days=n)] *)
Definition add_days (dt : datetime) (n : Z) : datetime :=
  {| dt_ordinal := dt_ordinal dt + n;
     dt_hour := dt_hour dt;
     dt_minute := dt_minute dt;
     dt_second := dt_second dt;
     dt_microsecond := dt_microsecond dt |}.

(** [dt.replace(hour=h, minute=0, second=0, microsecond=0)] *)
Definition replace_time (dt : datetime) (h : Z) : datetime :=
  {| dt_ordinal := dt_ordinal dt;
     dt_hour := h;
     dt_minute := 0;
     dt_second := 0;
     dt_microsecond := 0 |}.

(** [l[i]] on a list: a negative index counts from the end. *)
Definition getitem_list {A} (l : list A) (i : Z) : result A :=
  let n := Z.of_nat (length l) in
  let j := if (i <? 0)%Z then (i + n)%Z else i in
  if (j <? 0)%Z then Raise IndexError
  else match l !! Z.to_nat j with
       | Some x => Ok x
       | None => Raise IndexError
       end.

(** [v[k]] on a value that may be anything. *)
Definition getitem (v : val) (k : pystr) : result val :=
  match v with
  | VDict d => match assoc k d with Some x => Ok x | None => Raise KeyError end
  | _ => Raise TypeError
  end.

(** [v[k] = x] on a value that may be anything. *)
Definition setitem_val (v : val) (k : pystr) (x : val) : result val :=
  match v with
  | VDict d => Ok (VDict (setitem k x d))
  | _ => Raise TypeError
  end.

(** [v == "literal"] *)
Definition is_str (v : val) (s : pystr) : bool :=
  match v with
  | VStr s' => pystr_eqb s' s
  | _ => false
  end.

(** [s.split(c)] for a one-character separator. *)
Fixpoint split_on_aux (c : N) (cur : pystr) (s : pystr) : list pystr :=
  match s with
  | [] => [rev cur]
  | x :: s' =>
      if (x =? c)%N then rev cur :: split_on_aux c [] s'
      else split_on_aux c (x :: cur) s'
  end.

Definition split_on (c : N) (s : pystr) : list pystr := split_on_aux c [] s.

(** [list.sort(key=..., reverse=...)] on a list decorated with its keys.
    The sort is stable; with [reverse] the list is reversed, sorted and
    reversed again, which keeps equal keys in their original order.  Keys
    are compared with [<] only.  An insertion sort stands for the library's
    merge sort: on keys that [<] orders, stable sorts agree. *)
Fixpoint insert_by {K A} (lt : K -> K -> bool) (x : K * A) (l : list (K * A)) : list (K * A) :=
  match l with
  | [] => [x]
  | y :: l' => if lt (fst y) (fst x) then y :: insert_by lt x l' else x :: y :: l'
  end.

Definition sort_by {K A} (lt : K -> K -> bool) (l : list (K * A)) : list (K * A) :=
  foldr (insert_by lt) [] l.

Definition list_sort {K A} (lt : K -> K -> bool) (reverse : bool) (l : list (K * A))
    : list (K * A) :=
  if reverse then rev (sort_by lt (rev l)) else sort_by lt l.

(** Pure library functions.  The type of floats and its operations are kept
    abstract, as is the text that formatting and JSON functions produce. *)
Record lib := {
  float : Type;
  float_zero : float;                      (* 0.0 *)
  float_lt : float -> float -> bool;       (* x < y *)
  float_le : float -> float -> bool;       (* x <= y *)
  truediv : Z -> Z -> result float;        (* a / b on integers *)
  float_of_str : pystr -> result float;    (* float(s) *)
  str_of_float : float -> pystr;           (* str(x) *)
  str_of_val : val -> pystr;               (* str(v), f"{v}" *)
  json_dumps : val -> pystr;               (* json.dumps(v, default=str) *)
  json_dumps_indent : val -> pystr;        (* json.dumps(v, indent=2, default=str) *)
  json_loads : pystr -> result val;        (* json.loads(s) *)
  isoformat : datetime -> pystr;           (* dt.isoformat() *)
  strftime_stamp : datetime -> pystr       (* dt.strftime("%Y%m%d_%H%M%S") *)
}.

End Py.

Export Py.

Notation "'py' s" := (Py.lit s%string) (at level 1, s at level 0, only parsing).

(* ===================================================================== *)
(** * config.py                                                           *)
(* ===================================================================== *)

Module Config.

(** The class attributes read from the environment.  [BASE_DIR] is the
    directory of the sources. *)
Record t := {
  BASE_DIR : pystr;
  APIFY_API_TOKEN : pystr;
  GEMINI_API_KEY : pystr;
  HIGGSFIELD_API_KEY : pystr;
  HIGGSFIELD_API_SECRET : pystr;
  ELEVENLABS_API_KEY : pystr;
  BLOTATO_API_KEY : pystr;
  SOUL_ID : pystr;
  ELEVENLABS_VOICE_ID : pystr;
  POSTS_PER_DAY : Z;
  PLATFORMS : list pystr;
  APPROVAL_MODE : pystr
}.

(** [Path / name] *)
Definition path_join (dir name : pystr) : pystr := dir ++ py "/" ++ name.

Definition OUTPUTS_DIR (c : t) : pystr := path_join (BASE_DIR c) (py "outputs").
Definition VIDEOS_DIR (c : t) : pystr := path_join (OUTPUTS_DIR c) (py "videos").
Definition AUDIO_DIR (c : t) : pystr := path_join (OUTPUTS_DIR c) (py "audio").
Definition FINAL_DIR (c : t) : pystr := path_join (OUTPUTS_DIR c) (py "final").
Definition LOGS_DIR (c : t) : pystr := path_join (OUTPUTS_DIR c) (py "logs").

Definition HIGGSFIELD_BASE_URL : pystr := py "https://api.higgsfield.ai".
Definition BLOTATO_BASE_URL : pystr := py "https://api.blotato.com".

End Config.

(* ===================================================================== *)
(** * database.py: the tables, as pure data                               *)
(* ===================================================================== *)

Module Db.

(** The five values the [status] column takes. *)
Inductive Status := Pending | Generating | Generated | Failed | Scheduled.

Global Instance Status_eq_dec : EqDecision Status.
Proof. solve_decision. Defined.

(** The columns [update_content_status] is given as keyword arguments by the
    program: the method takes any [**fields], and its seven call sites, all
    in the orchestrator, name these four only. *)
Inductive Column :=
| Col_video_path
| Col_audio_path
| Col_final_video_path
| Col_post_submission_id.

(** A row of [content_queue]; a TEXT column holds a string or NULL. *)
Record Row := {
  source_url : option pystr;
  topic : option pystr;
  script : option pystr;
  caption : option pystr;
  status : Status;
  video_path : option pystr;
  audio_path : option pystr;
  final_video_path : option pystr;
  post_submission_id : option pystr;
  created_at : datetime;
  updated_at : datetime
}.

(** A row of [post_log]. *)
Record PostLog := {
  pl_content_id : Z;
  pl_platform : pystr;
  pl_post_id : option pystr;
  pl_status : pystr;
  pl_posted_at : datetime
}.

(** One status write, kept for the proofs only: the row, the status it had,
    the status written.  The source has no such record. *)
Record Transition := {
  tr_id : Z;
  tr_from : Status;
  tr_to : Status
}.

(** The database file: [content_queue] by primary key, the AUTOINCREMENT
    counter, [post_log] in insertion order, and the ghost list of status
    writes, oldest first. *)
Record t := {
  content_queue : gmap Z Row;
  seq : Z;
  post_log : list PostLog;
  history : list Transition
}.

Definition empty : t :=
  {| content_queue := ∅; seq := 0; post_log := []; history := [] |}.

Definition set_column (c : Column) (v : option pystr) (r : Row) : Row :=
  match c with
  | Col_video_path =>
      {| source_url := source_url r; topic := topic r; script := script r;
         caption := caption r; status := status r;
         video_path := v; audio_path := audio_path r;
         final_video_path := final_video_path r;
         post_submission_id := post_submission_id r;
         created_at := created_at r; updated_at := updated_at r |}
  | Col_audio_path =>
      {| source_url := source_url r; topic := topic r; script := script r;
         caption := caption r; status := status r;
         video_path := video_path r; audio_path := v;
         final_video_path := final_video_path r;
         post_submission_id := post_submission_id r;
         created_at := created_at r; updated_at := updated_at r |}
  | Col_final_video_path =>
      {| source_url := source_url r; topic := topic r; script := script r;
         caption := caption r; status := status r;
         video_path := video_path r; audio_path := audio_path r;
         final_video_path := v;
         post_submission_id := post_submission_id r;
         created_at := created_at r; updated_at := updated_at r |}
  | Col_post_submission_id =>
      {| source_url := source_url r; topic := topic r; script := script r;
         caption := caption r; status := status r;
         video_path := video_path r; audio_path := audio_path r;
         final_video_path := final_video_path r;
         post_submission_id := v;
         created_at := created_at r; updated_at := updated_at r |}
  end.

Definition set_status (s : Status) (now : datetime) (r : Row) : Row :=
  {| source_url := source_url r; topic := topic r; script := script r;
     caption := caption r; status := s;
     video_path := video_path r; audio_path := audio_path r;
     final_video_path := final_video_path r;
     post_submission_id := post_submission_id r;
     created_at := created_at r; updated_at := now |}.

(** The SET clauses after [status] and [updated_at], applied in order. *)
Definition set_fields (fields : list (Column * option pystr)) (r : Row) : Row :=
  fold_left (fun r kv => set_column (fst kv) (snd kv) r) fields r.

(** [INSERT INTO content_queue (source_url, topic, script, caption, status)
     VALUES (?, ?, ?, ?, 'pending')]: the new id is one past the counter. *)
Definition insert_content (su tp sc cp : option pystr) (now : datetime) (d : t) : Z * t :=
  let id := (seq d + 1)%Z in
  let row := {| source_url := su; topic := tp; script := sc; caption := cp;
                status := Pending;
                video_path := None; audio_path := None;
                final_video_path := None; post_submission_id := None;
                created_at := now; updated_at := now |} in
  (id, {| content_queue := <[id := row]> (content_queue d);
          seq := id;
          post_log := post_log d;
          history := history d |}).

(** [UPDATE content_queue SET status = ?, updated_at = ?, ... WHERE id = ?]:
    nothing happens when no row has the id. *)
Definition update_row (id : Z) (s : Status) (now : datetime)
    (fields : list (Column * option pystr)) (d : t) : t :=
  match content_queue d !! id with
  | None => d
  | Some r =>
      {| content_queue := <[id := set_fields fields (set_status s now r)]> (content_queue d);
         seq := seq d;
         post_log := post_log d;
         history := history d ++ [{| tr_id := id; tr_from := status r; tr_to := s |}] |}
  end.

Definition insert_post_log (e : PostLog) (d : t) : t :=
  {| content_queue := content_queue d;
     seq := seq d;
     post_log := post_log d ++ [e];
     history := history d |}.

End Db.

(* ===================================================================== *)
(** * The process state and the monad the code runs in                    *)
(* ===================================================================== *)

Module Sys.

Inductive level := DEBUG | INFO | WARNING | ERROR.

(** A call that leaves the process.  The trace of these calls is ghost
    state: it records which external services were reached, in order. *)
Inductive event :=
| EvApifyActor (actor : pystr) (run_input : val)
| EvApifyDataset (dataset_id : val)
| EvGemini (prompt : pystr)
| EvPostJson (url : pystr) (headers body : val)
| EvPostFile (url : pystr) (headers : val) (file_path : pystr)
| EvGetJson (url : pystr) (headers : val)
| EvDownload (url : pystr)
| EvTextToSpeech (voice_id text : val)
| EvVoicesGetAll
| EvFfmpeg (cmd : list pystr)
| EvFfprobe (file_path : pystr).

(** Bytes that arrive as a stream and are written to a file as they come:
    the call fails before the file is opened, or [n] bytes are written and
    the stream ends, normally or with an exception. *)
Definition stream := result (N * option exn).

Section World.

(** Everything outside the process: remote services, the clock, the random
    generator, the ffmpeg binaries. *)
Context {W : Type}.

(** One oracle per external call.  Each sees and changes the world; those
    that can fail return a [result]. *)
Record externals := {
  (* datetime.now(timezone.utc) *)
  clock_now : W -> datetime * W;
  (* random.choice(seq) *)
  random_choice : list pystr -> W -> pystr * W;
  (* ApifyClient.actor(id).call(run_input=..., timeout_secs=...) *)
  apify_actor_call : pystr -> val -> Z -> W -> result val * W;
  (* list(ApifyClient.dataset(id).iterate_items()) *)
  apify_dataset_items : val -> W -> result (list val) * W;
  (* GenerativeModel.generate_content(prompt).text *)
  gemini_generate_content : pystr -> W -> result pystr * W;
  (* requests.post(url, headers=..., json=...); raise_for_status(); json() *)
  requests_post_json : pystr -> val -> val -> W -> result val * W;
  (* requests.post(url, headers=..., files=...); raise_for_status(); json() *)
  requests_post_file : pystr -> val -> pystr -> W -> result val * W;
  (* requests.get(url, headers=...); raise_for_status(); json() *)
  requests_get_json : pystr -> val -> W -> result val * W;
  (* requests.get(url, stream=True); raise_for_status(); iter_content() *)
  requests_get_stream : pystr -> W -> stream * W;
  (* ElevenLabs.text_to_speech.convert(voice_id=..., text=...) *)
  text_to_speech_convert : val -> val -> W -> stream * W;
  (* ElevenLabs.voices.get_all(), as the list of voice ids *)
  voices_get_all : W -> result (list val) * W;
  (* shutil.which("ffmpeg") is not None *)
  which_ffmpeg : bool;
  (* subprocess.run(["ffmpeg", "-y", ...]): the return code or the exception,
     and the size of the file it leaves at its output path, if it writes one *)
  subprocess_ffmpeg : list pystr -> gmap pystr N -> W -> (result Z * option N) * W;
  (* subprocess.run(["ffprobe", ...]).stdout *)
  subprocess_ffprobe : pystr -> gmap pystr N -> W -> result pystr * W
}.

(** The state a run threads through: the database file, the regular files on
    disk (path to size in bytes), the world, the log records emitted (level
    and message template, oldest first) and the trace of external calls. *)
Record state := {
  st_db : Db.t;
  st_fs : gmap pystr N;
  st_world : W;
  st_log : list (level * pystr);
  st_calls : list event
}.

Definition with_db (d : Db.t) (s : state) : state :=
  {| st_db := d; st_fs := st_fs s; st_world := st_world s;
     st_log := st_log s; st_calls := st_calls s |}.

Definition with_fs (f : gmap pystr N) (s : state) : state :=
  {| st_db := st_db s; st_fs := f; st_world := st_world s;
     st_log := st_log s; st_calls := st_calls s |}.

Definition with_world (w : W) (s : state) : state :=
  {| st_db := st_db s; st_fs := st_fs s; st_world := w;
     st_log := st_log s; st_calls := st_calls s |}.

Definition with_log (l : list (level * pystr)) (s : state) : state :=
  {| st_db := st_db s; st_fs := st_fs s; st_world := st_world s;
     st_log := l; st_calls := st_calls s |}.

Definition with_calls (c : list event) (s : state) : state :=
  {| st_db := st_db s; st_fs := st_fs s; st_world := st_world s;
     st_log := st_log s; st_calls := c |}.

(** A computation: it returns or raises, and leaves a state either way. *)
Definition M (A : Type) : Type := state -> result A * state.

Definition ret {A} (a : A) : M A := fun s => (Ok a, s).

Definition raise {A} (e : exn) : M A := fun s => (Raise e, s).

Definition bind {A B} (m : M A) (k : A -> M B) : M B :=
  fun s =>
    match m s with
    | (Ok a, s') => k a s'
    | (Raise e, s') => (Raise e, s')
    end.

(** [try: m except Exception as exc: h exc] *)
Definition try_except {A} (m : M A) (h : exn -> M A) : M A :=
  fun s =>
    match m s with
    | (Ok a, s') => (Ok a, s')
    | (Raise e, s') => h e s'
    end.

(** [try: m finally: fin] *)
Definition try_finally {A} (m : M A) (fin : M unit) : M A :=
  fun s =>
    match m s with
    | (r, s') =>
        match fin s' with
        | (Ok _, s'') => (r, s'')
        | (Raise e, s'') => (Raise e, s'')
        end
    end.

(** A pure expression that may raise. *)
Definition lift {A} (r : result A) : M A := fun s => (r, s).

Definition get_state : M state := fun s => (Ok s, s).

(** An oracle that cannot fail, and one that can. *)
Definition ask {A} (o : W -> A * W) : M A :=
  fun s => let '(a, w) := o (st_world s) in (Ok a, with_world w s).

Definition call {A} (ev : event) (o : W -> result A * W) : M A :=
  fun s =>
    let '(r, w) := o (st_world s) in
    (r, with_calls (st_calls s ++ [ev]) (with_world w s)).

(** An external call that also sees the files on disk. *)
Definition call_with_fs {A} (ev : event) (o : gmap pystr N -> W -> result A * W) : M A :=
  fun s => call ev (o (st_fs s)) s.

(** [logger.<level>(msg, ...)]; the format arguments are dropped. *)
Definition log (l : level) (msg : pystr) : M unit :=
  fun s => (Ok tt, with_log (st_log s ++ [(l, msg)]) s).

Definition modify_db (f : Db.t -> Db.t) : M unit :=
  fun s => (Ok tt, with_db (f (st_db s)) s).

Definition modify_fs (f : gmap pystr N -> gmap pystr N) : M unit :=
  fun s => (Ok tt, with_fs (f (st_fs s)) s).

End World.

Arguments externals W : clear implicits.
Arguments state W : clear implicits.
Arguments M W A : clear implicits.

End Sys.

Export Sys.

Declare Scope pym_scope.
Delimit Scope pym_scope with pym.
Notation "x <- m ;; k" := (Sys.bind m (fun x => k))
  (at level 100, m at next level, right associativity) : pym_scope.
Notation "m ;; k" := (Sys.bind m (fun _ => k))
  (at level 100, right associativity) : pym_scope.

(** [for x in l: body x], with the loop-carried variables in [acc]. *)
Fixpoint for_each {W A Acc} (l : list A) (acc : Acc) (body : Acc -> A -> M W Acc) : M W Acc :=
  match l with
  | [] => ret acc
  | x :: l' => (acc' <- body acc x ;; for_each l' acc' body)%pym
  end.

Local Open Scope pym_scope.

(** [not x] for a value of type [str | None]. *)
Definition falsy (o : option pystr) : bool :=
  match o with
  | None => true
  | Some [] => true
  | Some (_ :: _) => false
  end.

(** A method of [str] called on a value that may be anything. *)
Definition as_str (v : val) : result pystr :=
  match v with
  | VStr s => Ok s
  | _ => Raise AttributeError
  end.

(** A method of [dict] called on a value that may be anything. *)
Definition as_dict (v : val) : result (list (pystr * val)) :=
  match v with
  | VDict d => Ok d
  | _ => Raise AttributeError
  end.

(* ===================================================================== *)
(** * utils/file_manager.py                                               *)
(* ===================================================================== *)

Module FileManager.
Section Methods.
Context {W : Type} (L : Py.lib) (E : externals W).

Definition timestamped_name (prefix ext : pystr) : M W pystr :=
  ts <- ask (clock_now E) ;;
  ret (prefix ++ py "_" ++ strftime_stamp L ts ++ py "." ++ ext).

(** The file written holds the ASCII text [json.dump] produces. *)
Definition save_json (data : val) (directory prefix : pystr) : M W pystr :=
  ts <- ask (clock_now E) ;;
  let path :=
    Config.path_join directory (prefix ++ py "_" ++ strftime_stamp L ts ++ py ".json") in
  modify_fs (<[path := N.of_nat (length (json_dumps_indent L data))]>) ;;
  log DEBUG (py "Saved JSON: %s") ;;
  ret path.

Definition verify_file (path : pystr) (min_size : Z) : M W bool :=
  s <- get_state ;;
  match st_fs s !! path with
  | None =>
      log ERROR (py "File does not exist: %s") ;;
      ret false
  | Some size =>
      if (Z.of_N size <? min_size)%Z
      then log ERROR (py "File too small (%d bytes): %s") ;; ret false
      else ret true
  end.

(** [path.exists()] *)
Definition exists_ (path : pystr) : M W bool :=
  s <- get_state ;;
  ret (bool_decide (is_Some (st_fs s !! path))).

(** [shutil.copy2(src, dst)] *)
Definition copy2 (src dst : pystr) : M W unit :=
  s <- get_state ;;
  match st_fs s !! src with
  | None => raise FileNotFoundError
  | Some size =>
      if pystr_eqb src dst then raise SameFileError
      else modify_fs (<[dst := size]>)
  end.

(** [p] names an entry directly inside [dir]. *)
Definition in_dir (dir p : pystr) : bool :=
  let prefix := dir ++ py "/" in
  let name := drop (length prefix) p in
  startswith prefix p
  && negb (bool_decide (name = []))
  && forallb (fun c => negb (c =? 47)%N) name.

(** [for f in dir.iterdir(): if f.is_file(): f.unlink()] *)
Definition unlink_files_in (dir : pystr) : M W unit :=
  modify_fs (filter (fun kv => in_dir dir kv.1 = false)).

End Methods.
End FileManager.

(* ===================================================================== *)
(** * pipeline/video_editor.py                                            *)
(* ===================================================================== *)

Module VideoEditor.

(** The wrapping loop of [add_captions]: one step per word, on the pair of
    the lines closed so far and the line being filled. *)
Definition wrap_step (st : list pystr * pystr) (word : pystr) : list pystr * pystr :=
  let '(lines, current_line) := st in
  if (len current_line + len word + 1 >? 40)%Z
  then (lines ++ [current_line], word)
  else (lines, strip (current_line ++ py " " ++ word)).

(** The value of [lines] when the loop and the final append are done. *)
Definition wrap_lines (caption_text : pystr) : list pystr :=
  let '(lines, current_line) := fold_left wrap_step (split caption_text) ([], []) in
  match current_line with
  | [] => lines
  | _ => lines ++ [current_line]
  end.

(** [text.replace("'", "’").replace(":", "\\:")] *)
Definition escape_drawtext (text : pystr) : pystr :=
  replace 58 [92; 58]%N (replace 39 [8217%N] text).

Definition scale_pad : pystr :=
  py "scale=1080:1920:force_original_aspect_ratio=decrease,pad=1080:1920:(ow-iw)/2:(oh-ih)/2".

Section Methods.
Context {W : Type} (L : Py.lib) (E : externals W) (cfg : Config.t).

Record t := { ffmpeg_ok : bool }.

Definition _check_ffmpeg : M W bool :=
  if which_ffmpeg E then ret true
  else log ERROR (py "ffmpeg not found. Install it") ;; ret false.

Definition __init__ : M W t :=
  ok <- _check_ffmpeg ;;
  ret {| ffmpeg_ok := ok |}.

(** [subprocess.run(cmd, capture_output=True, text=True, timeout=300)] for an
    ffmpeg command line, whose last word is the output path. *)
Definition subprocess_run_ffmpeg (cmd : list pystr) : M W Z :=
  fun s =>
    let '((r, written), w) := subprocess_ffmpeg E cmd (st_fs s) (st_world s) in
    let fs' :=
      match written, last cmd with
      | Some size, Some out => <[out := size]> (st_fs s)
      | _, _ => st_fs s
      end in
    (r, with_calls (st_calls s ++ [EvFfmpeg cmd]) (with_world w (with_fs fs' s))).

Definition _run_ffmpeg (self : t) (args : list pystr) : M W bool :=
  if negb (ffmpeg_ok self)
  then log ERROR (py "ffmpeg is not installed - cannot process video") ;; ret false
  else
    let cmd := [py "ffmpeg"; py "-y"] ++ args in
    log DEBUG (py "Running: %s") ;;
    try_except
      (returncode <- subprocess_run_ffmpeg cmd ;;
       if negb (returncode =? 0)%Z
       then log ERROR (py "ffmpeg error: %s") ;; ret false
       else ret true)
      (fun exc =>
         if is_timeout_expired exc
         then log ERROR (py "ffmpeg timed out after 300s") ;; ret false
         else log ERROR (py "ffmpeg execution failed: %s") ;; ret false).

Definition _get_duration (self : t) (file_path : pystr) : M W (float L) :=
  try_except
    (stdout <- call_with_fs (EvFfprobe file_path) (subprocess_ffprobe E file_path) ;;
     lift (float_of_str L (strip stdout)))
    (fun exc => log ERROR (py "ffprobe failed for %s: %s") ;; ret (float_zero L)).

(** [if self._run_ffmpeg(args) and FileManager.verify_file(Path(output_path)):
     logger.info(done, output_path); return output_path] and then
    [return None]: the end the three ffmpeg passes share. *)
Definition run_and_verify (self : t) (args : list pystr) (output_path done : pystr)
    : M W (option pystr) :=
  ran <- _run_ffmpeg self args ;;
  ok <- (if ran then FileManager.verify_file output_path 1 else ret false) ;;
  if ok
  then log INFO done ;; ret (Some output_path)
  else ret None.

Definition add_audio_to_video (self : t) (video_path audio_path output_path : pystr)
    : M W (option pystr) :=
  v_dur <- _get_duration self video_path ;;
  a_dur <- _get_duration self audio_path ;;
  if float_le L v_dur (float_zero L) || float_le L a_dur (float_zero L)
  then
    log ERROR (py "Could not determine media durations (video=%.1f, audio=%.1f)") ;;
    ret None
  else
    let args :=
      if float_lt L v_dur a_dur
      then [py "-stream_loop"; py "-1"; py "-i"; video_path;
            py "-i"; audio_path;
            py "-t"; str_of_float L a_dur;
            py "-vf"; scale_pad;
            py "-c:v"; py "libx264"; py "-preset"; py "fast"; py "-crf"; py "23";
            py "-c:a"; py "aac"; py "-b:a"; py "192k";
            py "-shortest";
            output_path]
      else [py "-i"; video_path;
            py "-i"; audio_path;
            py "-t"; str_of_float L a_dur;
            py "-vf"; scale_pad;
            py "-c:v"; py "libx264"; py "-preset"; py "fast"; py "-crf"; py "23";
            py "-c:a"; py "aac"; py "-b:a"; py "192k";
            py "-map"; py "0:v:0"; py "-map"; py "1:a:0";
            output_path] in
    run_and_verify self args output_path (py "Audio merged: %s").

Definition add_captions (self : t) (video_path : pystr) (caption_text : val)
    (output_path : pystr) : M W (option pystr) :=
  text <- lift (as_str caption_text) ;;
  let lines := wrap_lines text in
  let wrapped := join [92; 110]%N lines in
  let safe_text := escape_drawtext wrapped in
  let args :=
    [py "-i"; video_path;
     py "-vf";
     py "drawtext=text='" ++ safe_text ++ py "'"
       ++ py ":fontsize=36:fontcolor=white"
       ++ py ":borderw=2:bordercolor=black"
       ++ py ":x=(w-text_w)/2:y=h*0.80";
     py "-c:v"; py "libx264"; py "-preset"; py "fast"; py "-crf"; py "23";
     py "-c:a"; py "copy";
     output_path] in
  run_and_verify self args output_path (py "Captions added: %s").

Definition add_intro_card (self : t) (video_path : pystr) (hook_text : val)
    (output_path : pystr) : M W (option pystr) :=
  text <- lift (as_str hook_text) ;;
  let safe_text := escape_drawtext text in
  let filter_complex :=
    py "color=c=black:s=1080x1920:d=2:r=24[bg];"
    ++ py "[bg]drawtext=text='" ++ safe_text ++ py "'"
    ++ py ":fontsize=48:fontcolor=white"
    ++ py ":x=(w-text_w)/2:y=(h-text_h)/2"
    ++ py ",fade=t=in:st=0:d=0.5"
    ++ py ",fade=t=out:st=1.5:d=0.5[intro];"
    ++ py "[0:v]scale=1080:1920:force_original_aspect_ratio=decrease,"
    ++ py "pad=1080:1920:(ow-iw)/2:(oh-ih)/2[main];"
    ++ py "[intro][main]concat=n=2:v=1:a=0[outv]" in
  let args :=
    [py "-i"; video_path;
     py "-filter_complex"; filter_complex;
     py "-map"; py "[outv]";
     py "-c:v"; py "libx264"; py "-preset"; py "fast"; py "-crf"; py "23";
     py "-an";
     output_path] in
  run_and_verify self args output_path (py "Intro card added: %s").

Definition temp_dir : pystr := Config.path_join (Config.OUTPUTS_DIR cfg) (py "temp").

(** The body of the [try] block of [compose_final]. *)
Definition compose_steps (self : t) (video_path audio_path : pystr) (caption hook : val)
    (output_path : pystr) : M W (option pystr) :=
  (* Step 1: intro card *)
  let intro_path := Config.path_join temp_dir (py "step1_intro.mp4") in
  result <- add_intro_card self video_path hook intro_path ;;
  intro_path <-
    (if falsy result
     then log WARNING (py "Intro card failed, continuing without it") ;; ret video_path
     else ret intro_path) ;;
  (* Step 2: merge audio *)
  let merged_path := Config.path_join temp_dir (py "step2_merged.mp4") in
  result <- add_audio_to_video self intro_path audio_path merged_path ;;
  merged_path <-
    (if falsy result
     then log WARNING (py "Audio merge failed, continuing with video only") ;; ret intro_path
     else ret merged_path) ;;
  (* Step 3: burn captions *)
  result <- add_captions self merged_path caption output_path ;;
  (if falsy result
   then log WARNING (py "Caption burn failed, using merged video as final") ;;
        FileManager.copy2 merged_path output_path
   else ret tt) ;;
  ok <- FileManager.verify_file output_path 1 ;;
  if ok
  then log INFO (py "Final video composed: %s") ;; ret (Some output_path)
  else ret None.

(** The output path [compose_final] writes to: the one it is given, or a
    timestamped name in the directory of final videos. *)
Definition default_output_path (output_path : option pystr) : M W pystr :=
  if falsy output_path
  then filename <- FileManager.timestamped_name L E (py "final") (py "mp4") ;;
       ret (Config.path_join (Config.FINAL_DIR cfg) filename)
  else ret (default [] output_path).

Definition compose_final (self : t) (video_path audio_path : pystr) (caption hook : val)
    (output_path : option pystr) : M W (option pystr) :=
  output_path <- default_output_path output_path ;;
  try_finally
    (try_except
       (compose_steps self video_path audio_path caption hook output_path)
       (fun exc => log ERROR (py "Video composition failed: %s") ;; ret None))
    (FileManager.unlink_files_in temp_dir).

End Methods.
End VideoEditor.

(* ===================================================================== *)
(** * database.py: the methods                                            *)
(* ===================================================================== *)

Module Database.
Section Methods.
Context {W : Type} (L : Py.lib) (E : externals W).

(** What sqlite3 stores in a TEXT column for a bound parameter: NULL for
    [None], the text itself, the decimal text of an integer; containers
    cannot be bound. *)
Definition sql_bind (v : val) : result (option pystr) :=
  match v with
  | VNone => Ok None
  | VStr s => Ok (Some s)
  | VInt z => Ok (Some (str_of_val L (VInt z)))
  | VBool b => Ok (Some (str_of_val L (VInt (if b then 1 else 0))))
  | VList _ | VDict _ => Raise (OtherError (py "sqlite3.ProgrammingError"))
  end.

Fixpoint sql_bind_fields (fields : list (Db.Column * val))
    : result (list (Db.Column * option pystr)) :=
  match fields with
  | [] => Ok []
  | (c, v) :: rest =>
      match sql_bind v with
      | Raise e => Raise e
      | Ok b =>
          match sql_bind_fields rest with
          | Raise e => Raise e
          | Ok bs => Ok ((c, b) :: bs)
          end
      end
  end.

Definition add_content (source_url topic : val) (script : pystr) (caption : val)
    : M W Z :=
  su <- lift (sql_bind source_url) ;;
  tp <- lift (sql_bind topic) ;;
  cp <- lift (sql_bind caption) ;;
  now <- ask (clock_now E) ;;
  s <- get_state ;;
  let '(id, d) := Db.insert_content su tp (Some script) cp now (st_db s) in
  modify_db (fun _ => d) ;;
  let row_id := if (id =? 0)%Z then 0%Z else id in
  log DEBUG (py "Added content id=%d topic=%s") ;;
  ret row_id.

Definition update_content_status (content_id : Z) (status : Db.Status)
    (fields : list (Db.Column * val)) : M W unit :=
  now <- ask (clock_now E) ;;
  params <- lift (sql_bind_fields fields) ;;
  modify_db (Db.update_row content_id status now params) ;;
  log DEBUG (py "Updated content id=%d status=%s").

Definition get_content (content_id : Z) : M W (option Db.Row) :=
  s <- get_state ;;
  ret (Db.content_queue (st_db s) !! content_id).

Definition log_post (content_id : Z) (platform : pystr) (post_id : val) (status : pystr)
    : M W unit :=
  now <- ask (clock_now E) ;;
  pid <- lift (sql_bind post_id) ;;
  modify_db (Db.insert_post_log
               {| Db.pl_content_id := content_id; Db.pl_platform := platform;
                  Db.pl_post_id := pid; Db.pl_status := status;
                  Db.pl_posted_at := now |}).

End Methods.
End Database.

(** A column read out of [dict(row)]: NULL is [None]. *)
Definition of_column (c : option pystr) : val :=
  match c with
  | None => VNone
  | Some s => VStr s
  end.

(** [for x in l: results.append(f x)], where [f] may raise. *)
Fixpoint map_m {W A B} (f : A -> M W B) (l : list A) : M W (list B) :=
  match l with
  | [] => ret []
  | x :: l' => (y <- f x ;; ys <- map_m f l' ;; ret (y :: ys))%pym
  end.

(* ===================================================================== *)
(** * pipeline/scraper.py                                                 *)
(* ===================================================================== *)

Module ApifyScraper.

Definition TIKTOK_SEARCH_TERMS : list pystr :=
  [py "make money online"; py "sales tips"; py "business automation";
   py "AI tools"; py "entrepreneur mindset"].

Definition INSTAGRAM_HASHTAGS : list pystr :=
  [py "businesstips"; py "salesautomation"; py "entrepreneurship";
   py "aitools"; py "makemoney"].

(** An operand of [+], [max] and [/]: an integer, [True] and [False] being 1
    and 0.  JSON numbers are integers in this model. *)
Definition as_int (v : val) : result Z :=
  match v with
  | VInt z => Ok z
  | VBool b => Ok (if b then 1 else 0)%Z
  | _ => Raise TypeError
  end.

Section Methods.
Context {W : Type} (L : Py.lib) (E : externals W) (cfg : Config.t).

(** The instance holds the client built from the token. *)
Record t := { client : pystr }.

Definition __init__ : M W t :=
  match Config.APIFY_API_TOKEN cfg with
  | [] => raise (ValueError (py "APIFY_API_TOKEN is not set in .env"))
  | token => ret {| client := token |}
  end.

Definition _run_actor (self : t) (actor_id : pystr) (run_input : val) (timeout : Z)
    : M W (list val) :=
  log INFO (py "Starting Apify actor %s") ;;
  run <- call (EvApifyActor actor_id run_input)
              (apify_actor_call E actor_id run_input timeout) ;;
  if negb (truthy run)
  then log ERROR (py "Actor %s returned no run object") ;; ret []
  else
    dataset_id <- lift (getitem run (py "defaultDatasetId")) ;;
    items <- call (EvApifyDataset dataset_id) (apify_dataset_items E dataset_id) ;;
    log INFO (py "Actor %s returned %d items") ;;
    ret items.

Definition _engagement_score (item : list (pystr * val)) : result (float L) :=
  let likes := or_else (get item (py "likes") (VInt 0)) (VInt 0) in
  let shares := or_else (get item (py "shares") (VInt 0)) (VInt 0) in
  let views := or_else (get item (py "views") (VInt 1)) (VInt 1) in
  match as_int likes, as_int shares, as_int views with
  | Ok l, Ok s, Ok v => truediv L (l + s) (Z.max v 1)
  | _, _, _ => Raise TypeError
  end.

Definition tiktok_item (raw : val) : result (list (pystr * val)) :=
  match as_dict raw with
  | Raise e => Raise e
  | Ok item =>
      match as_dict (get item (py "authorMeta") (VDict [])) with
      | Raise e => Raise e
      | Ok meta =>
          Ok [(py "url", get item (py "webVideoUrl") (get item (py "url") (VStr [])));
              (py "description", get item (py "text") (get item (py "desc") (VStr [])));
              (py "likes", get item (py "diggCount") (get item (py "likes") (VInt 0)));
              (py "shares", get item (py "shareCount") (get item (py "shares") (VInt 0)));
              (py "views", get item (py "playCount") (get item (py "views") (VInt 0)));
              (py "author", get meta (py "name") (get item (py "author") (VStr [])));
              (py "platform", VStr (py "tiktok"))]
      end
  end.

Definition instagram_item (raw : val) : result (list (pystr * val)) :=
  match as_dict raw with
  | Raise e => Raise e
  | Ok item =>
      Ok [(py "url", get item (py "url") (VStr []));
          (py "description", get item (py "caption") (get item (py "text") (VStr [])));
          (py "likes", get item (py "likesCount") (get item (py "likes") (VInt 0)));
          (py "shares", get item (py "sharesCount") (get item (py "shares") (VInt 0)));
          (py "views", get item (py "videoViewCount") (get item (py "views") (VInt 0)));
          (py "author", get item (py "ownerUsername") (get item (py "author") (VStr [])));
          (py "platform", VStr (py "instagram"))]
  end.

Definition youtube_item (raw : val) : result (list (pystr * val)) :=
  match as_dict raw with
  | Raise e => Raise e
  | Ok item =>
      Ok [(py "url", get item (py "url") (VStr []));
          (py "description", get item (py "title") (get item (py "description") (VStr [])));
          (py "likes", get item (py "likes") (VInt 0));
          (py "shares", get item (py "shares") (VInt 0));
          (py "views", get item (py "viewCount") (get item (py "views") (VInt 0)));
          (py "author", get item (py "channelName") (get item (py "author") (VStr [])));
          (py "platform", VStr (py "youtube"))]
  end.

(** The shape the three scrapers share: run the actor inside [try], return
    [[]] from the handler, otherwise normalise every item and dump the list. *)
Definition scrape (self : t) (actor_id : pystr) (run_input : val) (failed : pystr)
    (normalise : val -> result (list (pystr * val))) (prefix : pystr)
    : M W (list (list (pystr * val))) :=
  raw <- try_except
           (items <- _run_actor self actor_id run_input 60 ;; ret (Some items))
           (fun exc => log ERROR failed ;; ret None) ;;
  match raw with
  | None => ret []
  | Some raw =>
      results <- map_m (fun item => lift (normalise item)) raw ;;
      FileManager.save_json L E (VList (map VDict results)) (Config.LOGS_DIR cfg) prefix ;;
      ret results
  end.

Definition scrape_viral_tiktok (self : t) (count : Z) : M W (list (list (pystr * val))) :=
  search_term <- ask (random_choice E TIKTOK_SEARCH_TERMS) ;;
  let run_input :=
    VDict [(py "resultsPerPage", VInt count);
           (py "searchSection", VStr (py "videos"));
           (py "maxProfilesPerQuery", VInt 5);
           (py "searchQueries", VList [VStr search_term])] in
  scrape self (py "clockworks/free-tiktok-scraper") run_input
         (py "TikTok scrape failed: %s") tiktok_item (py "scrape_tiktok").

Definition scrape_viral_instagram (self : t) (count : Z) : M W (list (list (pystr * val))) :=
  hashtag <- ask (random_choice E INSTAGRAM_HASHTAGS) ;;
  let run_input :=
    VDict [(py "hashtags", VList [VStr hashtag]);
           (py "resultsLimit", VInt count)] in
  scrape self (py "apify/instagram-hashtag-scraper") run_input
         (py "Instagram scrape failed: %s") instagram_item (py "scrape_instagram").

Definition scrape_viral_youtube (self : t) (count : Z) : M W (list (list (pystr * val))) :=
  search_term <- ask (random_choice E TIKTOK_SEARCH_TERMS) ;;
  let run_input :=
    VDict [(py "searchKeywords", VStr search_term);
           (py "maxResults", VInt count)] in
  scrape self (py "streamers/youtube-scraper") run_input
         (py "YouTube scrape failed: %s") youtube_item (py "scrape_youtube").

(** The key of every item, computed before any comparison is made. *)
Fixpoint decorate (items : list (list (pystr * val)))
    : result (list (float L * list (pystr * val))) :=
  match items with
  | [] => Ok []
  | item :: rest =>
      match _engagement_score item with
      | Raise e => Raise e
      | Ok k =>
          match decorate rest with
          | Raise e => Raise e
          | Ok ks => Ok ((k, item) :: ks)
          end
      end
  end.

(** [all_content.sort(key=self._engagement_score, reverse=True)] *)
Definition sort_by_engagement (all_content : list (list (pystr * val)))
    : result (list (list (pystr * val))) :=
  match decorate all_content with
  | Raise e => Raise e
  | Ok keyed => Ok (map snd (list_sort (float_lt L) true keyed))
  end.

Definition get_top_content (self : t) (count : Z) : M W (list (list (pystr * val))) :=
  log INFO (py "Starting content discovery across all platforms") ;;
  tiktok <- scrape_viral_tiktok self 10 ;;
  instagram <- scrape_viral_instagram self 10 ;;
  youtube <- scrape_viral_youtube self 5 ;;
  let all_content := tiktok ++ instagram ++ youtube in
  match all_content with
  | [] => log WARNING (py "No content scraped from any platform") ;; ret []
  | _ =>
      all_content <- lift (sort_by_engagement all_content) ;;
      let top := slice_to count all_content in
      FileManager.save_json L E (VList (map VDict top)) (Config.LOGS_DIR cfg) (py "scrape_top") ;;
      log INFO (py "Returning top %d items from %d total") ;;
      ret top
  end.

End Methods.
End ApifyScraper.

(* ===================================================================== *)
(** * pipeline/analyzer.py                                                *)
(* ===================================================================== *)

Module GeminiAnalyzer.

Definition nl : pystr := [10%N].

(** [ANALYSIS_PROMPT.format(description=..., platform=..., likes=..., views=...,
    shares=...)] *)
Definition analysis_prompt (L : Py.lib) (description platform likes views shares : val)
    : pystr :=
  py "Analyze this viral social media content and extract:" ++ nl
  ++ py "1. Main hook (first 3 seconds concept)" ++ nl
  ++ py "2. Core topic/theme" ++ nl
  ++ py "3. Target audience" ++ nl
  ++ py "4. Emotional trigger used (curiosity, fear, desire, etc.)" ++ nl
  ++ py "5. Content structure (problem-solution, list, story, etc.)" ++ nl
  ++ py "6. Suggested script for a 60-second video on this topic" ++ nl
  ++ py "7. Suggested caption with 5 hashtags" ++ nl
  ++ nl
  ++ py "Content: " ++ str_of_val L description ++ nl
  ++ py "Platform: " ++ str_of_val L platform ++ nl
  ++ py "Engagement metrics: " ++ str_of_val L likes ++ py " likes, "
  ++ str_of_val L views ++ py " views, " ++ str_of_val L shares ++ py " shares" ++ nl
  ++ nl
  ++ py "Respond in JSON format with keys: hook, topic, audience, emotion, structure, script, caption".

Definition fence : pystr := py "```".

Section Methods.
Context {W : Type} (L : Py.lib) (E : externals W) (cfg : Config.t).

Record t := { model : pystr }.

Definition __init__ : M W t :=
  match Config.GEMINI_API_KEY cfg with
  | [] => raise (ValueError (py "GEMINI_API_KEY is not set in .env"))
  | _ => ret {| model := py "gemini-1.5-flash" |}
  end.

(** The two handlers of [_call_gemini] read the local [text].  When the call
    to the model itself raises, [text] is not bound yet: the handler for
    [JSONDecodeError] then fails on it after logging its warning. *)
Definition _call_gemini (self : t) (prompt : pystr) : M W val :=
  response <- try_except
                (text <- call (EvGemini prompt) (gemini_generate_content E prompt) ;;
                 ret (inl text))
                (fun exc => ret (inr exc)) ;;
  match response with
  | inr exc =>
      if is_json_decode_error exc
      then log WARNING (py "Gemini response was not valid JSON, wrapping as raw text") ;;
           raise UnboundLocalError
      else log ERROR (py "Gemini API call failed: %s") ;; ret (VDict [])
  | inl text =>
      let text := strip text in
      let text :=
        if startswith fence text
        then join nl (filter (fun l => startswith fence (strip l) = false) (split_on 10 text))
        else text in
      match json_loads L text with
      | Ok v => ret v
      | Raise exc =>
          if is_json_decode_error exc
          then log WARNING (py "Gemini response was not valid JSON, wrapping as raw text") ;;
               ret (VDict [(py "raw_response", VStr text)])
          else log ERROR (py "Gemini API call failed: %s") ;; ret (VDict [])
      end
  end.

Definition analyze_item (self : t) (item : list (pystr * val)) : M W (option val) :=
  log INFO (py "Analyzing item %d/%d: %s") ;;
  let prompt :=
    analysis_prompt L
      (get item (py "description") (VStr []))
      (get item (py "platform") (VStr (py "unknown")))
      (get item (py "likes") (VInt 0))
      (get item (py "views") (VInt 0))
      (get item (py "shares") (VInt 0)) in
  analysis <- _call_gemini self prompt ;;
  if truthy analysis
  then
    analysis <- lift (setitem_val analysis (py "source_url") (get item (py "url") (VStr []))) ;;
    analysis <- lift (setitem_val analysis (py "platform")
                        (get item (py "platform") (VStr (py "unknown")))) ;;
    ret (Some analysis)
  else ret None.

(** The 2-second pause between calls takes no part in the model. *)
Definition analyze_content (self : t) (content_list : list (list (pystr * val)))
    : M W (list val) :=
  results <- for_each content_list []
               (fun results item =>
                  r <- analyze_item self item ;;
                  match r with
                  | Some analysis => ret (results ++ [analysis])
                  | None => ret results
                  end) ;;
  log INFO (py "Analyzed %d/%d items successfully") ;;
  ret results.

End Methods.
End GeminiAnalyzer.

(** Bytes streamed into the file at [path]: nothing is written when the call
    fails before the file is opened; otherwise the file holds what arrived,
    also when the stream breaks. *)
Definition write_stream {W} (ev : event) (o : W -> stream * W) (path : pystr) : M W unit :=
  fun s =>
    let '(r, w) := o (st_world s) in
    let s1 := with_calls (st_calls s ++ [ev]) (with_world w s) in
    match r with
    | Raise e => (Raise e, s1)
    | Ok (size, None) => (Ok tt, with_fs (<[path := size]> (st_fs s1)) s1)
    | Ok (size, Some e) => (Raise e, with_fs (<[path := size]> (st_fs s1)) s1)
    end.

(* ===================================================================== *)
(** * pipeline/video_generator.py                                         *)
(* ===================================================================== *)

Module HiggsFieldGenerator.
Section Methods.
Context {W : Type} (L : Py.lib) (E : externals W) (cfg : Config.t).

Record t := {
  base_url : pystr;
  api_key : pystr;
  api_secret : pystr
}.

Definition __init__ : M W t :=
  let self := {| base_url := Config.HIGGSFIELD_BASE_URL;
                 api_key := Config.HIGGSFIELD_API_KEY cfg;
                 api_secret := Config.HIGGSFIELD_API_SECRET cfg |} in
  match api_key self with
  | [] =>
      log WARNING (py "HIGGSFIELD_API_KEY is not set - video generation will be skipped") ;;
      ret self
  | _ => ret self
  end.

Definition _headers (self : t) : val :=
  VDict [(py "Authorization", VStr (py "Bearer " ++ api_key self));
         (py "Content-Type", VStr (py "application/json"))].

(** One round of the polling loop: [Some r] when the loop returns [r],
    [None] when it goes on to sleep and poll again. *)
Definition poll_once (self : t) (url status_key done_value : pystr)
    : M W (option (option val)) :=
  try_except
    (data <- call (EvGetJson url (_headers self)) (requests_get_json E url (_headers self)) ;;
     d <- lift (as_dict data) ;;
     let current := get d status_key (VStr (py "unknown")) in
     log DEBUG (py "Poll %d/%d - status: %s") ;;
     if is_str current done_value || is_str current (py "ready")
     then ret (Some (Some data))
     else if is_str current (py "failed") || is_str current (py "error")
     then log ERROR (py "Polling returned failure status: %s") ;; ret (Some None)
     else ret None)
    (fun exc => log WARNING (py "Poll request failed: %s") ;; ret None).

(** [for attempt in range(max_polls)]; the sleep between polls takes no part
    in the model. *)
Fixpoint _poll_status (self : t) (url status_key done_value : pystr) (max_polls : nat)
    : M W (option val) :=
  match max_polls with
  | O => log ERROR (py "Polling timed out after %d attempts") ;; ret None
  | S n =>
      r <- poll_once self url status_key done_value ;;
      match r with
      | Some result => ret result
      | None => _poll_status self url status_key done_value n
      end
  end.

Definition _download_file (url : val) (output_path : pystr) : M W unit :=
  match url with
  | VStr u => write_stream (EvDownload u) (requests_get_stream E u) output_path
  | _ => raise (OtherError (py "requests.exceptions.MissingSchema"))
  end.

(** The body of the [try] block of [generate_video]. *)
Definition generate_video_request (self : t) (payload : val) : M W (option pystr) :=
  let url := base_url self ++ py "/v1/generations" in
  data <- call (EvPostJson url (_headers self) payload)
               (requests_post_json E url (_headers self) payload) ;;
  d <- lift (as_dict data) ;;
  let generation_id := get d (py "generation_id") (get d (py "id") (VStr [])) in
  if negb (truthy generation_id)
  then log ERROR (py "No generation_id in response: %s") ;; ret None
  else
    let poll_url := base_url self ++ py "/v1/generations/" ++ str_of_val L generation_id in
    result <- _poll_status self poll_url (py "status") (py "completed") 20 ;;
    match result with
    | None => log ERROR (py "Video generation timed out for id=%s") ;; ret None
    | Some result =>
        if negb (truthy result)
        then log ERROR (py "Video generation timed out for id=%s") ;; ret None
        else
          r <- lift (as_dict result) ;;
          output <- lift (as_dict (get r (py "output") (VDict []))) ;;
          let video_url := get r (py "video_url") (get output (py "url") (VStr [])) in
          if negb (truthy video_url)
          then log ERROR (py "No video URL in completed generation: %s") ;; ret None
          else
            let output_path :=
              Config.path_join (Config.VIDEOS_DIR cfg)
                               (str_of_val L generation_id ++ py ".mp4") in
            _download_file video_url output_path ;;
            ok <- FileManager.verify_file output_path 1 ;;
            if ok
            then log INFO (py "Video downloaded: %s") ;; ret (Some output_path)
            else ret None
    end.

(** [duration] and [motion_intensity] keep their defaults, 15 and 0.7; the
    float, which [val] has no constructor for, is written as its literal. *)
Definition generate_video (self : t) (prompt : val) (soul_id : pystr)
    : M W (option pystr) :=
  match api_key self with
  | [] => log ERROR (py "Cannot generate video: HIGGSFIELD_API_KEY not set") ;; ret None
  | _ =>
      let payload :=
        VDict [(py "soul_id", VStr soul_id);
               (py "prompt", prompt);
               (py "duration", VInt 15);
               (py "fps", VInt 24);
               (py "motion_intensity", VStr (py "0.7"));
               (py "aspect_ratio", VStr (py "9:16"))] in
      try_except
        (generate_video_request self payload)
        (fun exc => log ERROR (py "Video generation failed: %s") ;; ret None)
  end.

End Methods.
End HiggsFieldGenerator.

(* ===================================================================== *)
(** * pipeline/voice_synthesizer.py                                       *)
(* ===================================================================== *)

Module ElevenLabsVoice.
Section Methods.
Context {W : Type} (L : Py.lib) (E : externals W) (cfg : Config.t).

(** [client] is [None] when no key is configured. *)
Record t := {
  api_key : pystr;
  client : option pystr
}.

Definition __init__ : M W t :=
  match Config.ELEVENLABS_API_KEY cfg with
  | [] =>
      log WARNING (py "ELEVENLABS_API_KEY not set - voice synthesis will be skipped") ;;
      ret {| api_key := []; client := None |}
  | key => ret {| api_key := key; client := Some key |}
  end.

Definition _resolve_voice_id (self : t) (voice_id : val) : M W val :=
  if truthy voice_id then ret voice_id
  else
    match Config.ELEVENLABS_VOICE_ID cfg with
    | _ :: _ => ret (VStr (Config.ELEVENLABS_VOICE_ID cfg))
    | [] =>
        match client self with
        | None => ret VNone
        | Some _ =>
            try_except
              (voice_list <- call EvVoicesGetAll (voices_get_all E) ;;
               match voice_list with
               | fallback_id :: _ =>
                   log INFO (py "Using fallback voice: %s") ;; ret fallback_id
               | [] => ret VNone
               end)
              (fun exc => log ERROR (py "Failed to list voices: %s") ;; ret VNone)
        end
    end.

Definition synthesize (self : t) (text : val) (voice_id : val) (output_path : option pystr)
    : M W (option pystr) :=
  match client self with
  | None =>
      log ERROR (py "Cannot synthesize: ElevenLabs client not initialized") ;; ret None
  | Some _ =>
      resolved_id <- _resolve_voice_id self voice_id ;;
      if negb (truthy resolved_id)
      then log ERROR (py "No voice ID available for synthesis") ;; ret None
      else
        output_path <-
          (if falsy output_path
           then filename <- FileManager.timestamped_name L E (py "voice") (py "mp3") ;;
                ret (Config.path_join (Config.AUDIO_DIR cfg) filename)
           else ret (default [] output_path)) ;;
        try_except
          (write_stream (EvTextToSpeech resolved_id text)
                        (text_to_speech_convert E resolved_id text) output_path ;;
           ok <- FileManager.verify_file output_path 1 ;;
           if ok
           then log INFO (py "Synthesized audio saved: %s") ;; ret (Some output_path)
           else ret None)
          (fun exc => log ERROR (py "Speech synthesis failed: %s") ;; ret None)
  end.

(** [" ".join(p for p in parts if p)]: a truthy part that is no string
    makes [join] raise. *)
Fixpoint join_truthy (parts : list val) : result (list pystr) :=
  match parts with
  | [] => Ok []
  | p :: rest =>
      if truthy p
      then match p, join_truthy rest with
           | VStr s, Ok ss => Ok (s :: ss)
           | VStr _, Raise e => Raise e
           | _, _ => Raise TypeError
           end
      else join_truthy rest
  end.

Definition synthesize_script (self : t) (script_dict : val) (voice_id : val)
    : M W (option pystr) :=
  d <- lift (as_dict script_dict) ;;
  let full_script := get d (py "full_script") (VStr []) in
  full_script <-
    (if negb (truthy full_script)
     then
       let parts := [get d (py "hook") (VStr []);
                     get d (py "body") (VStr []);
                     get d (py "cta") (VStr [])] in
       words <- lift (join_truthy parts) ;;
       ret (VStr (join (py " ") words))
     else ret full_script) ;;
  if negb (truthy full_script)
  then log ERROR (py "No script text to synthesize") ;; ret None
  else synthesize self full_script voice_id None.

End Methods.
End ElevenLabsVoice.

(* ===================================================================== *)
(** * pipeline/scheduler.py                                               *)
(* ===================================================================== *)

Module BlatoScheduler.

Definition hours : list Z := [9; 13; 18]%Z.

(** Lines 165-171 of [schedule_batch]: the date and hour of item [i]. *)
Definition schedule_dt (now : datetime) (posts_per_day i : Z) : result datetime :=
  match floordiv i posts_per_day with
  | Raise e => Raise e
  | Ok day_offset =>
      match pymod i posts_per_day with
      | Raise e => Raise e
      | Ok slot_in_day =>
          match getitem_list hours (slot_in_day mod Z.of_nat (length hours))%Z with
          | Raise e => Raise e
          | Ok hour => Ok (replace_time (add_days now (day_offset + 1)%Z) hour)
          end
      end
  end.

Section Methods.
Context {W : Type} (L : Py.lib) (E : externals W) (cfg : Config.t).

Record t := {
  base_url : pystr;
  api_key : pystr
}.

Definition __init__ : M W t :=
  let self := {| base_url := Config.BLOTATO_BASE_URL;
                 api_key := Config.BLOTATO_API_KEY cfg |} in
  match api_key self with
  | [] => log WARNING (py "BLOTATO_API_KEY not set - scheduling will be skipped") ;; ret self
  | _ => ret self
  end.

Definition _headers (self : t) : val :=
  VDict [(py "x-api-key", VStr (api_key self))].

(** [upload_media] returns the media id, or [None]. *)
Definition upload_media (self : t) (file_path : pystr) : M W val :=
  match api_key self with
  | [] => log ERROR (py "Cannot upload: BLOTATO_API_KEY not set") ;; ret VNone
  | _ =>
      let url := base_url self ++ py "/v2/media/upload" in
      try_except
        (present <- FileManager.exists_ file_path ;;
         if negb present then raise FileNotFoundError
         else
           data <- call (EvPostFile url (_headers self) file_path)
                        (requests_post_file E url (_headers self) file_path) ;;
           d <- lift (as_dict data) ;;
           let media_id := get d (py "media_id") (get d (py "id") (VStr [])) in
           if truthy media_id
           then log INFO (py "Uploaded media: %s -> %s") ;; ret media_id
           else log ERROR (py "No media_id in upload response: %s") ;; ret VNone)
        (fun exc => log ERROR (py "Media upload failed for %s: %s") ;; ret VNone)
  end.

(** The JSON body [schedule_post] sends. *)
Definition post_body (media_id caption : val) (platforms : list pystr)
    (schedule_time : option pystr) : val :=
  let body :=
    [(py "platforms", VList (map VStr platforms));
     (py "media_ids", VList [media_id]);
     (py "caption", caption)] in
  VDict (if falsy schedule_time
         then setitem (py "schedule") (VStr (py "next_free_slot")) body
         else setitem (py "schedule_time") (VStr (default [] schedule_time)) body).

(** [{**self._headers(), "Content-Type": "application/json"}] *)
Definition post_headers (self : t) : val :=
  VDict [(py "x-api-key", VStr (api_key self));
         (py "Content-Type", VStr (py "application/json"))].

(** [schedule_post] returns the submission id, or [None]. *)
Definition schedule_post (self : t) (media_id caption : val) (platforms : list pystr)
    (schedule_time : option pystr) : M W val :=
  match api_key self with
  | [] => log ERROR (py "Cannot schedule: BLOTATO_API_KEY not set") ;; ret VNone
  | _ =>
      let url := base_url self ++ py "/v2/posts" in
      let body := post_body media_id caption platforms schedule_time in
      let headers := post_headers self in
      try_except
        (data <- call (EvPostJson url headers body)
                      (requests_post_json E url headers body) ;;
         d <- lift (as_dict data) ;;
         let submission_id := get d (py "post_submission_id") (get d (py "id") (VStr [])) in
         if truthy submission_id
         then log INFO (py "Post scheduled: %s on %s") ;; ret submission_id
         else log ERROR (py "No submission_id in response: %s") ;; ret VNone)
        (fun exc => log ERROR (py "Post scheduling failed: %s") ;; ret VNone)
  end.

(** [not video_path or not Path(video_path).exists()]; [Some p] is the path
    of a video that is there. *)
Definition video_present (video_path : val) : M W (option pystr) :=
  if negb (truthy video_path) then ret None
  else
    match video_path with
    | VStr p =>
        present <- FileManager.exists_ p ;;
        ret (if present then Some p else None)
    | _ => raise TypeError
    end.

(** One round of the loop of [schedule_batch]. *)
Definition schedule_item (self : t) (platforms : list pystr) (now : datetime)
    (submission_ids : list val) (entry : Z * list (pystr * val)) : M W (list val) :=
  let '(i, item) := entry in
  let video_path := get item (py "video_path") (VStr []) in
  let caption := get item (py "caption") (VStr []) in
  present <- video_present video_path ;;
  match present with
  | None => log WARNING (py "Skipping missing video: %s") ;; ret submission_ids
  | Some video_path =>
      dt <- lift (schedule_dt now (Config.POSTS_PER_DAY cfg) i) ;;
      let schedule_time := isoformat L dt in
      log INFO (py "Scheduling %d/%d for %s") ;;
      media_id <- upload_media self video_path ;;
      if negb (truthy media_id) then ret submission_ids
      else
        sub_id <- schedule_post self media_id caption platforms (Some schedule_time) ;;
        if truthy sub_id then ret (submission_ids ++ [sub_id])
        else ret submission_ids
  end.

Definition schedule_batch (self : t) (videos_with_captions : list (list (pystr * val)))
    (platforms : list pystr) : M W (list val) :=
  match api_key self with
  | [] => log ERROR (py "Cannot schedule batch: BLOTATO_API_KEY not set") ;; ret []
  | _ =>
      now <- ask (clock_now E) ;;
      submission_ids <- for_each (enumerate videos_with_captions) []
                                 (schedule_item self platforms now) ;;
      log INFO (py "Batch scheduling complete: %d/%d scheduled") ;;
      ret submission_ids
  end.

End Methods.
End BlatoScheduler.

(* ===================================================================== *)
(** * pipeline/orchestrator.py                                            *)
(* ===================================================================== *)

Module PipelineOrchestrator.
Section Methods.
Context {W : Type} (L : Py.lib) (E : externals W) (cfg : Config.t).

(** ** Phase 1: discovery *)

(** One round of the queueing loop (step 1c). *)
Definition queue_item (queue_ids : list Z) (item : val) : M W (list Z) :=
  try_except
    (d <- lift (as_dict item) ;;
     row_id <- Database.add_content L E
                 (get d (py "source_url") (VStr []))
                 (get d (py "topic") (VStr []))
                 (json_dumps L (get d (py "script") item))
                 (get d (py "caption") (VStr [])) ;;
     ret (queue_ids ++ [row_id]))
    (fun exc => log ERROR (py "Failed to queue item: %s") ;; ret queue_ids).

Definition run_discovery (count : Z) : M W (list Z) :=
  log INFO (py "=== PHASE 1: Content Discovery ===") ;;
  (* Step 1a: scrape *)
  raw_content <- try_except
                   (scraper <- ApifyScraper.__init__ cfg ;;
                    ApifyScraper.get_top_content L E cfg scraper count)
                   (fun exc => log ERROR (py "Scraping failed: %s") ;; ret []) ;;
  match raw_content with
  | [] => log WARNING (py "No content discovered - skipping analysis") ;; ret []
  | _ =>
      (* Step 1b: analyse *)
      analyses <- try_except
                    (analyzer <- GeminiAnalyzer.__init__ cfg ;;
                     GeminiAnalyzer.analyze_content L E analyzer raw_content)
                    (fun exc => log ERROR (py "Analysis failed: %s") ;; ret []) ;;
      match analyses with
      | [] => log WARNING (py "No analyses produced") ;; ret []
      | _ =>
          (* Step 1c: queue *)
          queue_ids <- for_each analyses [] queue_item ;;
          log INFO (py "Discovery complete: %d items queued") ;;
          ret queue_ids
      end
  end.

(** ** Phases 2 to 4: generation *)

(** [json.loads(script_raw) if isinstance(script_raw, str) else script_raw],
    with the fallback of the handler for [JSONDecodeError]. *)
Definition parse_script (script_raw : option pystr) : result val :=
  match script_raw with
  | None => Ok VNone
  | Some raw =>
      match json_loads L raw with
      | Ok v => Ok v
      | Raise e =>
          if is_json_decode_error e
          then Ok (VDict [(py "full_script", VStr raw); (py "hook", VStr (firstn 80 raw))])
          else Raise e
      end
  end.

(** The body of the [try] block of the generation loop, for the row
    [content] of id [qid]. *)
Definition generate_item (video_gen : HiggsFieldGenerator.t) (voice : ElevenLabsVoice.t)
    (editor : VideoEditor.t) (soul_id : pystr) (generated_ids : list Z) (qid : Z)
    (content : Db.Row) : M W (list Z) :=
  script <- lift (parse_script (Db.script content)) ;;
  d <- lift (as_dict script) ;;
  let hook := get d (py "hook") (of_column (Db.topic content)) in
  let caption := of_column (Db.caption content) in
  (* Phase 2: generate video *)
  video_path <- HiggsFieldGenerator.generate_video L E cfg video_gen hook soul_id ;;
  if falsy video_path
  then
    log WARNING (py "Video generation failed for id=%d") ;;
    Database.update_content_status L E qid Db.Failed [] ;;
    ret generated_ids
  else
    let video_path := default [] video_path in
    (* Phase 3: synthesize voice *)
    audio_path <- ElevenLabsVoice.synthesize_script L E cfg voice script VNone ;;
    if falsy audio_path
    then
      log WARNING (py "Voice synthesis failed for id=%d") ;;
      Database.update_content_status L E qid Db.Failed
        [(Db.Col_video_path, VStr video_path)] ;;
      ret generated_ids
    else
      let audio_path := default [] audio_path in
      (* Phase 4: compose final video *)
      final_path <- VideoEditor.compose_final L E cfg editor
                      video_path audio_path caption hook None ;;
      if falsy final_path
      then
        log WARNING (py "Video composition failed for id=%d") ;;
        Database.update_content_status L E qid Db.Failed
          [(Db.Col_video_path, VStr video_path);
           (Db.Col_audio_path, VStr audio_path)] ;;
        ret generated_ids
      else
        let final_path := default [] final_path in
        (* Success *)
        Database.update_content_status L E qid Db.Generated
          [(Db.Col_video_path, VStr video_path);
           (Db.Col_audio_path, VStr audio_path);
           (Db.Col_final_video_path, VStr final_path)] ;;
        log INFO (py "Content id=%d generated successfully") ;;
        ret (generated_ids ++ [qid]).

(** One round of the generation loop. *)
Definition generation_step (video_gen : HiggsFieldGenerator.t) (voice : ElevenLabsVoice.t)
    (editor : VideoEditor.t) (soul_id : pystr) (generated_ids : list Z) (qid : Z)
    : M W (list Z) :=
  content <- Database.get_content qid ;;
  match content with
  | None => ret generated_ids
  | Some content =>
      Database.update_content_status L E qid Db.Generating [] ;;
      log INFO (py "Generating content id=%d topic=%s") ;;
      try_except
        (generate_item video_gen voice editor soul_id generated_ids qid content)
        (fun exc =>
           log ERROR (py "Generation failed for id=%d: %s") ;;
           Database.update_content_status L E qid Db.Failed [] ;;
           ret generated_ids)
  end.

Definition run_generation (queue_ids : list Z) : M W (list Z) :=
  log INFO (py "=== PHASE 2-4: Content Generation ===") ;;
  let soul_id := Config.SOUL_ID cfg in
  match soul_id with
  | [] =>
      log WARNING (py "Soul ID not configured. Run: python main.py --setup-soul-id") ;;
      ret []
  | _ =>
      video_gen <- HiggsFieldGenerator.__init__ cfg ;;
      voice <- ElevenLabsVoice.__init__ cfg ;;
      editor <- VideoEditor.__init__ E ;;
      generated_ids <- for_each queue_ids []
                         (generation_step video_gen voice editor soul_id) ;;
      log INFO (py "Generation complete: %d/%d succeeded") ;;
      ret generated_ids
  end.

(** ** Phase 5: scheduling *)

(** One round of the loop that builds the batch; [id_map] sends a batch
    index to a queue id. *)
Definition batch_step (acc : list (list (pystr * val)) * gmap Z Z) (qid : Z)
    : M W (list (list (pystr * val)) * gmap Z Z) :=
  let '(batch, id_map) := acc in
  content <- Database.get_content qid ;;
  match content with
  | None => ret (batch, id_map)
  | Some content =>
      if negb (bool_decide (Db.status content = Db.Generated))
      then ret (batch, id_map)
      else
        let final_path := of_column (Db.final_video_path content) in
        if negb (truthy final_path) then ret (batch, id_map)
        else
          let idx := Z.of_nat (length batch) in
          ret (batch ++ [[(py "video_path", final_path);
                          (py "caption", of_column (Db.caption content))]],
               <[idx := qid]> id_map)
  end.

(** One round of the loop over the submission ids. *)
Definition mark_scheduled (platforms : list pystr) (id_map : gmap Z Z)
    (scheduled_ids : list Z) (entry : Z * val) : M W (list Z) :=
  let '(i, sub_id) := entry in
  match id_map !! i with
  | Some qid =>
      if negb (qid =? 0)%Z && truthy sub_id
      then
        Database.update_content_status L E qid Db.Scheduled
          [(Db.Col_post_submission_id, sub_id)] ;;
        for_each platforms tt
          (fun _ platform => Database.log_post L E qid platform sub_id (py "scheduled")) ;;
        ret (scheduled_ids ++ [qid])
      else ret scheduled_ids
  | None => ret scheduled_ids
  end.

Definition run_scheduling (queue_ids : list Z) (platforms : option (list pystr))
    : M W (list Z) :=
  log INFO (py "=== PHASE 5: Scheduling ===") ;;
  let platforms :=
    match platforms with
    | Some (p :: ps) => p :: ps
    | _ => Config.PLATFORMS cfg
    end in
  blotato <- BlatoScheduler.__init__ cfg ;;
  match Config.BLOTATO_API_KEY cfg with
  | [] => log WARNING (py "BLOTATO_API_KEY not set - skipping scheduling") ;; ret []
  | _ =>
      acc <- for_each queue_ids ([], ∅) batch_step ;;
      let '(batch, id_map) := acc in
      match batch with
      | [] => log WARNING (py "No generated videos to schedule") ;; ret []
      | _ =>
          submission_ids <- BlatoScheduler.schedule_batch L E cfg blotato batch platforms ;;
          scheduled_ids <- for_each (enumerate submission_ids) []
                             (mark_scheduled platforms id_map) ;;
          log INFO (py "Scheduling complete: %d/%d scheduled") ;;
          ret scheduled_ids
      end
  end.

(** ** The full pipeline *)

Record summary := {
  discovered : Z;
  generated : Z;
  scheduled : Z
}.

Definition rule : pystr := py "========================================".

Definition run_full_pipeline : M W summary :=
  log INFO rule ;;
  log INFO (py "   FULL PIPELINE RUN") ;;
  log INFO rule ;;
  queue_ids <- run_discovery 20 ;;
  generated_ids <- (match queue_ids with
                    | [] => ret []
                    | _ => run_generation queue_ids
                    end) ;;
  scheduled_ids <- (match generated_ids with
                    | [] => ret []
                    | _ => run_scheduling generated_ids None
                    end) ;;
  let summary := {| discovered := Z.of_nat (length queue_ids);
                    generated := Z.of_nat (length generated_ids);
                    scheduled := Z.of_nat (length scheduled_ids) |} in
  log INFO rule ;;
  log INFO (py "   PIPELINE SUMMARY") ;;
  log INFO (py "   Discovered: %d") ;;
  log INFO (py "   Generated:  %d") ;;
  log INFO (py "   Scheduled:  %d") ;;
  log INFO rule ;;
  ret summary.

(** ** Sequences of operations *)

(** A call of one of the three phases, with its arguments. *)
Inductive op :=
| Discovery (count : Z)
| Generation (queue_ids : list Z)
| Scheduling (queue_ids : list Z) (platforms : option (list pystr)).

(** The state an operation leaves, whether it returns or raises. *)
Definition run_op (o : op) (s : state W) : state W :=
  match o with
  | Discovery count => snd (run_discovery count s)
  | Generation queue_ids => snd (run_generation queue_ids s)
  | Scheduling queue_ids platforms => snd (run_scheduling queue_ids platforms s)
  end.

Definition run_ops (ops : list op) (s : state W) : state W :=
  fold_left (fun s o => run_op o s) ops s.

End Methods.
End PipelineOrchestrator.

(* ===================================================================== *)
(** * Predicates on computations                                          *)
(* ===================================================================== *)

(** [wp m Q s]: running [m] from [s] ends, with a value or an exception, in a
    state that satisfies [Q]. *)
Definition wp {W A} (m : M W A) (Q : result A -> state W -> Prop) (s : state W) : Prop :=
  Q (m s).1 (m s).2.

(** [m] returns: it never raises. *)
Definition total {W A} (m : M W A) : Prop :=
  forall s, exists a, (m s).1 = Ok a.

(** [m] leaves the component [f] of the state as it found it. *)
Definition keeps {W X A} (f : state W -> X) (m : M W A) : Prop :=
  forall s, f (m s).2 = f s.

(** [m] only appends to the list-valued component [f]. *)
Definition extends {W X A} (f : state W -> list X) (P : X -> Prop) (m : M W A) : Prop :=
  forall s, exists new, f (m s).2 = f s ++ new /\ Forall P new.


(* ===================================================================== *)
(** * Notions the statements use                                          *)
(* ===================================================================== *)

(** ** Words and lines of a caption *)

Definition nonspace (w : pystr) : Prop := Forall (fun c => isspace c = false) w.

(** What [split] returns: non-empty runs without whitespace. *)
Definition is_word (w : pystr) : Prop := w <> [] /\ nonspace w.

(** A string [strip] leaves alone. *)
Definition tight (s : pystr) : Prop := lstrip s = s /\ rstrip s = s.

(** The invariant of the wrapping loop after the words [done]: the closed
    lines and the open line are short enough, and their words are [done]. *)
Definition wrap_inv (done : list pystr) (st : list pystr * pystr) : Prop :=
  Forall (fun l => (len l <= 40)%Z) st.1
  /\ (len st.2 <= 40)%Z
  /\ tight st.2
  /\ concat (map split st.1) ++ split st.2 = done.

(** ** Schedule times *)

(** [d] days after [now], at [h]:00. *)
Definition day_at (now : datetime) (d h : Z) : datetime :=
  {| dt_ordinal := dt_ordinal now + d;
     dt_hour := h;
     dt_minute := 0;
     dt_second := 0;
     dt_microsecond := 0 |}.

(** The daily time slots: 0, 1, 2 are 09:00, 13:00, 18:00. *)
Definition slot_hour (k : Z) : Z := nth (Z.to_nat k) BlatoScheduler.hours 0%Z.

(** The times the worked example of the specification lists for three posts
    a day. *)
Definition example_times (now : datetime) (i : Z) : option datetime :=
  match i with
  | 0%Z => Some (day_at now 1 9)
  | 1%Z => Some (day_at now 1 13)
  | 2%Z => Some (day_at now 1 18)
  | 3%Z => Some (day_at now 2 9)
  | _ => None
  end.

Section ScheduleRequests.
Context {W : Type} (L : Py.lib) (self : BlatoScheduler.t) (platforms : list pystr).

(** The external calls [schedule_batch] makes. *)
Definition upload_request (file_path : pystr) : event :=
  EvPostFile (BlatoScheduler.base_url self ++ py "/v2/media/upload")
             (BlatoScheduler._headers self) file_path.

Definition schedule_request (media_id caption : val) (t : datetime) : event :=
  EvPostJson (BlatoScheduler.base_url self ++ py "/v2/posts")
             (BlatoScheduler.post_headers self)
             (BlatoScheduler.post_body media_id caption platforms (Some (isoformat L t))).

(** [ev] uploads a file, or asks to post the item at some index [i] of the
    batch, with its caption, at a time that [R] relates to [i]. *)
Definition scheduled_by (R : Z -> datetime -> Prop) (batch : list (list (pystr * val)))
    (ev : event) : Prop :=
  (exists file_path, ev = upload_request file_path)
  \/ (exists i item media_id t,
        (i, item) ∈ enumerate batch /\ R i t
        /\ ev = schedule_request media_id (get item (py "caption") (VStr [])) t).

End ScheduleRequests.

(* ===================================================================== *)
(** * A concrete world to run the code in                                 *)
(* ===================================================================== *)

Module Example.

(** Floats are exact rationals here; the formatting functions return
    stand-ins, a date being rendered with one character per field. *)
Definition render (dt : datetime) : pystr :=
  [Z.to_N (dt_ordinal dt); Z.to_N (dt_hour dt); Z.to_N (dt_minute dt);
   Z.to_N (dt_second dt); Z.to_N (dt_microsecond dt)].

Definition the_lib : Py.lib :=
  {| float := Q;
     float_zero := 0%Q;
     float_lt := fun x y => negb (Qle_bool y x);
     float_le := Qle_bool;
     truediv := fun a b =>
       if (b =? 0)%Z then Raise ZeroDivisionError
       else Ok (Qdiv (inject_Z a) (inject_Z b));
     float_of_str := fun s => Ok (inject_Z (len s));
     str_of_float := fun _ => py "1.0";
     str_of_val := fun v => match v with VStr s => s | _ => py "?" end;
     json_dumps := fun _ => py "{}";
     json_dumps_indent := fun _ => py "{}";
     json_loads := fun _ =>
       Ok (VDict [(py "hook", VStr (py "Three tools"));
                  (py "topic", VStr (py "AI tools"));
                  (py "full_script", VStr (py "Here are three tools"));
                  (py "caption", VStr (py "Three tools you need"))]);
     isoformat := render;
     strftime_stamp := render |}.

Definition noon : datetime :=
  {| dt_ordinal := 738000; dt_hour := 12; dt_minute := 30; dt_second := 15;
     dt_microsecond := 0 |}.

Definition generations_url : pystr := Config.HIGGSFIELD_BASE_URL ++ py "/v1/generations".

(** The world is the number of video generation requests served so far.
    Every service answers well, except that only the first generation
    request succeeds and that ffmpeg fails on the intro card. *)
Definition the_world : externals nat :=
  {| clock_now := fun w => (noon, w);
     random_choice := fun l w => (hd [] l, w);
     apify_actor_call := fun _ _ _ w =>
       (Ok (VDict [(py "defaultDatasetId", VStr (py "dataset-1"))]), w);
     apify_dataset_items := fun _ w =>
       (Ok [VDict [(py "url", VStr (py "https://example.org/v/1"));
                   (py "likes", VInt 50); (py "shares", VInt 10);
                   (py "views", VInt 1000)]], w);
     gemini_generate_content := fun _ w => (Ok (py "{}"), w);
     requests_post_json := fun url _ _ w =>
       if pystr_eqb url generations_url
       then (match w with
             | O => Ok (VDict [(py "generation_id", VStr (py "gen-1"))])
             | S _ => Raise (OtherError (py "HTTPError"))
             end, S w)
       else (Ok (VDict [(py "post_submission_id", VStr (py "sub-1"))]), w);
     requests_post_file := fun _ _ _ w => (Ok (VDict [(py "media_id", VStr (py "media-1"))]), w);
     requests_get_json := fun _ _ w =>
       (Ok (VDict [(py "status", VStr (py "completed"));
                   (py "video_url", VStr (py "https://example.org/out.mp4"))]), w);
     requests_get_stream := fun _ w => (Ok (4096%N, None), w);
     text_to_speech_convert := fun _ _ w => (Ok (2048%N, None), w);
     voices_get_all := fun w => (Ok [VStr (py "voice-1")], w);
     which_ffmpeg := true;
     subprocess_ffmpeg := fun cmd _ w =>
       if existsb (pystr_eqb (py "-filter_complex")) cmd
       then ((Ok 1%Z, None), w)
       else ((Ok 0%Z, Some 8192%N), w);
     subprocess_ffprobe := fun _ _ w => (Ok (py "12.5"), w) |}.

(** The same world with the network down: every POST raises. *)
Definition offline : externals nat :=
  {| clock_now := clock_now the_world;
     random_choice := random_choice the_world;
     apify_actor_call := apify_actor_call the_world;
     apify_dataset_items := apify_dataset_items the_world;
     gemini_generate_content := gemini_generate_content the_world;
     requests_post_json := fun _ _ _ w => (Raise (OtherError (py "ConnectionError")), w);
     requests_post_file := fun _ _ _ w => (Raise (OtherError (py "ConnectionError")), w);
     requests_get_json := requests_get_json the_world;
     requests_get_stream := requests_get_stream the_world;
     text_to_speech_convert := text_to_speech_convert the_world;
     voices_get_all := voices_get_all the_world;
     which_ffmpeg := which_ffmpeg the_world;
     subprocess_ffmpeg := subprocess_ffmpeg the_world;
     subprocess_ffprobe := subprocess_ffprobe the_world |}.

(** Every credential set, three posts a day. *)
Definition cfg : Config.t :=
  {| Config.BASE_DIR := py "/app";
     Config.APIFY_API_TOKEN := py "apify-token";
     Config.GEMINI_API_KEY := py "gemini-key";
     Config.HIGGSFIELD_API_KEY := py "higgs-key";
     Config.HIGGSFIELD_API_SECRET := py "higgs-secret";
     Config.ELEVENLABS_API_KEY := py "eleven-key";
     Config.BLOTATO_API_KEY := py "blotato-key";
     Config.SOUL_ID := py "soul-1";
     Config.ELEVENLABS_VOICE_ID := py "voice-1";
     Config.POSTS_PER_DAY := 3;
     Config.PLATFORMS := [py "tiktok"; py "instagram"; py "youtube"];
     Config.APPROVAL_MODE := py "auto" |}.

Definition with_posts_per_day (n : Z) (c : Config.t) : Config.t :=
  {| Config.BASE_DIR := Config.BASE_DIR c;
     Config.APIFY_API_TOKEN := Config.APIFY_API_TOKEN c;
     Config.GEMINI_API_KEY := Config.GEMINI_API_KEY c;
     Config.HIGGSFIELD_API_KEY := Config.HIGGSFIELD_API_KEY c;
     Config.HIGGSFIELD_API_SECRET := Config.HIGGSFIELD_API_SECRET c;
     Config.ELEVENLABS_API_KEY := Config.ELEVENLABS_API_KEY c;
     Config.BLOTATO_API_KEY := Config.BLOTATO_API_KEY c;
     Config.SOUL_ID := Config.SOUL_ID c;
     Config.ELEVENLABS_VOICE_ID := Config.ELEVENLABS_VOICE_ID c;
     Config.POSTS_PER_DAY := n;
     Config.PLATFORMS := Config.PLATFORMS c;
     Config.APPROVAL_MODE := Config.APPROVAL_MODE c |}.

(** No Soul ID configured. *)
Definition cfg_no_soul : Config.t :=
  {| Config.BASE_DIR := Config.BASE_DIR cfg;
     Config.APIFY_API_TOKEN := Config.APIFY_API_TOKEN cfg;
     Config.GEMINI_API_KEY := Config.GEMINI_API_KEY cfg;
     Config.HIGGSFIELD_API_KEY := Config.HIGGSFIELD_API_KEY cfg;
     Config.HIGGSFIELD_API_SECRET := Config.HIGGSFIELD_API_SECRET cfg;
     Config.ELEVENLABS_API_KEY := Config.ELEVENLABS_API_KEY cfg;
     Config.BLOTATO_API_KEY := Config.BLOTATO_API_KEY cfg;
     Config.SOUL_ID := [];
     Config.ELEVENLABS_VOICE_ID := Config.ELEVENLABS_VOICE_ID cfg;
     Config.POSTS_PER_DAY := Config.POSTS_PER_DAY cfg;
     Config.PLATFORMS := Config.PLATFORMS cfg;
     Config.APPROVAL_MODE := Config.APPROVAL_MODE cfg |}.

(** No credential at all. *)
Definition cfg_no_keys : Config.t :=
  {| Config.BASE_DIR := py "/app";
     Config.APIFY_API_TOKEN := [];
     Config.GEMINI_API_KEY := [];
     Config.HIGGSFIELD_API_KEY := [];
     Config.HIGGSFIELD_API_SECRET := [];
     Config.ELEVENLABS_API_KEY := [];
     Config.BLOTATO_API_KEY := [];
     Config.SOUL_ID := py "soul-1";
     Config.ELEVENLABS_VOICE_ID := [];
     Config.POSTS_PER_DAY := 3;
     Config.PLATFORMS := [py "tiktok"];
     Config.APPROVAL_MODE := py "auto" |}.

(** A fresh process: empty tables, no files, nothing logged or called. *)
Definition start : state nat :=
  {| st_db := Db.empty; st_fs := ∅; st_world := O; st_log := []; st_calls := [] |}.

(** A batch of four composed videos, all on disk. *)
Definition video (n : pystr) : pystr := py "/app/outputs/final/" ++ n.

Definition four_videos : list (list (pystr * val)) :=
  [[(py "video_path", VStr (video (py "a.mp4"))); (py "caption", VStr (py "first"))];
   [(py "video_path", VStr (video (py "b.mp4"))); (py "caption", VStr (py "second"))];
   [(py "video_path", VStr (video (py "c.mp4"))); (py "caption", VStr (py "third"))];
   [(py "video_path", VStr (video (py "d.mp4"))); (py "caption", VStr (py "fourth"))]].

Definition with_videos : state nat :=
  with_fs (<[video (py "a.mp4") := 100%N]>
            (<[video (py "b.mp4") := 100%N]>
              (<[video (py "c.mp4") := 100%N]>
                (<[video (py "d.mp4") := 100%N]> ∅)))) start.

Definition scheduler : BlatoScheduler.t :=
  {| BlatoScheduler.base_url := Config.BLOTATO_BASE_URL;
     BlatoScheduler.api_key := py "blotato-key" |}.

(** Two posts a day. *)
Definition cfg_two_a_day : Config.t := with_posts_per_day 2 cfg.

(** Four scraped items: the first and the third score 1/10, the second and
    the fourth 6/10. *)
Definition scraped_item (url : pystr) (likes shares views : Z) : list (pystr * val) :=
  [(py "url", VStr url); (py "likes", VInt likes); (py "shares", VInt shares);
   (py "views", VInt views)].

Definition scraped : list (list (pystr * val)) :=
  [scraped_item (py "a") 10 0 100; scraped_item (py "b") 50 10 100;
   scraped_item (py "c") 5 5 100; scraped_item (py "d") 60 0 100].

Definition ranked : list (list (pystr * val)) :=
  [scraped_item (py "b") 50 10 100; scraped_item (py "d") 60 0 100;
   scraped_item (py "a") 10 0 100; scraped_item (py "c") 5 5 100].

(** A caption of fourteen words. *)
Definition caption : pystr :=
  py "the quick brown fox jumps over the lazy dog again and again and again".

(** Discovery, then generation of the first row, twice. *)
Definition generate_twice : list PipelineOrchestrator.op :=
  [PipelineOrchestrator.Discovery 20;
   PipelineOrchestrator.Generation [1%Z];
   PipelineOrchestrator.Generation [1%Z]].

(** The phases in the order of the full pipeline, on the first row. *)
Definition one_pass : list PipelineOrchestrator.op :=
  [PipelineOrchestrator.Discovery 20;
   PipelineOrchestrator.Generation [1%Z];
   PipelineOrchestrator.Scheduling [1%Z] None].

(** A raw video on disk, and an editor with ffmpeg installed. *)
Definition raw_video : pystr := py "/app/outputs/videos/raw.mp4".
Definition raw_audio : pystr := py "/app/outputs/audio/voice.mp3".

Definition with_raw_video : state nat :=
  with_fs (<[raw_video := 4096%N]> (<[raw_audio := 2048%N]> ∅)) start.

Definition editor : VideoEditor.t := {| VideoEditor.ffmpeg_ok := true |}.

(** The path [compose_final] chooses at [noon] when it is given none. *)
Definition final_path : pystr :=
  Config.path_join (Config.FINAL_DIR cfg)
    (py "final_" ++ render noon ++ py "." ++ py "mp4").

End Example.

(** ** Orders on sort keys *)

Section Orders.
Context {K : Type} (lt : K -> K -> bool).

(** [lt] is a strict weak order on the keys in [D]: asymmetric, and a key
    below another is below, or above, any third (so that being neither below
    nor above is an equivalence). *)
Record strict_weak_order (D : K -> Prop) : Prop := {
  swo_asym : forall x y, D x -> D y -> lt x y = true -> lt y x = false;
  swo_negtrans : forall x y z, D x -> D y -> D z ->
    lt x z = true -> lt x y = true \/ lt y z = true
}.

(** Two keys tie: neither is below the other. *)
Definition tie (a b : K) : bool := negb (lt a b) && negb (lt b a).

End Orders.

(** ** Engagement scores *)

(** A count as the score reads it: a missing, null or false count is 0. *)
Definition count_field (item : list (pystr * val)) (k : pystr) : option Z :=
  match assoc k item with
  | None | Some VNone => Some 0%Z
  | Some (VInt z) => Some z
  | Some (VBool b) => Some (if b then 1 else 0)%Z
  | _ => None
  end.

(** The floats that are quotients of integers. *)
Definition quotient (L : Py.lib) (x : float L) : Prop :=
  exists a b, truediv L a b = Ok x.

(** The item's score ties with [k]. *)
Definition scores (L : Py.lib) (k : float L) (item : list (pystr * val)) : bool :=
  match ApifyScraper._engagement_score L item with
  | Ok k' => tie (float_lt L) k k'
  | Raise _ => false
  end.

(** No item is followed, anywhere later in the list, by one of a higher
    score. *)
Definition descending (L : Py.lib) (items : list (list (pystr * val))) : Prop :=
  StronglySorted
    (fun a b => forall ka kb,
       ApifyScraper._engagement_score L a = Ok ka ->
       ApifyScraper._engagement_score L b = Ok kb ->
       float_lt L ka kb = false) items.

(* ===================================================================== *)
(** * The status machine of a content item                                *)
(* ===================================================================== *)

(** The final-video path is set: the column holds a non-empty string. *)
Definition has_final (r : Db.Row) : Prop :=
  truthy (of_column (Db.final_video_path r)) = true.

(** What [run_scheduling] looks for: a row in status [generated] with its
    final-video path set. *)
Definition eligible (d : Db.t) (id : Z) : Prop :=
  exists r, Db.content_queue d !! id = Some r
            /\ Db.status r = Db.Generated /\ has_final r.

(** The two ways a round of the generation loop ends: [failed], the
    final-video path left alone, or [generated], with the three paths, the
    final one not empty. *)
Definition finishes (st : Db.Status) (fields : list (Db.Column * option pystr)) : Prop :=
  (st = Db.Failed /\ Forall (fun cf => cf.1 <> Db.Col_final_video_path) fields)
  \/ (st = Db.Generated
      /\ exists v a f, f <> []
           /\ fields = [(Db.Col_video_path, Some v); (Db.Col_audio_path, Some a);
                        (Db.Col_final_video_path, Some f)]).

(** The writes the orchestrator makes to the database, one at a time.  With
    [strict], a row is set to [generating] only from [pending] and to
    [scheduled] only from [generated]. *)
Inductive step (strict : bool) : Db.t -> Db.t -> Prop :=
| step_insert su tp sc cp now d :
    step strict d (Db.insert_content su tp sc cp now d).2
| step_generating id now d :
    (strict = true ->
     forall r, Db.content_queue d !! id = Some r -> Db.status r = Db.Pending) ->
    step strict d (Db.update_row id Db.Generating now [] d)
| step_finish id st now fields d r :
    Db.content_queue d !! id = Some r -> Db.status r = Db.Generating ->
    finishes st fields ->
    step strict d (Db.update_row id st now fields d)
| step_schedule id now sub d r :
    Db.content_queue d !! id = Some r ->
    Db.status r = Db.Generated \/ (strict = false /\ Db.status r = Db.Scheduled) ->
    has_final r ->
    step strict d (Db.update_row id Db.Scheduled now [(Db.Col_post_submission_id, sub)] d)
| step_post_log e d :
    step strict d (Db.insert_post_log e d).

(** The status changes a write may record. *)
Definition allowed (strict : bool) (t : Db.Transition) : Prop :=
  match Db.tr_to t with
  | Db.Pending => False
  | Db.Generating => strict = true -> Db.tr_from t = Db.Pending
  | Db.Generated | Db.Failed => Db.tr_from t = Db.Generating
  | Db.Scheduled =>
      Db.tr_from t = Db.Generated \/ (strict = false /\ Db.tr_from t = Db.Scheduled)
  end.

(** The status has reached [generated] or [scheduled]. *)
Definition reached_generated (r : Db.Row) : Prop :=
  Db.status r = Db.Generated \/ Db.status r = Db.Scheduled.

(** The invariant of the data model: the final-video path of a row is set
    if and only if its status has reached [generated]. *)
Definition consistent (d : Db.t) : Prop :=
  forall id r, Db.content_queue d !! id = Some r -> (has_final r <-> reached_generated r).

(** One direction of it: a row that has reached [generated] has its
    final-video path set. *)
Definition generated_have_final (d : Db.t) : Prop :=
  forall id r, Db.content_queue d !! id = Some r -> reached_generated r -> has_final r.

(** What [run_scheduling] may do to a database that was [d0] when it
    started: write [scheduled] to rows eligible in [d0], and nothing to the
    other rows. *)
Definition scheduled_from (d0 d : Db.t) : Prop :=
  (forall id, ~ eligible d0 id -> Db.content_queue d !! id = Db.content_queue d0 !! id)
  /\ exists new,
       Db.history d = Db.history d0 ++ new
       /\ Forall (fun t => Db.tr_to t = Db.Scheduled /\ eligible d0 (Db.tr_id t)) new.

Section Guards.
Context {W : Type} (L : Py.lib) (E : externals W) (cfg : Config.t).

(** The way main.py calls the phases: generation on the ids of pending
    items, scheduling on any ids, no id twice in a call. *)
Definition guarded (d : Db.t) (o : PipelineOrchestrator.op) : Prop :=
  match o with
  | PipelineOrchestrator.Discovery _ => True
  | PipelineOrchestrator.Generation queue_ids =>
      NoDup queue_ids
      /\ forall id r, id ∈ queue_ids -> Db.content_queue d !! id = Some r ->
                      Db.status r = Db.Pending
  | PipelineOrchestrator.Scheduling queue_ids _ => NoDup queue_ids
  end.

Fixpoint guarded_ops (s : state W) (ops : list PipelineOrchestrator.op) : Prop :=
  match ops with
  | [] => True
  | o :: rest =>
      guarded (st_db s) o
      /\ guarded_ops (PipelineOrchestrator.run_op L E cfg o s) rest
  end.

End Guards.

(** [m] changes the database by writes of the status machine only. *)
Definition moves {W A} (strict : bool) (m : M W A) : Prop :=
  forall s, rtc (step strict) (st_db s) (st_db (m s).2).

(** What a round of the generation loop for the row [qid] leaves of a
    database [d]: [d] itself when there is no such row; otherwise the row is
    set to [generating] and then finished. *)
Definition generated_from (qid : Z) (d d' : Db.t) : Prop :=
  (Db.content_queue d !! qid = None /\ d' = d)
  \/ exists r st now1 now2 fields,
       Db.content_queue d !! qid = Some r
       /\ finishes st fields
       /\ d' = Db.update_row qid st now2 fields (Db.update_row qid Db.Generating now1 [] d).

(** Two databases with the same rows and the same recorded status writes:
    they differ in [post_log] at most. *)
Definition same_rows (d d' : Db.t) : Prop :=
  Db.content_queue d' = Db.content_queue d /\ Db.history d' = Db.history d.

(** What one round of the marking loop of [run_scheduling] leaves of a
    database [d], for the batch index [i]: nothing but log entries, or the
    row [id_map[i]] set to [scheduled]. *)
Definition marked (strict : bool) (id_map : gmap Z Z) (i : Z) (d d' : Db.t) : Prop :=
  exists d1,
    (d1 = d
     \/ exists qid now sub,
          id_map !! i = Some qid
          /\ d1 = Db.update_row qid Db.Scheduled now [(Db.Col_post_submission_id, sub)] d)
    /\ same_rows d1 d' /\ rtc (step strict) d1 d'.

(** The invariant of the loop that builds the batch, after the queue ids
    [seen]: [id_map] sends indices of the batch to ids seen, eligible in
    [d]; when no id came twice, no id is at two indices. *)
Definition batch_inv (strict : bool) (d : Db.t) (seen : list Z)
    (acc : list (list (pystr * val)) * gmap Z Z) : Prop :=
  (forall i q, acc.2 !! i = Some q ->
     eligible d q /\ q ∈ seen /\ (0 <= i < Z.of_nat (length acc.1))%Z)
  /\ (strict = true ->
      forall i j q, acc.2 !! i = Some q -> acc.2 !! j = Some q -> i = j).

(** The invariant of the marking loop, before the rounds [rest]. *)
Definition mark_inv (strict : bool) (d0 : Db.t) (id_map : gmap Z Z) (rest : list Z)
    (d : Db.t) : Prop :=
  scheduled_from d0 d
  /\ (forall q, eligible d0 q ->
        exists r, Db.content_queue d !! q = Some r /\ has_final r /\ reached_generated r)
  /\ (strict = true ->
      forall j q, j ∈ rest -> id_map !! j = Some q ->
        exists r, Db.content_queue d !! q = Some r /\ Db.status r = Db.Generated).

(* ===================================================================== *)
(** * Files                                                               *)
(* ===================================================================== *)

(** What [verify_file] checks with its default [min_size]: the file is
    there and has at least one byte. *)
Definition valid_file (fs : gmap pystr N) (p : pystr) : Prop :=
  exists size, fs !! p = Some size /\ (1 <= size)%N.

(** Two file systems that agree on every path but [p]. *)
Definition same_except (p : pystr) (fs fs' : gmap pystr N) : Prop :=
  forall q, q <> p -> fs' !! q = fs !! q.

(** [m] writes to no path but [p]. *)
Definition writes_only {W A} (p : pystr) (m : M W A) : Prop :=
  forall s, same_except p (st_fs s) (st_fs (m s).2).

(* ===================================================================== *)
(** * More notions: outcomes of the phases                                *)
(* ===================================================================== *)

(** The status of the row [id], if there is one. *)
Definition status_of (d : Db.t) (id : Z) : option Db.Status :=
  Db.status <$> Db.content_queue d !! id.

(** What a round of the generation loop for [qid] makes of the list of
    generated ids [acc] and of the database [d]: nothing when there is no
    such row; otherwise the row is set to [generating] and then finished,
    and [qid] joins the list exactly when it is finished as [generated]. *)
Definition generation_round (qid : Z) (acc : list Z) (d : Db.t) (acc' : list Z) (d' : Db.t)
    : Prop :=
  (Db.content_queue d !! qid = None /\ d' = d /\ acc' = acc)
  \/ exists r st now1 now2 fields,
       Db.content_queue d !! qid = Some r
       /\ finishes st fields
       /\ d' = Db.update_row qid st now2 fields (Db.update_row qid Db.Generating now1 [] d)
       /\ ((st = Db.Generated /\ acc' = acc ++ [qid]) \/ (st = Db.Failed /\ acc' = acc)).

(** What the generation loop over [ids] makes of a database [d], and the
    ids [new] it adds to its result. *)
Record generation_outcome (ids : list Z) (d : Db.t) (new : list Z) (d' : Db.t) : Prop := {
  (* the rows the call does not name are as they were *)
  go_others : forall id, id ∉ ids -> Db.content_queue d' !! id = Db.content_queue d !! id;
  (* no row appears or disappears *)
  go_rows : forall id, is_Some (Db.content_queue d' !! id) <-> is_Some (Db.content_queue d !! id);
  (* every row the call names ends generated or failed *)
  go_finished : forall id, id ∈ ids -> is_Some (Db.content_queue d !! id) ->
    status_of d' id = Some Db.Generated \/ status_of d' id = Some Db.Failed;
  (* the ids returned are ids of the call, in its order *)
  go_sublist : sublist new ids;
  (* and, when no id is named twice, those of the rows that end generated *)
  go_generated : NoDup ids ->
    forall id, id ∈ new <-> id ∈ ids /\ status_of d' id = Some Db.Generated
}.

(** The test of the loop that builds the batch in [run_scheduling]: the row
    is there, in status [generated], with a final-video path. *)
Definition eligibleb (d : Db.t) (id : Z) : bool :=
  match Db.content_queue d !! id with
  | Some r =>
      bool_decide (Db.status r = Db.Generated)
      && truthy (of_column (Db.final_video_path r))
  | None => false
  end.

(** The ids of a call that enter the batch, in the order of the call: the
    video at position [i] of the batch is that of the [i]-th of them. *)
Definition batched (d : Db.t) (queue_ids : list Z) : list Z :=
  List.filter (eligibleb d) queue_ids.

(** [if qid and ...]: the queue ids the marking loop does not skip. *)
Definition nonzero (q : Z) : bool := negb (q =? 0)%Z.

(** What a round of the marking loop adds to the ids it returns, for the
    pair of a position and a submission id. *)
Definition marks (id_map : gmap Z Z) (entry : Z * val) : list Z :=
  match id_map !! entry.1 with
  | Some qid => if nonzero qid && truthy entry.2 then [qid] else []
  | None => []
  end.

(** [id_map] sends the positions of [ids] to its elements, and nothing
    else. *)
Definition positions (id_map : gmap Z Z) (ids : list Z) : Prop :=
  forall z, id_map !! z = if (0 <=? z)%Z then ids !! Z.to_nat z else None.

(** ** External calls, by service *)

Definition is_apify (ev : event) : Prop :=
  match ev with
  | EvApifyActor _ _ | EvApifyDataset _ => True
  | _ => False
  end.

Definition is_gemini (ev : event) : Prop :=
  match ev with
  | EvGemini _ => True
  | _ => False
  end.

(** Apify has nothing to give: a dataset that is fetched is empty. *)
Definition no_items {W} (E : externals W) : Prop :=
  forall dataset_id w items, (apify_dataset_items E dataset_id w).1 = Ok items -> items = [].

(** ** Files a computation may change *)

(** [m] changes no file outside [S]. *)
Definition touches {W A} (S : pystr -> Prop) (m : M W A) : Prop :=
  forall s q, ~ S q -> st_fs (m s).2 !! q = st_fs s !! q.

(** The paths [compose_final] works on: the output path and the entries of
    the directory of temporary files. *)
Definition compose_paths (cfg : Config.t) (out : pystr) (q : pystr) : Prop :=
  q = out \/ FileManager.in_dir (VideoEditor.temp_dir cfg) q = true.

(** ffmpeg is of no use to the editor [self]: it is not installed, or every
    run of it ends with a return code other than 0 or with an exception. *)
Definition ffmpeg_fails {W} (E : externals W) (self : VideoEditor.t) : Prop :=
  VideoEditor.ffmpeg_ok self = false
  \/ forall cmd fs w, (subprocess_ffmpeg E cmd fs w).1.1 <> Ok 0%Z.

(** ** Polling *)

(** The answer [data] says the job is done: its status is [done_value] or
    ["ready"]. *)
Definition says_done (status_key done_value : pystr) (data : val) : Prop :=
  exists d, as_dict data = Ok d
    /\ (is_str (get d status_key (VStr (py "unknown"))) done_value
        || is_str (get d status_key (VStr (py "unknown"))) (py "ready")) = true.

(** ** The queue table *)

(** The ids in use are the ids the AUTOINCREMENT counter has given out. *)
Definition ids_below (d : Db.t) : Prop :=
  (0 <= Db.seq d)%Z
  /\ forall id, is_Some (Db.content_queue d !! id) -> (1 <= id <= Db.seq d)%Z.

(** ** Analysis *)

(** The prompt [analyze_content] sends for a scraped item. *)
Definition prompt_of (L : Py.lib) (item : list (pystr * val)) : pystr :=
  GeminiAnalyzer.analysis_prompt L
    (get item (py "description") (VStr []))
    (get item (py "platform") (VStr (py "unknown")))
    (get item (py "likes") (VInt 0))
    (get item (py "views") (VInt 0))
    (get item (py "shares") (VInt 0)).

(** The analysis [a] is a dictionary stamped with the URL and the platform
    of [item]. *)
Definition stamped (item : list (pystr * val)) (a : val) : Prop :=
  exists d, a = VDict d
    /\ assoc (py "source_url") d = Some (get item (py "url") (VStr []))
    /\ assoc (py "platform") d = Some (get item (py "platform") (VStr (py "unknown"))).

(** ** Rows queued by discovery *)

(** What a discovery that returns [ids] makes of a database [d0]. *)
Record queued (d0 : Db.t) (ids : list Z) (d : Db.t) : Prop := {
  (* the ids are those the counter gives out, one after the other *)
  qu_ids : ids = List.map (fun k => (Db.seq d0 + Z.of_nat k)%Z) (List.seq 1 (length ids));
  qu_seq : Db.seq d = (Db.seq d0 + Z.of_nat (length ids))%Z;
  (* each of them names a row that was not there and is now pending *)
  qu_fresh : forall id, id ∈ ids -> Db.content_queue d0 !! id = None;
  qu_pending : forall id, id ∈ ids -> status_of d id = Some Db.Pending;
  (* every other row is as it was *)
  qu_others : forall id, id ∉ ids -> Db.content_queue d !! id = Db.content_queue d0 !! id;
  qu_below : ids_below d
}.

(** ** The post log *)

(** [platforms or Config.PLATFORMS] *)
Definition platforms_or_default (cfg : Config.t) (platforms : option (list pystr))
    : list pystr :=
  match platforms with
  | Some (p :: ps) => p :: ps
  | _ => Config.PLATFORMS cfg
  end.

(** The entries [new] record, in order, one post for each of [ids] on each
    of [platforms], all in status ["scheduled"]. *)
Definition logged (platforms : list pystr) (ids : list Z) (new : list Db.PostLog) : Prop :=
  List.map (fun e => (Db.pl_content_id e, Db.pl_platform e)) new
  = flat_map (fun id => List.map (fun p => (id, p)) platforms) ids
  /\ Forall (fun e => Db.pl_status e = py "scheduled") new.

(** ** The requests of a batch *)

(** The requests of one round of [schedule_batch] and the submission ids it
    adds: nothing at all; or the upload of a file that is on disk, alone,
    and no id; or that upload, answered with a media id, followed by one
    post request for it, and at most one id, not an empty one. *)
Definition batch_round (L : Py.lib) (self : BlatoScheduler.t) (platforms : list pystr)
    (fs : gmap pystr N) (calls : list event) (ids : list val) : Prop :=
  (calls = [] /\ ids = [])
  \/ exists p,
       is_Some (fs !! p)
       /\ ((calls = [upload_request self p] /\ ids = [])
           \/ exists media_id caption t,
                truthy media_id = true
                /\ calls = [upload_request self p;
                            schedule_request L self platforms media_id caption t]
                /\ (ids = [] \/ exists sub, ids = [sub] /\ truthy sub = true)).

(** ** The requests of a video generation *)

(** The requests [new] of one call of [generate_video] that has a key: one
    POST to the generations endpoint; then at most 20 polls, all of one URL;
    then at most one download, and only after a poll.  A call that returns a
    path ([returned]) has downloaded. *)
Definition generation_requests (self : HiggsFieldGenerator.t) (new : list event)
    (returned : Prop) : Prop :=
  exists payload poll_url polls tail,
    new = EvPostJson (HiggsFieldGenerator.base_url self ++ py "/v1/generations")
                     (HiggsFieldGenerator._headers self) payload :: polls ++ tail
    /\ length polls <= 20
    /\ Forall (fun ev => ev = EvGetJson poll_url (HiggsFieldGenerator._headers self)) polls
    /\ (tail = [] \/ exists u, tail = [EvDownload u] /\ polls <> [])
    /\ (returned -> tail <> []).

(** ** Failures that are reported *)

(** [m] only adds to the log. *)
Definition grows {W A} (m : M W A) : Prop :=
  forall s, exists new, st_log (m s).2 = st_log s ++ new.

(** [m] only adds to the log, and whenever it returns a value that [null]
    holds of (a [None], a [False]), the last record it has added is an
    ERROR: no failure is passed over in silence. *)
Definition reports {W A} (null : A -> Prop) (m : M W A) : Prop :=
  forall s, exists new,
    st_log (m s).2 = st_log s ++ new
    /\ forall a, (m s).1 = Ok a -> null a -> exists pre msg, new = pre ++ [(ERROR, msg)].

(** ** The rounds of a batch, with their times *)

Section TimedRounds.
Context {W : Type} (L : Py.lib) (E : externals W).
Context (self : BlatoScheduler.t) (platforms : list pystr).

(** A value the batch can test as a video path: a string, or a value that
    counts as no path ([None], an empty string). *)
Definition is_path (v : val) : Prop := truthy v = false \/ exists p, v = VStr p.

(** The media id in the answer to an upload: [None] when the request raised
    or the answer is no dictionary, the empty string when it has no id. *)
Definition media_of (answer : result val) : val :=
  match answer with
  | Ok data =>
      match as_dict data with
      | Ok d => get d (py "media_id") (get d (py "id") (VStr []))
      | Raise _ => VNone
      end
  | Raise _ => VNone
  end.

(** [media_id] is what the service answers the upload of [p] with, in some
    state of the world. *)
Definition upload_answers (p : pystr) (media_id : val) : Prop :=
  exists w,
    media_id
    = media_of (requests_post_file E (BlatoScheduler.base_url self ++ py "/v2/media/upload")
                  (BlatoScheduler._headers self) p w).1.

(** The round of [schedule_batch] for [item], scheduled at [t], on the files
    [fs]: its requests [calls] and the submission ids [ids] it adds.  An
    item without a video on disk is skipped.  Otherwise the video is
    uploaded; when the answer holds a media id, one post request follows,
    for that media id, with the caption of the item and the time [t]. *)
Definition timed_round (fs : gmap pystr N) (t : datetime) (item : list (pystr * val))
    (calls : list event) (ids : list val) : Prop :=
  let caption := get item (py "caption") (VStr []) in
  match get item (py "video_path") (VStr []) with
  | VStr p =>
      match p, fs !! p with
      | _ :: _, Some _ =>
          exists media_id,
            upload_answers p media_id
            /\ ((truthy media_id = false
                 /\ calls = [upload_request self p] /\ ids = [])
                \/ (truthy media_id = true
                    /\ calls = [upload_request self p;
                                schedule_request L self platforms media_id caption t]
                    /\ (ids = [] \/ exists sub, ids = [sub] /\ truthy sub = true)))
      | _, _ => calls = [] /\ ids = []
      end
  | _ => calls = [] /\ ids = []
  end.

(** How far the loop of [schedule_batch] gets through its [entries], the
    videos with their indices: [done] are the entries it has handled.  It
    handles them all and returns [ids]; or it stops at the first entry whose
    video path is no path (a number, a list), on which [Path(video_path)]
    raises [TypeError]. *)
Definition handled (entries done : list (Z * list (pystr * val)))
    (r : result (list val)) (ids : list val) : Prop :=
  (done = entries /\ r = Ok ids)
  \/ (exists entry rest,
        entries = done ++ entry :: rest
        /\ ~ is_path (get entry.2 (py "video_path") (VStr []))
        /\ r = Raise TypeError).

End TimedRounds.

(* ===================================================================== *)
(** * More of the concrete world                                          *)
(* ===================================================================== *)

Module Scenario.
Import Example.

(** The state after discovery, and after the generation of the first row. *)
Definition discovered : state nat :=
  PipelineOrchestrator.run_ops the_lib the_world cfg
    [PipelineOrchestrator.Discovery 20] start.

Definition generated_once : state nat :=
  PipelineOrchestrator.run_ops the_lib the_world cfg
    [PipelineOrchestrator.Discovery 20; PipelineOrchestrator.Generation [1%Z]] start.

(** Apify answers, with empty datasets. *)
Definition empty_apify : externals nat :=
  {| clock_now := clock_now the_world;
     random_choice := random_choice the_world;
     apify_actor_call := apify_actor_call the_world;
     apify_dataset_items := fun _ w => (Ok [], w);
     gemini_generate_content := gemini_generate_content the_world;
     requests_post_json := requests_post_json the_world;
     requests_post_file := requests_post_file the_world;
     requests_get_json := requests_get_json the_world;
     requests_get_stream := requests_get_stream the_world;
     text_to_speech_convert := text_to_speech_convert the_world;
     voices_get_all := voices_get_all the_world;
     which_ffmpeg := which_ffmpeg the_world;
     subprocess_ffmpeg := subprocess_ffmpeg the_world;
     subprocess_ffprobe := subprocess_ffprobe the_world |}.

(** The upload of the video a.mp4 fails; every other request is answered. *)
Definition upload_of_a_fails : externals nat :=
  {| clock_now := clock_now the_world;
     random_choice := random_choice the_world;
     apify_actor_call := apify_actor_call the_world;
     apify_dataset_items := apify_dataset_items the_world;
     gemini_generate_content := gemini_generate_content the_world;
     requests_post_json := requests_post_json the_world;
     requests_post_file := fun url headers path w =>
       if pystr_eqb path (video (py "a.mp4"))
       then (Raise (OtherError (py "HTTPError")), w)
       else requests_post_file the_world url headers path w;
     requests_get_json := requests_get_json the_world;
     requests_get_stream := requests_get_stream the_world;
     text_to_speech_convert := text_to_speech_convert the_world;
     voices_get_all := voices_get_all the_world;
     which_ffmpeg := which_ffmpeg the_world;
     subprocess_ffmpeg := subprocess_ffmpeg the_world;
     subprocess_ffprobe := subprocess_ffprobe the_world |}.

(** Two rows, both generated: the first with the video a.mp4, the second
    with the video b.mp4. *)
Definition two_generated_db : Db.t :=
  let d1 := (Db.insert_content None (Some (py "AI tools")) (Some (py "{}"))
               (Some (py "first")) noon Db.empty).2 in
  let d2 := (Db.insert_content None (Some (py "AI news")) (Some (py "{}"))
               (Some (py "second")) noon d1).2 in
  let d3 := Db.update_row 1 Db.Generated noon
              [(Db.Col_final_video_path, Some (video (py "a.mp4")))]
              (Db.update_row 1 Db.Generating noon [] d2) in
  Db.update_row 2 Db.Generated noon
    [(Db.Col_final_video_path, Some (video (py "b.mp4")))]
    (Db.update_row 2 Db.Generating noon [] d3).

Definition two_generated : state nat := with_db two_generated_db with_videos.

(** An editor on a machine without ffmpeg. *)
Definition editor_without_ffmpeg : VideoEditor.t := {| VideoEditor.ffmpeg_ok := false |}.

Definition generator : HiggsFieldGenerator.t :=
  {| HiggsFieldGenerator.base_url := Config.HIGGSFIELD_BASE_URL;
     HiggsFieldGenerator.api_key := py "higgs-key";
     HiggsFieldGenerator.api_secret := py "higgs-secret" |}.

Definition voice : ElevenLabsVoice.t :=
  {| ElevenLabsVoice.api_key := py "eleven-key";
     ElevenLabsVoice.client := Some (py "eleven-key") |}.

Definition analyzer : GeminiAnalyzer.t := {| GeminiAnalyzer.model := py "gemini-1.5-flash" |}.

(** A caption that opens with a link of 44 characters. *)
Definition link_caption : pystr :=
  py "https://example.org/three-tools-you-need-now watch this".

Definition voice_path : pystr :=
  Config.path_join (Config.AUDIO_DIR cfg) (py "voice_" ++ render noon ++ py "." ++ py "mp3").

(** The runs the statements are tried on. *)
Abbreviation generation_run :=
  (PipelineOrchestrator.run_generation the_lib the_world cfg [1; 2]%Z discovered).
Abbreviation scheduling_run :=
  (PipelineOrchestrator.run_scheduling the_lib the_world cfg [1%Z] None generated_once).
Abbreviation scheduling_after_failed_upload :=
  (PipelineOrchestrator.run_scheduling the_lib upload_of_a_fails cfg [1; 2]%Z None
     two_generated).
Abbreviation pipeline_run :=
  (PipelineOrchestrator.run_full_pipeline the_lib the_world cfg start).
Abbreviation video_run :=
  (HiggsFieldGenerator.generate_video the_lib the_world cfg generator
    (VStr (py "Three tools")) (py "soul-1") start).
Abbreviation voice_run :=
  (ElevenLabsVoice.synthesize the_lib the_world cfg voice (VStr (py "Here are three tools"))
    VNone None start).
Abbreviation analysis_run :=
  (GeminiAnalyzer.analyze_content the_lib the_world analyzer scraped start).
Abbreviation batch_run :=
  (BlatoScheduler.schedule_batch the_lib the_world cfg scheduler four_videos
    (Config.PLATFORMS cfg) with_videos).
Abbreviation insert_run :=
  (Database.add_content the_lib the_world (VStr (py "https://example.org/v/1"))
    (VStr (py "AI tools")) (py "{}") (VStr (py "Three tools you need")) start).

End Scenario.

(** ** The voice of a synthesis *)

(** The voice [synthesize] uses without asking the service: the one it is
    given or, failing that, the one of the configuration. *)
Definition known_voice (cfg : Config.t) (voice_id : val) : option val :=
  if truthy voice_id then Some voice_id
  else
    match Config.ELEVENLABS_VOICE_ID cfg with
    | _ :: _ => Some (VStr (Config.ELEVENLABS_VOICE_ID cfg))
    | [] => None
    end.

(* ===================================================================== *)
(** * Reasoning about computations                                        *)
(* ===================================================================== *)

Create HintDb total discriminated.
Create HintDb frame discriminated.

Section Rules.
Context {W : Type}.
Implicit Types s : state W.

(** ** Weakest preconditions *)

Lemma wp_mono {A} (m : M W A) (Q Q' : result A -> state W -> Prop) s :
  (forall r s', Q r s' -> Q' r s') -> wp m Q s -> wp m Q' s.
Proof. unfold wp. auto. Qed.

Lemma wp_ret {A} (a : A) (Q : result A -> state W -> Prop) s :
  Q (Ok a) s -> wp (ret a) Q s.
Proof. auto. Qed.

Lemma wp_bind {A B} (m : M W A) (k : A -> M W B) (Q : result B -> state W -> Prop) s :
  wp m (fun r s' => match r with
                    | Ok a => wp (k a) Q s'
                    | Raise e => Q (Raise e) s'
                    end) s ->
  wp (bind m k) Q s.
Proof. unfold wp, bind. destruct (m s) as [[a | e] s']; auto. Qed.

Lemma wp_try_except {A} (m : M W A) (h : exn -> M W A) (Q : result A -> state W -> Prop) s :
  wp m (fun r s' => match r with
                    | Ok a => Q (Ok a) s'
                    | Raise e => wp (h e) Q s'
                    end) s ->
  wp (try_except m h) Q s.
Proof. unfold wp, try_except. destruct (m s) as [[a | e] s']; auto. Qed.

(** The loop rule: [I] holds of the accumulator and the state before each
    round; an exception leaves the loop. *)
Lemma wp_for_each {A Acc} (I : list A -> Acc -> state W -> Prop)
    (body : Acc -> A -> M W Acc) (Q : result Acc -> state W -> Prop) :
  (forall acc s, I [] acc s -> Q (Ok acc) s) ->
  (forall x rest acc s, I (x :: rest) acc s ->
     wp (body acc x) (fun r s' => match r with
                                  | Ok acc' => I rest acc' s'
                                  | Raise e => Q (Raise e) s'
                                  end) s) ->
  forall l acc s, I l acc s -> wp (for_each l acc body) Q s.
Proof.
  intros Hnil Hcons l. induction l as [| x rest IH]; intros acc s HI.
  - apply wp_ret. auto.
  - cbn [for_each]. apply wp_bind.
    eapply wp_mono; [| apply Hcons; exact HI].
    intros [acc' | e] s' H; auto.
Qed.

(** ** Computations that return *)

Lemma total_ret {A} (a : A) : total (W := W) (ret a).
Proof. intros s. eauto. Qed.

Lemma total_bind {A B} (m : M W A) (k : A -> M W B) :
  total m -> (forall a, total (k a)) -> total (bind m k).
Proof.
  intros Hm Hk s. unfold bind. destruct (Hm s) as [a Ha].
  destruct (m s) as [r s']. cbn in Ha. subst r. apply Hk.
Qed.

(** A handler that returns makes the whole [try] return, whatever its body
    does. *)
Lemma total_try_except {A} (m : M W A) (h : exn -> M W A) :
  (forall e, total (h e)) -> total (try_except m h).
Proof.
  intros Hh s. unfold try_except. destruct (m s) as [[a | e] s']; [eauto | apply Hh].
Qed.

Lemma total_try_finally {A} (m : M W A) (fin : M W unit) :
  total m -> total fin -> total (try_finally m fin).
Proof.
  intros Hm Hf s. unfold try_finally. destruct (Hm s) as [a Ha].
  destruct (m s) as [r s']. cbn in Ha. subst r.
  destruct (Hf s') as [u Hu]. destruct (fin s') as [r' s'']. cbn in Hu. subst r'. eauto.
Qed.

Lemma total_for_each {A Acc} (l : list A) (body : Acc -> A -> M W Acc) :
  (forall acc x, total (body acc x)) -> forall acc, total (for_each l acc body).
Proof.
  intros Hb. induction l as [| x l IH]; intros acc.
  - apply total_ret.
  - cbn [for_each]. apply total_bind; auto.
Qed.

Lemma total_get_state : total (W := W) get_state.
Proof. intros s. eauto. Qed.

Lemma total_ask {A} (o : W -> A * W) : total (ask o).
Proof. intros s. unfold ask. destruct (o (st_world s)). eauto. Qed.

Lemma total_log l msg : total (W := W) (log l msg).
Proof. intros s. eauto. Qed.

Lemma total_modify_db f : total (W := W) (modify_db f).
Proof. intros s. eauto. Qed.

Lemma total_modify_fs f : total (W := W) (modify_fs f).
Proof. intros s. eauto. Qed.

Lemma total_lift_ok {A} (a : A) : total (W := W) (lift (Ok a)).
Proof. intros s. eauto. Qed.

(** ** Components of the state that stay as they are *)

Section Keeps.
Context {X : Type} (f : state W -> X).

Lemma keeps_ret {A} (a : A) : keeps f (ret a).
Proof. intros s. reflexivity. Qed.

Lemma keeps_raise {A} e : keeps f (raise (A := A) e).
Proof. intros s. reflexivity. Qed.

Lemma keeps_lift {A} (r : result A) : keeps f (lift r).
Proof. intros s. reflexivity. Qed.

Lemma keeps_get_state : keeps f get_state.
Proof. intros s. reflexivity. Qed.

Lemma keeps_bind {A B} (m : M W A) (k : A -> M W B) :
  keeps f m -> (forall a, keeps f (k a)) -> keeps f (bind m k).
Proof.
  intros Hm Hk s. unfold bind. specialize (Hm s).
  destruct (m s) as [[a | e] s']; cbn in *; [| assumption].
  rewrite Hk. assumption.
Qed.

Lemma keeps_try_except {A} (m : M W A) (h : exn -> M W A) :
  keeps f m -> (forall e, keeps f (h e)) -> keeps f (try_except m h).
Proof.
  intros Hm Hh s. unfold try_except. specialize (Hm s).
  destruct (m s) as [[a | e] s']; cbn in *; [assumption |].
  rewrite Hh. assumption.
Qed.

Lemma keeps_try_finally {A} (m : M W A) (fin : M W unit) :
  keeps f m -> keeps f fin -> keeps f (try_finally m fin).
Proof.
  intros Hm Hf s. unfold try_finally. specialize (Hm s).
  destruct (m s) as [r s']. specialize (Hf s').
  destruct (fin s') as [[u | e] s'']; cbn in *; congruence.
Qed.

Lemma keeps_for_each {A Acc} (l : list A) (body : Acc -> A -> M W Acc) :
  (forall acc x, keeps f (body acc x)) -> forall acc, keeps f (for_each l acc body).
Proof.
  intros Hb. induction l as [| x l IH]; intros acc.
  - apply keeps_ret.
  - cbn [for_each]. apply keeps_bind; auto.
Qed.

Lemma keeps_map_m {A B} (g : A -> M W B) (l : list A) :
  (forall x, keeps f (g x)) -> keeps f (map_m g l).
Proof.
  intros Hg. induction l as [| x l IH].
  - apply keeps_ret.
  - cbn [map_m]. apply keeps_bind; [auto |]. intros y.
    apply keeps_bind; [auto |]. intros ys. apply keeps_ret.
Qed.

End Keeps.

(** ** Components of the state that only grow *)

Section Extends.
Context {X : Type} (f : state W -> list X) (P : X -> Prop).

Lemma keeps_extends {A} (m : M W A) : keeps f m -> extends f P m.
Proof. intros H s. exists []. rewrite H, app_nil_r. auto. Qed.

Lemma extends_bind {A B} (m : M W A) (k : A -> M W B) :
  extends f P m -> (forall a, extends f P (k a)) -> extends f P (bind m k).
Proof.
  intros Hm Hk s. unfold bind. destruct (Hm s) as (n1 & E1 & F1).
  destruct (m s) as [[a | e] s']; cbn in *; [| eauto].
  destruct (Hk a s') as (n2 & E2 & F2). exists (n1 ++ n2).
  rewrite E2, E1, app_assoc. split; [reflexivity | apply Forall_app; auto].
Qed.

Lemma extends_try_except {A} (m : M W A) (h : exn -> M W A) :
  extends f P m -> (forall e, extends f P (h e)) -> extends f P (try_except m h).
Proof.
  intros Hm Hh s. unfold try_except. destruct (Hm s) as (n1 & E1 & F1).
  destruct (m s) as [[a | e] s']; cbn in *; [eauto |].
  destruct (Hh e s') as (n2 & E2 & F2). exists (n1 ++ n2).
  rewrite E2, E1, app_assoc. split; [reflexivity | apply Forall_app; auto].
Qed.

Lemma extends_for_each_in {A Acc} (l : list A) (body : Acc -> A -> M W Acc) :
  (forall acc x, x ∈ l -> extends f P (body acc x)) ->
  forall acc, extends f P (for_each l acc body).
Proof.
  induction l as [| x l IH]; intros Hb acc.
  - apply keeps_extends, keeps_ret.
  - cbn [for_each]. apply extends_bind.
    + apply Hb. left.
    + intros acc'. apply IH. intros acc'' y Hy. apply Hb. right. exact Hy.
Qed.

End Extends.

(** ** The primitive effects *)

Lemma keeps_db_ask {A} (o : W -> A * W) : keeps st_db (ask o).
Proof. intros s. unfold ask. destruct (o (st_world s)). reflexivity. Qed.

Lemma keeps_db_call {A} ev (o : W -> result A * W) : keeps st_db (call ev o).
Proof. intros s. unfold call. destruct (o (st_world s)). reflexivity. Qed.

Lemma keeps_db_log l msg : keeps (W := W) st_db (log l msg).
Proof. intros s. reflexivity. Qed.

Lemma keeps_db_modify_fs g : keeps (W := W) st_db (modify_fs g).
Proof. intros s. reflexivity. Qed.

Lemma keeps_db_write_stream ev (o : W -> stream * W) path :
  keeps st_db (write_stream ev o path).
Proof.
  intros s. unfold write_stream. destruct (o (st_world s)) as [[[n [e |]] | e] w]; reflexivity.
Qed.

Lemma keeps_calls_ask {A} (o : W -> A * W) : keeps st_calls (ask o).
Proof. intros s. unfold ask. destruct (o (st_world s)). reflexivity. Qed.

Lemma keeps_calls_log l msg : keeps (W := W) st_calls (log l msg).
Proof. intros s. reflexivity. Qed.

Lemma keeps_calls_modify_fs g : keeps (W := W) st_calls (modify_fs g).
Proof. intros s. reflexivity. Qed.

Lemma keeps_calls_modify_db g : keeps (W := W) st_calls (modify_db g).
Proof. intros s. reflexivity. Qed.

Lemma extends_calls_call {A} (P : event -> Prop) ev (o : W -> result A * W) :
  P ev -> extends st_calls P (call ev o).
Proof.
  intros HP s. unfold call. destruct (o (st_world s)) as [r w]. exists [ev].
  split; [reflexivity | auto].
Qed.

End Rules.

#[export] Hint Resolve total_ret total_get_state total_ask total_log total_modify_db
  total_modify_fs total_lift_ok : total.
#[export] Hint Resolve keeps_ret keeps_raise keeps_lift keeps_get_state
  keeps_db_ask keeps_db_call keeps_db_log keeps_db_modify_fs keeps_db_write_stream
  keeps_calls_ask keeps_calls_log keeps_calls_modify_fs keeps_calls_modify_db : frame.

(** One step through the structure of a computation, for the goals
    [total], [keeps] and [extends]. *)
Ltac total_step :=
  lazymatch goal with
  | |- total (bind _ _) => apply total_bind; [| intros ?]
  | |- total (try_except _ _) => apply total_try_except; intros ?
  | |- total (try_finally _ _) => apply total_try_finally
  | |- total (for_each _ _ _) => apply total_for_each; intros ? ?
  | |- total (match ?x with _ => _ end) => destruct x
  | |- total _ => solve [auto with total]
  end.

Ltac keeps_step :=
  lazymatch goal with
  | |- keeps _ (bind _ _) => apply keeps_bind; [| intros ?]
  | |- keeps _ (try_except _ _) => apply keeps_try_except; [| intros ?]
  | |- keeps _ (try_finally _ _) => apply keeps_try_finally
  | |- keeps _ (for_each _ _ _) => apply keeps_for_each; intros ? ?
  | |- keeps _ (map_m _ _) => apply keeps_map_m; intros ?
  | |- keeps _ (match ?x with _ => _ end) => destruct x
  | |- keeps _ _ => solve [auto with frame]
  end.

Ltac extends_step :=
  lazymatch goal with
  | |- extends _ _ (bind _ _) => apply extends_bind; [| intros ?]
  | |- extends _ _ (try_except _ _) => apply extends_try_except; [| intros ?]
  | |- extends _ _ (match ?x with _ => _ end) => destruct x
  | |- extends _ _ _ => solve [apply keeps_extends; auto with frame]
  end.

Section MoreRules.
Context {W : Type}.

(** A pure step that may raise: the rest runs only on its value. *)
Lemma extends_bind_lift {X A B} (f : state W -> list X) (P : X -> Prop)
    (r : result A) (k : A -> M W B) :
  (forall a, r = Ok a -> extends f P (k a)) -> extends f P (bind (lift r) k).
Proof.
  intros Hk s. unfold bind, lift. destruct r as [a | e].
  - apply Hk. reflexivity.
  - exists []. rewrite app_nil_r. auto.
Qed.

Lemma keeps_bind_lift {X A B} (f : state W -> X) (r : result A) (k : A -> M W B) :
  (forall a, r = Ok a -> keeps f (k a)) -> keeps f (bind (lift r) k).
Proof.
  intros Hk s. unfold bind, lift. destruct r as [a | e]; [apply Hk |]; reflexivity.
Qed.

End MoreRules.

(* ===================================================================== *)
(** * Which code touches the database, and which code returns             *)
(* ===================================================================== *)

Section Frames.
Context {W : Type} (L : Py.lib) (E : externals W) (cfg : Config.t).

Lemma keeps_db_call_with_fs {A} (ev : event) (o : gmap pystr N -> W -> result A * W) :
  keeps st_db (call_with_fs ev o).
Proof. intros s. unfold call_with_fs. apply keeps_db_call. Qed.

(** ** utils/file_manager.py *)

Lemma timestamped_name_db prefix ext :
  keeps st_db (FileManager.timestamped_name L E prefix ext).
Proof. unfold FileManager.timestamped_name. repeat keeps_step. Qed.

Lemma timestamped_name_total prefix ext :
  total (FileManager.timestamped_name L E prefix ext).
Proof. unfold FileManager.timestamped_name. repeat total_step. Qed.

Lemma save_json_db data dir prefix :
  keeps st_db (FileManager.save_json L E data dir prefix).
Proof. unfold FileManager.save_json. repeat keeps_step. Qed.

Lemma save_json_total data dir prefix :
  total (FileManager.save_json L E data dir prefix).
Proof. unfold FileManager.save_json. repeat total_step. Qed.

Lemma verify_file_db path n : keeps (W := W) st_db (FileManager.verify_file path n).
Proof. unfold FileManager.verify_file. repeat keeps_step. Qed.

Lemma verify_file_total path n : total (W := W) (FileManager.verify_file path n).
Proof. unfold FileManager.verify_file. repeat total_step. Qed.

Lemma exists_db path : keeps (W := W) st_db (FileManager.exists_ path).
Proof. unfold FileManager.exists_. repeat keeps_step. Qed.

Lemma exists_total path : total (W := W) (FileManager.exists_ path).
Proof. unfold FileManager.exists_. repeat total_step. Qed.

Lemma copy2_db src dst : keeps (W := W) st_db (FileManager.copy2 src dst).
Proof. unfold FileManager.copy2. repeat keeps_step. Qed.

Lemma unlink_files_in_db dir : keeps (W := W) st_db (FileManager.unlink_files_in dir).
Proof. unfold FileManager.unlink_files_in. repeat keeps_step. Qed.

Lemma unlink_files_in_total dir : total (W := W) (FileManager.unlink_files_in dir).
Proof. unfold FileManager.unlink_files_in. repeat total_step. Qed.

Hint Resolve keeps_db_call_with_fs timestamped_name_db save_json_db verify_file_db
  exists_db copy2_db unlink_files_in_db : frame.
Hint Resolve timestamped_name_total save_json_total verify_file_total exists_total
  unlink_files_in_total : total.

(** ** pipeline/video_editor.py *)

Lemma subprocess_run_ffmpeg_db cmd : keeps st_db (VideoEditor.subprocess_run_ffmpeg E cmd).
Proof.
  intros s. unfold VideoEditor.subprocess_run_ffmpeg.
  destruct (subprocess_ffmpeg E cmd (st_fs s) (st_world s)) as [[r written] w].
  reflexivity.
Qed.

Hint Resolve subprocess_run_ffmpeg_db : frame.

Lemma editor_init_db : keeps st_db (VideoEditor.__init__ E).
Proof. unfold VideoEditor.__init__, VideoEditor._check_ffmpeg. repeat keeps_step. Qed.

Lemma editor_init_total : total (VideoEditor.__init__ E).
Proof. unfold VideoEditor.__init__, VideoEditor._check_ffmpeg. repeat total_step. Qed.

Lemma _run_ffmpeg_db self args : keeps st_db (VideoEditor._run_ffmpeg E self args).
Proof. unfold VideoEditor._run_ffmpeg. repeat keeps_step. Qed.

(** Whatever the ffmpeg process does, [_run_ffmpeg] returns a boolean. *)
Lemma _run_ffmpeg_total self args : total (VideoEditor._run_ffmpeg E self args).
Proof. unfold VideoEditor._run_ffmpeg. repeat total_step. Qed.

Lemma _get_duration_db self path : keeps st_db (VideoEditor._get_duration L E self path).
Proof. unfold VideoEditor._get_duration. repeat keeps_step. Qed.

Lemma _get_duration_total self path : total (VideoEditor._get_duration L E self path).
Proof. unfold VideoEditor._get_duration. repeat total_step. Qed.

Hint Resolve editor_init_db _run_ffmpeg_db _get_duration_db : frame.
Hint Resolve editor_init_total _run_ffmpeg_total _get_duration_total : total.

Lemma run_and_verify_db self args o done :
  keeps st_db (VideoEditor.run_and_verify E self args o done).
Proof. unfold VideoEditor.run_and_verify. repeat keeps_step. Qed.

Lemma run_and_verify_total self args o done :
  total (VideoEditor.run_and_verify E self args o done).
Proof. unfold VideoEditor.run_and_verify. repeat total_step. Qed.

Lemma default_output_path_db o : keeps st_db (VideoEditor.default_output_path L E cfg o).
Proof. unfold VideoEditor.default_output_path. repeat keeps_step. Qed.

Lemma default_output_path_total o : total (VideoEditor.default_output_path L E cfg o).
Proof. unfold VideoEditor.default_output_path. repeat total_step. Qed.

Hint Resolve run_and_verify_db default_output_path_db : frame.
Hint Resolve run_and_verify_total default_output_path_total : total.

Lemma add_audio_to_video_db self v a o :
  keeps st_db (VideoEditor.add_audio_to_video L E self v a o).
Proof. unfold VideoEditor.add_audio_to_video. repeat keeps_step. Qed.

Lemma add_audio_to_video_total self v a o :
  total (VideoEditor.add_audio_to_video L E self v a o).
Proof. unfold VideoEditor.add_audio_to_video. repeat total_step. Qed.

Lemma add_captions_db self v c o : keeps st_db (VideoEditor.add_captions E self v c o).
Proof. unfold VideoEditor.add_captions. repeat keeps_step. Qed.

Lemma add_intro_card_db self v h o : keeps st_db (VideoEditor.add_intro_card E self v h o).
Proof. unfold VideoEditor.add_intro_card. repeat keeps_step. Qed.

Hint Resolve add_audio_to_video_db add_captions_db add_intro_card_db : frame.
Hint Resolve add_audio_to_video_total : total.

Lemma compose_final_db self v a c h o :
  keeps st_db (VideoEditor.compose_final L E cfg self v a c h o).
Proof.
  unfold VideoEditor.compose_final, VideoEditor.compose_steps. repeat keeps_step.
Qed.

(** [compose_final] catches whatever its steps raise. *)
Lemma compose_final_total self v a c h o :
  total (VideoEditor.compose_final L E cfg self v a c h o).
Proof. unfold VideoEditor.compose_final. repeat total_step. Qed.

Hint Resolve compose_final_db : frame.
Hint Resolve compose_final_total : total.

(** ** pipeline/video_generator.py *)

Lemma higgs_init_db : keeps (W := W) st_db (HiggsFieldGenerator.__init__ cfg).
Proof. unfold HiggsFieldGenerator.__init__. cbn. repeat keeps_step. Qed.

Lemma higgs_init_total : total (W := W) (HiggsFieldGenerator.__init__ cfg).
Proof. unfold HiggsFieldGenerator.__init__. cbn. repeat total_step. Qed.

Lemma poll_once_db self url k d : keeps st_db (HiggsFieldGenerator.poll_once E self url k d).
Proof. unfold HiggsFieldGenerator.poll_once. repeat keeps_step. Qed.

Lemma poll_once_total self url k d : total (HiggsFieldGenerator.poll_once E self url k d).
Proof. unfold HiggsFieldGenerator.poll_once. repeat total_step. Qed.

Hint Resolve higgs_init_db poll_once_db : frame.
Hint Resolve higgs_init_total poll_once_total : total.

Lemma _poll_status_db self url k d n :
  keeps st_db (HiggsFieldGenerator._poll_status E self url k d n).
Proof. induction n; cbn [HiggsFieldGenerator._poll_status]; repeat keeps_step. Qed.

Lemma _poll_status_total self url k d n :
  total (HiggsFieldGenerator._poll_status E self url k d n).
Proof. induction n; cbn [HiggsFieldGenerator._poll_status]; repeat total_step. Qed.

Lemma _download_file_db url path : keeps st_db (HiggsFieldGenerator._download_file E url path).
Proof. unfold HiggsFieldGenerator._download_file. repeat keeps_step. Qed.

Hint Resolve _poll_status_db _download_file_db : frame.
Hint Resolve _poll_status_total : total.

Lemma generate_video_db self prompt soul :
  keeps st_db (HiggsFieldGenerator.generate_video L E cfg self prompt soul).
Proof.
  unfold HiggsFieldGenerator.generate_video, HiggsFieldGenerator.generate_video_request.
  repeat keeps_step.
Qed.

(** [generate_video] catches whatever the API calls raise. *)
Lemma generate_video_total self prompt soul :
  total (HiggsFieldGenerator.generate_video L E cfg self prompt soul).
Proof. unfold HiggsFieldGenerator.generate_video. repeat total_step. Qed.

Hint Resolve generate_video_db : frame.
Hint Resolve generate_video_total : total.

(** ** pipeline/voice_synthesizer.py *)

Lemma voice_init_db : keeps (W := W) st_db (ElevenLabsVoice.__init__ cfg).
Proof. unfold ElevenLabsVoice.__init__. repeat keeps_step. Qed.

Lemma voice_init_total : total (W := W) (ElevenLabsVoice.__init__ cfg).
Proof. unfold ElevenLabsVoice.__init__. repeat total_step. Qed.

Lemma _resolve_voice_id_db self v : keeps st_db (ElevenLabsVoice._resolve_voice_id E cfg self v).
Proof. unfold ElevenLabsVoice._resolve_voice_id. repeat keeps_step. Qed.

Lemma _resolve_voice_id_total self v :
  total (ElevenLabsVoice._resolve_voice_id E cfg self v).
Proof. unfold ElevenLabsVoice._resolve_voice_id. repeat total_step. Qed.

Hint Resolve voice_init_db _resolve_voice_id_db : frame.
Hint Resolve voice_init_total _resolve_voice_id_total : total.

Lemma synthesize_db self text v o :
  keeps st_db (ElevenLabsVoice.synthesize L E cfg self text v o).
Proof. unfold ElevenLabsVoice.synthesize. repeat keeps_step. Qed.

(** [synthesize] catches whatever the text-to-speech call raises. *)
Lemma synthesize_total self text v o :
  total (ElevenLabsVoice.synthesize L E cfg self text v o).
Proof. unfold ElevenLabsVoice.synthesize. repeat total_step. Qed.

Hint Resolve synthesize_db : frame.
Hint Resolve synthesize_total : total.

Lemma synthesize_script_db self script v :
  keeps st_db (ElevenLabsVoice.synthesize_script L E cfg self script v).
Proof. unfold ElevenLabsVoice.synthesize_script. repeat keeps_step. Qed.

Hint Resolve synthesize_script_db : frame.

(** ** pipeline/scheduler.py *)

Lemma blato_init_db : keeps (W := W) st_db (BlatoScheduler.__init__ cfg).
Proof. unfold BlatoScheduler.__init__. cbn. repeat keeps_step. Qed.

(** The constructor returns also when the key is missing. *)
Lemma blato_init_total : total (W := W) (BlatoScheduler.__init__ cfg).
Proof. unfold BlatoScheduler.__init__. cbn. repeat total_step. Qed.

Lemma upload_media_db self path : keeps st_db (BlatoScheduler.upload_media E self path).
Proof. unfold BlatoScheduler.upload_media. repeat keeps_step. Qed.

(** [upload_media] catches whatever the upload raises. *)
Lemma upload_media_total self path : total (BlatoScheduler.upload_media E self path).
Proof. unfold BlatoScheduler.upload_media. repeat total_step. Qed.

Lemma schedule_post_db self m c p t :
  keeps st_db (BlatoScheduler.schedule_post E self m c p t).
Proof. unfold BlatoScheduler.schedule_post. repeat keeps_step. Qed.

(** [schedule_post] catches whatever the request raises. *)
Lemma schedule_post_total self m c p t :
  total (BlatoScheduler.schedule_post E self m c p t).
Proof. unfold BlatoScheduler.schedule_post. repeat total_step. Qed.

Lemma video_present_db v : keeps (W := W) st_db (BlatoScheduler.video_present v).
Proof. unfold BlatoScheduler.video_present. repeat keeps_step. Qed.

Hint Resolve blato_init_db upload_media_db schedule_post_db video_present_db : frame.
Hint Resolve blato_init_total upload_media_total schedule_post_total : total.

Lemma schedule_item_db self platforms now ids entry :
  keeps st_db (BlatoScheduler.schedule_item L E cfg self platforms now ids entry).
Proof. unfold BlatoScheduler.schedule_item. repeat keeps_step. Qed.

Hint Resolve schedule_item_db : frame.

Lemma schedule_batch_db self batch platforms :
  keeps st_db (BlatoScheduler.schedule_batch L E cfg self batch platforms).
Proof. unfold BlatoScheduler.schedule_batch. repeat keeps_step. Qed.

Hint Resolve schedule_batch_db : frame.

(** ** pipeline/scraper.py and pipeline/analyzer.py *)

Lemma scraper_init_db : keeps (W := W) st_db (ApifyScraper.__init__ cfg).
Proof. unfold ApifyScraper.__init__. repeat keeps_step. Qed.

Lemma _run_actor_db self actor input t :
  keeps st_db (ApifyScraper._run_actor E self actor input t).
Proof. unfold ApifyScraper._run_actor. repeat keeps_step. Qed.

Hint Resolve scraper_init_db _run_actor_db : frame.

Lemma scrape_db self actor input failed normalise prefix :
  keeps st_db (ApifyScraper.scrape L E cfg self actor input failed normalise prefix).
Proof. unfold ApifyScraper.scrape. repeat keeps_step. Qed.

Hint Resolve scrape_db : frame.

Lemma get_top_content_db self count :
  keeps st_db (ApifyScraper.get_top_content L E cfg self count).
Proof.
  unfold ApifyScraper.get_top_content, ApifyScraper.scrape_viral_tiktok,
    ApifyScraper.scrape_viral_instagram, ApifyScraper.scrape_viral_youtube.
  repeat keeps_step.
Qed.

Lemma analyzer_init_db : keeps (W := W) st_db (GeminiAnalyzer.__init__ cfg).
Proof. unfold GeminiAnalyzer.__init__. repeat keeps_step. Qed.

Lemma _call_gemini_db self prompt : keeps st_db (GeminiAnalyzer._call_gemini L E self prompt).
Proof. unfold GeminiAnalyzer._call_gemini. repeat keeps_step. Qed.

Hint Resolve get_top_content_db analyzer_init_db _call_gemini_db : frame.

Lemma analyze_content_db self content :
  keeps st_db (GeminiAnalyzer.analyze_content L E self content).
Proof.
  unfold GeminiAnalyzer.analyze_content, GeminiAnalyzer.analyze_item. repeat keeps_step.
Qed.

Hint Resolve analyze_content_db : frame.

(** ** database.py *)

Lemma get_content_db id : keeps (W := W) st_db (Database.get_content id).
Proof. unfold Database.get_content. repeat keeps_step. Qed.

Lemma get_content_total id : total (W := W) (Database.get_content id).
Proof. unfold Database.get_content. repeat total_step. Qed.

End Frames.

#[export] Hint Resolve keeps_db_call_with_fs timestamped_name_db save_json_db
  verify_file_db exists_db copy2_db unlink_files_in_db subprocess_run_ffmpeg_db
  editor_init_db _run_ffmpeg_db _get_duration_db run_and_verify_db default_output_path_db
  add_audio_to_video_db add_captions_db
  add_intro_card_db compose_final_db higgs_init_db poll_once_db _poll_status_db
  _download_file_db generate_video_db voice_init_db _resolve_voice_id_db synthesize_db
  synthesize_script_db blato_init_db upload_media_db schedule_post_db video_present_db
  schedule_item_db schedule_batch_db scraper_init_db _run_actor_db scrape_db
  get_top_content_db analyzer_init_db _call_gemini_db analyze_content_db
  get_content_db : frame.
#[export] Hint Resolve timestamped_name_total save_json_total verify_file_total
  exists_total unlink_files_in_total editor_init_total _run_ffmpeg_total
  _get_duration_total run_and_verify_total default_output_path_total
  add_audio_to_video_total compose_final_total higgs_init_total
  poll_once_total _poll_status_total generate_video_total voice_init_total
  _resolve_voice_id_total synthesize_total blato_init_total upload_media_total
  schedule_post_total get_content_total : total.

(* ===================================================================== *)
(** * Captions: splitting, stripping and wrapping                         *)
(* ===================================================================== *)

Lemma split_aux_word cur w :
  nonspace w -> cur ++ w <> [] -> split_aux cur w = [rev cur ++ w].
Proof.
  revert cur. induction w as [| c w IH]; intros cur Hw Hne.
  - rewrite app_nil_r in *. cbn. destruct cur; [congruence | reflexivity].
  - inversion Hw as [| ? ? Hc Hw']; subst. cbn. rewrite Hc.
    rewrite IH; [| assumption | discriminate].
    cbn. rewrite <- app_assoc. reflexivity.
Qed.

Lemma split_word w : is_word w -> split w = [w].
Proof. intros [Hne Hw]. unfold split. rewrite split_aux_word; auto. Qed.

Lemma split_aux_app_space cur a c b :
  isspace c = true ->
  split_aux cur (a ++ c :: b) = split_aux cur a ++ split b.
Proof.
  intros Hc. revert cur. induction a as [| x a IH]; intros cur.
  - cbn. rewrite Hc. destruct cur; reflexivity.
  - cbn. destruct (isspace x).
    + destruct cur; rewrite IH; reflexivity.
    + apply IH.
Qed.

Lemma split_app_space a c b :
  isspace c = true -> split (a ++ c :: b) = split a ++ split b.
Proof. apply split_aux_app_space. Qed.

Lemma split_aux_words cur s : nonspace cur -> Forall is_word (split_aux cur s).
Proof.
  revert cur. induction s as [| c s IH]; intros cur Hcur.
  - cbn. destruct cur as [| x cur]; [constructor |].
    repeat constructor.
    + intros H. apply (f_equal (@length _)) in H. rewrite length_rev in H. discriminate.
    + apply Forall_rev. exact Hcur.
  - cbn. destruct (isspace c) eqn:Hc.
    + destruct cur as [| x cur]; [apply IH; constructor |].
      constructor; [| apply IH; constructor].
      split.
      * intros H. apply (f_equal (@length _)) in H. rewrite length_rev in H. discriminate.
      * apply Forall_rev. exact Hcur.
    + apply IH. constructor; assumption.
Qed.

Lemma split_words s : Forall is_word (split s).
Proof. apply split_aux_words. constructor. Qed.

Lemma lstrip_head c s : isspace c = false -> lstrip (c :: s) = c :: s.
Proof. intros H. cbn. rewrite H. reflexivity. Qed.

Lemma lstrip_app a b : a <> [] -> lstrip a = a -> lstrip (a ++ b) = a ++ b.
Proof.
  destruct a as [| c a]; [congruence |]. intros _. cbn.
  destruct (isspace c) eqn:Hc; [| reflexivity].
  intros H. exfalso.
  assert (Hlen : forall s, length (lstrip s) <= length s).
  { clear. induction s as [| x s IH]; cbn; [lia |]. destruct (isspace x); cbn; lia. }
  specialize (Hlen a). rewrite H in Hlen. cbn in Hlen. lia.
Qed.

Lemma lstrip_word w : is_word w -> lstrip w = w.
Proof.
  intros [Hne Hw]. destruct w as [| c w]; [congruence |].
  inversion Hw; subst. apply lstrip_head. assumption.
Qed.

Lemma rstrip_app a b : b <> [] -> rstrip b = b -> rstrip (a ++ b) = a ++ b.
Proof.
  unfold rstrip. intros Hne Hb. rewrite rev_app_distr.
  rewrite lstrip_app.
  - rewrite <- rev_app_distr. apply rev_involutive.
  - intros H. apply Hne. apply (f_equal (@rev _)) in H. rewrite rev_involutive in H. exact H.
  - apply (f_equal (@rev _)) in Hb. rewrite rev_involutive in Hb. exact Hb.
Qed.

Lemma rstrip_word w : is_word w -> rstrip w = w.
Proof.
  intros [Hne Hw]. unfold rstrip.
  assert (Hr : is_word (rev w)).
  { split.
    - intros H. apply Hne. apply (f_equal (@rev _)) in H. rewrite rev_involutive in H. exact H.
    - apply Forall_rev. exact Hw. }
  rewrite (lstrip_word _ Hr). apply rev_involutive.
Qed.

Lemma tight_word w : is_word w -> tight w.
Proof. intros H. split; [apply lstrip_word | apply rstrip_word]; assumption. Qed.

Lemma space_32 : isspace 32 = true.
Proof. reflexivity. Qed.

Lemma strip_space_word w : is_word w -> strip ([] ++ py " " ++ w) = w.
Proof.
  intros Hw. unfold strip. cbn. rewrite (lstrip_word _ Hw). apply rstrip_word. exact Hw.
Qed.

Lemma strip_join cur w :
  cur <> [] -> tight cur -> is_word w ->
  strip (cur ++ py " " ++ w) = cur ++ py " " ++ w /\ tight (cur ++ py " " ++ w).
Proof.
  intros Hne [Hl Hr] Hw.
  assert (H1 : lstrip (cur ++ py " " ++ w) = cur ++ py " " ++ w) by (apply lstrip_app; assumption).
  assert (H2 : rstrip (cur ++ py " " ++ w) = cur ++ py " " ++ w).
  { rewrite app_assoc. apply rstrip_app; [apply Hw | apply rstrip_word, Hw]. }
  unfold strip, tight. rewrite H1. auto.
Qed.

Lemma split_join cur w : is_word w -> split (cur ++ py " " ++ w) = split cur ++ [w].
Proof.
  intros Hw. change (py " " ++ w) with (32%N :: w).
  rewrite split_app_space by reflexivity. rewrite (split_word _ Hw). reflexivity.
Qed.

Lemma wrap_step_inv done st w :
  is_word w -> (len w <= 39)%Z -> wrap_inv done st ->
  wrap_inv (done ++ [w]) (VideoEditor.wrap_step st w).
Proof.
  intros Hw Hlen. destruct st as [lines cur]. unfold wrap_inv. cbn [fst snd].
  intros (Hlines & Hcur & Ht & Hdone).
  unfold VideoEditor.wrap_step.
  destruct (len cur + len w + 1 >? 40)%Z eqn:Hgt; cbn [fst snd].
  - split; [apply Forall_app; split; [assumption | repeat constructor; assumption] |].
    split; [lia |]. split; [apply tight_word; assumption |].
    rewrite map_app, concat_app. cbn [map concat]. rewrite app_nil_r, Hdone.
    rewrite (split_word _ Hw). reflexivity.
  - assert (Hsum : (len cur + len w + 1 <= 40)%Z) by lia.
    destruct cur as [| c cur].
    + rewrite (strip_space_word _ Hw). split; [assumption |].
      split; [lia |]. split; [apply tight_word; assumption |].
      rewrite <- Hdone. change (split []) with (@nil pystr).
      rewrite (split_word _ Hw), app_nil_r. reflexivity.
    + destruct (strip_join (c :: cur) w) as [Hs Ht']; [discriminate | assumption | assumption |].
      rewrite Hs. split; [assumption |].
      split.
      { unfold len in *. rewrite !length_app. change (length (py " ")) with 1. lia. }
      split; [assumption |].
      rewrite split_join by assumption. rewrite app_assoc, Hdone. reflexivity.
Qed.

Lemma wrap_fold_inv ws : forall done st,
  Forall is_word ws -> Forall (fun w => (len w <= 39)%Z) ws ->
  wrap_inv done st -> wrap_inv (done ++ ws) (fold_left VideoEditor.wrap_step ws st).
Proof.
  induction ws as [| w ws IH]; intros done st Hw Hlen Hinv.
  - rewrite app_nil_r. exact Hinv.
  - inversion Hw; inversion Hlen; subst. cbn [fold_left].
    replace (done ++ w :: ws) with ((done ++ [w]) ++ ws) by (rewrite <- app_assoc; reflexivity).
    apply IH; [assumption | assumption |]. apply wrap_step_inv; assumption.
Qed.

(** C10. When every word of the caption has at most 39 characters, every line
    [add_captions] builds has at most 40, and the words of the lines, read in
    order, are the words of the caption. *)
Theorem add_captions_wraps_at_40 caption :
  Forall (fun w => (len w <= 39)%Z) (split caption) ->
  Forall (fun l => (len l <= 40)%Z) (VideoEditor.wrap_lines caption)
  /\ concat (map split (VideoEditor.wrap_lines caption)) = split caption.
Proof.
  intros Hlen. unfold VideoEditor.wrap_lines.
  assert (Hinv : wrap_inv ([] ++ split caption)
                   (fold_left VideoEditor.wrap_step (split caption) ([], []))).
  { apply wrap_fold_inv; [apply split_words | assumption |].
    unfold wrap_inv. cbn [fst snd]. repeat split; auto. unfold len. cbn. lia. }
  destruct (fold_left VideoEditor.wrap_step (split caption) ([], [])) as [lines cur].
  unfold wrap_inv in Hinv. cbn [fst snd app] in Hinv.
  destruct Hinv as (Hlines & Hcur & _ & Hdone).
  destruct cur as [| c cur].
  - split; [assumption |]. rewrite <- Hdone. change (split []) with (@nil pystr).
    rewrite app_nil_r. reflexivity.
  - split; [apply Forall_app; split; [assumption | repeat constructor; assumption] |].
    rewrite map_app, concat_app. cbn [map concat]. rewrite app_nil_r. exact Hdone.
Qed.

(* ===================================================================== *)
(** * Batch scheduling: the time each item is posted at                   *)
(* ===================================================================== *)

Section ScheduleTimes.
Local Open Scope Z_scope.

(** With a positive number of posts per day, no step of the computation
    raises: the day is [i // posts_per_day + 1] days ahead and the hour is
    the slot [(i % posts_per_day) % 3]. *)
Lemma schedule_dt_positive now ppd i :
  0 < ppd ->
  BlatoScheduler.schedule_dt now ppd i
  = Ok (day_at now (i / ppd + 1) (slot_hour ((i mod ppd) mod 3))).
Proof.
  intros Hppd. unfold BlatoScheduler.schedule_dt, floordiv, pymod.
  destruct (Z.eqb_spec ppd 0) as [-> | _]; [lia |].
  change (Z.of_nat (length BlatoScheduler.hours)) with 3.
  pose proof (Z.mod_pos_bound (i mod ppd) 3 ltac:(lia)) as Hk.
  unfold getitem_list. change (Z.of_nat (length BlatoScheduler.hours)) with 3.
  destruct (Z.ltb_spec ((i mod ppd) mod 3) 0) as [? | _]; [lia |].
  unfold slot_hour.
  assert (Hcases : (i mod ppd) mod 3 = 0 \/ (i mod ppd) mod 3 = 1 \/ (i mod ppd) mod 3 = 2)
    by lia.
  destruct Hcases as [-> | [-> | ->]]; reflexivity.
Qed.

Lemma schedule_dt_zero now i :
  BlatoScheduler.schedule_dt now 0 i = Raise ZeroDivisionError.
Proof. reflexivity. Qed.

End ScheduleTimes.

Section ScheduleBatch.
Context {W : Type} (L : Py.lib) (E : externals W) (cfg : Config.t).
Context (self : BlatoScheduler.t) (platforms : list pystr).

Lemma exists_calls path : keeps (W := W) st_calls (FileManager.exists_ path).
Proof. unfold FileManager.exists_. repeat keeps_step. Qed.

Lemma video_present_calls v : keeps (W := W) st_calls (BlatoScheduler.video_present v).
Proof.
  unfold BlatoScheduler.video_present. pose proof exists_calls. repeat keeps_step.
Qed.

(** [upload_media] reaches the outside through the upload request only. *)
Lemma upload_media_calls (P : event -> Prop) path :
  P (upload_request self path) ->
  extends st_calls P (BlatoScheduler.upload_media E self path).
Proof.
  intros HP. unfold BlatoScheduler.upload_media. pose proof exists_calls.
  destruct (BlatoScheduler.api_key self); [repeat extends_step |].
  apply extends_try_except; [| intros; repeat extends_step].
  apply extends_bind; [repeat extends_step | intros present].
  destruct present; cbn [negb]; [| repeat extends_step].
  apply extends_bind; [apply extends_calls_call; exact HP | intros data].
  repeat extends_step.
Qed.

(** [schedule_post] reaches the outside through one request, which carries
    the schedule time it was given. *)
Lemma schedule_post_calls (P : event -> Prop) media_id caption t :
  P (schedule_request L self platforms media_id caption t) ->
  extends st_calls P
    (BlatoScheduler.schedule_post E self media_id caption platforms (Some (isoformat L t))).
Proof.
  intros HP. unfold BlatoScheduler.schedule_post.
  destruct (BlatoScheduler.api_key self); [repeat extends_step |].
  apply extends_try_except; [| intros; repeat extends_step].
  apply extends_bind; [apply extends_calls_call; exact HP | intros data].
  repeat extends_step.
Qed.

(** Every request of one round of the loop is for the item of that round,
    at the time [schedule_dt] computes for its index. *)
Lemma schedule_item_calls now batch ids i item :
  (i, item) ∈ enumerate batch ->
  extends st_calls
    (scheduled_by L self platforms
       (fun i t => BlatoScheduler.schedule_dt now (Config.POSTS_PER_DAY cfg) i = Ok t) batch)
    (BlatoScheduler.schedule_item L E cfg self platforms now ids (i, item)).
Proof.
  intros Hin. unfold BlatoScheduler.schedule_item.
  apply extends_bind; [apply keeps_extends, video_present_calls | intros present].
  destruct present as [path |]; [| repeat extends_step].
  apply extends_bind_lift. intros t Hdt.
  apply extends_bind; [repeat extends_step | intros _].
  apply extends_bind.
  { apply upload_media_calls. left. eauto. }
  intros media_id. destruct (truthy media_id); cbn [negb]; [| repeat extends_step].
  apply extends_bind; [| intros; repeat extends_step].
  apply schedule_post_calls. right. exists i, item, media_id, t. auto.
Qed.

(** Every request [schedule_batch] sends for an item carries the time
    [schedule_dt] computes from the item's index and the clock read at the
    start of the batch. *)
Lemma schedule_batch_calls batch s :
  let now := (clock_now E (st_world s)).1 in
  exists new,
    st_calls (BlatoScheduler.schedule_batch L E cfg self batch platforms s).2
    = st_calls s ++ new
    /\ Forall (scheduled_by L self platforms
                 (fun i t => BlatoScheduler.schedule_dt now (Config.POSTS_PER_DAY cfg) i = Ok t)
                 batch) new.
Proof.
  intros now. unfold BlatoScheduler.schedule_batch.
  destruct (BlatoScheduler.api_key self).
  { exists []. rewrite app_nil_r. split; [reflexivity | constructor]. }
  unfold bind at 1, ask. subst now. destruct (clock_now E (st_world s)) as [now w]. cbn [fst].
  set (s1 := with_world w s).
  change (st_calls s) with (st_calls s1).
  generalize s1. clear s s1. change (extends st_calls
    (scheduled_by L self platforms
       (fun i t => BlatoScheduler.schedule_dt now (Config.POSTS_PER_DAY cfg) i = Ok t) batch)
    (submission_ids <- for_each (enumerate batch) [] (BlatoScheduler.schedule_item L E cfg self platforms now) ;;
     log INFO (py "Batch scheduling complete: %d/%d scheduled") ;;
     ret submission_ids)).
  apply extends_bind; [| intros; repeat extends_step].
  apply extends_for_each_in. intros acc [i item] Hin. apply schedule_item_calls. exact Hin.
Qed.

End ScheduleBatch.


(* ===================================================================== *)
(** * Engagement ranking: the sort is descending and stable               *)
(* ===================================================================== *)

Section StableSort.
Context {K A : Type} (lt : K -> K -> bool) (D : K -> Prop).
Context (Hlt : strict_weak_order lt D).
Implicit Types (x y : K * A) (l : list (K * A)).

Let keys_in l := Forall (fun x => D x.1) l.

Lemma insert_by_perm x l : Permutation (insert_by lt x l) (x :: l).
Proof.
  induction l as [| y l IH]; cbn; [reflexivity |].
  destruct (lt y.1 x.1); [| reflexivity].
  rewrite IH. apply perm_swap.
Qed.

Lemma sort_by_perm l : Permutation (sort_by lt l) l.
Proof.
  induction l as [| x l IH]; cbn; [reflexivity |].
  rewrite insert_by_perm. constructor. exact IH.
Qed.

Lemma list_sort_perm reverse l : Permutation (list_sort lt reverse l) l.
Proof.
  unfold list_sort. destruct reverse; [| apply sort_by_perm].
  rewrite <- Permutation_rev, sort_by_perm, <- Permutation_rev. reflexivity.
Qed.

Lemma keys_in_perm l l' : Permutation l l' -> keys_in l -> keys_in l'.
Proof. intros Hp H. unfold keys_in in *. rewrite <- Hp. exact H. Qed.

(** Ascending: nothing is followed by a smaller key. *)
Let ascending l := StronglySorted (fun x y => lt y.1 x.1 = false) l.

Lemma insert_by_ascending x l :
  D x.1 -> keys_in l -> ascending l -> ascending (insert_by lt x l).
Proof.
  intros Hx Hl Hs. induction l as [| y l IH]; cbn.
  - repeat constructor.
  - inversion Hl as [| ? ? Hy Hl']; subst. inversion Hs as [| ? ? Hs' Hyl]; subst.
    destruct (lt y.1 x.1) eqn:Hyx.
    + constructor; [apply IH; assumption |].
      eapply Permutation_Forall; [symmetry; apply insert_by_perm |].
      constructor; [| assumption].
      eapply swo_asym; eauto.
    + constructor; [constructor; assumption |].
      constructor; [assumption |].
      rewrite Forall_forall in Hyl, Hl' |- *. intros z Hz.
      destruct (lt z.1 x.1) eqn:Hzx; [| reflexivity].
      destruct (swo_negtrans lt D Hlt z.1 y.1 x.1) as [H | H]; auto.
      * rewrite (Hyl z Hz) in H. discriminate.
      * congruence.
Qed.

Lemma sort_by_ascending l : keys_in l -> ascending (sort_by lt l).
Proof.
  intros Hl. induction l as [| x l IH]; cbn; [constructor |].
  inversion Hl; subst. apply insert_by_ascending; auto.
  eapply keys_in_perm; [symmetry; apply sort_by_perm | assumption].
Qed.

Lemma StronglySorted_snoc (R : K * A -> K * A -> Prop) l x :
  StronglySorted R l -> Forall (fun y => R y x) l -> StronglySorted R (l ++ [x]).
Proof.
  induction 1 as [| z l Hs IH Hz]; cbn; intros Hall.
  - repeat constructor.
  - inversion Hall; subst. constructor; [auto |].
    apply Forall_app. split; [assumption | repeat constructor; assumption].
Qed.

Lemma StronglySorted_rev (R : K * A -> K * A -> Prop) l :
  StronglySorted R l -> StronglySorted (fun a b => R b a) (rev l).
Proof.
  induction 1 as [| x l Hs IH Hx]; cbn; [constructor |].
  apply StronglySorted_snoc; [exact IH |]. apply Forall_rev. exact Hx.
Qed.

(** With [reverse] the sort is descending: nothing is followed by a larger
    key. *)
Lemma list_sort_descending l :
  keys_in l -> StronglySorted (fun x y => lt x.1 y.1 = false) (list_sort lt true l).
Proof.
  intros Hl. unfold list_sort.
  apply (StronglySorted_rev (fun x y => lt y.1 x.1 = false)).
  apply sort_by_ascending. apply Forall_rev. exact Hl.
Qed.

(** Stability: the items whose key ties with [k] keep their order. *)
Lemma insert_by_stable k x l :
  D k -> D x.1 -> keys_in l ->
  List.filter (fun y => tie lt k y.1) (insert_by lt x l)
  = List.filter (fun y => tie lt k y.1) (x :: l).
Proof.
  intros Hk Hx Hl. induction l as [| y l IH]; [reflexivity |].
  inversion Hl as [| ? ? Hy Hl']; subst. cbn [insert_by].
  destruct (lt y.1 x.1) eqn:Hyx; [| reflexivity].
  cbn [List.filter]. rewrite (IH Hl'). cbn [List.filter].
  destruct (tie lt k x.1) eqn:Hkx; [| reflexivity].
  destruct (tie lt k y.1) eqn:Hky; [| reflexivity].
  exfalso. unfold tie in *.
  apply andb_true_iff in Hkx as [Hkx Hxk]. apply andb_true_iff in Hky as [Hky Hyk].
  apply negb_true_iff in Hkx, Hxk, Hky, Hyk.
  destruct (swo_negtrans lt D Hlt y.1 k x.1) as [H | H]; auto; congruence.
Qed.

Lemma sort_by_stable k l :
  D k -> keys_in l ->
  List.filter (fun y => tie lt k y.1) (sort_by lt l) = List.filter (fun y => tie lt k y.1) l.
Proof.
  intros Hk Hl. induction l as [| x l IH]; [reflexivity |].
  inversion Hl; subst. cbn [sort_by foldr].
  change (foldr (insert_by lt) [] l) with (sort_by lt l).
  rewrite insert_by_stable; auto.
  - cbn [List.filter]. rewrite IH by assumption. reflexivity.
  - eapply keys_in_perm; [symmetry; apply sort_by_perm | assumption].
Qed.

Lemma filter_rev (p : K * A -> bool) l : List.filter p (rev l) = rev (List.filter p l).
Proof.
  induction l as [| x l IH]; [reflexivity |].
  cbn. rewrite List.filter_app, IH. cbn. destruct (p x); cbn; [reflexivity |].
  apply app_nil_r.
Qed.

Lemma list_sort_stable reverse k l :
  D k -> keys_in l ->
  List.filter (fun y => tie lt k y.1) (list_sort lt reverse l)
  = List.filter (fun y => tie lt k y.1) l.
Proof.
  intros Hk Hl. unfold list_sort. destruct reverse; [| apply sort_by_stable; assumption].
  rewrite filter_rev, sort_by_stable, filter_rev, rev_involutive; auto.
  apply Forall_rev. exact Hl.
Qed.

End StableSort.

Section Ranking.
Context {W : Type} (L : Py.lib) (E : externals W) (cfg : Config.t).

(** The score is the quotient of likes plus shares by the views, at
    least 1; counts that are missing or null are 0. *)
Lemma _engagement_score_quotient item l sh v :
  count_field item (py "likes") = Some l ->
  count_field item (py "shares") = Some sh ->
  count_field item (py "views") = Some v ->
  ApifyScraper._engagement_score L item = truediv L (l + sh) (Z.max v 1).
Proof.
  unfold count_field, ApifyScraper._engagement_score, get, or_else.
  intros Hl Hsh Hv.
  destruct (assoc (py "likes") item) as [[| [|] | zl | | |] |];
    destruct (assoc (py "shares") item) as [[| [|] | zs | | |] |];
    destruct (assoc (py "views") item) as [[| [|] | zv | | |] |];
    try discriminate; cbn in *;
    repeat match goal with
           | H : Some _ = Some _ |- _ => injection H as <-
           | |- context [(?z =? 0)%Z] => destruct (Z.eqb_spec z 0) as [-> |]; cbn
           end; reflexivity.
Qed.

Lemma _engagement_score_in_quotients item k :
  ApifyScraper._engagement_score L item = Ok k -> quotient L k.
Proof.
  unfold ApifyScraper._engagement_score. intros H.
  repeat match type of H with
         | match ?r with _ => _ end = _ => destruct r; try discriminate
         end.
  unfold quotient. eauto.
Qed.

Lemma decorate_spec items keyed :
  ApifyScraper.decorate L items = Ok keyed ->
  map snd keyed = items
  /\ Forall (fun x => ApifyScraper._engagement_score L x.2 = Ok x.1) keyed.
Proof.
  revert keyed. induction items as [| item rest IH]; cbn; intros keyed H.
  - injection H as <-. split; [reflexivity | constructor].
  - destruct (ApifyScraper._engagement_score L item) as [k |] eqn:Hk; [| discriminate].
    destruct (ApifyScraper.decorate L rest) as [ks |]; [| discriminate].
    injection H as <-. destruct (IH ks eq_refl) as [Hm Hf].
    split; [cbn; congruence | constructor; assumption].
Qed.

Lemma filter_scores_decorated k (keyed : list (float L * list (pystr * val))) :
  Forall (fun x => ApifyScraper._engagement_score L x.2 = Ok x.1) keyed ->
  List.filter (scores L k) (map snd keyed)
  = map snd (List.filter (fun x => tie (float_lt L) k x.1) keyed).
Proof.
  induction 1 as [| x keyed Hx Hall IH]; [reflexivity |].
  cbn. unfold scores at 1. rewrite Hx.
  destruct (tie (float_lt L) k x.1); cbn; rewrite IH; reflexivity.
Qed.

Lemma StronglySorted_map_in {A B} (R : A -> A -> Prop) (R' : B -> B -> Prop)
    (f : A -> B) (l : list A) :
  (forall a b, In a l -> In b l -> R a b -> R' (f a) (f b)) ->
  StronglySorted R l -> StronglySorted R' (map f l).
Proof.
  intros HR Hs. induction Hs as [| a l Hs IH Ha]; cbn; [constructor |].
  constructor.
  - apply IH. intros x y Hx Hy. apply HR; right; assumption.
  - apply List.Forall_forall. intros y Hy.
    apply in_map_iff in Hy as (b & <- & Hb).
    rewrite List.Forall_forall in Ha. apply HR; [left | right |]; auto.
Qed.

(** What the sort of [get_top_content] does to the combined list: it
    permutes it, leaves no item before one of a higher score, and keeps the
    items of equal score in the order they came in. *)
Lemma sort_by_engagement_spec all_content sorted :
  strict_weak_order (float_lt L) (quotient L) ->
  ApifyScraper.sort_by_engagement L all_content = Ok sorted ->
  Permutation sorted all_content
  /\ descending L sorted
  /\ forall k, quotient L k ->
       List.filter (scores L k) sorted = List.filter (scores L k) all_content.
Proof.
  intros Hlt. unfold ApifyScraper.sort_by_engagement.
  destruct (ApifyScraper.decorate L all_content) as [keyed |] eqn:Hdec; [| discriminate].
  intros H. injection H as <-. destruct (decorate_spec _ _ Hdec) as [Hitems Hkeys].
  pose proof (list_sort_perm (float_lt L) true keyed) as Hperm.
  assert (Hsk : Forall (fun x => ApifyScraper._engagement_score L x.2 = Ok x.1)
                       (list_sort (float_lt L) true keyed)).
  { eapply Permutation_Forall; [symmetry; exact Hperm | exact Hkeys]. }
  assert (Hin : Forall (fun x => quotient L x.1) keyed).
  { eapply Forall_impl; [exact Hkeys |]. intros x Hx.
    eapply _engagement_score_in_quotients. exact Hx. }
  split; [| split].
  - rewrite <- Hitems. apply Permutation_map. exact Hperm.
  - unfold descending.
    eapply StronglySorted_map_in;
      [| apply (list_sort_descending (float_lt L) (quotient L) Hlt); exact Hin].
    intros a b Ha Hb Hab ka kb Hka Hkb.
    rewrite List.Forall_forall in Hsk.
    rewrite (Hsk a Ha) in Hka. rewrite (Hsk b Hb) in Hkb. congruence.
  - intros k Hk. rewrite <- Hitems, !filter_scores_decorated by assumption.
    f_equal. exact (list_sort_stable (float_lt L) (quotient L) Hlt true k keyed Hk Hin).
Qed.

(** [get_top_content] returns the leading items of the combined list of
    the three scrapers, sorted. *)
Lemma get_top_content_sorted self count s t ig y s1 s2 s3 sorted :
  ApifyScraper.scrape_viral_tiktok L E cfg self 10
    (log INFO (py "Starting content discovery across all platforms") s).2 = (Ok t, s1) ->
  ApifyScraper.scrape_viral_instagram L E cfg self 10 s1 = (Ok ig, s2) ->
  ApifyScraper.scrape_viral_youtube L E cfg self 5 s2 = (Ok y, s3) ->
  ApifyScraper.sort_by_engagement L (t ++ ig ++ y) = Ok sorted ->
  (ApifyScraper.get_top_content L E cfg self count s).1 = Ok (slice_to count sorted).
Proof.
  intros Ht Hig Hy Hsort. unfold ApifyScraper.get_top_content.
  unfold bind at 1. cbn [log snd] in Ht |- *.
  unfold bind at 1. rewrite Ht.
  unfold bind at 1. rewrite Hig.
  unfold bind at 1. rewrite Hy.
  destruct (t ++ ig ++ y) as [| item rest] eqn:Hall.
  - cbn in Hsort. injection Hsort as <-. unfold slice_to. rewrite !firstn_nil.
    destruct (count <? 0)%Z; reflexivity.
  - unfold bind at 1, lift. rewrite Hsort.
    unfold bind at 1.
    destruct (save_json_total L E (VList (map VDict (slice_to count sorted)))
                (Config.LOGS_DIR cfg) (py "scrape_top") s3) as [p Hp].
    destruct (FileManager.save_json L E _ _ _ s3) as [r s4]. cbn in Hp. subst r.
    reflexivity.
Qed.

(** C2.  The engagement score of an item is (likes + shares) / max(views, 1);
    [get_top_content] orders the combined items so that no item comes before
    one of a higher score, items of equal score keep their input order, and
    it returns the leading items of that order. *)
Theorem get_top_content_ranks_by_engagement :
  strict_weak_order (float_lt L) (quotient L) ->
  (forall item l sh v,
     count_field item (py "likes") = Some l ->
     count_field item (py "shares") = Some sh ->
     count_field item (py "views") = Some v ->
     ApifyScraper._engagement_score L item = truediv L (l + sh) (Z.max v 1))
  /\ (forall all_content sorted,
        ApifyScraper.sort_by_engagement L all_content = Ok sorted ->
        Permutation sorted all_content
        /\ descending L sorted
        /\ forall k, quotient L k ->
             List.filter (scores L k) sorted = List.filter (scores L k) all_content)
  /\ (forall self count s t ig y s1 s2 s3 sorted,
        ApifyScraper.scrape_viral_tiktok L E cfg self 10
          (log INFO (py "Starting content discovery across all platforms") s).2
        = (Ok t, s1) ->
        ApifyScraper.scrape_viral_instagram L E cfg self 10 s1 = (Ok ig, s2) ->
        ApifyScraper.scrape_viral_youtube L E cfg self 5 s2 = (Ok y, s3) ->
        ApifyScraper.sort_by_engagement L (t ++ ig ++ y) = Ok sorted ->
        (ApifyScraper.get_top_content L E cfg self count s).1
        = Ok (slice_to count sorted)
        /\ exists n, slice_to count sorted = firstn n sorted).
Proof.
  intros Hlt. split; [| split].
  - intros. apply _engagement_score_quotient; assumption.
  - intros. apply sort_by_engagement_spec; assumption.
  - intros self count s t ig y s1 s2 s3 sorted Ht Hig Hy Hsort. split.
    + eapply get_top_content_sorted; eassumption.
    + unfold slice_to. destruct (count <? 0)%Z; eauto.
Qed.

End Ranking.

(* ===================================================================== *)
(** * The database: what a write changes                                  *)
(* ===================================================================== *)

Section Rows.
Implicit Types (r : Db.Row) (d : Db.t).

Lemma set_column_status c v r : Db.status (Db.set_column c v r) = Db.status r.
Proof. destruct c; reflexivity. Qed.

Lemma set_fields_status fields r : Db.status (Db.set_fields fields r) = Db.status r.
Proof.
  unfold Db.set_fields. revert r. induction fields as [| [c v] fields IH]; intros r.
  - reflexivity.
  - cbn. rewrite IH. apply set_column_status.
Qed.

Lemma set_column_final c v r :
  c <> Db.Col_final_video_path ->
  Db.final_video_path (Db.set_column c v r) = Db.final_video_path r.
Proof. destruct c; intros H; try reflexivity. congruence. Qed.

Lemma set_fields_final fields r :
  Forall (fun cf => cf.1 <> Db.Col_final_video_path) fields ->
  Db.final_video_path (Db.set_fields fields r) = Db.final_video_path r.
Proof.
  unfold Db.set_fields. intros H. revert r.
  induction H as [| [c v] fields Hc Hf IH]; intros r; [reflexivity |].
  cbn. rewrite IH. apply set_column_final. exact Hc.
Qed.

Lemma update_row_missing id st now fields d :
  Db.content_queue d !! id = None -> Db.update_row id st now fields d = d.
Proof. intros H. unfold Db.update_row. rewrite H. reflexivity. Qed.

Lemma update_row_lookup id st now fields d r :
  Db.content_queue d !! id = Some r ->
  Db.content_queue (Db.update_row id st now fields d) !! id
  = Some (Db.set_fields fields (Db.set_status st now r)).
Proof. intros H. unfold Db.update_row. rewrite H. cbn. apply lookup_insert_eq. Qed.

Lemma update_row_other id id' st now fields d :
  id <> id' ->
  Db.content_queue (Db.update_row id st now fields d) !! id' = Db.content_queue d !! id'.
Proof.
  intros H. unfold Db.update_row. destruct (Db.content_queue d !! id); [| reflexivity].
  cbn. apply lookup_insert_ne. exact H.
Qed.

Lemma update_row_history id st now fields d r :
  Db.content_queue d !! id = Some r ->
  Db.history (Db.update_row id st now fields d)
  = Db.history d ++ [{| Db.tr_id := id; Db.tr_from := Db.status r; Db.tr_to := st |}].
Proof. intros H. unfold Db.update_row. rewrite H. reflexivity. Qed.

(** A write to a row: the row it leaves, another row seen through it. *)
Lemma update_row_cases id id' st now fields d r' :
  Db.content_queue (Db.update_row id st now fields d) !! id' = Some r' ->
  (id' = id /\ exists r, Db.content_queue d !! id = Some r
                         /\ r' = Db.set_fields fields (Db.set_status st now r))
  \/ Db.content_queue d !! id' = Some r'.
Proof.
  intros H. destruct (decide (id = id')) as [<- | Hne].
  - destruct (Db.content_queue d !! id) as [r |] eqn:Hr.
    + rewrite (update_row_lookup _ _ _ _ _ _ Hr) in H. injection H as <-. left. eauto.
    + rewrite update_row_missing in H by assumption. congruence.
  - rewrite update_row_other in H by assumption. right. exact H.
Qed.

End Rows.

Section Steps.
Implicit Types (d : Db.t).

Lemma step_relax strict d d' : step strict d d' -> step false d d'.
Proof.
  intros H. destruct H.
  - apply step_insert.
  - apply step_generating. discriminate.
  - eapply step_finish; eassumption.
  - eapply step_schedule; [eassumption | | assumption].
    destruct strict; intuition.
  - apply step_post_log.
Qed.

(** Each write records at most one status change, an allowed one. *)
Lemma step_history strict d d' :
  step strict d d' ->
  exists new, Db.history d' = Db.history d ++ new /\ Forall (allowed strict) new.
Proof.
  intros H. destruct H as [su tp sc cp now d | id now d Hp | id st now fields d r Hr Hs Hf
                          | id now sub d r Hr Hs Hf | e d].
  - exists []. rewrite app_nil_r. split; [reflexivity | constructor].
  - destruct (Db.content_queue d !! id) as [r |] eqn:Hr.
    + eexists. split; [apply update_row_history; exact Hr |].
      constructor; [| constructor]. unfold allowed. cbn. intros Hst. eapply Hp; eauto.
    + rewrite update_row_missing by assumption.
      exists []. rewrite app_nil_r. split; [reflexivity | constructor].
  - eexists. split; [apply update_row_history; exact Hr |].
    constructor; [| constructor]. unfold allowed. cbn.
    destruct Hf as [[-> _] | [-> _]]; exact Hs.
  - eexists. split; [apply update_row_history; exact Hr |].
    constructor; [| constructor]. unfold allowed. cbn. exact Hs.
  - exists []. rewrite app_nil_r. split; [reflexivity | constructor].
Qed.

Lemma steps_history strict d d' :
  rtc (step strict) d d' ->
  exists new, Db.history d' = Db.history d ++ new /\ Forall (allowed strict) new.
Proof.
  induction 1 as [d | d d1 d2 H1 _ IH].
  - exists []. rewrite app_nil_r. split; [reflexivity | constructor].
  - destruct (step_history _ _ _ H1) as (n1 & E1 & F1). destruct IH as (n2 & E2 & F2).
    exists (n1 ++ n2). rewrite E2, E1, app_assoc.
    split; [reflexivity | apply Forall_app; split; assumption].
Qed.

Lemma has_final_set_status st now r : has_final (Db.set_status st now r) <-> has_final r.
Proof. reflexivity. Qed.

(** Whatever the calls, a row that has reached [generated] keeps a
    final-video path. *)
Lemma step_generated_have_final strict d d' :
  step strict d d' -> generated_have_final d -> generated_have_final d'.
Proof.
  intros H Hinv. destruct H as [su tp sc cp now d | id now d Hp | id st now fields d r Hr Hs Hf
                               | id now sub d r Hr Hs Hf | e d];
    intros id' r' Hr' Hreach.
  - cbn in Hr'. destruct (decide (Db.seq d + 1 = id'))%Z as [<- | Hne].
    + rewrite lookup_insert_eq in Hr'. injection Hr' as <-.
      destruct Hreach as [H | H]; discriminate.
    + rewrite lookup_insert_ne in Hr' by assumption. eapply Hinv; eauto.
  - apply update_row_cases in Hr' as [(-> & r & Hr & ->) | Hr']; [| eapply Hinv; eauto].
    destruct Hreach as [H | H]; discriminate.
  - apply update_row_cases in Hr' as [(-> & r0 & Hr0 & ->) | Hr']; [| eapply Hinv; eauto].
    destruct Hf as [[-> _] | (-> & v & a & f & Hne & ->)].
    + destruct Hreach as [H | H]; rewrite set_fields_status in H; discriminate.
    + unfold has_final. cbn. destruct f; [congruence | reflexivity].
  - apply update_row_cases in Hr' as [(-> & r0 & Hr0 & ->) | Hr']; [| eapply Hinv; eauto].
    assert (r0 = r) as -> by congruence. exact Hf.
  - cbn in Hr'. eapply Hinv; eauto.
Qed.

(** When generation starts from pending rows only, the final-video path is
    set exactly on the rows that have reached [generated]. *)
Lemma step_consistent d d' : step true d d' -> consistent d -> consistent d'.
Proof.
  intros H Hinv. destruct H as [su tp sc cp now d | id now d Hp | id st now fields d r Hr Hs Hf
                               | id now sub d r Hr Hs Hf | e d];
    intros id' r' Hr'.
  - cbn in Hr'. destruct (decide (Db.seq d + 1 = id'))%Z as [<- | Hne].
    + rewrite lookup_insert_eq in Hr'. injection Hr' as <-.
      unfold has_final, reached_generated. cbn. split; [discriminate |].
      intros [H | H]; discriminate.
    + rewrite lookup_insert_ne in Hr' by assumption. eapply Hinv; eauto.
  - apply update_row_cases in Hr' as [(-> & r & Hr & ->) | Hr']; [| eapply Hinv; eauto].
    specialize (Hp eq_refl r Hr). specialize (Hinv _ _ Hr).
    unfold reached_generated in *. cbn. rewrite Hp in Hinv. rewrite has_final_set_status.
    split; [| intros [H | H]; discriminate].
    intros Hfin. apply Hinv in Hfin as [H | H]; discriminate.
  - apply update_row_cases in Hr' as [(-> & r0 & Hr0 & ->) | Hr']; [| eapply Hinv; eauto].
    assert (r0 = r) as -> by congruence. specialize (Hinv _ _ Hr).
    unfold reached_generated in *. rewrite set_fields_status. cbn [Db.set_status Db.status].
    destruct Hf as [[-> Hf] | (-> & v & a & f & Hne & ->)].
    + unfold has_final. rewrite set_fields_final by assumption. cbn.
      split; [| intros [H | H]; discriminate].
      intros Hfin. apply Hinv in Hfin. rewrite Hs in Hfin. destruct Hfin; discriminate.
    + split; [auto |]. intros _. unfold has_final. cbn. destruct f; [congruence | reflexivity].
  - apply update_row_cases in Hr' as [(-> & r0 & Hr0 & ->) | Hr']; [| eapply Hinv; eauto].
    assert (r0 = r) as -> by congruence.
    unfold reached_generated. cbn. split; [auto |]. intros _. exact Hf.
  - cbn in Hr'. eapply Hinv; eauto.
Qed.

Lemma steps_generated_have_final strict d d' :
  rtc (step strict) d d' -> generated_have_final d -> generated_have_final d'.
Proof. induction 1; eauto using step_generated_have_final. Qed.

Lemma steps_consistent d d' : rtc (step true) d d' -> consistent d -> consistent d'.
Proof. induction 1; eauto using step_consistent. Qed.

Lemma consistent_empty : consistent Db.empty.
Proof. intros id r H. cbn in H. rewrite lookup_empty in H. discriminate. Qed.

End Steps.

(* ===================================================================== *)
(** * The orchestrator refines the status machine                         *)
(* ===================================================================== *)

Create HintDb moves discriminated.

Section Moves.
Context {W : Type} (strict : bool).
Implicit Types s : state W.

Lemma moves_keeps {A} (m : M W A) : keeps st_db m -> moves strict m.
Proof. intros H s. rewrite H. constructor. Qed.

Lemma moves_bind {A B} (m : M W A) (k : A -> M W B) :
  moves strict m -> (forall a, moves strict (k a)) -> moves strict (bind m k).
Proof.
  intros Hm Hk s. unfold bind. specialize (Hm s).
  destruct (m s) as [[a | e] s1]; cbn in *; [| exact Hm].
  etransitivity; [exact Hm | apply Hk].
Qed.

Lemma moves_try_except {A} (m : M W A) (h : exn -> M W A) :
  moves strict m -> (forall e, moves strict (h e)) -> moves strict (try_except m h).
Proof.
  intros Hm Hh s. unfold try_except. specialize (Hm s).
  destruct (m s) as [[a | e] s1]; cbn in *; [exact Hm |].
  etransitivity; [exact Hm | apply Hh].
Qed.

Lemma moves_for_each {A Acc} (l : list A) (body : Acc -> A -> M W Acc) :
  (forall acc x, moves strict (body acc x)) -> forall acc, moves strict (for_each l acc body).
Proof.
  intros Hb. induction l as [| x l IH]; intros acc.
  - apply moves_keeps, keeps_ret.
  - cbn [for_each]. apply moves_bind; auto.
Qed.

Lemma moves_modify_db (f : Db.t -> Db.t) :
  (forall d, step strict d (f d)) -> moves (W := W) strict (modify_db f).
Proof. intros Hf s. cbn. apply rtc_once, Hf. Qed.

(** Using, inside a [wp] proof, a computation that leaves the database
    alone. *)
Lemma wp_keeps_db {A} (m : M W A) (Q : result A -> state W -> Prop) s :
  keeps st_db m -> (forall r s', st_db s' = st_db s -> Q r s') -> wp m Q s.
Proof. intros Hk HQ. unfold wp. apply HQ, Hk. Qed.

Lemma wp_keeps_db_total {A} (m : M W A) (Q : result A -> state W -> Prop) s :
  keeps st_db m -> total m -> (forall a s', st_db s' = st_db s -> Q (Ok a) s') -> wp m Q s.
Proof.
  intros Hk Ht HQ. unfold wp. destruct (Ht s) as [a Ha]. rewrite Ha. apply HQ, Hk.
Qed.

End Moves.

Ltac moves_step :=
  lazymatch goal with
  | |- moves _ (bind _ _) => apply moves_bind; [| intros ?]
  | |- moves _ (try_except _ _) => apply moves_try_except; [| intros ?]
  | |- moves _ (for_each _ _ _) => apply moves_for_each; intros ? ?
  | |- moves _ (match ?x with _ => _ end) => destruct x
  | |- moves _ _ => solve [auto with moves | apply moves_keeps; auto with frame]
  end.

(** A step of a [wp] proof over a computation that leaves the database
    alone: the proof goes on with its value, in a state with the same
    database; [tac] closes the case where it raised. *)
Ltac wp_skip_with tac :=
  apply wp_bind; eapply wp_keeps_db;
  [ solve [auto with frame | repeat keeps_step]
  | let r := fresh "r" in
    let s' := fresh "s" in
    let Hdb := fresh "Hdb" in
    intros r s' Hdb; destruct r as [? | ?]; [| tac Hdb] ].

Section DatabaseMethods.
Context {W : Type} (L : Py.lib) (E : externals W).
Implicit Types s : state W.

Lemma get_content_run id s :
  Database.get_content id s = (Ok (Db.content_queue (st_db s) !! id), s).
Proof. reflexivity. Qed.

(** [update_content_status] either fails to bind a parameter, before it
    writes, or makes one write. *)
Lemma update_content_status_wp id st fields s :
  wp (Database.update_content_status L E id st fields)
     (fun r s' =>
        match r with
        | Ok _ => exists now params,
            Database.sql_bind_fields L fields = Ok params
            /\ st_db s' = Db.update_row id st now params (st_db s)
        | Raise _ => st_db s' = st_db s
        end) s.
Proof.
  unfold wp, Database.update_content_status, bind, ask, lift, modify_db, log.
  destruct (clock_now E (st_world s)) as [now w]. cbn.
  destruct (Database.sql_bind_fields L fields) as [params | e]; cbn; eauto.
Qed.

Lemma add_content_moves strict su tp sc cp :
  moves strict (Database.add_content L E su tp sc cp).
Proof.
  intros s. unfold Database.add_content, bind, lift, ask, get_state, modify_db, log, ret.
  destruct (Database.sql_bind L su) as [su' |]; [| constructor].
  destruct (Database.sql_bind L tp) as [tp' |]; [| constructor].
  destruct (Database.sql_bind L cp) as [cp' |]; [| constructor].
  destruct (clock_now E (st_world s)) as [now w]. cbn.
  apply rtc_once. exact (step_insert strict su' tp' (Some sc) cp' now (st_db s)).
Qed.

Lemma log_post_moves strict id platform post_id status :
  moves strict (Database.log_post L E id platform post_id status).
Proof.
  intros s. unfold Database.log_post, bind, lift, ask, modify_db.
  destruct (clock_now E (st_world s)) as [now w]. cbn.
  destruct (Database.sql_bind L post_id); cbn; [| constructor].
  apply rtc_once, step_post_log.
Qed.

Lemma log_post_queue id platform post_id status s :
  Db.content_queue (st_db (Database.log_post L E id platform post_id status s).2)
  = Db.content_queue (st_db s)
  /\ Db.history (st_db (Database.log_post L E id platform post_id status s).2)
     = Db.history (st_db s).
Proof.
  unfold Database.log_post, bind, lift, ask, modify_db.
  destruct (clock_now E (st_world s)) as [now w]. cbn.
  destruct (Database.sql_bind L post_id); cbn; auto.
Qed.

End DatabaseMethods.

#[export] Hint Resolve add_content_moves log_post_moves : moves.

Section Discovery.
Context {W : Type} (L : Py.lib) (E : externals W) (cfg : Config.t).

Lemma queue_item_moves strict ids item :
  moves strict (PipelineOrchestrator.queue_item L E ids item).
Proof. unfold PipelineOrchestrator.queue_item. repeat moves_step. Qed.

(** Discovery only inserts rows. *)
Lemma run_discovery_moves strict count :
  moves strict (PipelineOrchestrator.run_discovery L E cfg count).
Proof.
  pose proof queue_item_moves.
  unfold PipelineOrchestrator.run_discovery. repeat moves_step.
Qed.

End Discovery.

(** A step of a [wp] proof over a computation that leaves the database
    alone: the proof goes on, with its value [x], in the state it leaves.
    When the computation may raise, a second goal asks for the postcondition
    of that case. *)
Tactic Notation "wp_skip" "as" ident(x) :=
  lazymatch goal with
  | |- wp (bind _ _) _ ?s =>
      apply wp_bind;
      first
        [ eapply wp_keeps_db_total;
          [ solve [auto with frame | repeat keeps_step]
          | solve [auto with total | repeat total_step]
          | let s' := fresh "s" in
            let Hdb := fresh "Hdb" in
            intros x s' Hdb; try rewrite <- Hdb in *; clear Hdb; try clear s ]
        | eapply wp_keeps_db;
          [ solve [auto with frame | repeat keeps_step]
          | let r := fresh "r" in
            let s' := fresh "s" in
            let Hdb := fresh "Hdb" in
            intros r s' Hdb; try rewrite <- Hdb in *; clear Hdb; try clear s;
            destruct r as [x | ?]; [| try reflexivity] ] ]
  end.

(** A step over [update_content_status]. *)
Ltac wp_update L E :=
  apply wp_bind; eapply wp_mono; [| apply (update_content_status_wp L E)]; cbv beta;
  let s' := fresh "s" in
  let H := fresh "Hup" in
  intros [[] | ?] s' H.

Section Generation.
Context {W : Type} (L : Py.lib) (E : externals W) (cfg : Config.t).
Implicit Types s : state W.

(** The body of the [try] block writes once, at its end, or raises before
    it has written. *)
Lemma generate_item_wp video_gen voice editor soul_id ids qid content s :
  wp (PipelineOrchestrator.generate_item L E cfg video_gen voice editor soul_id ids qid content)
     (fun r s' =>
        match r with
        | Ok _ => exists st now fields,
            finishes st fields /\ st_db s' = Db.update_row qid st now fields (st_db s)
        | Raise _ => st_db s' = st_db s
        end) s.
Proof.
  unfold PipelineOrchestrator.generate_item.
  wp_skip as script. wp_skip as d. wp_skip as video_path.
  destruct (falsy video_path).
  { wp_skip as u. wp_update L E; [| exact Hup].
    destruct Hup as (now & params & Hbind & Hdb). cbn in Hbind. injection Hbind as <-.
    apply wp_ret. exists Db.Failed, now, []. split; [| exact Hdb].
    left. split; [reflexivity | constructor]. }
  wp_skip as audio_path. destruct (falsy audio_path).
  { wp_skip as u. wp_update L E; [| exact Hup].
    destruct Hup as (now & params & Hbind & Hdb). cbn in Hbind. injection Hbind as <-.
    apply wp_ret. eexists Db.Failed, now, _. split; [| exact Hdb].
    left. split; [reflexivity |]. repeat constructor. discriminate. }
  wp_skip as final_path. destruct (falsy final_path) eqn:Hfinal.
  { wp_skip as u. wp_update L E; [| exact Hup].
    destruct Hup as (now & params & Hbind & Hdb). cbn in Hbind. injection Hbind as <-.
    apply wp_ret. eexists Db.Failed, now, _. split; [| exact Hdb].
    left. split; [reflexivity |]. repeat constructor; discriminate. }
  wp_update L E; [| exact Hup].
  destruct Hup as (now & params & Hbind & Hdb). cbn in Hbind. injection Hbind as <-.
  wp_skip as u.
  apply wp_ret. eexists Db.Generated, now, _. split; [| exact Hdb].
  right. split; [reflexivity |].
  destruct final_path as [[| c f] |]; try discriminate. cbn. eexists _, _, _.
  split; [| reflexivity]. discriminate.
Qed.

(** Binding no parameter cannot fail: the write that sets a status alone is
    made. *)
Lemma update_status_only_wp id st (Q : result unit -> state W -> Prop) s :
  (forall now s', st_db s' = Db.update_row id st now [] (st_db s) -> Q (Ok tt) s') ->
  wp (Database.update_content_status L E id st []) Q s.
Proof.
  intros HQ. unfold wp, Database.update_content_status, bind, ask, lift, modify_db, log.
  destruct (clock_now E (st_world s)) as [now w]. cbn. eapply HQ. reflexivity.
Qed.

(** What a round of the generation loop leaves of the database. *)
Lemma generation_step_spec video_gen voice editor soul_id ids qid s :
  generated_from qid (st_db s)
    (st_db (PipelineOrchestrator.generation_step L E cfg video_gen voice editor
              soul_id ids qid s).2).
Proof.
  unfold PipelineOrchestrator.generation_step. unfold bind at 1.
  rewrite get_content_run.
  destruct (Db.content_queue (st_db s) !! qid) as [content |] eqn:Hrow.
  2: { left. auto. }
  right. exists content.
  set (d := st_db s).
  change (wp (Database.update_content_status L E qid Db.Generating [] ;;
              log INFO (py "Generating content id=%d topic=%s") ;;
              try_except
                (PipelineOrchestrator.generate_item L E cfg video_gen voice editor
                   soul_id ids qid content)
                (fun exc =>
                   log ERROR (py "Generation failed for id=%d: %s") ;;
                   Database.update_content_status L E qid Db.Failed [] ;;
                   ret ids))
             (fun _ s' => exists st now1 now2 fields,
                Db.content_queue d !! qid = Some content
                /\ finishes st fields
                /\ st_db s' = Db.update_row qid st now2 fields
                                (Db.update_row qid Db.Generating now1 [] d)) s).
  apply wp_bind, update_status_only_wp. fold d. intros now1 s1 Hdb1.
  wp_skip as u.
  apply wp_try_except. eapply wp_mono; [| apply generate_item_wp].
  intros [ids' | e] s3 H3.
  - destruct H3 as (st & now2 & fields & Hfin & Hdb3).
    exists st, now1, now2, fields. rewrite Hdb3, Hdb1. auto.
  - rewrite <- H3 in Hdb1. clear H3.
    wp_skip as u'.
    apply wp_bind, update_status_only_wp. intros now2 s5 Hdb5.
    apply wp_ret. exists Db.Failed, now1, now2, []. rewrite Hdb5, Hdb1.
    split; [exact Hrow |]. split; [| reflexivity].
    left. split; [reflexivity | constructor].
Qed.

End Generation.

Section GenerationLoop.
Context {W : Type} (L : Py.lib) (E : externals W) (cfg : Config.t).
Implicit Types s : state W.

(** The pending rows a strict run of the generation loop asks for. *)
Let pending_in (strict : bool) (d : Db.t) (ids : list Z) : Prop :=
  strict = true ->
  NoDup ids
  /\ forall id r, id ∈ ids -> Db.content_queue d !! id = Some r -> Db.status r = Db.Pending.

Lemma generated_from_steps strict qid d d' :
  (strict = true ->
   forall r, Db.content_queue d !! qid = Some r -> Db.status r = Db.Pending) ->
  generated_from qid d d' -> rtc (step strict) d d'.
Proof.
  intros Hp [[_ ->] | (r & st & now1 & now2 & fields & Hr & Hfin & ->)]; [constructor |].
  eapply rtc_l; [apply step_generating; exact Hp |].
  apply rtc_once. eapply step_finish; [| | exact Hfin].
  - apply update_row_lookup. exact Hr.
  - rewrite set_fields_status. reflexivity.
Qed.

Lemma generated_from_other qid id d d' :
  generated_from qid d d' -> id <> qid ->
  Db.content_queue d' !! id = Db.content_queue d !! id.
Proof.
  intros [[_ ->] | (r & st & now1 & now2 & fields & Hr & Hfin & ->)] Hne; [reflexivity |].
  rewrite !update_row_other by congruence. reflexivity.
Qed.

Lemma generation_loop_moves strict video_gen voice editor soul_id queue_ids : forall acc s,
  pending_in strict (st_db s) queue_ids ->
  rtc (step strict) (st_db s)
    (st_db (for_each queue_ids acc
              (PipelineOrchestrator.generation_step L E cfg video_gen voice editor soul_id)
              s).2).
Proof.
  induction queue_ids as [| qid rest IH]; intros acc s Hp; [constructor |].
  cbn [for_each]. unfold bind.
  pose proof (generation_step_spec L E cfg video_gen voice editor soul_id acc qid s) as Hstep.
  destruct (PipelineOrchestrator.generation_step L E cfg video_gen voice editor
              soul_id acc qid s) as [[acc' | e] s1]; cbn [snd] in *.
  - etransitivity.
    + eapply generated_from_steps; [| exact Hstep].
      intros Hs r Hr. destruct (Hp Hs) as [_ Hpend]. eapply Hpend; [left | exact Hr].
    + apply IH. intros Hs. destruct (Hp Hs) as [Hnd Hpend].
      apply NoDup_cons in Hnd as [Hnin Hnd]. split; [exact Hnd |].
      intros id r Hin Hr. rewrite (generated_from_other _ _ _ _ Hstep) in Hr.
      * eapply Hpend; [right; exact Hin | exact Hr].
      * intros ->. contradiction.
  - eapply generated_from_steps; [| exact Hstep].
    intros Hs r Hr. destruct (Hp Hs) as [_ Hpend]. eapply Hpend; [left | exact Hr].
Qed.

(** Generation sets rows to [generating] and then finishes them; called on
    pending rows, no id twice, it starts from [pending] each time. *)
Lemma run_generation_moves strict queue_ids s :
  (strict = true -> guarded (st_db s) (PipelineOrchestrator.Generation queue_ids)) ->
  rtc (step strict) (st_db s)
      (st_db (PipelineOrchestrator.run_generation L E cfg queue_ids s).2).
Proof.
  intros Hg. unfold PipelineOrchestrator.run_generation.
  unfold bind at 1. cbn [log fst snd].
  destruct (Config.SOUL_ID cfg) as [| c soul]; [constructor |].
  set (s0 := with_log _ s). change (st_db s) with (st_db s0) in *. clearbody s0.
  unfold bind at 1.
  pose proof (higgs_init_db cfg s0) as H1. pose proof (higgs_init_total cfg s0) as [g Hg1].
  destruct (HiggsFieldGenerator.__init__ cfg s0) as [r1 s1]. cbn in *. subst r1.
  rewrite <- H1 in *. clear H1 s0.
  unfold bind at 1.
  pose proof (voice_init_db cfg s1) as H2. pose proof (voice_init_total cfg s1) as [v Hv].
  destruct (ElevenLabsVoice.__init__ cfg s1) as [r2 s2]. cbn in *. subst r2.
  rewrite <- H2 in *. clear H2 s1.
  unfold bind at 1.
  pose proof (editor_init_db E s2) as H3. pose proof (editor_init_total E s2) as [ed Hed].
  destruct (VideoEditor.__init__ E s2) as [r3 s3]. cbn in *. subst r3.
  rewrite <- H3 in *. clear H3 s2.
  unfold bind at 1.
  pose proof (generation_loop_moves strict g v ed (c :: soul) queue_ids [] s3 Hg) as Hloop.
  destruct (for_each queue_ids [] _ s3) as [[ids | e] s4]; cbn in *; exact Hloop.
Qed.

End GenerationLoop.

(* ===================================================================== *)
(** * Scheduling: which rows are marked                                   *)
(* ===================================================================== *)

Section BatchLoop.
Context {W : Type}.
Implicit Types s : state W.

Lemma batch_step_run strict acc qid seen s :
  batch_inv strict (st_db s) seen acc ->
  (strict = true -> qid ∉ seen) ->
  exists acc',
    PipelineOrchestrator.batch_step acc qid s = (Ok acc', s)
    /\ batch_inv strict (st_db s) (seen ++ [qid]) acc'.
Proof.
  intros [Hmap Hinj] Hfresh. destruct acc as [batch id_map].
  unfold PipelineOrchestrator.batch_step, bind. rewrite get_content_run.
  assert (Hsame : batch_inv strict (st_db s) (seen ++ [qid]) (batch, id_map)).
  { split; [| exact Hinj]. intros i q Hi. destruct (Hmap i q Hi) as (He & Hs & Hr).
    repeat split; try assumption; try apply Hr. apply elem_of_app. left. exact Hs. }
  destruct (Db.content_queue (st_db s) !! qid) as [content |] eqn:Hrow; [| eauto].
  destruct (bool_decide (Db.status content = Db.Generated)) eqn:Hst; cbn [negb]; [| eauto].
  apply bool_decide_eq_true in Hst.
  destruct (truthy (of_column (Db.final_video_path content))) eqn:Hfin; cbn [negb]; [| eauto].
  eexists. split; [reflexivity |]. cbn [fst snd] in *.
  assert (Helig : eligible (st_db s) qid) by (exists content; auto).
  unfold batch_inv. cbn [fst snd]. split.
  - intros i q Hi. rewrite length_app. cbn [length].
    destruct (decide (Z.of_nat (length batch) = i)) as [<- | Hne].
    + rewrite lookup_insert_eq in Hi. injection Hi as <-.
      repeat split; [exact Helig | apply elem_of_app; right; left | lia | lia].
    + rewrite lookup_insert_ne in Hi by assumption.
      destruct (Hmap i q Hi) as (He & Hs & Hr).
      repeat split; [exact He | apply elem_of_app; left; exact Hs | lia | lia].
  - intros Hstrict i j q Hi Hj.
    destruct (decide (Z.of_nat (length batch) = i)) as [<- | Hni];
      destruct (decide (Z.of_nat (length batch) = j)) as [<- | Hnj]; [reflexivity | | |].
    + rewrite lookup_insert_eq in Hi. injection Hi as <-.
      rewrite lookup_insert_ne in Hj by assumption.
      destruct (Hmap j qid Hj) as (_ & Hs & _). exfalso. exact (Hfresh Hstrict Hs).
    + rewrite lookup_insert_eq in Hj. injection Hj as <-.
      rewrite lookup_insert_ne in Hi by assumption.
      destruct (Hmap i qid Hi) as (_ & Hs & _). exfalso. exact (Hfresh Hstrict Hs).
    + rewrite lookup_insert_ne in Hi, Hj by assumption. eapply Hinj; eauto.
Qed.

(** The loop that builds the batch reads the database and changes nothing. *)
Lemma batch_loop_run strict queue_ids : forall seen acc s,
  batch_inv strict (st_db s) seen acc ->
  (strict = true -> NoDup (seen ++ queue_ids)) ->
  exists acc',
    for_each queue_ids acc PipelineOrchestrator.batch_step s = (Ok acc', s)
    /\ batch_inv strict (st_db s) (seen ++ queue_ids) acc'.
Proof.
  induction queue_ids as [| qid rest IH]; intros seen acc s Hinv Hnd.
  - exists acc. rewrite app_nil_r. auto.
  - destruct (batch_step_run strict acc qid seen s Hinv) as (acc1 & Hrun & Hinv1).
    { intros Hs Hin. specialize (Hnd Hs). apply NoDup_app in Hnd as (_ & Hdis & _).
      apply (Hdis qid Hin). left. }
    destruct (IH (seen ++ [qid]) acc1 s Hinv1) as (acc' & Hrun' & Hinv').
    { intros Hs. rewrite <- app_assoc. apply Hnd, Hs. }
    exists acc'. cbn [for_each]. unfold bind. rewrite Hrun, Hrun'.
    rewrite <- app_assoc in Hinv'. auto.
Qed.

End BatchLoop.

Section Enumerate.

Lemma enumerate_from_fst {A} (l : list A) : forall i j,
  j ∈ (enumerate_from i l).*1 -> (i <= j)%Z.
Proof.
  induction l as [| x l IH]; intros i j Hj; cbn in Hj.
  - inversion Hj.
  - apply elem_of_cons in Hj as [-> | Hj]; [lia |]. apply IH in Hj. lia.
Qed.

Lemma enumerate_from_NoDup {A} (l : list A) : forall i, NoDup (enumerate_from i l).*1.
Proof.
  induction l as [| x l IH]; intros i; cbn; constructor.
  - intros Hin. apply enumerate_from_fst in Hin. lia.
  - apply IH.
Qed.

End Enumerate.

Section MarkLoop.
Context {W : Type} (L : Py.lib) (E : externals W).
Implicit Types s : state W.

Lemma same_rows_refl d : same_rows d d.
Proof. split; reflexivity. Qed.

Lemma same_rows_trans d1 d2 d3 : same_rows d1 d2 -> same_rows d2 d3 -> same_rows d1 d3.
Proof. intros [A1 B1] [A2 B2]. split; congruence. Qed.

(** Logging the post for each platform leaves the rows alone. *)
Lemma log_posts_spec strict qid sub platforms : forall u s,
  same_rows (st_db s)
    (st_db (for_each platforms u
              (fun _ platform => Database.log_post L E qid platform sub (py "scheduled"))
              s).2)
  /\ rtc (step strict) (st_db s)
       (st_db (for_each platforms u
                 (fun _ platform => Database.log_post L E qid platform sub (py "scheduled"))
                 s).2).
Proof.
  induction platforms as [| p rest IH]; intros u s.
  - split; [apply same_rows_refl | constructor].
  - cbn [for_each]. unfold bind.
    pose proof (log_post_queue L E qid p sub (py "scheduled") s) as Hq.
    pose proof (log_post_moves L E strict qid p sub (py "scheduled") s) as Hm.
    destruct (Database.log_post L E qid p sub (py "scheduled") s) as [[u' | e] s1];
      cbn [snd] in *.
    + destruct (IH u' s1) as [Hs Hr]. split.
      * eapply same_rows_trans; [exact Hq | exact Hs].
      * etransitivity; eassumption.
    + split; [exact Hq | exact Hm].
Qed.

(** One round of the marking loop. *)
Lemma mark_scheduled_spec strict platforms id_map acc i sub s res s' :
  (forall q, id_map !! i = Some q ->
     exists r, Db.content_queue (st_db s) !! q = Some r /\ has_final r
               /\ (Db.status r = Db.Generated
                   \/ (strict = false /\ Db.status r = Db.Scheduled))) ->
  PipelineOrchestrator.mark_scheduled L E platforms id_map acc (i, sub) s = (res, s') ->
  marked strict id_map i (st_db s) (st_db s')
  /\ forall ids, res = Ok ids ->
       ids = acc \/ exists q, id_map !! i = Some q /\ ids = acc ++ [q].
Proof.
  intros Hrow. unfold PipelineOrchestrator.mark_scheduled.
  assert (Hnone : marked strict id_map i (st_db s) (st_db s)).
  { exists (st_db s). split; [left; reflexivity |].
    split; [apply same_rows_refl | constructor]. }
  destruct (id_map !! i) as [qid |] eqn:Hi.
  2: { intros [= <- <-]. split; [exact Hnone | intros ? [= <-]; auto]. }
  destruct (negb (qid =? 0)%Z && truthy sub).
  2: { intros [= <- <-]. split; [exact Hnone | intros ? [= <-]; auto]. }
  destruct (Hrow qid eq_refl) as (r & Hr & Hfin & Hst).
  unfold bind at 1.
  pose proof (update_content_status_wp L E qid Db.Scheduled
                [(Db.Col_post_submission_id, sub)] s) as Hup.
  unfold wp in Hup.
  destruct (Database.update_content_status L E qid Db.Scheduled _ s) as [[[] | e] s1];
    cbn [fst snd] in Hup.
  2: { intros [= <- <-]. rewrite Hup. split; [exact Hnone | intros ? ?; discriminate]. }
  destruct Hup as (now & params & Hbind & Hdb1).
  cbn in Hbind. destruct (Database.sql_bind L sub) as [b |]; [| discriminate].
  injection Hbind as <-.
  unfold bind at 1.
  destruct (log_posts_spec strict qid sub platforms tt s1) as [Hsame Hsteps].
  destruct (for_each platforms tt _ s1) as [[u | e] s2]; cbn [fst snd] in *;
    intros [= <- <-].
  - split.
    + exists (st_db s1). split; [right; exists qid, now, b; auto |]. auto.
    + intros ids [= <-]. right. eauto.
  - split; [| intros ? ?; discriminate].
    exists (st_db s1). split; [right; exists qid, now, b; auto |]. auto.
Qed.

Lemma marked_steps strict id_map i d d' :
  (forall q, id_map !! i = Some q ->
     exists r, Db.content_queue d !! q = Some r /\ has_final r
               /\ (Db.status r = Db.Generated
                   \/ (strict = false /\ Db.status r = Db.Scheduled))) ->
  marked strict id_map i d d' -> rtc (step strict) d d'.
Proof.
  intros Hrow (d1 & [-> | (qid & now & sub & Hi & ->)] & _ & Hsteps); [exact Hsteps |].
  destruct (Hrow qid Hi) as (r & Hr & Hfin & Hst).
  eapply rtc_l; [| exact Hsteps]. eapply step_schedule; eassumption.
Qed.

(** A round keeps the invariant of the loop. *)
Lemma marked_inv strict d0 id_map i rest d d' :
  (forall j q, id_map !! j = Some q -> eligible d0 q) ->
  (strict = true ->
   (i ∉ rest)
   /\ forall j k q, id_map !! j = Some q -> id_map !! k = Some q -> j = k) ->
  mark_inv strict d0 id_map (i :: rest) d ->
  marked strict id_map i d d' ->
  mark_inv strict d0 id_map rest d'.
Proof.
  intros Helig Hstrict (Hfrom & Hreach & Hgen) (d1 & Hd1 & [Hq Hh] & _).
  unfold mark_inv, scheduled_from. rewrite Hq, Hh.
  destruct Hd1 as [-> | (qid & now & sub & Hi & ->)].
  { split; [exact Hfrom |]. split; [exact Hreach |].
    intros Hs j q Hj Hm. apply (Hgen Hs j q); [right; exact Hj | exact Hm]. }
  destruct Hfrom as (Hother & new & Hnew & Hall).
  destruct (Hreach qid (Helig _ _ Hi)) as (r & Hr & Hfin & Hst).
  split; [split |]; [| | split].
  - intros id Hne. rewrite update_row_other; [apply Hother, Hne |].
    intros <-. apply Hne. eapply Helig, Hi.
  - exists (new ++ [{| Db.tr_id := qid; Db.tr_from := Db.status r;
                       Db.tr_to := Db.Scheduled |}]).
    rewrite (update_row_history _ _ _ _ _ _ Hr), Hnew, app_assoc.
    split; [reflexivity |]. apply Forall_app. split; [exact Hall |].
    constructor; [| constructor]. cbn. split; [reflexivity | eapply Helig, Hi].
  - intros q Hq'. destruct (decide (q = qid)) as [-> | Hne].
    + rewrite (update_row_lookup _ _ _ _ _ _ Hr). eexists. split; [reflexivity |].
      split; [exact Hfin | right; reflexivity].
    + rewrite update_row_other by congruence. apply Hreach, Hq'.
  - intros Hs j q Hj Hm. destruct (Hstrict Hs) as [Hnin Hinj].
    assert (q <> qid).
    { intros ->. apply Hnin. rewrite (Hinj _ _ _ Hi Hm). exact Hj. }
    rewrite update_row_other by congruence.
    apply (Hgen Hs j q); [right; exact Hj | exact Hm].
Qed.

(** The row a round is about to mark is as the machine asks. *)
Lemma mark_inv_row strict d0 id_map i rest d :
  (forall j q, id_map !! j = Some q -> eligible d0 q) ->
  mark_inv strict d0 id_map (i :: rest) d ->
  forall q, id_map !! i = Some q ->
    exists r, Db.content_queue d !! q = Some r /\ has_final r
              /\ (Db.status r = Db.Generated
                  \/ (strict = false /\ Db.status r = Db.Scheduled)).
Proof.
  intros Helig (_ & Hreach & Hgen) q Hi.
  destruct (Hreach q (Helig _ _ Hi)) as (r & Hr & Hfin & Hst).
  exists r. split; [exact Hr |]. split; [exact Hfin |].
  destruct strict.
  - destruct (Hgen eq_refl i q) as (r' & Hr' & Hs'); [left | exact Hi |].
    left. congruence.
  - destruct Hst as [H | H]; auto.
Qed.

Lemma mark_loop_spec strict d0 platforms id_map entries : forall acc s,
  (forall j q, id_map !! j = Some q -> eligible d0 q) ->
  (strict = true ->
   NoDup entries.*1
   /\ forall j k q, id_map !! j = Some q -> id_map !! k = Some q -> j = k) ->
  mark_inv strict d0 id_map entries.*1 (st_db s) ->
  Forall (eligible d0) acc ->
  let out := for_each entries acc (PipelineOrchestrator.mark_scheduled L E platforms id_map) s in
  mark_inv strict d0 id_map [] (st_db out.2)
  /\ rtc (step strict) (st_db s) (st_db out.2)
  /\ forall ids, out.1 = Ok ids -> Forall (eligible d0) ids.
Proof.
  induction entries as [| [i sub] rest IH]; intros acc s Helig Hstrict Hinv Hacc; cbv zeta.
  - cbn. split; [exact Hinv |]. split; [constructor |]. intros ids [= <-]. exact Hacc.
  - cbn [for_each fmap list_fmap fst] in *. unfold bind.
    pose proof (mark_inv_row strict d0 id_map i (rest.*1) (st_db s) Helig Hinv) as Hrow.
    destruct (PipelineOrchestrator.mark_scheduled L E platforms id_map acc (i, sub) s)
      as [res s1] eqn:Hround.
    destruct (mark_scheduled_spec strict platforms id_map acc i sub s res s1 Hrow Hround)
      as [Hmark Hres].
    pose proof (marked_steps strict id_map i _ _ Hrow Hmark) as Hsteps.
    assert (Hinv1 : mark_inv strict d0 id_map rest.*1 (st_db s1)).
    { eapply marked_inv; [exact Helig | | exact Hinv | exact Hmark].
      intros Hs. destruct (Hstrict Hs) as [Hnd Hinj]. apply NoDup_cons in Hnd as [Hnin _].
      auto. }
    destruct res as [acc1 | e]; cbn [fst snd] in *.
    + destruct (IH acc1 s1 Helig) as (Hfinal & Hsteps' & Hids); [| exact Hinv1 | |].
      * intros Hs. destruct (Hstrict Hs) as [Hnd Hinj]. apply NoDup_cons in Hnd as [_ Hnd].
        auto.
      * destruct (Hres acc1 eq_refl) as [-> | (q & Hq & ->)]; [exact Hacc |].
        apply Forall_app. split; [exact Hacc |]. constructor; [eapply Helig, Hq | constructor].
      * split; [exact Hfinal |]. split; [etransitivity; eassumption | exact Hids].
    + split; [| split; [exact Hsteps | intros ? ?; discriminate]].
      destruct Hinv1 as (Hfrom & Hreach & _). split; [exact Hfrom |].
      split; [exact Hreach |]. intros _ j q Hj. inversion Hj.
Qed.

End MarkLoop.

Section RunScheduling.
Context {W : Type} (L : Py.lib) (E : externals W) (cfg : Config.t).
Implicit Types s : state W.

Lemma scheduled_from_refl d : scheduled_from d d.
Proof.
  split; [reflexivity |]. exists []. rewrite app_nil_r. split; [reflexivity | constructor].
Qed.

Lemma mark_inv_start strict d id_map rest :
  (forall j q, id_map !! j = Some q -> eligible d q) ->
  mark_inv strict d id_map rest d.
Proof.
  intros Helig. split; [apply scheduled_from_refl |]. split.
  - intros q (r & Hr & Hst & Hfin). exists r. repeat split; auto. left. exact Hst.
  - intros _ j q _ Hj. destruct (Helig j q Hj) as (r & Hr & Hst & _). eauto.
Qed.

(** [run_scheduling] writes [scheduled] to rows that were eligible when it
    started, and to no other row; the ids it returns are such rows. *)
Lemma run_scheduling_spec strict queue_ids platforms s :
  (strict = true -> NoDup queue_ids) ->
  let out := PipelineOrchestrator.run_scheduling L E cfg queue_ids platforms s in
  scheduled_from (st_db s) (st_db out.2)
  /\ rtc (step strict) (st_db s) (st_db out.2)
  /\ forall ids, out.1 = Ok ids -> Forall (eligible (st_db s)) ids.
Proof.
  intros Hnd. cbv zeta.
  destruct (PipelineOrchestrator.run_scheduling L E cfg queue_ids platforms s)
    as [res s'] eqn:Hrun. cbn [fst snd].
  revert Hrun. unfold PipelineOrchestrator.run_scheduling.
  unfold bind at 1. cbn [log].
  set (d0 := st_db s). set (s0 := with_log _ s).
  assert (Hd0 : st_db s0 = d0) by reflexivity. clearbody s0.
  assert (Hstay : forall s1, st_db s1 = d0 ->
            scheduled_from d0 (st_db s1) /\ rtc (step strict) d0 (st_db s1)).
  { intros s1 ->. split; [apply scheduled_from_refl | constructor]. }
  unfold bind at 1.
  pose proof (blato_init_db cfg s0) as H1. pose proof (blato_init_total cfg s0) as [b Hb].
  destruct (BlatoScheduler.__init__ cfg s0) as [r1 s1]. cbn in H1, Hb. subst r1.
  rewrite <- H1 in Hd0. clear H1 s0.
  destruct (Config.BLOTATO_API_KEY cfg) as [| c key].
  { intros [= <- <-]. destruct (Hstay s1 Hd0) as [Hf Hr].
    split; [exact Hf |]. split; [exact Hr |]. intros ids [= <-]. constructor. }
  unfold bind at 1.
  destruct (batch_loop_run strict queue_ids [] ([], ∅) s1) as ([batch id_map] & Hloop & Hinv).
  { unfold batch_inv. cbn [fst snd].
    split; [intros i q Hi; rewrite lookup_empty in Hi; discriminate |].
    intros _ i j q Hi. rewrite lookup_empty in Hi. discriminate. }
  { exact Hnd. }
  rewrite Hloop. clear Hloop. rewrite Hd0 in Hinv. destruct Hinv as [Hmap Hinj]. cbn [fst snd] in *.
  destruct batch as [| item batch'].
  { intros [= <- <-]. destruct (Hstay s1 Hd0) as [Hf Hr].
    split; [exact Hf |]. split; [exact Hr |]. intros ids [= <-]. constructor. }
  unfold bind at 1.
  pose proof (schedule_batch_db L E cfg b (item :: batch')
                (match platforms with
                 | Some (p :: ps) => p :: ps
                 | _ => Config.PLATFORMS cfg
                 end) s1) as H2.
  destruct (BlatoScheduler.schedule_batch L E cfg b (item :: batch') _ s1)
    as [[submission_ids | e] s2]; cbn [snd] in H2; rewrite <- H2 in Hd0; clear H2 s1.
  2: { intros [= <- <-]. destruct (Hstay s2 Hd0) as [Hf Hr].
       split; [exact Hf |]. split; [exact Hr |]. intros ? ?; discriminate. }
  unfold bind at 1.
  assert (Helig : forall j q, id_map !! j = Some q -> eligible d0 q).
  { intros j q Hj. apply (Hmap j q Hj). }
  destruct (mark_loop_spec L E strict d0
              (match platforms with
               | Some (p :: ps) => p :: ps
               | _ => Config.PLATFORMS cfg
               end) id_map (enumerate submission_ids) [] s2 Helig)
    as ((Hfrom & _) & Hsteps & Hids).
  { intros Hs. split; [apply enumerate_from_NoDup | apply Hinj, Hs]. }
  { rewrite Hd0. apply mark_inv_start. exact Helig. }
  { constructor. }
  rewrite Hd0 in Hsteps.
  destruct (for_each (enumerate submission_ids) [] _ s2) as [[scheduled_ids | e] s3];
    cbn [fst snd] in *; intros [= <- <-]; cbn [fst snd].
  - split; [exact Hfrom |]. split; [exact Hsteps | exact Hids].
  - split; [exact Hfrom |]. split; [exact Hsteps |]. intros ? ?; discriminate.
Qed.

End RunScheduling.

(* ===================================================================== *)
(** * Sequences of orchestrator operations                                *)
(* ===================================================================== *)

Section Operations.
Context {W : Type} (L : Py.lib) (E : externals W) (cfg : Config.t).
Implicit Types s : state W.

Lemma run_op_moves strict o s :
  (strict = true -> guarded (st_db s) o) ->
  rtc (step strict) (st_db s) (st_db (PipelineOrchestrator.run_op L E cfg o s)).
Proof.
  intros Hg. destruct o as [count | queue_ids | queue_ids platforms]; cbn [PipelineOrchestrator.run_op].
  - apply run_discovery_moves.
  - apply run_generation_moves. exact Hg.
  - apply (run_scheduling_spec L E cfg strict queue_ids platforms s). exact Hg.
Qed.

(** Every sequence of operations changes the database by writes of the
    status machine; a sequence called the way main.py calls the phases, by
    writes of the strict machine. *)
Lemma run_ops_moves strict ops : forall s,
  (strict = true -> guarded_ops L E cfg s ops) ->
  rtc (step strict) (st_db s) (st_db (PipelineOrchestrator.run_ops L E cfg ops s)).
Proof.
  induction ops as [| o ops IH]; intros s Hg; [constructor |].
  cbn [PipelineOrchestrator.run_ops fold_left].
  etransitivity.
  - apply (run_op_moves strict o s). intros Hs. apply (Hg Hs).
  - apply IH. intros Hs. apply (Hg Hs).
Qed.

(** C9.  Every row [run_scheduling] sets to [scheduled] had status
    [generated] and a non-empty final-video path when the call started; the
    rows that did not meet both conditions are left as they were; and the ids
    the call returns are ids of rows that met them. *)
Theorem run_scheduling_marks_generated_only queue_ids platforms s :
  let d := st_db s in
  let out := PipelineOrchestrator.run_scheduling L E cfg queue_ids platforms s in
  let d' := st_db out.2 in
  (exists new,
     Db.history d' = Db.history d ++ new
     /\ Forall (fun t => Db.tr_to t = Db.Scheduled /\ eligible d (Db.tr_id t)) new)
  /\ (forall id, ~ eligible d id -> Db.content_queue d' !! id = Db.content_queue d !! id)
  /\ (forall ids, out.1 = Ok ids -> Forall (eligible d) ids).
Proof.
  cbv zeta.
  destruct (run_scheduling_spec L E cfg false queue_ids platforms s) as ([Hrows Hnew] & _ & Hids);
    [discriminate |].
  split; [exact Hnew |]. split; [exact Hrows | exact Hids].
Qed.

(** C4.  The status writes of any sequence of operations go to
    [generating] from any status, to [generated] and [failed] from
    [generating] only, and to [scheduled] from [generated] (or again on a row
    just scheduled, when a call names an id twice).  When generation is
    called on pending rows and no call names an id twice ([strict]), the
    writes to [generating] start from [pending] and those to [scheduled] from
    [generated]: each status moves along
    pending -> generating -> generated | failed, and generated -> scheduled. *)
Theorem status_writes_follow_the_machine strict ops s :
  (strict = true -> guarded_ops L E cfg s ops) ->
  exists new,
    Db.history (st_db (PipelineOrchestrator.run_ops L E cfg ops s))
    = Db.history (st_db s) ++ new
    /\ Forall (allowed strict) new.
Proof.
  intros Hg. apply steps_history. apply run_ops_moves. exact Hg.
Qed.

(** C3.  After any sequence of operations a row whose status
    has reached [generated] or [scheduled] has its final-video path set.
    When generation is called on pending rows, no id twice, the path is set
    if and only if the status has reached [generated] or [scheduled]. *)
Theorem final_path_follows_status ops s :
  (generated_have_final (st_db s) ->
   generated_have_final (st_db (PipelineOrchestrator.run_ops L E cfg ops s)))
  /\ (guarded_ops L E cfg s ops ->
      consistent (st_db s) ->
      consistent (st_db (PipelineOrchestrator.run_ops L E cfg ops s))).
Proof.
  split.
  - apply (steps_generated_have_final false). apply run_ops_moves. discriminate.
  - intros Hg. apply steps_consistent. apply run_ops_moves. intros _. exact Hg.
Qed.

End Operations.

(* ===================================================================== *)
(** * Composition: what each ffmpeg pass does to the files                *)
(* ===================================================================== *)

Section Files.
Context {W : Type}.
Implicit Types s : state W.

Lemma same_except_refl p fs : same_except p fs fs.
Proof. intros q _. reflexivity. Qed.

Lemma same_except_trans p fs1 fs2 fs3 :
  same_except p fs1 fs2 -> same_except p fs2 fs3 -> same_except p fs1 fs3.
Proof. intros H1 H2 q Hq. rewrite H2, H1 by assumption. reflexivity. Qed.

Lemma valid_file_same_except p q fs fs' :
  same_except p fs fs' -> q <> p -> valid_file fs q -> valid_file fs' q.
Proof. intros Hs Hq (size & Hl & Hsz). exists size. rewrite Hs by assumption. auto. Qed.

Lemma writes_only_keeps {A} p (m : M W A) : keeps st_fs m -> writes_only p m.
Proof. intros H s. rewrite H. apply same_except_refl. Qed.

Lemma writes_only_bind {A B} p (m : M W A) (k : A -> M W B) :
  writes_only p m -> (forall a, writes_only p (k a)) -> writes_only p (bind m k).
Proof.
  intros Hm Hk s. unfold bind. specialize (Hm s).
  destruct (m s) as [[a | e] s1]; cbn in *; [| exact Hm].
  eapply same_except_trans; [exact Hm | apply Hk].
Qed.

Lemma writes_only_try_except {A} p (m : M W A) (h : exn -> M W A) :
  writes_only p m -> (forall e, writes_only p (h e)) -> writes_only p (try_except m h).
Proof.
  intros Hm Hh s. unfold try_except. specialize (Hm s).
  destruct (m s) as [[a | e] s1]; cbn in *; [exact Hm |].
  eapply same_except_trans; [exact Hm | apply Hh].
Qed.

Lemma keeps_fs_ask {A} (o : W -> A * W) : keeps st_fs (ask o).
Proof. intros s. unfold ask. destruct (o (st_world s)). reflexivity. Qed.

Lemma keeps_fs_call {A} ev (o : W -> result A * W) : keeps st_fs (call ev o).
Proof. intros s. unfold call. destruct (o (st_world s)). reflexivity. Qed.

Lemma keeps_fs_call_with_fs {A} (ev : event) (o : gmap pystr N -> W -> result A * W) :
  keeps st_fs (call_with_fs ev o).
Proof. intros s. unfold call_with_fs. apply keeps_fs_call. Qed.

Lemma keeps_fs_log l msg : keeps (W := W) st_fs (log l msg).
Proof. intros s. reflexivity. Qed.

End Files.

#[export] Hint Resolve keeps_fs_ask keeps_fs_call keeps_fs_call_with_fs keeps_fs_log : frame.

Ltac writes_step :=
  lazymatch goal with
  | |- writes_only _ (bind _ _) => apply writes_only_bind; [| intros ?]
  | |- writes_only _ (try_except _ _) => apply writes_only_try_except; [| intros ?]
  | |- writes_only _ (match ?x with _ => _ end) => destruct x
  | |- writes_only _ _ =>
      solve [auto with frame | apply writes_only_keeps; solve [auto with frame | repeat keeps_step]]
  end.

Section Passes.
Context {W : Type} (L : Py.lib) (E : externals W) (cfg : Config.t).
Implicit Types s : state W.

Lemma verify_file_fs path n : keeps (W := W) st_fs (FileManager.verify_file path n).
Proof. unfold FileManager.verify_file. repeat keeps_step. Qed.

(** [verify_file] returns, and says yes exactly of a file that is there and
    is not empty. *)
Lemma verify_file_run path s :
  exists b s',
    FileManager.verify_file path 1 s = (Ok b, s')
    /\ st_fs s' = st_fs s
    /\ (b = true <-> valid_file (st_fs s) path).
Proof.
  unfold FileManager.verify_file, bind, get_state, valid_file.
  destruct (st_fs s !! path) as [size |] eqn:Hp.
  - destruct (Z.ltb_spec (Z.of_N size) 1).
    + eexists false, _. cbn. split; [reflexivity |]. split; [reflexivity |].
      split; [discriminate |]. intros (size' & [= <-] & Hsz). lia.
    + eexists true, _. cbn. split; [reflexivity |]. split; [reflexivity |].
      split; [| reflexivity]. intros _. exists size. split; [reflexivity | lia].
  - eexists false, _. cbn. split; [reflexivity |]. split; [reflexivity |].
    split; [discriminate |]. intros (size' & Hn & _). discriminate.
Qed.

Lemma _get_duration_fs self path : keeps st_fs (VideoEditor._get_duration L E self path).
Proof. unfold VideoEditor._get_duration. repeat keeps_step. Qed.

(** ffmpeg writes to its output path, the last word of its command line. *)
Lemma subprocess_run_ffmpeg_writes out cmd :
  last cmd = Some out -> writes_only out (VideoEditor.subprocess_run_ffmpeg E cmd).
Proof.
  intros Hlast s q Hq. unfold VideoEditor.subprocess_run_ffmpeg.
  destruct (subprocess_ffmpeg E cmd (st_fs s) (st_world s)) as [[r written] w].
  rewrite Hlast. destruct written as [size |]; cbn; [| reflexivity].
  apply lookup_insert_ne. congruence.
Qed.

Lemma last_cons_cons {A} (a b : A) l : last (a :: b :: l) = last (b :: l).
Proof. reflexivity. Qed.

Lemma _run_ffmpeg_writes self out args :
  last args = Some out -> writes_only out (VideoEditor._run_ffmpeg E self args).
Proof.
  intros Hlast. unfold VideoEditor._run_ffmpeg.
  assert (Hcmd : last ([py "ffmpeg"; py "-y"] ++ args) = Some out).
  { destruct args as [| a args]; [discriminate |]. exact Hlast. }
  pose proof (subprocess_run_ffmpeg_writes out _ Hcmd).
  pose proof verify_file_fs. repeat writes_step.
Qed.

(** The end the passes share: it returns; it writes to the output of the
    command only; and when it returns the path, a non-empty file is there. *)
Lemma run_and_verify_spec self args out done s res s' :
  last args = Some out ->
  VideoEditor.run_and_verify E self args out done s = (res, s') ->
  same_except out (st_fs s) (st_fs s')
  /\ (res = Ok None \/ (res = Ok (Some out) /\ valid_file (st_fs s') out)).
Proof.
  intros Hlast. unfold VideoEditor.run_and_verify. unfold bind at 1.
  pose proof (_run_ffmpeg_writes self out args Hlast s) as Hw.
  destruct (_run_ffmpeg_total E self args s) as [ran Hran].
  destruct (VideoEditor._run_ffmpeg E self args s) as [r1 s1]. cbn in Hw, Hran. subst r1.
  destruct ran.
  - unfold bind at 1. destruct (verify_file_run out s1) as (b & s2 & Hrun & Hfs & Hb).
    rewrite Hrun. destruct b; intros [= <- <-]; cbn; rewrite Hfs.
    + split; [exact Hw |]. right. split; [reflexivity |]. apply Hb. reflexivity.
    + split; [exact Hw |]. left. reflexivity.
  - intros [= <- <-]. split; [exact Hw |]. left. reflexivity.
Qed.

Lemma add_audio_to_video_spec self video audio out s res s' :
  VideoEditor.add_audio_to_video L E self video audio out s = (res, s') ->
  same_except out (st_fs s) (st_fs s')
  /\ (res = Ok None \/ (res = Ok (Some out) /\ valid_file (st_fs s') out)).
Proof.
  unfold VideoEditor.add_audio_to_video. unfold bind at 1.
  pose proof (_get_duration_fs self video s) as H1.
  destruct (_get_duration_total L E self video s) as [v_dur Hv].
  destruct (VideoEditor._get_duration L E self video s) as [r1 s1]. cbn in H1, Hv. subst r1.
  unfold bind at 1.
  pose proof (_get_duration_fs self audio s1) as H2.
  destruct (_get_duration_total L E self audio s1) as [a_dur Ha].
  destruct (VideoEditor._get_duration L E self audio s1) as [r2 s2]. cbn in H2, Ha. subst r2.
  rewrite <- H1, <- H2.
  destruct (float_le L v_dur (float_zero L) || float_le L a_dur (float_zero L)).
  - intros [= <- <-]. cbn. split; [apply same_except_refl | left; reflexivity].
  - destruct (float_lt L v_dur a_dur); apply run_and_verify_spec; reflexivity.
Qed.

Lemma add_captions_spec self video caption out s res s' :
  VideoEditor.add_captions E self video (VStr caption) out s = (res, s') ->
  same_except out (st_fs s) (st_fs s')
  /\ (res = Ok None \/ (res = Ok (Some out) /\ valid_file (st_fs s') out)).
Proof.
  unfold VideoEditor.add_captions. unfold bind at 1. cbn [as_str lift].
  apply run_and_verify_spec. reflexivity.
Qed.

Lemma add_intro_card_spec self video hook out s res s' :
  VideoEditor.add_intro_card E self video (VStr hook) out s = (res, s') ->
  same_except out (st_fs s) (st_fs s')
  /\ (res = Ok None \/ (res = Ok (Some out) /\ valid_file (st_fs s') out)).
Proof.
  unfold VideoEditor.add_intro_card. unfold bind at 1. cbn [as_str lift].
  apply run_and_verify_spec. reflexivity.
Qed.

End Passes.

Section Paths.

Lemma startswith_app p s : startswith p (p ++ s) = true.
Proof. induction p as [| a p IH]; [reflexivity |]. cbn. rewrite N.eqb_refl. exact IH. Qed.

Lemma startswith_app_same a x y : startswith (a ++ x) (a ++ y) = startswith x y.
Proof. induction a as [| c a IH]; [reflexivity |]. cbn. rewrite N.eqb_refl. exact IH. Qed.

(** A name with no slash, joined to a directory, is an entry of it. *)
Lemma in_dir_join dir name :
  name <> [] -> forallb (fun c => negb (c =? 47)%N) name = true ->
  FileManager.in_dir dir (Config.path_join dir name) = true.
Proof.
  intros Hne Hname. unfold FileManager.in_dir, Config.path_join.
  rewrite (app_assoc dir), startswith_app, drop_app_length, Hname.
  rewrite bool_decide_eq_false_2 by assumption. reflexivity.
Qed.

Lemma falsy_path_join dir name : falsy (Some (Config.path_join dir name)) = false.
Proof. unfold Config.path_join. destruct dir; reflexivity. Qed.

Lemma in_dir_differ dir p q :
  FileManager.in_dir dir p = false -> FileManager.in_dir dir q = true -> p <> q.
Proof. intros Hp Hq ->. congruence. Qed.

(** The directory of final videos is not the directory of temporary files. *)
Lemma final_not_temp cfg name :
  FileManager.in_dir (VideoEditor.temp_dir cfg)
    (Config.path_join (Config.FINAL_DIR cfg) name) = false.
Proof.
  unfold FileManager.in_dir, VideoEditor.temp_dir, Config.FINAL_DIR, Config.OUTPUTS_DIR,
    Config.path_join.
  rewrite <- !app_assoc, startswith_app_same. reflexivity.
Qed.

End Paths.

Section Compose.
Context {W : Type} (L : Py.lib) (E : externals W) (cfg : Config.t).
Implicit Types s : state W.

Lemma copy2_run src dst s :
  valid_file (st_fs s) src -> src <> dst ->
  exists s', FileManager.copy2 src dst s = (Ok tt, s')
             /\ valid_file (st_fs s') dst.
Proof.
  intros (size & Hsrc & Hsz) Hne. unfold FileManager.copy2, bind, get_state.
  rewrite Hsrc. unfold pystr_eqb. rewrite bool_decide_eq_false_2 by assumption.
  eexists. split; [reflexivity |]. exists size. cbn. rewrite lookup_insert_eq. auto.
Qed.

Lemma unlink_files_in_run dir p s :
  FileManager.in_dir dir p = false -> valid_file (st_fs s) p ->
  valid_file (st_fs (FileManager.unlink_files_in (W := W) dir s).2) p.
Proof.
  intros Hp (size & Hl & Hsz). exists size. split; [| exact Hsz].
  cbn. apply map_lookup_filter_Some. split; assumption.
Qed.

(** The end of a pass chain: [verify_file] on a file that is there. *)
Lemma verify_and_return out s :
  valid_file (st_fs s) out ->
  exists s',
    (ok <- FileManager.verify_file out 1 ;;
     if ok then log INFO (py "Final video composed: %s") ;; ret (Some out)
     else ret None) s = (Ok (Some out), s')
    /\ valid_file (st_fs s') out.
Proof.
  intros Hv. unfold bind at 1.
  destruct (verify_file_run out s) as (b & s1 & Hrun & Hfs & Hb). rewrite Hrun.
  apply Hb in Hv as ->. eexists. split; [reflexivity |]. cbn. rewrite Hfs. apply Hb. reflexivity.
Qed.

(** The third pass and what follows it, from a source file that is there:
    when the pass fails the source is copied to the output path. *)
Lemma compose_captions_or_copy self src caption out s :
  out <> [] -> valid_file (st_fs s) src -> src <> out ->
  exists s',
    (result <- VideoEditor.add_captions E self src (VStr caption) out ;;
     (if falsy result
      then log WARNING (py "Caption burn failed, using merged video as final") ;;
           FileManager.copy2 src out
      else ret tt) ;;
     ok <- FileManager.verify_file out 1 ;;
     if ok then log INFO (py "Final video composed: %s") ;; ret (Some out)
     else ret None) s = (Ok (Some out), s')
    /\ valid_file (st_fs s') out.
Proof.
  intros Hout Hsrc Hne. unfold bind at 1.
  destruct (VideoEditor.add_captions E self src (VStr caption) out s) as [r3 s3] eqn:H3.
  apply add_captions_spec in H3 as [Hw3 [-> | [-> Hvalid]]].
  - cbn [falsy]. unfold bind at 1 2. unfold log at 1. cbn beta iota.
    match goal with
    | |- context [FileManager.copy2 src out ?st] =>
        destruct (copy2_run src out st) as (s4 & -> & Hv4);
          [cbn; eapply valid_file_same_except; eauto | exact Hne |]
    end.
    apply verify_and_return. exact Hv4.
  - destruct out as [| c out]; [congruence |]. cbn [falsy]. unfold bind at 1. cbn [ret].
    apply verify_and_return. exact Hvalid.
Qed.

Lemma temp_names :
  let temp := VideoEditor.temp_dir cfg in
  FileManager.in_dir temp (Config.path_join temp (py "step1_intro.mp4")) = true
  /\ FileManager.in_dir temp (Config.path_join temp (py "step2_merged.mp4")) = true.
Proof. split; apply in_dir_join; (discriminate || reflexivity). Qed.

(** The three passes when the first one fails: the video goes on to the
    merge as it is, and whatever the two other passes do, a file that is
    not empty is at the output path in the end. *)
Lemma compose_steps_without_intro self video audio caption hook out s :
  let temp := VideoEditor.temp_dir cfg in
  out <> [] ->
  valid_file (st_fs s) video ->
  FileManager.in_dir temp video = false ->
  FileManager.in_dir temp out = false ->
  out <> video ->
  (VideoEditor.add_intro_card E self video (VStr hook)
     (Config.path_join temp (py "step1_intro.mp4")) s).1 = Ok None ->
  exists s',
    VideoEditor.compose_steps L E cfg self video audio (VStr caption) (VStr hook) out s
    = (Ok (Some out), s')
    /\ valid_file (st_fs s') out.
Proof.
  intros temp Hout Hvideo Hvt Hot Hov Hintro.
  destruct temp_names as [Hit Hmt]. fold temp in Hit, Hmt.
  pose proof (in_dir_differ _ _ _ Hvt Hit) as Hvi.
  pose proof (in_dir_differ _ _ _ Hvt Hmt) as Hvm.
  pose proof (in_dir_differ _ _ _ Hot Hmt) as Hom.
  unfold VideoEditor.compose_steps. fold temp.
  unfold bind at 1.
  destruct (VideoEditor.add_intro_card E self video (VStr hook) _ s) as [r1 s1] eqn:H1.
  apply add_intro_card_spec in H1 as [Hw1 _]. cbn in Hintro. subst r1. cbn [falsy].
  assert (Hv1 : valid_file (st_fs s1) video)
    by (eapply valid_file_same_except; eauto).
  clear Hw1 Hvideo.
  unfold bind at 1 2. unfold log at 1. cbn beta iota. cbn [ret].
  unfold bind at 1.
  match goal with
  | |- context [VideoEditor.add_audio_to_video L E self video audio ?m ?st] =>
      assert (Hv1' : valid_file (st_fs st) video) by exact Hv1;
      destruct (VideoEditor.add_audio_to_video L E self video audio m st)
        as [r2 s2] eqn:H2
  end.
  apply add_audio_to_video_spec in H2 as [Hw2 Hr2].
  pose proof (valid_file_same_except _ _ _ _ Hw2 Hvm Hv1') as Hv2.
  destruct Hr2 as [-> | [-> Hmerged]].
  - cbn [falsy]. unfold bind at 1 2. unfold log at 1. cbn beta iota. cbn [ret].
    apply compose_captions_or_copy; [exact Hout | exact Hv2 | congruence].
  - rewrite falsy_path_join. unfold bind at 1. cbn [ret].
    apply compose_captions_or_copy; [exact Hout | exact Hmerged | congruence].
Qed.

Lemma default_output_path_run output_path s out s1 :
  VideoEditor.default_output_path L E cfg output_path s = (Ok out, s1) ->
  out <> [] /\ st_fs s1 = st_fs s.
Proof.
  unfold VideoEditor.default_output_path.
  assert (Hjoin : forall dir name, Config.path_join dir name <> []).
  { intros dir name. unfold Config.path_join. destruct dir; discriminate. }
  destruct output_path as [[| c p] |]; cbn [falsy default];
    unfold FileManager.timestamped_name, ask, ret; unfold bind; cbv beta;
    try destruct (clock_now E (st_world s)) as [ts w]; cbv beta iota;
    intros H; injection H as <- <-; (split; [first [apply Hjoin | discriminate] | reflexivity]).
Qed.


End Compose.

(* ===================================================================== *)
(** * Failures are reported                                               *)
(* ===================================================================== *)

Section Reports.
Context {W : Type}.
Implicit Types s : state W.

Lemma grows_keeps {A} (m : M W A) : keeps st_log m -> grows m.
Proof. intros H s. exists []. rewrite H, app_nil_r. reflexivity. Qed.

Lemma grows_ret {A} (a : A) : grows (W := W) (ret a).
Proof. apply grows_keeps. intros s. reflexivity. Qed.

Lemma grows_raise {A} e : grows (W := W) (raise (A := A) e).
Proof. apply grows_keeps. intros s. reflexivity. Qed.

Lemma grows_lift {A} (r : result A) : grows (W := W) (lift r).
Proof. apply grows_keeps. intros s. reflexivity. Qed.

Lemma grows_get_state : grows (W := W) get_state.
Proof. apply grows_keeps. intros s. reflexivity. Qed.

Lemma grows_ask {A} (o : W -> A * W) : grows (ask o).
Proof. apply grows_keeps. intros s. unfold ask. destruct (o (st_world s)). reflexivity. Qed.

Lemma grows_call {A} ev (o : W -> result A * W) : grows (call ev o).
Proof. apply grows_keeps. intros s. unfold call. destruct (o (st_world s)). reflexivity. Qed.

Lemma grows_call_with_fs {A} (ev : event) (o : gmap pystr N -> W -> result A * W) :
  grows (call_with_fs ev o).
Proof. intros s. unfold call_with_fs. apply grows_call. Qed.

Lemma grows_write_stream ev (o : W -> stream * W) path : grows (write_stream ev o path).
Proof.
  apply grows_keeps. intros s. unfold write_stream.
  destruct (o (st_world s)) as [[[n [e |]] | e] w]; reflexivity.
Qed.

Lemma grows_modify_fs g : grows (W := W) (modify_fs g).
Proof. apply grows_keeps. intros s. reflexivity. Qed.

Lemma grows_log l msg : grows (W := W) (log l msg).
Proof. intros s. exists [(l, msg)]. reflexivity. Qed.

Lemma grows_bind {A B} (m : M W A) (k : A -> M W B) :
  grows m -> (forall a, grows (k a)) -> grows (bind m k).
Proof.
  intros Hm Hk s. unfold bind. destruct (Hm s) as [n1 E1].
  destruct (m s) as [[a | e] s1]; cbn in *; [| eauto].
  destruct (Hk a s1) as [n2 E2]. exists (n1 ++ n2). rewrite E2, E1, app_assoc. reflexivity.
Qed.

Lemma grows_try_except {A} (m : M W A) (h : exn -> M W A) :
  grows m -> (forall e, grows (h e)) -> grows (try_except m h).
Proof.
  intros Hm Hh s. unfold try_except. destruct (Hm s) as [n1 E1].
  destruct (m s) as [[a | e] s1]; cbn in *; [eauto |].
  destruct (Hh e s1) as [n2 E2]. exists (n1 ++ n2). rewrite E2, E1, app_assoc. reflexivity.
Qed.

Lemma reports_grows {A} (null : A -> Prop) (m : M W A) : reports null m -> grows m.
Proof. intros H s. destruct (H s) as (new & Hnew & _). eauto. Qed.

(** [logger.error(...)] and then [return]: reported, whatever is returned. *)
Lemma reports_error {A} (null : A -> Prop) msg (a : A) :
  reports (W := W) null (log ERROR msg ;; ret a).
Proof. intros s. exists [(ERROR, msg)]. split; [reflexivity |]. intros _ _ _. exists []. eauto. Qed.

(** A value that is not a failure needs no record. *)
Lemma reports_ret {A} (null : A -> Prop) (a : A) :
  ~ null a -> reports (W := W) null (ret a).
Proof.
  intros Ha s. exists []. rewrite app_nil_r. split; [reflexivity |].
  intros a' Ha' Hnull. cbn in Ha'. injection Ha' as <-. contradiction.
Qed.

(** What raises returns nothing. *)
Lemma reports_raise {A} (null : A -> Prop) e : reports (W := W) null (raise e).
Proof.
  intros s. exists []. rewrite app_nil_r. split; [reflexivity |]. intros a Hok. discriminate Hok.
Qed.

Lemma reports_bind {A B} (null : B -> Prop) (m : M W A) (k : A -> M W B) :
  grows m -> (forall a, reports null (k a)) -> reports null (bind m k).
Proof.
  intros Hm Hk s. unfold bind. destruct (Hm s) as [n1 E1].
  destruct (m s) as [[a | e] s1]; cbn in *.
  - destruct (Hk a s1) as (n2 & E2 & Hn2). exists (n1 ++ n2).
    split; [rewrite E2, E1, app_assoc; reflexivity |].
    intros b Hb Hnull. destruct (Hn2 b Hb Hnull) as (pre & msg & ->).
    exists (n1 ++ pre), msg. rewrite app_assoc. reflexivity.
  - exists n1. split; [exact E1 |]. intros b Hb. discriminate Hb.
Qed.

Lemma reports_try_except {A} (null : A -> Prop) (m : M W A) (h : exn -> M W A) :
  reports null m -> (forall e, reports null (h e)) -> reports null (try_except m h).
Proof.
  intros Hm Hh s. unfold try_except. destruct (Hm s) as (n1 & E1 & Hn1).
  destruct (m s) as [[a | e] s1]; cbn in *.
  - exists n1. split; [exact E1 | exact Hn1].
  - destruct (Hh e s1) as (n2 & E2 & Hn2). exists (n1 ++ n2).
    split; [rewrite E2, E1, app_assoc; reflexivity |].
    intros b Hb Hnull. destruct (Hn2 b Hb Hnull) as (pre & msg & ->).
    exists (n1 ++ pre), msg. rewrite app_assoc. reflexivity.
Qed.

(** [verify_file] says why it says no. *)
Lemma reports_verify_file path n :
  reports (W := W) (fun ok => ok = false) (FileManager.verify_file path n).
Proof.
  intros s. unfold FileManager.verify_file, bind, get_state, log, ret.
  destruct (st_fs s !! path) as [size |].
  - destruct (Z.of_N size <? n)%Z.
    + eexists [_]. split; [reflexivity |]. intros _ _ _. exists []. eauto.
    + exists []. cbn. rewrite app_nil_r. split; [reflexivity |]. intros a Ha Hf.
      cbn in Ha. injection Ha as <-. discriminate Hf.
  - eexists [_]. split; [reflexivity |]. intros _ _ _. exists []. eauto.
Qed.

(** The end [generate_video] and [synthesize] share. *)
Lemma reports_verified path n done :
  reports (W := W) (fun r => r = None)
    (ok <- FileManager.verify_file path n ;;
     if ok then log INFO done ;; ret (Some path) else ret None).
Proof.
  intros s. unfold bind. destruct (reports_verify_file path n s) as (new & Hnew & Hlast).
  destruct (FileManager.verify_file path n s) as [[[] | e] s1]; cbn [fst snd] in *.
  - exists (new ++ [(INFO, done)]). unfold log, ret. cbn. rewrite Hnew, app_assoc.
    split; [reflexivity |]. intros a Ha Hnone. cbn in Ha. injection Ha as <-.
    discriminate Hnone.
  - exists new. split; [exact Hnew |]. intros a _ _. apply (Hlast false); reflexivity.
  - exists new. split; [exact Hnew |]. intros a Ha. discriminate Ha.
Qed.

End Reports.

Create HintDb grows discriminated.
#[export] Hint Resolve grows_ret grows_raise grows_lift grows_get_state grows_ask grows_call
  grows_call_with_fs grows_write_stream grows_modify_fs grows_log : grows.

(** One step through the structure of a computation, for the goals [grows]
    and [reports]. *)
Ltac grows_step :=
  lazymatch goal with
  | |- grows (let _ := _ in _) => cbv zeta
  | |- grows (bind _ _) => apply grows_bind; [| intros ?]
  | |- grows (try_except _ _) => apply grows_try_except; [| intros ?]
  | |- grows (match ?x with _ => _ end) => destruct x
  | |- grows _ => solve [auto with grows]
  end.

Ltac reports_step :=
  lazymatch goal with
  | |- reports _ (let _ := _ in _) => cbv zeta
  | |- reports _ (bind (log ERROR _) (fun _ => ret _)) => apply reports_error
  | |- reports _ (bind (FileManager.verify_file _ _) _) => apply reports_verified
  | |- reports _ (bind _ _) => apply reports_bind; [solve [repeat grows_step] | intros ?]
  | |- reports _ (try_except _ _) => apply reports_try_except; [| intros ?]
  | |- reports _ (raise _) => apply reports_raise
  | |- reports _ (ret _) => apply reports_ret; solve [discriminate | congruence]
  | |- reports _ (match ?x with _ => _ end) => destruct x eqn:?
  end.

Section ReportsOfTheComponents.
Context {W : Type} (L : Py.lib) (E : externals W) (cfg : Config.t).
Implicit Types s : state W.

Lemma grows_subprocess_run_ffmpeg cmd : grows (VideoEditor.subprocess_run_ffmpeg E cmd).
Proof.
  apply grows_keeps. intros s. unfold VideoEditor.subprocess_run_ffmpeg.
  destruct (subprocess_ffmpeg E cmd (st_fs s) (st_world s)) as [[r written] w]. reflexivity.
Qed.

Lemma grows_poll_once self url k d : grows (HiggsFieldGenerator.poll_once E self url k d).
Proof. unfold HiggsFieldGenerator.poll_once. repeat grows_step. Qed.

Lemma grows__poll_status self url k d n :
  grows (HiggsFieldGenerator._poll_status E self url k d n).
Proof.
  induction n as [| n IH]; cbn [HiggsFieldGenerator._poll_status]; [repeat grows_step |].
  apply grows_bind; [apply grows_poll_once | intros r]. destruct r; [apply grows_ret | exact IH].
Qed.

Lemma grows__download_file url path : grows (HiggsFieldGenerator._download_file E url path).
Proof. unfold HiggsFieldGenerator._download_file. repeat grows_step. Qed.

Lemma grows_timestamped_name prefix ext : grows (FileManager.timestamped_name L E prefix ext).
Proof. unfold FileManager.timestamped_name. repeat grows_step. Qed.

Lemma grows__resolve_voice_id self v : grows (ElevenLabsVoice._resolve_voice_id E cfg self v).
Proof. unfold ElevenLabsVoice._resolve_voice_id. repeat grows_step. Qed.

Lemma grows_exists_ path : grows (W := W) (FileManager.exists_ path).
Proof. unfold FileManager.exists_. repeat grows_step. Qed.

Hint Resolve grows_subprocess_run_ffmpeg grows__poll_status grows__download_file
  grows_timestamped_name grows__resolve_voice_id grows_exists_ : grows.

(** Every [None] of [generate_video] comes with an ERROR record. *)
Lemma generate_video_reports self prompt soul_id :
  reports (fun r => r = None)
    (HiggsFieldGenerator.generate_video L E cfg self prompt soul_id).
Proof.
  unfold HiggsFieldGenerator.generate_video, HiggsFieldGenerator.generate_video_request.
  repeat reports_step.
Qed.

Lemma synthesize_reports self text voice_id output_path :
  reports (fun r => r = None)
    (ElevenLabsVoice.synthesize L E cfg self text voice_id output_path).
Proof. unfold ElevenLabsVoice.synthesize. repeat reports_step. Qed.

Lemma _run_ffmpeg_reports self args :
  reports (fun ok => ok = false) (VideoEditor._run_ffmpeg E self args).
Proof. unfold VideoEditor._run_ffmpeg. repeat reports_step. Qed.

Lemma upload_media_reports self path :
  reports (fun media_id => truthy media_id = false)
    (BlatoScheduler.upload_media E self path).
Proof. unfold BlatoScheduler.upload_media. repeat reports_step. Qed.

Lemma schedule_post_reports self media_id caption platforms schedule_time :
  reports (fun sub_id => truthy sub_id = false)
    (BlatoScheduler.schedule_post E self media_id caption platforms schedule_time).
Proof. unfold BlatoScheduler.schedule_post. repeat reports_step. Qed.

End ReportsOfTheComponents.

(* ===================================================================== *)
(** * Errors: what is stopped where                                       *)
(* ===================================================================== *)

Section Errors.
Context {W : Type} (L : Py.lib) (E : externals W) (cfg : Config.t).
Implicit Types s : state W.

(** C8.  With no Soul ID configured, [run_generation] returns the empty
    list, whatever the queue ids; no external call is made, so none to the
    video API, and the tables, the files and the world are as before: the
    two log records are all it leaves. *)
Theorem run_generation_without_soul_id queue_ids s :
  Config.SOUL_ID cfg = [] ->
  exists s',
    PipelineOrchestrator.run_generation L E cfg queue_ids s = (Ok [], s')
    /\ st_calls s' = st_calls s
    /\ st_db s' = st_db s
    /\ st_fs s' = st_fs s
    /\ st_world s' = st_world s
    /\ st_log s' = st_log s ++
         [(INFO, py "=== PHASE 2-4: Content Generation ===");
          (WARNING, py "Soul ID not configured. Run: python main.py --setup-soul-id")].
Proof.
  intros Hsoul. unfold PipelineOrchestrator.run_generation. rewrite Hsoul.
  eexists. split; [reflexivity |]. cbn. rewrite <- app_assoc. auto.
Qed.

(** ** Statuses are written whatever the fields *)

Lemma update_content_status_total id st fields :
  (exists params, Database.sql_bind_fields L fields = Ok params) ->
  total (W := W) (Database.update_content_status L E id st fields).
Proof.
  intros [params Hp]. unfold Database.update_content_status. rewrite Hp.
  repeat total_step.
Qed.

Lemma generation_step_total video_gen voice editor soul_id acc qid :
  total (PipelineOrchestrator.generation_step L E cfg video_gen voice editor soul_id acc qid).
Proof.
  unfold PipelineOrchestrator.generation_step.
  assert (H : forall st, total (W := W) (Database.update_content_status L E qid st []))
    by (intros st; apply update_content_status_total; cbn; eauto).
  repeat total_step.
Qed.

Lemma run_generation_total queue_ids :
  total (PipelineOrchestrator.run_generation L E cfg queue_ids).
Proof.
  unfold PipelineOrchestrator.run_generation.
  pose proof generation_step_total. repeat total_step.
Qed.

Lemma run_discovery_total count :
  total (PipelineOrchestrator.run_discovery L E cfg count).
Proof.
  unfold PipelineOrchestrator.run_discovery, PipelineOrchestrator.queue_item.
  repeat total_step.
Qed.

(** ** A request that raises *)

Lemma upload_media_failure self path s e w :
  BlatoScheduler.api_key self <> [] ->
  is_Some (st_fs s !! path) ->
  (let url := BlatoScheduler.base_url self ++ py "/v2/media/upload" in
   requests_post_file E url (BlatoScheduler._headers self) path (st_world s) = (Raise e, w)) ->
  exists s',
    BlatoScheduler.upload_media E self path s = (Ok VNone, s')
    /\ st_log s' = st_log s ++ [(ERROR, py "Media upload failed for %s: %s")].
Proof.
  intros Hkey Hfile Hreq. unfold BlatoScheduler.upload_media.
  destruct (BlatoScheduler.api_key self) as [| c key]; [congruence |].
  unfold try_except, FileManager.exists_, get_state, call. unfold bind, ret. cbv beta iota.
  rewrite bool_decide_eq_true_2 by assumption. cbn [negb]. cbv zeta in Hreq.
  cbv beta iota. rewrite Hreq. eexists. split; reflexivity.
Qed.

Lemma schedule_post_failure self media_id caption platforms schedule_time s e w :
  BlatoScheduler.api_key self <> [] ->
  requests_post_json E (BlatoScheduler.base_url self ++ py "/v2/posts")
    (BlatoScheduler.post_headers self)
    (BlatoScheduler.post_body media_id caption platforms schedule_time)
    (st_world s) = (Raise e, w) ->
  exists s',
    BlatoScheduler.schedule_post E self media_id caption platforms schedule_time s
    = (Ok VNone, s')
    /\ st_log s' = st_log s ++ [(ERROR, py "Post scheduling failed: %s")].
Proof.
  intros Hkey Hreq. unfold BlatoScheduler.schedule_post.
  destruct (BlatoScheduler.api_key self) as [| c key]; [congruence |].
  unfold try_except, call. unfold bind. cbv beta zeta. rewrite Hreq.
  eexists. split; reflexivity.
Qed.

(** ** Construction without a credential *)

Lemma scraper_init_raises s :
  (exists s', ApifyScraper.__init__ cfg s
              = (Raise (ValueError (py "APIFY_API_TOKEN is not set in .env")), s'))
  <-> Config.APIFY_API_TOKEN cfg = [].
Proof.
  unfold ApifyScraper.__init__.
  destruct (Config.APIFY_API_TOKEN cfg); split; try discriminate; eauto.
  intros [s' H]. discriminate H.
Qed.

Lemma analyzer_init_raises s :
  (exists s', GeminiAnalyzer.__init__ cfg s
              = (Raise (ValueError (py "GEMINI_API_KEY is not set in .env")), s'))
  <-> Config.GEMINI_API_KEY cfg = [].
Proof.
  unfold GeminiAnalyzer.__init__.
  destruct (Config.GEMINI_API_KEY cfg); split; try discriminate; eauto.
  intros [s' H]. discriminate H.
Qed.

(** Discovery without the scraper's token: the error of the constructor is
    logged and the phase returns no id. *)
Lemma run_discovery_without_token count s :
  Config.APIFY_API_TOKEN cfg = [] ->
  exists s',
    PipelineOrchestrator.run_discovery L E cfg count s = (Ok [], s')
    /\ st_log s' = st_log s ++
         [(INFO, py "=== PHASE 1: Content Discovery ===");
          (ERROR, py "Scraping failed: %s");
          (WARNING, py "No content discovered - skipping analysis")].
Proof.
  intros Htoken. unfold PipelineOrchestrator.run_discovery, ApifyScraper.__init__.
  rewrite Htoken. eexists. split; [reflexivity |]. cbn. rewrite <- !app_assoc. reflexivity.
Qed.

(** ** An external call that raises, method by method *)

Lemma generate_video_failure self prompt soul_id s :
  HiggsFieldGenerator.api_key self <> [] ->
  (forall payload, exists e,
     (requests_post_json E (HiggsFieldGenerator.base_url self ++ py "/v1/generations")
        (HiggsFieldGenerator._headers self) payload (st_world s)).1 = Raise e) ->
  exists s',
    HiggsFieldGenerator.generate_video L E cfg self prompt soul_id s = (Ok None, s')
    /\ st_log s' = st_log s ++ [(ERROR, py "Video generation failed: %s")].
Proof.
  intros Hkey Hreq. unfold HiggsFieldGenerator.generate_video.
  destruct (HiggsFieldGenerator.api_key self) as [| c key]; [congruence |].
  unfold try_except, HiggsFieldGenerator.generate_video_request. unfold bind at 1, call.
  match goal with
  | |- context [requests_post_json E ?u ?h ?payload (st_world s)] =>
      destruct (Hreq payload) as [e He];
      destruct (requests_post_json E u h payload (st_world s)) as [r w]
  end.
  cbn [fst] in He. subst r. eexists. split; reflexivity.
Qed.

(** A poll that raises is logged as a warning, and polling goes on. *)
Lemma _poll_status_goes_on self url status_key done_value n s e w :
  requests_get_json E url (HiggsFieldGenerator._headers self) (st_world s) = (Raise e, w) ->
  HiggsFieldGenerator._poll_status E self url status_key done_value (S n) s
  = HiggsFieldGenerator._poll_status E self url status_key done_value n
      (with_log (st_log s ++ [(WARNING, py "Poll request failed: %s")])
         (with_calls (st_calls s ++ [EvGetJson url (HiggsFieldGenerator._headers self)])
            (with_world w s))).
Proof.
  intros Hreq. cbn [HiggsFieldGenerator._poll_status].
  unfold bind at 1, HiggsFieldGenerator.poll_once, try_except. unfold bind at 1, call.
  rewrite Hreq. reflexivity.
Qed.

Lemma synthesize_failure self text voice_id output_path v s :
  ElevenLabsVoice.client self <> None ->
  known_voice cfg voice_id = Some v ->
  (forall w, exists e,
     (text_to_speech_convert E v text w).1 = Raise e
     \/ exists n, (text_to_speech_convert E v text w).1 = Ok (n, Some e)) ->
  exists s',
    ElevenLabsVoice.synthesize L E cfg self text voice_id output_path s = (Ok None, s')
    /\ st_log s' = st_log s ++ [(ERROR, py "Speech synthesis failed: %s")].
Proof.
  intros Hclient Hvoice Hreq. unfold ElevenLabsVoice.synthesize.
  destruct (ElevenLabsVoice.client self) as [key |]; [| congruence].
  assert (Hresolved : ElevenLabsVoice._resolve_voice_id E cfg self voice_id s = (Ok v, s)
                      /\ truthy v = true).
  { unfold ElevenLabsVoice._resolve_voice_id, known_voice in *.
    destruct (truthy voice_id) eqn:Hgiven.
    - injection Hvoice as <-. auto.
    - destruct (Config.ELEVENLABS_VOICE_ID cfg) as [| c rest]; [discriminate |].
      injection Hvoice as <-. auto. }
  destruct Hresolved as [Hresolved Htruthy].
  unfold bind at 1. rewrite Hresolved, Htruthy. cbn [negb].
  unfold bind at 1.
  assert (Hpath : exists p s0,
            (if falsy output_path
             then filename <- FileManager.timestamped_name L E (py "voice") (py "mp3") ;;
                  ret (Config.path_join (Config.AUDIO_DIR cfg) filename)
             else ret (default [] output_path))%pym s = (Ok p, s0)
            /\ st_log s0 = st_log s).
  { destruct (falsy output_path).
    - unfold FileManager.timestamped_name, bind, ask, ret.
      destruct (clock_now E (st_world s)) as [t w]. eexists _, _. split; reflexivity.
    - eexists _, _. split; reflexivity. }
  destruct Hpath as (p & s0 & -> & Hlog0).
  unfold try_except, bind at 1, write_stream.
  destruct (Hreq (st_world s0)) as [e Hfail].
  destruct (text_to_speech_convert E v text (st_world s0)) as [r w]. cbn [fst] in Hfail.
  destruct Hfail as [-> | [n ->]];
    (eexists; split; [reflexivity |]); cbn; rewrite Hlog0; reflexivity.
Qed.

Lemma _run_ffmpeg_failure self args s e :
  VideoEditor.ffmpeg_ok self = true ->
  (subprocess_ffmpeg E ([py "ffmpeg"; py "-y"] ++ args) (st_fs s) (st_world s)).1.1
  = Raise e ->
  exists s',
    VideoEditor._run_ffmpeg E self args s = (Ok false, s')
    /\ st_log s' = st_log s ++
         [(DEBUG, py "Running: %s");
          (ERROR, if is_timeout_expired e
                  then py "ffmpeg timed out after 300s"
                  else py "ffmpeg execution failed: %s")].
Proof.
  intros Hok Hrun. unfold VideoEditor._run_ffmpeg. rewrite Hok. cbn [negb].
  unfold bind at 1. cbn [log]. unfold try_except, bind at 1, VideoEditor.subprocess_run_ffmpeg.
  cbn [st_fs st_world with_log].
  destruct (subprocess_ffmpeg E ([py "ffmpeg"; py "-y"] ++ args) (st_fs s) (st_world s))
    as [[r written] w]. cbn [fst] in Hrun. subst r.
  destruct (is_timeout_expired e); eexists; (split; [reflexivity |]); cbn;
    rewrite <- app_assoc; reflexivity.
Qed.

Lemma _get_duration_failure self path s e :
  (subprocess_ffprobe E path (st_fs s) (st_world s)).1 = Raise e ->
  exists s',
    VideoEditor._get_duration L E self path s = (Ok (float_zero L), s')
    /\ st_log s' = st_log s ++ [(ERROR, py "ffprobe failed for %s: %s")].
Proof.
  intros Hrun. unfold VideoEditor._get_duration, try_except, bind at 1, call_with_fs, call.
  destruct (subprocess_ffprobe E path (st_fs s) (st_world s)) as [r w]. cbn [fst] in Hrun.
  subst r. eexists. split; reflexivity.
Qed.

(** ** Components built without their credential *)

Lemma higgs_without_key s :
  Config.HIGGSFIELD_API_KEY cfg = [] ->
  exists self s',
    HiggsFieldGenerator.__init__ cfg s = (Ok self, s')
    /\ HiggsFieldGenerator.api_key self = []
    /\ st_log s' = st_log s ++
         [(WARNING, py "HIGGSFIELD_API_KEY is not set - video generation will be skipped")].
Proof.
  intros Hkey. unfold HiggsFieldGenerator.__init__. cbn [HiggsFieldGenerator.api_key].
  rewrite Hkey. eexists _, _. split; [reflexivity |]. split; reflexivity.
Qed.

Lemma generate_video_without_key self prompt soul_id s :
  HiggsFieldGenerator.api_key self = [] ->
  exists s',
    HiggsFieldGenerator.generate_video L E cfg self prompt soul_id s = (Ok None, s')
    /\ st_calls s' = st_calls s.
Proof.
  intros Hkey. unfold HiggsFieldGenerator.generate_video. rewrite Hkey.
  eexists. split; reflexivity.
Qed.

Lemma voice_without_key s :
  Config.ELEVENLABS_API_KEY cfg = [] ->
  exists self s',
    ElevenLabsVoice.__init__ cfg s = (Ok self, s')
    /\ ElevenLabsVoice.client self = None
    /\ st_log s' = st_log s ++
         [(WARNING, py "ELEVENLABS_API_KEY not set - voice synthesis will be skipped")].
Proof.
  intros Hkey. unfold ElevenLabsVoice.__init__. rewrite Hkey.
  eexists _, _. split; [reflexivity |]. split; reflexivity.
Qed.

Lemma synthesize_without_client self text voice_id output_path s :
  ElevenLabsVoice.client self = None ->
  exists s',
    ElevenLabsVoice.synthesize L E cfg self text voice_id output_path s = (Ok None, s')
    /\ st_calls s' = st_calls s.
Proof.
  intros Hclient. unfold ElevenLabsVoice.synthesize. rewrite Hclient.
  eexists. split; reflexivity.
Qed.

Lemma blato_without_key s :
  Config.BLOTATO_API_KEY cfg = [] ->
  exists self s',
    BlatoScheduler.__init__ cfg s = (Ok self, s')
    /\ BlatoScheduler.api_key self = []
    /\ st_log s' = st_log s ++
         [(WARNING, py "BLOTATO_API_KEY not set - scheduling will be skipped")].
Proof.
  intros Hkey. unfold BlatoScheduler.__init__. cbn [BlatoScheduler.api_key].
  rewrite Hkey. eexists _, _. split; [reflexivity |]. split; reflexivity.
Qed.

Lemma scheduler_without_key self s :
  BlatoScheduler.api_key self = [] ->
  (forall path, exists s',
     BlatoScheduler.upload_media E self path s = (Ok VNone, s') /\ st_calls s' = st_calls s)
  /\ (forall media_id caption platforms schedule_time, exists s',
        BlatoScheduler.schedule_post E self media_id caption platforms schedule_time s
        = (Ok VNone, s') /\ st_calls s' = st_calls s)
  /\ (forall batch platforms, exists s',
        BlatoScheduler.schedule_batch L E cfg self batch platforms s = (Ok [], s')
        /\ st_calls s' = st_calls s).
Proof.
  intros Hkey. split; [| split]; intros.
  - unfold BlatoScheduler.upload_media. rewrite Hkey. eexists. split; reflexivity.
  - unfold BlatoScheduler.schedule_post. rewrite Hkey. eexists. split; reflexivity.
  - unfold BlatoScheduler.schedule_batch. rewrite Hkey. eexists. split; reflexivity.
Qed.


End Errors.

(* ===================================================================== *)
(** * Batch scheduling: every video in turn, at its time                  *)
(* ===================================================================== *)

Section TimedBatch.
Context {W : Type} (L : Py.lib) (E : externals W) (cfg : Config.t).
Context (self : BlatoScheduler.t) (platforms : list pystr).
Implicit Types s : state W.
Local Open Scope Z_scope.

(** What [video_present] returns. *)
Lemma video_present_eval v s :
  BlatoScheduler.video_present v s
  = (match v with
     | VStr (c :: p) =>
         Ok (if bool_decide (is_Some (st_fs s !! (c :: p))) then Some (c :: p) else None)
     | _ => if truthy v then Raise TypeError else Ok None
     end, s).
Proof.
  unfold BlatoScheduler.video_present.
  destruct v as [| b | z | p | l | d]; cbn [truthy negb]; try reflexivity.
  - destruct b; reflexivity.
  - destruct (z =? 0); reflexivity.
  - destruct p; reflexivity.
  - destruct l; reflexivity.
  - destruct d; reflexivity.
Qed.

(** With a key and the file on disk, [upload_media] sends its request and
    returns the media id of the answer, if it holds one. *)
Lemma upload_media_answer p s :
  BlatoScheduler.api_key self <> [] ->
  is_Some (st_fs s !! p) ->
  let answer :=
    media_of (requests_post_file E (BlatoScheduler.base_url self ++ py "/v2/media/upload")
                (BlatoScheduler._headers self) p (st_world s)).1 in
  exists s',
    BlatoScheduler.upload_media E self p s
    = (Ok (if truthy answer then answer else VNone), s')
    /\ st_fs s' = st_fs s
    /\ st_calls s' = st_calls s ++ [upload_request self p].
Proof.
  intros Hkey Hfile answer. subst answer. unfold BlatoScheduler.upload_media.
  destruct (BlatoScheduler.api_key self) as [| c key]; [congruence |].
  unfold try_except, bind at 1, FileManager.exists_, bind at 1, get_state, ret.
  rewrite bool_decide_eq_true_2 by exact Hfile. cbn [negb].
  unfold bind at 1, call.
  destruct (requests_post_file E _ _ p (st_world s)) as [[data | e] w]; cbn [fst media_of].
  2: { eexists. split; [reflexivity |]. split; reflexivity. }
  unfold bind at 1, lift. destruct (as_dict data) as [d | e].
  2: { eexists. split; [reflexivity |]. split; reflexivity. }
  destruct (truthy (get d (py "media_id") (get d (py "id") (VStr []))));
    eexists; (split; [reflexivity |]); split; reflexivity.
Qed.

(** With a key, [schedule_post] returns after its one request. *)
Lemma schedule_post_request media_id caption t s :
  BlatoScheduler.api_key self <> [] ->
  exists sub s',
    BlatoScheduler.schedule_post E self media_id caption platforms (Some (isoformat L t)) s
    = (Ok sub, s')
    /\ st_fs s' = st_fs s
    /\ st_calls s' = st_calls s ++ [schedule_request L self platforms media_id caption t].
Proof.
  intros Hkey. unfold BlatoScheduler.schedule_post.
  destruct (BlatoScheduler.api_key self) as [| c key]; [congruence |].
  unfold try_except, bind at 1, call.
  destruct (requests_post_json E _ _ _ (st_world s)) as [[data | e] w].
  2: { do 2 eexists. split; [reflexivity |]. split; reflexivity. }
  unfold bind at 1, lift. destruct (as_dict data) as [d | e].
  2: { do 2 eexists. split; [reflexivity |]. split; reflexivity. }
  destruct (truthy (get d (py "post_submission_id") (get d (py "id") (VStr []))));
    do 2 eexists; (split; [reflexivity |]); split; reflexivity.
Qed.

Lemma is_path_dec v : is_path v \/ ~ is_path v.
Proof.
  destruct (truthy v) eqn:Hv; [| left; left; exact Hv].
  destruct v as [| b | z | p | l | d]; try (left; right; eexists; reflexivity);
    right; intros [Hf | [p' Hp']]; congruence.
Qed.

(** A video path that is no path stops the round with a [TypeError], before
    any request. *)
Lemma schedule_item_ill_typed now acc i item s :
  ~ is_path (get item (py "video_path") (VStr [])) ->
  BlatoScheduler.schedule_item L E cfg self platforms now acc (i, item) s
  = (Raise TypeError, s).
Proof.
  intros Hpath. unfold BlatoScheduler.schedule_item. unfold bind at 1.
  rewrite video_present_eval.
  destruct (get item (py "video_path") (VStr [])) as [| b | z | p | l | d];
    try (destruct (truthy _) eqn:Hv; [reflexivity | destruct Hpath; left; exact Hv]).
  destruct Hpath. right. eauto.
Qed.

Section Rounds.
Variables (now : datetime) (T : Z -> datetime).
Hypothesis HT : forall i, BlatoScheduler.schedule_dt now (Config.POSTS_PER_DAY cfg) i = Ok (T i).
Hypothesis Hkey : BlatoScheduler.api_key self <> [].

(** One round: it returns, and does what [timed_round] says. *)
Lemma schedule_item_timed acc i item s :
  is_path (get item (py "video_path") (VStr [])) ->
  exists s' calls ids,
    BlatoScheduler.schedule_item L E cfg self platforms now acc (i, item) s
    = (Ok (acc ++ ids), s')
    /\ st_fs s' = st_fs s
    /\ st_calls s' = st_calls s ++ calls
    /\ timed_round L E self platforms (st_fs s) (T i) item calls ids.
Proof.
  intros Hpath. unfold BlatoScheduler.schedule_item, timed_round.
  assert (Hskip : forall msg,
            exists s' calls ids,
              (log WARNING msg ;; ret acc)%pym s = (Ok (acc ++ ids), s')
              /\ st_fs s' = st_fs s /\ st_calls s' = st_calls s ++ calls
              /\ (calls = [] /\ ids = [])).
  { intros msg. eexists _, [], []. rewrite !app_nil_r.
    split; [reflexivity |]. split; [reflexivity |]. split; [reflexivity | auto]. }
  unfold bind at 1. rewrite video_present_eval.
  destruct (get item (py "video_path") (VStr [])) as [| b | z | p | l | d] eqn:Hvp;
    try (destruct Hpath as [Hfalsy | [p' Hp']]; [rewrite Hfalsy; exact (Hskip _) | discriminate Hp']).
  clear Hpath. destruct p as [| c p]; [exact (Hskip _) |].
  destruct (st_fs s !! (c :: p)) as [size |] eqn:Hfile;
    match goal with
    | |- context [match ?x with Some _ => _ | None => _ end] =>
        match type of Hfile with
        | _ = ?y => replace x with y by (symmetry; exact Hfile)
        end
    end.
  2: { rewrite bool_decide_eq_false_2 by (intros [x Hx]; discriminate Hx). exact (Hskip _). }
  rewrite bool_decide_eq_true_2 by eauto.
  unfold bind at 1, lift. rewrite HT.
  unfold bind at 1. cbn [log].
  set (s1 := with_log _ s).
  destruct (upload_media_answer (c :: p) s1 Hkey) as (s2 & Hup & Hfs2 & Hcalls2).
  { subst s1. cbn. exists size. exact Hfile. }
  cbv zeta in Hup. unfold bind at 1. rewrite Hup.
  set (answer := media_of _) in *.
  assert (Hans : upload_answers E self (c :: p) answer) by (exists (st_world s1); reflexivity).
  destruct (truthy answer) eqn:Hanswer.
  2: { cbn [truthy negb]. exists s2, [upload_request self (c :: p)], [].
       rewrite app_nil_r. split; [reflexivity |]. split; [exact Hfs2 |].
       split; [exact Hcalls2 |]. exists answer. split; [exact Hans |]. left. auto. }
  rewrite Hanswer. cbn [negb].
  destruct (schedule_post_request answer (get item (py "caption") (VStr [])) (T i) s2 Hkey)
    as (sub & s3 & Hpost & Hfs3 & Hcalls3).
  unfold bind at 1. rewrite Hpost.
  exists s3, [upload_request self (c :: p);
              schedule_request L self platforms answer (get item (py "caption") (VStr []))
                (T i)].
  destruct (truthy sub) eqn:Hsub.
  - exists [sub]. split; [reflexivity |]. split; [rewrite Hfs3, Hfs2; reflexivity |].
    split; [rewrite Hcalls3, Hcalls2, <- app_assoc; reflexivity |].
    exists answer. split; [exact Hans |]. right. split; [exact Hanswer |].
    split; [reflexivity |]. right. eauto.
  - exists []. rewrite app_nil_r. split; [reflexivity |]. split; [rewrite Hfs3, Hfs2; reflexivity |].
    split; [rewrite Hcalls3, Hcalls2, <- app_assoc; reflexivity |].
    exists answer. split; [exact Hans |]. right. split; [exact Hanswer |].
    split; [reflexivity |]. left. reflexivity.
Qed.

(** The loop: one round for each entry, in order, as far as it gets. *)
Lemma schedule_loop_timed entries : forall acc s,
  exists r s' done (rounds : list (list event * list val)),
    for_each entries acc (BlatoScheduler.schedule_item L E cfg self platforms now) s
    = (r, s')
    /\ st_fs s' = st_fs s
    /\ st_calls s' = st_calls s ++ concat rounds.*1
    /\ handled entries done r (acc ++ concat rounds.*2)
    /\ Forall2 (fun entry round =>
                  timed_round L E self platforms (st_fs s) (T entry.1) entry.2
                    round.1 round.2)
         done rounds.
Proof.
  induction entries as [| [i item] rest IH]; intros acc s.
  - exists (Ok acc), s, [], []. cbn. rewrite !app_nil_r.
    split; [reflexivity |]. split; [reflexivity |]. split; [reflexivity |].
    split; [left; auto | constructor].
  - destruct (is_path_dec (get item (py "video_path") (VStr []))) as [Hpath | Hpath].
    + destruct (schedule_item_timed acc i item s Hpath)
        as (s1 & calls & ids & Hround & Hfs1 & Hcalls1 & Hr).
      destruct (IH (acc ++ ids) s1) as (r & s' & done & rounds & Hloop & Hfs & Hcalls & Hh & Hall).
      exists r, s', ((i, item) :: done), ((calls, ids) :: rounds).
      cbn [for_each]. unfold bind. rewrite Hround, Hloop. cbn.
      split; [reflexivity |]. split; [congruence |].
      split; [rewrite Hcalls, Hcalls1, <- app_assoc; reflexivity |].
      split.
      * destruct Hh as [[-> ->] | (entry & rest' & -> & Hbad & ->)].
        -- left. rewrite <- app_assoc. auto.
        -- right. exists entry, rest'. auto.
      * constructor; [exact Hr |]. rewrite <- Hfs1. exact Hall.
    + exists (Raise TypeError), s, [], []. cbn [for_each]. unfold bind.
      rewrite schedule_item_ill_typed by exact Hpath. cbn. rewrite !app_nil_r.
      split; [reflexivity |]. split; [reflexivity |]. split; [reflexivity |].
      split; [| constructor]. right. exists (i, item), rest. auto.
Qed.

End Rounds.

(** The batch: without a key, nothing; with one, the rounds of its videos,
    in order, each at the time [schedule_dt] gives its index. *)
Lemma schedule_batch_timed batch s (T : Z -> datetime) :
  (forall i, BlatoScheduler.schedule_dt (clock_now E (st_world s)).1
               (Config.POSTS_PER_DAY cfg) i = Ok (T i)) ->
  exists r s' done (rounds : list (list event * list val)),
    BlatoScheduler.schedule_batch L E cfg self batch platforms s = (r, s')
    /\ st_calls s' = st_calls s ++ concat rounds.*1
    /\ match BlatoScheduler.api_key self with
       | [] => r = Ok [] /\ rounds = []
       | _ =>
           handled (enumerate batch) done r (concat rounds.*2)
           /\ Forall2 (fun entry round =>
                         timed_round L E self platforms (st_fs s) (T entry.1) entry.2
                           round.1 round.2)
                done rounds
       end.
Proof.
  intros HT. unfold BlatoScheduler.schedule_batch.
  destruct (BlatoScheduler.api_key self) as [| c key] eqn:Hk.
  { eexists _, _, [], []. split; [reflexivity |]. cbn. rewrite app_nil_r. auto. }
  unfold bind at 1, ask. destruct (clock_now E (st_world s)) as [now w]. cbn [fst] in HT.
  assert (Hkey : BlatoScheduler.api_key self <> []) by (rewrite Hk; discriminate).
  destruct (schedule_loop_timed now T HT Hkey (enumerate batch) [] (with_world w s))
    as (r & s' & done & rounds & Hloop & Hfs & Hcalls & Hh & Hall).
  unfold bind at 1. rewrite Hloop. cbn [app] in Hh.
  destruct Hh as [[-> ->] | (entry & rest & Hsplit & Hbad & ->)].
  - unfold bind, log, ret. eexists _, _, (enumerate batch), rounds.
    split; [reflexivity |]. cbn. split; [exact Hcalls |].
    split; [left; auto | exact Hall].
  - eexists _, _, done, rounds. split; [reflexivity |]. split; [exact Hcalls |].
    split; [right; eauto | exact Hall].
Qed.

End TimedBatch.

Section ScheduleClaims.
Context {W : Type} (L : Py.lib) (E : externals W).
Local Open Scope Z_scope.

(** C1.  With a positive number of posts per day, [schedule_batch] handles
    its videos in turn, each at its time: a video that is not on disk is
    skipped; a video on disk is uploaded and, when the answer holds a media
    id, one post request follows, with that media id, the caption of the
    item and, for the item at index [i], the time day
    [i / posts_per_day + 1] after now at slot [(i mod posts_per_day) mod 3],
    the slots 0, 1, 2 being 09:00, 13:00, 18:00, which is what [schedule_dt]
    computes for every index.  It handles every video and returns, unless a
    video path is no path at all, which stops it with a [TypeError].
    Without a key it sends nothing. *)
Theorem schedule_batch_day_and_slot cfg self platforms batch s :
  0 < Config.POSTS_PER_DAY cfg ->
  let ppd := Config.POSTS_PER_DAY cfg in
  let slot now i := day_at now (i / ppd + 1) (slot_hour ((i mod ppd) mod 3)) in
  (forall now i, BlatoScheduler.schedule_dt now ppd i = Ok (slot now i))
  /\ exists r s' done (rounds : list (list event * list val)),
       BlatoScheduler.schedule_batch L E cfg self batch platforms s = (r, s')
       /\ st_calls s' = st_calls s ++ concat rounds.*1
       /\ match BlatoScheduler.api_key self with
          | [] => r = Ok [] /\ rounds = []
          | _ =>
              handled (enumerate batch) done r (concat rounds.*2)
              /\ Forall2 (fun entry round =>
                            timed_round L E self platforms (st_fs s)
                              (slot (clock_now E (st_world s)).1 entry.1) entry.2
                              round.1 round.2)
                   done rounds
          end.
Proof.
  intros Hppd ppd slot.
  assert (Hdt : forall now i, BlatoScheduler.schedule_dt now ppd i = Ok (slot now i))
    by (intros now i; apply schedule_dt_positive; exact Hppd).
  split; [exact Hdt |].
  apply schedule_batch_timed. intros i. apply Hdt.
Qed.

(** C7.  With three posts a day, [schedule_batch] handles its videos in
    turn, skipping those not on disk and uploading the others; the post
    request that follows an answered upload carries, for the items at the
    indices 0, 1, 2 and 3, the times day+1 09:00, day+1 13:00, day+1 18:00
    and day+2 09:00.  It handles every video and returns, unless a video
    path is no path at all; without a key it sends nothing. *)
Theorem schedule_batch_three_a_day cfg self platforms batch s :
  Config.POSTS_PER_DAY cfg = 3 ->
  exists r s' done (rounds : list (list event * list val)),
    BlatoScheduler.schedule_batch L E cfg self batch platforms s = (r, s')
    /\ st_calls s' = st_calls s ++ concat rounds.*1
    /\ match BlatoScheduler.api_key self with
       | [] => r = Ok [] /\ rounds = []
       | _ =>
           handled (enumerate batch) done r (concat rounds.*2)
           /\ Forall2 (fun entry round =>
                         exists t,
                           timed_round L E self platforms (st_fs s) t entry.2
                             round.1 round.2
                           /\ forall t',
                                example_times (clock_now E (st_world s)).1 entry.1 = Some t'
                                -> t = t')
                done rounds
       end.
Proof.
  intros Hppd.
  destruct (schedule_batch_timed L E cfg self platforms batch s
              (fun i => day_at (clock_now E (st_world s)).1 (i / 3 + 1)
                          (slot_hour ((i mod 3) mod 3))))
    as (r & s' & done & rounds & Hrun & Hcalls & Hrest).
  { intros i. rewrite Hppd. apply schedule_dt_positive. lia. }
  exists r, s', done, rounds. split; [exact Hrun |]. split; [exact Hcalls |].
  destruct (BlatoScheduler.api_key self) as [| c key]; [exact Hrest |].
  destruct Hrest as [Hh Hall]. split; [exact Hh |].
  eapply Forall2_impl; [exact Hall |].
  intros [i item] round Hr. eexists. split; [exact Hr |].
  intros t' Ht'. cbn [fst] in *.
  destruct i as [| [[| |] | [| |] |] |]; cbn in Ht'; try discriminate;
    injection Ht' as <-; reflexivity.
Qed.

End ScheduleClaims.

(* ===================================================================== *)
(** * The statements at work in the example world                         *)
(* ===================================================================== *)

Section Examples.
Import Example Scenario.
Local Open Scope Z_scope.

(** ** Scheduling *)

(** With two posts a day the item at index 2 opens the second day at 09:00:
    its slot is (2 mod 2) mod 3 = 0, not 2 mod 3 = 2, which is 18:00.  The
    request sent for it in a batch of four carries 09:00. *)
Lemma schedule_batch_slot_is_not_index_mod_3 :
  0 < Config.POSTS_PER_DAY cfg_two_a_day
  /\ BlatoScheduler.schedule_dt noon (Config.POSTS_PER_DAY cfg_two_a_day) 2
     = Ok (day_at noon 2 9)
  /\ day_at noon (2 / Config.POSTS_PER_DAY cfg_two_a_day + 1) (slot_hour (2 mod 3))
     = day_at noon 2 18
  /\ In (schedule_request the_lib scheduler (Config.PLATFORMS cfg_two_a_day)
           (VStr (py "media-1")) (VStr (py "third")) (day_at noon 2 9))
        (st_calls (BlatoScheduler.schedule_batch the_lib the_world cfg_two_a_day scheduler
                     four_videos (Config.PLATFORMS cfg_two_a_day) with_videos).2)
  /\ ~ (forall now ppd i,
          0 < ppd -> 0 <= i ->
          BlatoScheduler.schedule_dt now ppd i
          = Ok (day_at now (i / ppd + 1) (slot_hour (i mod 3)))).
Proof.
  split; [reflexivity |]. split; [reflexivity |]. split; [reflexivity |]. split.
  - vm_compute. do 5 right. left. reflexivity.
  - intros H. specialize (H noon 2 2 eq_refl). vm_compute in H.
    specialize (H (fun e => match e with eq_refl => I end)). discriminate H.
Qed.

(** Four videos on disk, two posts a day: each is uploaded and posted, at
    09:00 and 13:00 of the first day and 09:00 and 13:00 of the second. *)
Lemma schedule_batch_day_and_slot_witness :
  0 < Config.POSTS_PER_DAY cfg_two_a_day
  /\ st_calls (BlatoScheduler.schedule_batch the_lib the_world cfg_two_a_day scheduler
                 four_videos (Config.PLATFORMS cfg_two_a_day) with_videos).2
     = [upload_request scheduler (video (py "a.mp4"));
        schedule_request the_lib scheduler (Config.PLATFORMS cfg_two_a_day)
          (VStr (py "media-1")) (VStr (py "first")) (day_at noon 1 9);
        upload_request scheduler (video (py "b.mp4"));
        schedule_request the_lib scheduler (Config.PLATFORMS cfg_two_a_day)
          (VStr (py "media-1")) (VStr (py "second")) (day_at noon 1 13);
        upload_request scheduler (video (py "c.mp4"));
        schedule_request the_lib scheduler (Config.PLATFORMS cfg_two_a_day)
          (VStr (py "media-1")) (VStr (py "third")) (day_at noon 2 9);
        upload_request scheduler (video (py "d.mp4"));
        schedule_request the_lib scheduler (Config.PLATFORMS cfg_two_a_day)
          (VStr (py "media-1")) (VStr (py "fourth")) (day_at noon 2 13)]
  /\ (forall now i,
        BlatoScheduler.schedule_dt now 2 i
        = Ok (day_at now (i / 2 + 1) (slot_hour ((i mod 2) mod 3))))
  /\ exists r s' done (rounds : list (list event * list val)),
       BlatoScheduler.schedule_batch the_lib the_world cfg_two_a_day scheduler
         four_videos (Config.PLATFORMS cfg_two_a_day) with_videos = (r, s')
       /\ st_calls s' = st_calls with_videos ++ concat rounds.*1
       /\ handled (enumerate four_videos) done r (concat rounds.*2)
       /\ Forall2 (fun entry round =>
                     timed_round the_lib the_world scheduler (Config.PLATFORMS cfg_two_a_day)
                       (st_fs with_videos)
                       (day_at noon (entry.1 / 2 + 1) (slot_hour ((entry.1 mod 2) mod 3)))
                       entry.2 round.1 round.2)
            done rounds.
Proof.
  split; [reflexivity |]. split; [vm_compute; reflexivity |].
  exact (schedule_batch_day_and_slot the_lib the_world cfg_two_a_day scheduler
           (Config.PLATFORMS cfg_two_a_day) four_videos with_videos eq_refl).
Defined.

(** The same four videos, three posts a day: 09:00, 13:00 and 18:00 of the
    first day, then 09:00 of the second. *)
Lemma schedule_batch_three_a_day_witness :
  Config.POSTS_PER_DAY cfg = 3
  /\ st_calls (BlatoScheduler.schedule_batch the_lib the_world cfg scheduler
                 four_videos (Config.PLATFORMS cfg) with_videos).2
     = [upload_request scheduler (video (py "a.mp4"));
        schedule_request the_lib scheduler (Config.PLATFORMS cfg)
          (VStr (py "media-1")) (VStr (py "first")) (day_at noon 1 9);
        upload_request scheduler (video (py "b.mp4"));
        schedule_request the_lib scheduler (Config.PLATFORMS cfg)
          (VStr (py "media-1")) (VStr (py "second")) (day_at noon 1 13);
        upload_request scheduler (video (py "c.mp4"));
        schedule_request the_lib scheduler (Config.PLATFORMS cfg)
          (VStr (py "media-1")) (VStr (py "third")) (day_at noon 1 18);
        upload_request scheduler (video (py "d.mp4"));
        schedule_request the_lib scheduler (Config.PLATFORMS cfg)
          (VStr (py "media-1")) (VStr (py "fourth")) (day_at noon 2 9)]
  /\ exists r s' done (rounds : list (list event * list val)),
       BlatoScheduler.schedule_batch the_lib the_world cfg scheduler
         four_videos (Config.PLATFORMS cfg) with_videos = (r, s')
       /\ st_calls s' = st_calls with_videos ++ concat rounds.*1
       /\ handled (enumerate four_videos) done r (concat rounds.*2)
       /\ Forall2 (fun entry round =>
                     exists t,
                       timed_round the_lib the_world scheduler (Config.PLATFORMS cfg)
                         (st_fs with_videos) t entry.2 round.1 round.2
                       /\ forall t', example_times noon entry.1 = Some t' -> t = t')
            done rounds.
Proof.
  split; [reflexivity |]. split; [vm_compute; reflexivity |].
  exact (schedule_batch_three_a_day the_lib the_world cfg scheduler
           (Config.PLATFORMS cfg) four_videos with_videos eq_refl).
Defined.

(** ** Captions *)

Lemma add_captions_wraps_at_40_witness :
  Forall (fun w => (len w <= 39)%Z) (split caption)
  /\ Forall (fun l => (len l <= 40)%Z) (VideoEditor.wrap_lines caption)
  /\ concat (map split (VideoEditor.wrap_lines caption)) = split caption
  /\ VideoEditor.wrap_lines caption
     = [py "the quick brown fox jumps over the lazy";
        py "dog again and again and again"].
Proof.
  assert (Hwords : Forall (fun w => (len w <= 39)%Z) (split caption)).
  { vm_compute. repeat (constructor; [discriminate |]). constructor. }
  split; [exact Hwords |].
  destruct (add_captions_wraps_at_40 caption Hwords) as [Hlines Hsame].
  split; [exact Hlines |]. split; [exact Hsame |]. vm_compute. reflexivity.
Defined.

(** ** Generation without a Soul ID *)

Lemma run_generation_without_soul_id_witness :
  Config.SOUL_ID cfg_no_soul = []
  /\ exists s',
       PipelineOrchestrator.run_generation the_lib the_world cfg_no_soul [1; 2; 3] start
       = (Ok [], s')
       /\ st_calls s' = []
       /\ st_db s' = Db.empty.
Proof.
  split; [reflexivity |].
  destruct (run_generation_without_soul_id the_lib the_world cfg_no_soul [1; 2; 3] start
              eq_refl) as (s' & Hrun & Hcalls & Hdb & _).
  exists s'. split; [exact Hrun |]. split; [exact Hcalls | exact Hdb].
Defined.

(** With a Soul ID the same call does reach the video API. *)
Lemma run_generation_with_soul_id_calls :
  exists headers body,
    In (EvPostJson generations_url headers body)
       (st_calls (PipelineOrchestrator.run_ops the_lib the_world cfg
                    [PipelineOrchestrator.Discovery 20;
                     PipelineOrchestrator.Generation [1]] start)).
Proof. vm_compute. do 2 eexists. repeat (first [left; reflexivity | right]). Qed.

(** ** Ranking *)

Lemma the_lib_lt (x y : float the_lib) : float_lt the_lib x y = true <-> (x < y)%Q.
Proof.
  cbn. rewrite negb_true_iff. split.
  - intros H. apply Qnot_le_lt. intros Hle. apply Qle_bool_iff in Hle. congruence.
  - intros H. apply not_true_is_false. intros Hle. apply Qle_bool_iff in Hle.
    exact (Qlt_not_le _ _ H Hle).
Qed.

Lemma the_lib_not_lt (x y : float the_lib) : float_lt the_lib x y = false <-> (y <= x)%Q.
Proof.
  cbn. rewrite negb_false_iff. apply Qle_bool_iff.
Qed.

(** The order of the rationals is a strict weak order. *)
Lemma the_lib_order : strict_weak_order (float_lt the_lib) (quotient the_lib).
Proof.
  split.
  - intros x y _ _ H. apply the_lib_lt in H. apply the_lib_not_lt. apply Qlt_le_weak. exact H.
  - intros x y z _ _ _ H. apply the_lib_lt in H.
    destruct (Qlt_le_dec x y) as [Hxy | Hyx].
    + left. apply the_lib_lt. exact Hxy.
    + right. apply the_lib_lt. eapply Qle_lt_trans; eassumption.
Qed.

Lemma get_top_content_ranks_by_engagement_witness :
  strict_weak_order (float_lt the_lib) (quotient the_lib)
  /\ ApifyScraper.sort_by_engagement the_lib scraped = Ok ranked
  /\ Permutation ranked scraped
  /\ descending the_lib ranked
  /\ (forall k, quotient the_lib k ->
        List.filter (scores the_lib k) ranked = List.filter (scores the_lib k) scraped).
Proof.
  split; [exact the_lib_order |].
  assert (Hsort : ApifyScraper.sort_by_engagement the_lib scraped = Ok ranked)
    by (vm_compute; reflexivity).
  split; [exact Hsort |].
  exact (proj1 (proj2 (get_top_content_ranks_by_engagement the_lib the_world cfg the_lib_order))
           scraped ranked Hsort).
Defined.

(** ** Composition *)



(** ** Statuses *)

(** Generation called again on a row that is already generated: nothing
    stops it.  The row goes back to [generating]; the second request to the
    video API fails, the row ends [failed], and the final-video path of the
    first run is still there. *)
Lemma rerun_generation_leaves_generated :
  let d := st_db (PipelineOrchestrator.run_ops the_lib the_world cfg generate_twice start) in
  In {| Db.tr_id := 1; Db.tr_from := Db.Generated; Db.tr_to := Db.Generating |}
     (Db.history d)
  /\ ~ Forall (allowed true) (Db.history d).
Proof.
  assert (Hin : In {| Db.tr_id := 1; Db.tr_from := Db.Generated; Db.tr_to := Db.Generating |}
                   (Db.history (st_db (PipelineOrchestrator.run_ops the_lib the_world cfg
                                         generate_twice start)))).
  { vm_compute. repeat (first [left; reflexivity | right]). }
  split; [exact Hin |].
  intros Hall. rewrite List.Forall_forall in Hall. specialize (Hall _ Hin).
  unfold allowed in Hall. cbn in Hall. specialize (Hall eq_refl). discriminate Hall.
Qed.

Lemma rerun_generation_keeps_final_path :
  let d := st_db (PipelineOrchestrator.run_ops the_lib the_world cfg generate_twice start) in
  consistent (st_db start)
  /\ (exists r, Db.content_queue d !! 1 = Some r
                /\ Db.status r = Db.Failed
                /\ has_final r)
  /\ ~ consistent d.
Proof.
  cbv zeta.
  assert (Hrow : exists r,
            Db.content_queue (st_db (PipelineOrchestrator.run_ops the_lib the_world cfg
                                       generate_twice start)) !! 1 = Some r
            /\ Db.status r = Db.Failed /\ has_final r).
  { eexists. split; [vm_compute; reflexivity |]. split; reflexivity. }
  split; [exact consistent_empty |]. split; [exact Hrow |].
  intros Hcons. destruct Hrow as (r & Hr & Hst & Hfin).
  apply (Hcons _ _ Hr) in Hfin. destruct Hfin as [H | H]; congruence.
Qed.

(** The phases in the order of the full pipeline are called as the main
    program calls them. *)
Lemma one_pass_guarded : guarded_ops the_lib the_world cfg start one_pass.
Proof.
  unfold one_pass. cbn [guarded_ops guarded].
  split; [exact I |]. split; [| split; [apply NoDup_singleton | exact I]].
  split; [apply NoDup_singleton |].
  intros id r Hin Hr. apply list_elem_of_singleton in Hin. subst id.
  vm_compute in Hr. injection Hr as <-. reflexivity.
Qed.

Lemma status_writes_follow_the_machine_witness :
  (true = true -> guarded_ops the_lib the_world cfg start one_pass)
  /\ exists new,
       Db.history (st_db (PipelineOrchestrator.run_ops the_lib the_world cfg one_pass start))
       = Db.history (st_db start) ++ new
       /\ Forall (allowed true) new.
Proof.
  split; [intros _; exact one_pass_guarded |].
  exact (status_writes_follow_the_machine the_lib the_world cfg true one_pass start
           (fun _ => one_pass_guarded)).
Defined.

Lemma final_path_follows_status_witness :
  guarded_ops the_lib the_world cfg start one_pass
  /\ consistent (st_db start)
  /\ consistent (st_db (PipelineOrchestrator.run_ops the_lib the_world cfg one_pass start))
  /\ exists r,
       Db.content_queue
         (st_db (PipelineOrchestrator.run_ops the_lib the_world cfg one_pass start)) !! 1
       = Some r
       /\ Db.status r = Db.Scheduled /\ has_final r.
Proof.
  split; [exact one_pass_guarded |]. split; [exact consistent_empty |].
  split.
  - exact (proj2 (final_path_follows_status the_lib the_world cfg one_pass start)
             one_pass_guarded consistent_empty).
  - eexists. split; [vm_compute; reflexivity |]. split; reflexivity.
Defined.

(** ** Credentials and exceptions *)



End Examples.

(* ===================================================================== *)
(** * Generation: what the loop leaves and what it returns                *)
(* ===================================================================== *)

Section GenerationOutcome.
Context {W : Type} (L : Py.lib) (E : externals W) (cfg : Config.t).
Implicit Types s : state W.

(** The body of the [try] block returns the list with [qid] added when it
    has written [generated], and the list as it was when it has written
    [failed]. *)
Lemma generate_item_outcome video_gen voice editor soul_id ids qid content s :
  wp (PipelineOrchestrator.generate_item L E cfg video_gen voice editor soul_id ids qid content)
     (fun r s' =>
        match r with
        | Ok ids' => exists st now fields,
            finishes st fields
            /\ st_db s' = Db.update_row qid st now fields (st_db s)
            /\ ((st = Db.Generated /\ ids' = ids ++ [qid]) \/ (st = Db.Failed /\ ids' = ids))
        | Raise _ => st_db s' = st_db s
        end) s.
Proof.
  unfold PipelineOrchestrator.generate_item.
  wp_skip as script. wp_skip as d. wp_skip as video_path.
  destruct (falsy video_path).
  { wp_skip as u. wp_update L E; [| exact Hup].
    destruct Hup as (now & params & Hbind & Hdb). cbn in Hbind. injection Hbind as <-.
    apply wp_ret. exists Db.Failed, now, []. split; [| split; [exact Hdb | auto]].
    left. split; [reflexivity | constructor]. }
  wp_skip as audio_path. destruct (falsy audio_path).
  { wp_skip as u. wp_update L E; [| exact Hup].
    destruct Hup as (now & params & Hbind & Hdb). cbn in Hbind. injection Hbind as <-.
    apply wp_ret. eexists Db.Failed, now, _. split; [| split; [exact Hdb | auto]].
    left. split; [reflexivity |]. repeat constructor. discriminate. }
  wp_skip as final_path. destruct (falsy final_path) eqn:Hfinal.
  { wp_skip as u. wp_update L E; [| exact Hup].
    destruct Hup as (now & params & Hbind & Hdb). cbn in Hbind. injection Hbind as <-.
    apply wp_ret. eexists Db.Failed, now, _. split; [| split; [exact Hdb | auto]].
    left. split; [reflexivity |]. repeat constructor; discriminate. }
  wp_update L E; [| exact Hup].
  destruct Hup as (now & params & Hbind & Hdb). cbn in Hbind. injection Hbind as <-.
  wp_skip as u.
  apply wp_ret. eexists Db.Generated, now, _. split; [| split; [exact Hdb | auto]].
  right. split; [reflexivity |].
  destruct final_path as [[| c f] |]; try discriminate. cbn. eexists _, _, _.
  split; [| reflexivity]. discriminate.
Qed.

(** A round of the generation loop returns, whatever happens in it. *)
Lemma generation_step_outcome video_gen voice editor soul_id ids qid s :
  exists ids' s',
    PipelineOrchestrator.generation_step L E cfg video_gen voice editor soul_id ids qid s
    = (Ok ids', s')
    /\ generation_round qid ids (st_db s) ids' (st_db s').
Proof.
  unfold PipelineOrchestrator.generation_step. unfold bind at 1.
  rewrite get_content_run.
  destruct (Db.content_queue (st_db s) !! qid) as [content |] eqn:Hrow.
  2: { eexists _, _. split; [reflexivity |]. left. auto. }
  set (d := st_db s).
  set (m := (Database.update_content_status L E qid Db.Generating [] ;;
             log INFO (py "Generating content id=%d topic=%s") ;;
             try_except
               (PipelineOrchestrator.generate_item L E cfg video_gen voice editor
                  soul_id ids qid content)
               (fun exc =>
                  log ERROR (py "Generation failed for id=%d: %s") ;;
                  Database.update_content_status L E qid Db.Failed [] ;;
                  ret ids))%pym).
  assert (H : wp m (fun r s' => exists ids', r = Ok ids'
                      /\ generation_round qid ids d ids' (st_db s')) s).
  { subst m. apply wp_bind, update_status_only_wp. fold d. intros now1 s1 Hdb1.
    wp_skip as u.
    apply wp_try_except. eapply wp_mono; [| apply generate_item_outcome].
    intros [ids' | e] s3 H3.
    - destruct H3 as (st & now2 & fields & Hfin & Hdb3 & Hids).
      exists ids'. split; [reflexivity |]. right.
      exists content, st, now1, now2, fields. rewrite Hdb3, Hdb1. auto.
    - rewrite <- H3 in Hdb1. clear H3.
      wp_skip as u'.
      apply wp_bind, update_status_only_wp. intros now2 s5 Hdb5.
      apply wp_ret. exists ids. split; [reflexivity |]. right.
      exists content, Db.Failed, now1, now2, []. rewrite Hdb5, Hdb1.
      split; [exact Hrow |]. split; [| split; [reflexivity | auto]].
      left. split; [reflexivity | constructor]. }
  unfold wp in H. destruct H as (ids' & Hr & Hround).
  exists ids', (m s).2. split; [| exact Hround].
  destruct (m s) as [r s']. cbn in Hr. subst r. reflexivity.
Qed.

End GenerationOutcome.

Section Rounds.
Implicit Types (d : Db.t).

Lemma generation_round_other qid acc d acc' d' id :
  generation_round qid acc d acc' d' -> id <> qid ->
  Db.content_queue d' !! id = Db.content_queue d !! id.
Proof.
  intros [(_ & -> & _) | (r & st & now1 & now2 & fields & Hr & Hfin & -> & _)] Hne;
    [reflexivity |].
  rewrite !update_row_other by congruence. reflexivity.
Qed.

Lemma generation_round_missing qid acc d acc' d' :
  generation_round qid acc d acc' d' -> Db.content_queue d !! qid = None ->
  d' = d /\ acc' = acc.
Proof.
  intros [(_ & -> & ->) | (r & st & now1 & now2 & fields & Hr & _)] Hnone; [auto |].
  congruence.
Qed.

Lemma generation_round_self qid acc d acc' d' :
  generation_round qid acc d acc' d' -> is_Some (Db.content_queue d !! qid) ->
  (status_of d' qid = Some Db.Generated /\ acc' = acc ++ [qid])
  \/ (status_of d' qid = Some Db.Failed /\ acc' = acc).
Proof.
  intros [(Hnone & _) | (r & st & now1 & now2 & fields & Hr & Hfin & -> & Hacc)] [r0 Hr0];
    [congruence |].
  assert (Hst : status_of (Db.update_row qid st now2 fields
                             (Db.update_row qid Db.Generating now1 [] d)) qid = Some st).
  { unfold status_of.
    erewrite update_row_lookup by (apply update_row_lookup; exact Hr).
    cbn. rewrite set_fields_status. reflexivity. }
  rewrite Hst. destruct Hacc as [[-> ->] | [-> ->]]; auto.
Qed.

Lemma generation_round_rows qid acc d acc' d' id :
  generation_round qid acc d acc' d' ->
  is_Some (Db.content_queue d' !! id) <-> is_Some (Db.content_queue d !! id).
Proof.
  intros Hround. destruct (decide (id = qid)) as [-> | Hne].
  - destruct (Db.content_queue d !! qid) as [r |] eqn:Hr.
    + destruct (generation_round_self _ _ _ _ _ Hround) as [[Hst _] | [Hst _]];
        try (rewrite Hr; eauto);
        unfold status_of in Hst; destruct (Db.content_queue d' !! qid); try discriminate;
        split; eauto.
    + destruct (generation_round_missing _ _ _ _ _ Hround Hr) as [-> _]. rewrite Hr. tauto.
  - rewrite (generation_round_other _ _ _ _ _ _ Hround Hne). tauto.
Qed.

End Rounds.

Section GenerationLoopOutcome.
Context {W : Type} (L : Py.lib) (E : externals W) (cfg : Config.t).
Implicit Types s : state W.

Lemma status_of_eq d d' id :
  Db.content_queue d' !! id = Db.content_queue d !! id -> status_of d' id = status_of d id.
Proof. unfold status_of. intros ->. reflexivity. Qed.

(** A round in short: the ids it adds, and the status it leaves. *)
Lemma generation_round_summary qid acc d acc1 d1 :
  generation_round qid acc d acc1 d1 ->
  exists newq,
    acc1 = acc ++ newq
    /\ sublist newq [qid]
    /\ (forall id, id ∈ newq -> id = qid)
    /\ (qid ∈ newq <-> status_of d1 qid = Some Db.Generated)
    /\ (is_Some (Db.content_queue d !! qid) ->
        status_of d1 qid = Some Db.Generated \/ status_of d1 qid = Some Db.Failed).
Proof.
  intros Hround. destruct (Db.content_queue d !! qid) as [r |] eqn:Hr.
  - destruct (generation_round_self _ _ _ _ _ Hround) as [[Hst ->] | [Hst ->]];
      try (rewrite Hr; eauto).
    + exists [qid]. repeat split; auto.
      * intros id Hin. apply list_elem_of_singleton in Hin. exact Hin.
      * intros _. apply list_elem_of_singleton. reflexivity.
    + exists []. rewrite app_nil_r. repeat split; auto.
      * apply sublist_nil_l.
      * intros id Hin. apply not_elem_of_nil in Hin. contradiction.
      * intros Hin. apply not_elem_of_nil in Hin. contradiction.
      * intros Hgen. congruence.
  - destruct (generation_round_missing _ _ _ _ _ Hround Hr) as [-> ->].
    exists []. rewrite app_nil_r. repeat split; auto.
    + apply sublist_nil_l.
    + intros id Hin. apply not_elem_of_nil in Hin. contradiction.
    + intros Hin. apply not_elem_of_nil in Hin. contradiction.
    + unfold status_of. rewrite Hr. discriminate.
    + intros [r' Hr']. congruence.
Qed.

(** The loop of [run_generation] returns, and what it leaves. *)
Lemma generation_loop_outcome video_gen voice editor soul_id queue_ids : forall acc s,
  exists new s',
    for_each queue_ids acc
      (PipelineOrchestrator.generation_step L E cfg video_gen voice editor soul_id) s
    = (Ok (acc ++ new), s')
    /\ generation_outcome queue_ids (st_db s) new (st_db s').
Proof.
  induction queue_ids as [| qid rest IH]; intros acc s.
  - exists [], s. rewrite app_nil_r. split; [reflexivity |].
    split; try tauto.
    + intros id Hin. apply not_elem_of_nil in Hin. contradiction.
    + constructor.
    + intros _ id. split; [intros Hin | intros [Hin _]];
        apply not_elem_of_nil in Hin; contradiction.
  - cbn [for_each]. unfold bind at 1.
    destruct (generation_step_outcome L E cfg video_gen voice editor soul_id acc qid s)
      as (acc1 & s1 & -> & Hround).
    destruct (generation_round_summary _ _ _ _ _ Hround)
      as (newq & -> & Hsub & Hq & Hgen & Hfin).
    destruct (IH (acc ++ newq) s1) as (new2 & s' & -> & [Ho Hr Hf Hs Hg]).
    exists (newq ++ new2), s'. rewrite app_assoc. split; [reflexivity |].
    pose proof (fun id => generation_round_rows _ _ _ _ _ id Hround) as Hrows.
    pose proof (fun id => generation_round_other _ _ _ _ _ id Hround) as Hother.
    split.
    + intros id Hin. apply not_elem_of_cons in Hin as [Hne Hin].
      rewrite Ho by exact Hin. apply Hother. exact Hne.
    + intros id. rewrite Hr. apply Hrows.
    + intros id Hin Hrow. destruct (decide (id ∈ rest)) as [Hrest | Hrest].
      * apply Hf; [exact Hrest |]. apply Hrows. exact Hrow.
      * apply elem_of_cons in Hin as [-> | Hin]; [| contradiction].
        rewrite (status_of_eq _ _ _ (Ho _ Hrest)). apply Hfin. exact Hrow.
    + change (qid :: rest) with ([qid] ++ rest). apply sublist_app; assumption.
    + intros Hnd id. apply NoDup_cons in Hnd as [Hnin Hnd]. specialize (Hg Hnd).
      rewrite elem_of_app, elem_of_cons, Hg. split.
      * intros [Hin | [Hin Hst]]; [| auto].
        apply Hq in Hin as Heq. subst id. split; [auto |].
        rewrite (status_of_eq _ _ _ (Ho _ Hnin)). apply Hgen. exact Hin.
      * intros [[-> | Hin] Hst]; [| auto].
        left. apply Hgen. rewrite <- (status_of_eq _ _ _ (Ho _ Hnin)). exact Hst.
Qed.

(** [run_generation] with a Soul ID: it returns, and what it leaves. *)
Lemma run_generation_outcome queue_ids s :
  Config.SOUL_ID cfg <> [] ->
  exists ids s',
    PipelineOrchestrator.run_generation L E cfg queue_ids s = (Ok ids, s')
    /\ generation_outcome queue_ids (st_db s) ids (st_db s').
Proof.
  intros Hsoul. unfold PipelineOrchestrator.run_generation.
  unfold bind at 1. cbn [log fst snd].
  destruct (Config.SOUL_ID cfg) as [| c soul]; [congruence |].
  set (s0 := with_log _ s). change (st_db s) with (st_db s0). clearbody s0.
  unfold bind at 1.
  pose proof (higgs_init_db cfg s0) as H1. pose proof (higgs_init_total cfg s0) as [g Hg1].
  destruct (HiggsFieldGenerator.__init__ cfg s0) as [r1 s1]. cbn in *. subst r1.
  unfold bind at 1.
  pose proof (voice_init_db cfg s1) as H2. pose proof (voice_init_total cfg s1) as [v Hv].
  destruct (ElevenLabsVoice.__init__ cfg s1) as [r2 s2]. cbn in *. subst r2.
  unfold bind at 1.
  pose proof (editor_init_db E s2) as H3. pose proof (editor_init_total E s2) as [e He].
  destruct (VideoEditor.__init__ E s2) as [r3 s3]. cbn in *. subst r3.
  unfold bind at 1.
  destruct (generation_loop_outcome g v e (c :: soul) queue_ids [] s3)
    as (new & s' & -> & Hout).
  cbn [app]. eexists new, _. split; [reflexivity |].
  cbn [log snd]. rewrite <- H1, <- H2, <- H3. exact Hout.
Qed.

(** X1.  What [run_generation] leaves and returns.  With a Soul ID configured
    the call returns, whatever the services do.  Every row it names ends
    [generated] or [failed], none is left [pending] or [generating]; the
    rows it does not name are untouched and no row is added or removed.  The
    ids it returns are ids it was given, in the same order; when no id is
    given twice they are exactly the ids of the rows that end [generated]. *)
Theorem run_generation_finishes_every_item queue_ids s :
  Config.SOUL_ID cfg <> [] ->
  exists ids s',
    PipelineOrchestrator.run_generation L E cfg queue_ids s = (Ok ids, s')
    /\ generation_outcome queue_ids (st_db s) ids (st_db s').
Proof. intros Hsoul. apply run_generation_outcome. exact Hsoul. Qed.

End GenerationLoopOutcome.

(* ===================================================================== *)
(** * Scheduling: which rows the submission ids go to                     *)
(* ===================================================================== *)

Section Appending.
Context {W A B : Type}.
Implicit Types s : state W.

(** A loop whose rounds append to a list: what it returns is the list it
    started with and what the rounds added, in order. *)
Lemma for_each_appends (P : A -> list B -> Prop) (body : list B -> A -> M W (list B)) :
  (forall acc x s acc' s', body acc x s = (Ok acc', s') ->
     exists new, acc' = acc ++ new /\ P x new) ->
  forall l acc s res s', for_each l acc body s = (Ok res, s') ->
    exists news, res = acc ++ concat news /\ Forall2 P l news.
Proof.
  intros Hbody. induction l as [| x l IH]; intros acc s res s' Hrun.
  - cbn in Hrun. injection Hrun as <- <-. exists []. cbn. rewrite app_nil_r. auto.
  - cbn [for_each] in Hrun. unfold bind in Hrun.
    destruct (body acc x s) as [[acc1 | e] s1] eqn:Hx; [| discriminate].
    destruct (Hbody _ _ _ _ _ Hx) as (new & -> & Hnew).
    destruct (IH _ _ _ _ Hrun) as (news & -> & Hnews).
    exists (new :: news). cbn. rewrite app_assoc. auto.
Qed.

End Appending.

Section BatchResult.
Context {W : Type} (L : Py.lib) (E : externals W) (cfg : Config.t).
Implicit Types s : state W.

(** A round of [schedule_batch] adds at most one submission id, a truthy
    one. *)
Lemma schedule_item_appends self platforms now acc entry s acc' s' :
  BlatoScheduler.schedule_item L E cfg self platforms now acc entry s = (Ok acc', s') ->
  exists new, acc' = acc ++ new /\ (length new <= 1 /\ Forall (fun v => truthy v = true) new).
Proof.
  destruct entry as [i item]. unfold BlatoScheduler.schedule_item.
  assert (Hnone : exists new : list val,
            acc = acc ++ new /\ (length new <= 1 /\ Forall (fun v => truthy v = true) new)).
  { exists []. rewrite app_nil_r. cbn. repeat split; [lia | constructor]. }
  unfold bind at 1.
  destruct (BlatoScheduler.video_present _ s) as [[[p |] | e] s1]; [| | discriminate].
  2: { unfold bind, log, ret. intros [= <- <-]. exact Hnone. }
  unfold bind at 1, lift.
  destruct (BlatoScheduler.schedule_dt now (Config.POSTS_PER_DAY cfg) i) as [dt | e];
    [| discriminate].
  unfold bind at 1. cbn [log].
  unfold bind at 1.
  destruct (BlatoScheduler.upload_media E self p _) as [[media_id | e] s2]; [| discriminate].
  destruct (truthy media_id); cbn [negb].
  2: { intros [= <- <-]. exact Hnone. }
  unfold bind at 1.
  destruct (BlatoScheduler.schedule_post E self media_id _ platforms _ s2)
    as [[sub_id | e] s3]; [| discriminate].
  destruct (truthy sub_id) eqn:Hsub; intros [= <- <-]; [| exact Hnone].
  exists [sub_id]. cbn. repeat split; [lia |]. constructor; [exact Hsub | constructor].
Qed.

Lemma concat_short {X} (news : list (list X)) (l : list (Z * list (pystr * val)))
    (Q : X -> Prop) :
  Forall2 (fun _ new => length new <= 1 /\ Forall Q new) l news ->
  length (concat news) <= length l /\ Forall Q (concat news).
Proof.
  induction 1 as [| x new l news [Hlen HQ] _ [IHlen IHQ]]; cbn.
  - split; [lia | constructor].
  - rewrite length_app. split; [lia |]. apply Forall_app. auto.
Qed.

Lemma length_enumerate_from {X} (l : list X) : forall i, length (enumerate_from i l) = length l.
Proof. induction l as [| x l IH]; intros i; cbn; [reflexivity |]. rewrite IH. reflexivity. Qed.

(** [schedule_batch] returns at most one submission id for each video, none
    of them empty. *)
Lemma schedule_batch_result self batch platforms s subs s' :
  BlatoScheduler.schedule_batch L E cfg self batch platforms s = (Ok subs, s') ->
  length subs <= length batch /\ Forall (fun v => truthy v = true) subs.
Proof.
  unfold BlatoScheduler.schedule_batch.
  destruct (BlatoScheduler.api_key self) as [| c key].
  { intros [= <- <-]. cbn. split; [lia | constructor]. }
  unfold bind at 1, ask. destruct (clock_now E (st_world s)) as [now w].
  unfold bind at 1.
  destruct (for_each (enumerate batch) [] _ _) as [[ids | e] s1] eqn:Hloop; [| discriminate].
  intros [= <- <-].
  destruct (for_each_appends _ _ (schedule_item_appends self platforms now) _ _ _ _ _ Hloop)
    as (news & -> & Hnews).
  cbn [app]. apply concat_short in Hnews.
  unfold enumerate in Hnews. rewrite length_enumerate_from in Hnews. exact Hnews.
Qed.

End BatchResult.

Section BatchExact.
Context {W : Type}.
Implicit Types s : state W.

Lemma positions_snoc id_map ids q :
  positions id_map ids -> positions (<[Z.of_nat (length ids) := q]> id_map) (ids ++ [q]).
Proof.
  intros Hpos z. destruct (decide (Z.of_nat (length ids) = z)) as [<- | Hne].
  - rewrite lookup_insert_eq. destruct (Z.leb_spec 0 (Z.of_nat (length ids))); [| lia].
    rewrite Nat2Z.id, lookup_app_r by lia. rewrite Nat.sub_diag. reflexivity.
  - rewrite lookup_insert_ne by exact Hne. rewrite Hpos.
    destruct (Z.leb_spec 0 z); [| reflexivity].
    destruct (decide (Z.to_nat z < length ids)) as [Hlt | Hge].
    + rewrite lookup_app_l by exact Hlt. reflexivity.
    + rewrite !(proj2 (lookup_ge_None _ _)); [reflexivity | |]; try rewrite length_app; cbn; lia.
Qed.

Lemma batch_step_exact batch id_map qid s :
  exists item,
    PipelineOrchestrator.batch_step (batch, id_map) qid s
    = (Ok (if eligibleb (st_db s) qid
           then (batch ++ [item], <[Z.of_nat (length batch) := qid]> id_map)
           else (batch, id_map)), s).
Proof.
  unfold PipelineOrchestrator.batch_step, bind. rewrite get_content_run. unfold eligibleb.
  destruct (Db.content_queue (st_db s) !! qid) as [content |]; [| exists []; reflexivity].
  destruct (bool_decide (Db.status content = Db.Generated)); cbn [negb andb];
    [| exists []; reflexivity].
  destruct (truthy (of_column (Db.final_video_path content))); cbn [negb];
    [| exists []; reflexivity].
  eexists. reflexivity.
Qed.

(** The loop that builds the batch: the position [i] of the batch and of
    [id_map] is that of the [i]-th eligible id of the call. *)
Lemma batch_loop_exact queue_ids : forall batch id_map done s,
  length batch = length done -> positions id_map done ->
  exists batch' id_map',
    for_each queue_ids (batch, id_map) PipelineOrchestrator.batch_step s
    = (Ok (batch', id_map'), s)
    /\ length batch' = length (done ++ batched (st_db s) queue_ids)
    /\ positions id_map' (done ++ batched (st_db s) queue_ids).
Proof.
  induction queue_ids as [| qid rest IH]; intros batch id_map done s Hlen Hpos.
  - exists batch, id_map. cbn. rewrite app_nil_r. auto.
  - cbn [for_each]. unfold bind at 1.
    destruct (batch_step_exact batch id_map qid s) as [item ->].
    unfold batched. cbn [List.filter]. fold (batched (st_db s) rest).
    destruct (eligibleb (st_db s) qid); [| apply IH; assumption].
    destruct (IH (batch ++ [item]) (<[Z.of_nat (length batch) := qid]> id_map)
                 (done ++ [qid]) s)
      as (batch' & id_map' & Hrun & Hlen' & Hpos').
    + rewrite !length_app, Hlen. reflexivity.
    + rewrite Hlen. apply positions_snoc. exact Hpos.
    + exists batch', id_map'. rewrite Hrun. rewrite <- app_assoc in Hlen', Hpos'. auto.
Qed.

End BatchExact.

Section MarkExact.
Context {W : Type} (L : Py.lib) (E : externals W).
Implicit Types s : state W.

Lemma status_of_update_row q st now fields d id :
  status_of (Db.update_row q st now fields d) id
  = if decide (id = q)
    then (match Db.content_queue d !! q with Some _ => Some st | None => None end)
    else status_of d id.
Proof.
  unfold status_of. destruct (decide (id = q)) as [-> | Hne].
  - destruct (Db.content_queue d !! q) as [r |] eqn:Hr.
    + erewrite update_row_lookup by exact Hr. cbn. rewrite set_fields_status. reflexivity.
    + rewrite update_row_missing by exact Hr. rewrite Hr. reflexivity.
  - rewrite update_row_other by congruence. reflexivity.
Qed.

Lemma update_row_rows q st now fields d id :
  is_Some (Db.content_queue (Db.update_row q st now fields d) !! id)
  <-> is_Some (Db.content_queue d !! id).
Proof.
  destruct (decide (id = q)) as [-> | Hne].
  - destruct (Db.content_queue d !! q) as [r |] eqn:Hr.
    + erewrite update_row_lookup by exact Hr. split; eauto.
    + rewrite update_row_missing by exact Hr. rewrite Hr. reflexivity.
  - rewrite update_row_other by congruence. reflexivity.
Qed.

(** A round of the marking loop that returns: the id it adds is the one at
    the position of the submission id, and its row is then [scheduled]. *)
Lemma mark_scheduled_exact platforms id_map acc entry s acc' s' :
  PipelineOrchestrator.mark_scheduled L E platforms id_map acc entry s = (Ok acc', s') ->
  acc' = acc ++ marks id_map entry
  /\ (forall id, is_Some (Db.content_queue (st_db s') !! id)
                 <-> is_Some (Db.content_queue (st_db s) !! id))
  /\ (forall id, status_of (st_db s) id = Some Db.Scheduled ->
                 status_of (st_db s') id = Some Db.Scheduled)
  /\ (forall q, q ∈ marks id_map entry -> is_Some (Db.content_queue (st_db s) !! q) ->
                status_of (st_db s') q = Some Db.Scheduled).
Proof.
  destruct entry as [i sub]. unfold PipelineOrchestrator.mark_scheduled, marks. cbn [fst snd].
  assert (Hskip : forall a s0, (Ok acc, s) = (Ok a, s0) ->
            a = acc ++ []
            /\ (forall id, is_Some (Db.content_queue (st_db s0) !! id)
                           <-> is_Some (Db.content_queue (st_db s) !! id))
            /\ (forall id, status_of (st_db s) id = Some Db.Scheduled ->
                           status_of (st_db s0) id = Some Db.Scheduled)
            /\ (forall q, q ∈ @nil Z -> is_Some (Db.content_queue (st_db s) !! q) ->
                          status_of (st_db s0) q = Some Db.Scheduled)).
  { intros a s0 [= <- <-]. rewrite app_nil_r. repeat split; auto.
    intros q Hq. apply not_elem_of_nil in Hq. contradiction. }
  destruct (id_map !! i) as [qid |]; [| apply Hskip].
  fold (nonzero qid). destruct (nonzero qid && truthy sub); [| apply Hskip].
  clear Hskip. unfold bind at 1.
  pose proof (update_content_status_wp L E qid Db.Scheduled
                [(Db.Col_post_submission_id, sub)] s) as Hup. unfold wp in Hup.
  destruct (Database.update_content_status L E qid Db.Scheduled _ s) as [[[] | e] s1];
    [| discriminate].
  cbn [fst snd] in Hup. destruct Hup as (now & params & _ & Hdb1).
  unfold bind at 1.
  pose proof (log_posts_spec L E false qid sub platforms tt s1) as [[Hrows _] _].
  destruct (for_each platforms tt _ s1) as [[u | e] s2]; [| discriminate].
  cbn [snd] in Hrows. intros [= <- <-].
  assert (Hst : forall id, status_of (st_db s2) id
                           = status_of (Db.update_row qid Db.Scheduled now params (st_db s)) id).
  { intros id. unfold status_of. rewrite Hrows, Hdb1. reflexivity. }
  split; [reflexivity |]. split; [| split].
  - intros id. rewrite Hrows, Hdb1. apply update_row_rows.
  - intros id Hid. rewrite Hst, status_of_update_row.
    destruct (decide (id = qid)) as [-> | Hne]; [| exact Hid].
    unfold status_of in Hid. destruct (Db.content_queue (st_db s) !! qid); [reflexivity |].
    discriminate.
  - intros q Hq [r Hr]. apply list_elem_of_singleton in Hq. subst q.
    rewrite Hst, status_of_update_row. rewrite decide_True by reflexivity.
    rewrite Hr. reflexivity.
Qed.

Lemma mark_loop_exact platforms id_map entries : forall acc s ids s',
  (forall j q, id_map !! j = Some q -> is_Some (Db.content_queue (st_db s) !! q)) ->
  Forall (fun id => status_of (st_db s) id = Some Db.Scheduled) acc ->
  for_each entries acc (PipelineOrchestrator.mark_scheduled L E platforms id_map) s
  = (Ok ids, s') ->
  ids = acc ++ flat_map (marks id_map) entries
  /\ Forall (fun id => status_of (st_db s') id = Some Db.Scheduled) ids.
Proof.
  induction entries as [| entry rest IH]; intros acc s ids s' Hmap Hacc Hrun.
  - cbn in Hrun. injection Hrun as <- <-. cbn. rewrite app_nil_r. auto.
  - cbn [for_each] in Hrun. unfold bind in Hrun.
    destruct (PipelineOrchestrator.mark_scheduled L E platforms id_map acc entry s)
      as [[acc1 | e] s1] eqn:Hround; [| discriminate].
    destruct (mark_scheduled_exact _ _ _ _ _ _ _ Hround) as (-> & Hrows & Hkeep & Hnew).
    assert (Hacc1 : Forall (fun id => status_of (st_db s1) id = Some Db.Scheduled)
                      (acc ++ marks id_map entry)).
    { apply Forall_app. split.
      - eapply Forall_impl; [exact Hacc |]. intros id. apply Hkeep.
      - apply List.Forall_forall. intros q Hq. apply list_elem_of_In in Hq.
        apply Hnew; [exact Hq |].
        unfold marks in Hq. destruct (id_map !! entry.1) as [q' |] eqn:Hj.
        + destruct (nonzero q' && truthy entry.2).
          * apply list_elem_of_singleton in Hq. subst q'. eapply Hmap, Hj.
          * apply not_elem_of_nil in Hq. contradiction.
        + apply not_elem_of_nil in Hq. contradiction. }
    destruct (IH _ _ _ _ (fun j q Hj => proj2 (Hrows q) (Hmap j q Hj)) Hacc1 Hrun)
      as [-> Hall].
    split; [| exact Hall]. cbn [flat_map]. rewrite <- app_assoc. reflexivity.
Qed.

(** With every submission id truthy, the rounds mark the ids at the
    positions 0, 1, ... of the batch, one for each submission id. *)
Lemma marks_prefix id_map elig :
  positions id_map elig ->
  forall subs k,
    Forall (fun v => truthy v = true) subs ->
    k + length subs <= length elig ->
    flat_map (marks id_map) (enumerate_from (Z.of_nat k) subs)
    = List.filter nonzero (firstn (length subs) (skipn k elig)).
Proof.
  intros Hpos. induction subs as [| sub subs IH]; intros k Hall Hlen; [reflexivity |].
  apply Forall_cons in Hall as [Hsub Hall]. cbn [length] in Hlen.
  destruct (lookup_lt_is_Some_2 elig k) as [q Hq]; [lia |].
  cbn [enumerate_from flat_map length]. unfold marks at 1. cbn [fst snd].
  rewrite Hpos. destruct (Z.leb_spec 0 (Z.of_nat k)); [| lia].
  rewrite Nat2Z.id, Hq, Hsub, andb_true_r.
  change skipn with (@drop Z). rewrite (drop_S _ _ _ Hq). cbn [firstn List.filter].
  replace (Z.of_nat k + 1)%Z with (Z.of_nat (S k)) by lia.
  rewrite IH by (assumption || lia).
  destruct (nonzero q); reflexivity.
Qed.

End MarkExact.

Section RunSchedulingExact.
Context {W : Type} (L : Py.lib) (E : externals W) (cfg : Config.t).
Implicit Types s : state W.

Lemma positions_empty : positions ∅ [].
Proof. intros z. rewrite lookup_empty. destruct (0 <=? z)%Z; reflexivity. Qed.

Lemma positions_row d queue_ids id_map j q :
  positions id_map (batched d queue_ids) -> id_map !! j = Some q ->
  is_Some (Db.content_queue d !! q).
Proof.
  intros Hpos Hj. rewrite Hpos in Hj. destruct (0 <=? j)%Z; [| discriminate].
  apply list_elem_of_lookup_2, list_elem_of_In in Hj.
  apply List.filter_In in Hj as [_ Hq]. unfold eligibleb in Hq.
  destruct (Db.content_queue d !! q); [eauto | discriminate].
Qed.

(** The ids [run_scheduling] returns, by position in the batch. *)
Lemma run_scheduling_prefix queue_ids platforms s ids s' :
  PipelineOrchestrator.run_scheduling L E cfg queue_ids platforms s = (Ok ids, s') ->
  exists n,
    n <= length (batched (st_db s) queue_ids)
    /\ ids = List.filter nonzero (firstn n (batched (st_db s) queue_ids))
    /\ Forall (fun id => status_of (st_db s') id = Some Db.Scheduled) ids.
Proof.
  assert (Hnone : forall s0, exists n,
            n <= length (batched (st_db s) queue_ids)
            /\ [] = List.filter nonzero (firstn n (batched (st_db s) queue_ids))
            /\ Forall (fun id => status_of (st_db s0) id = Some Db.Scheduled) []).
  { intros s0. exists 0. cbn. repeat split; [lia | constructor]. }
  unfold PipelineOrchestrator.run_scheduling.
  unfold bind at 1. cbn [log].
  set (d0 := st_db s). set (s0 := with_log _ s).
  assert (Hd0 : st_db s0 = d0) by reflexivity. clearbody s0.
  unfold bind at 1.
  pose proof (blato_init_db cfg s0) as H1. pose proof (blato_init_total cfg s0) as [b Hb].
  destruct (BlatoScheduler.__init__ cfg s0) as [r1 s1]. cbn in H1, Hb. subst r1.
  rewrite <- H1 in Hd0. clear H1 s0.
  destruct (Config.BLOTATO_API_KEY cfg) as [| c key].
  { intros [= <- <-]. apply Hnone. }
  unfold bind at 1.
  destruct (batch_loop_exact queue_ids [] ∅ [] s1 eq_refl positions_empty)
    as (batch & id_map & -> & Hlen & Hpos).
  cbn [app] in Hlen, Hpos. rewrite Hd0 in Hlen, Hpos.
  destruct batch as [| item batch'].
  { intros [= <- <-]. apply Hnone. }
  unfold bind at 1.
  pose proof (schedule_batch_db L E cfg b (item :: batch')
                (match platforms with
                 | Some (p :: ps) => p :: ps
                 | _ => Config.PLATFORMS cfg
                 end) s1) as H2.
  destruct (BlatoScheduler.schedule_batch L E cfg b (item :: batch') _ s1)
    as [[subs | e] s2] eqn:Hbatch; [| discriminate].
  cbn [snd] in H2. rewrite <- H2 in Hd0. clear H2.
  apply schedule_batch_result in Hbatch as [Hshort Htruthy]. rewrite Hlen in Hshort.
  unfold bind at 1.
  destruct (for_each (enumerate subs) [] _ s2) as [[marked | e] s3] eqn:Hloop;
    [| discriminate].
  apply mark_loop_exact in Hloop as [-> Hall].
  2: { intros j q Hj. rewrite Hd0. eapply positions_row; eassumption. }
  2: { constructor. }
  unfold bind at 1. cbn [log ret]. intros [= <- <-].
  exists (length subs). split; [exact Hshort |]. cbn [app] in *.
  split; [| exact Hall].
  unfold enumerate. change 0%Z with (Z.of_nat 0).
  rewrite (marks_prefix id_map _ Hpos subs 0 Htruthy) by (cbn; lia).
  reflexivity.
Qed.

(** X2.  The rows [run_scheduling] marks are chosen by position.  When the
    call returns, the ids it returns are the first [n] of the ids it was
    given that were eligible (a row in status [generated] with a final-video
    path), in the order of the call, an id 0 left out, for some [n]: as many
    as the batch returned submission ids, whichever videos those were
    returned for.  The rows of the ids returned are [scheduled]. *)
Theorem run_scheduling_marks_by_position queue_ids platforms s ids s' :
  PipelineOrchestrator.run_scheduling L E cfg queue_ids platforms s = (Ok ids, s') ->
  exists n,
    n <= length (batched (st_db s) queue_ids)
    /\ ids = List.filter nonzero (firstn n (batched (st_db s) queue_ids))
    /\ Forall (fun id => status_of (st_db s') id = Some Db.Scheduled) ids.
Proof. apply run_scheduling_prefix. Qed.

End RunSchedulingExact.

(* ===================================================================== *)
(** * Discovery: what is called, and when                                 *)
(* ===================================================================== *)

Section ScraperCalls.
Context {W : Type} (L : Py.lib) (E : externals W) (cfg : Config.t).
Implicit Types s : state W.

Lemma save_json_calls data dir prefix :
  keeps st_calls (FileManager.save_json L E data dir prefix).
Proof. unfold FileManager.save_json. repeat keeps_step. Qed.

Lemma extends_map_m_lift {A B} (P : event -> Prop) (g : A -> result B) (l : list A) :
  extends (W := W) st_calls P (map_m (fun x => lift (g x)) l).
Proof.
  apply keeps_extends. apply keeps_map_m. intros x. apply keeps_lift.
Qed.

(** The scraper reaches the outside through Apify only. *)
Lemma _run_actor_calls self actor_id run_input timeout :
  extends st_calls is_apify (ApifyScraper._run_actor E self actor_id run_input timeout).
Proof.
  unfold ApifyScraper._run_actor.
  apply extends_bind; [repeat extends_step | intros _].
  apply extends_bind; [apply extends_calls_call; exact I | intros run].
  destruct (truthy run); cbn [negb]; [| repeat extends_step].
  apply extends_bind_lift. intros dataset_id _.
  apply extends_bind; [apply extends_calls_call; exact I | intros items].
  repeat extends_step.
Qed.

Lemma scrape_calls self actor_id run_input failed normalise prefix :
  extends st_calls is_apify
    (ApifyScraper.scrape L E cfg self actor_id run_input failed normalise prefix).
Proof.
  unfold ApifyScraper.scrape. pose proof save_json_calls.
  apply extends_bind.
  - apply extends_try_except; [| intros; repeat extends_step].
    apply extends_bind; [apply _run_actor_calls | intros; repeat extends_step].
  - intros [raw |]; [| repeat extends_step].
    apply extends_bind; [apply extends_map_m_lift | intros results].
    apply extends_bind; [apply keeps_extends; auto | intros; repeat extends_step].
Qed.

Lemma get_top_content_calls self count :
  extends st_calls is_apify (ApifyScraper.get_top_content L E cfg self count).
Proof.
  unfold ApifyScraper.get_top_content, ApifyScraper.scrape_viral_tiktok,
    ApifyScraper.scrape_viral_instagram, ApifyScraper.scrape_viral_youtube.
  pose proof save_json_calls. pose proof scrape_calls.
  apply extends_bind; [repeat extends_step | intros _].
  apply extends_bind; [apply extends_bind; [repeat extends_step | intros; auto] | intros t].
  apply extends_bind; [apply extends_bind; [repeat extends_step | intros; auto] | intros ig].
  apply extends_bind; [apply extends_bind; [repeat extends_step | intros; auto] | intros y].
  destruct (t ++ ig ++ y); [repeat extends_step |].
  apply extends_bind_lift. intros sorted _.
  apply extends_bind; [apply keeps_extends; auto | intros; repeat extends_step].
Qed.

(** With nothing to fetch, an actor run that returns returns no item. *)
Lemma _run_actor_empty self actor_id run_input timeout s items s' :
  no_items E ->
  ApifyScraper._run_actor E self actor_id run_input timeout s = (Ok items, s') ->
  items = [].
Proof.
  intros Hno. unfold ApifyScraper._run_actor.
  unfold bind at 1. cbn [log]. unfold bind at 1, call at 1.
  destruct (apify_actor_call E actor_id run_input timeout _) as [[run | e] w];
    [| discriminate].
  destruct (truthy run); cbn [negb].
  2: { unfold bind, log, ret. intros [= <- _]. reflexivity. }
  unfold bind at 1, lift.
  destruct (getitem run (py "defaultDatasetId")) as [dataset_id | e]; [| discriminate].
  unfold bind at 1, call at 1.
  destruct (apify_dataset_items E dataset_id _) as [r w'] eqn:Hitems.
  destruct r as [fetched | e]; [| discriminate].
  unfold bind, log, ret. intros [= <- _].
  eapply Hno. rewrite Hitems. reflexivity.
Qed.

Lemma scrape_empty self actor_id run_input failed normalise prefix s :
  no_items E ->
  exists s',
    ApifyScraper.scrape L E cfg self actor_id run_input failed normalise prefix s
    = (Ok [], s').
Proof.
  intros Hno. unfold ApifyScraper.scrape. unfold bind at 1, try_except.
  unfold bind at 1.
  destruct (ApifyScraper._run_actor E self actor_id run_input 60 s) as [[items | e] s1] eqn:Hrun.
  - apply (_run_actor_empty _ _ _ _ _ _ _ Hno) in Hrun. subst items.
    cbn [ret map_m]. unfold bind at 1. cbn [ret].
    unfold bind at 1.
    destruct (save_json_total L E (VList (map VDict [])) (Config.LOGS_DIR cfg) prefix s1)
      as [p Hp].
    destruct (FileManager.save_json L E _ _ _ s1) as [r s2]. cbn in Hp. subst r.
    eexists. reflexivity.
  - unfold bind, log, ret. eexists. reflexivity.
Qed.

Lemma get_top_content_empty self count s :
  no_items E ->
  exists s', ApifyScraper.get_top_content L E cfg self count s = (Ok [], s').
Proof.
  intros Hno. unfold ApifyScraper.get_top_content, ApifyScraper.scrape_viral_tiktok,
    ApifyScraper.scrape_viral_instagram, ApifyScraper.scrape_viral_youtube.
  unfold bind at 1. cbn [log].
  unfold bind at 1. unfold bind at 1, ask at 1.
  destruct (random_choice E ApifyScraper.TIKTOK_SEARCH_TERMS _) as [term1 w1].
  edestruct (scrape_empty self) as [s1 ->]; [exact Hno |].
  unfold bind at 1. unfold bind at 1, ask at 1.
  destruct (random_choice E ApifyScraper.INSTAGRAM_HASHTAGS _) as [tag w2].
  edestruct (scrape_empty self) as [s2 ->]; [exact Hno |].
  unfold bind at 1. unfold bind at 1, ask at 1.
  destruct (random_choice E ApifyScraper.TIKTOK_SEARCH_TERMS _) as [term3 w3].
  edestruct (scrape_empty self) as [s3 ->]; [exact Hno |].
  cbn [app]. unfold bind, log, ret. eexists. reflexivity.
Qed.

End ScraperCalls.

Section DiscoveryWithoutItems.
Context {W : Type} (L : Py.lib) (E : externals W) (cfg : Config.t).
Implicit Types s : state W.

(** X3.  Discovery with nothing scraped.  When Apify has no item to give
    (every dataset fetched is empty, or the calls fail, or the token is
    missing), [run_discovery] returns the empty list; the analyzer is not
    called (the only external calls are to Apify) and no row is added. *)
Theorem run_discovery_without_items count s :
  no_items E ->
  exists s',
    PipelineOrchestrator.run_discovery L E cfg count s = (Ok [], s')
    /\ st_db s' = st_db s
    /\ exists new, st_calls s' = st_calls s ++ new /\ Forall is_apify new.
Proof.
  intros Hno. unfold PipelineOrchestrator.run_discovery.
  unfold bind at 1. cbn [log].
  set (s0 := with_log _ s).
  change (st_db s) with (st_db s0). change (st_calls s) with (st_calls s0). clearbody s0.
  unfold bind at 1, try_except. unfold bind at 1. unfold ApifyScraper.__init__.
  destruct (Config.APIFY_API_TOKEN cfg) as [| c token].
  - cbn. eexists. split; [reflexivity |]. split; [reflexivity |].
    exists []. rewrite app_nil_r. split; [reflexivity | constructor].
  - cbn [ret].
    pose proof (get_top_content_db L E cfg {| ApifyScraper.client := c :: token |} count s0)
      as Hdb.
    destruct (get_top_content_calls L E cfg {| ApifyScraper.client := c :: token |} count s0)
      as (new & Hcalls & Hnew).
    destruct (get_top_content_empty L E cfg {| ApifyScraper.client := c :: token |} count s0
                Hno) as [s1 Hrun].
    rewrite Hrun in *. cbn [snd] in Hdb, Hcalls. cbn.
    eexists. split; [reflexivity |]. split; [exact Hdb |].
    exists new. split; [exact Hcalls | exact Hnew].
Qed.

End DiscoveryWithoutItems.

(* ===================================================================== *)
(** * The full pipeline: its summary                                      *)
(* ===================================================================== *)

Section FullPipeline.
Context {W : Type} (L : Py.lib) (E : externals W) (cfg : Config.t).
Implicit Types s : state W.

(** Generation returns, with ids among those it was given, Soul ID or not. *)
Lemma run_generation_sublist queue_ids s :
  exists ids s',
    PipelineOrchestrator.run_generation L E cfg queue_ids s = (Ok ids, s')
    /\ sublist ids queue_ids.
Proof.
  destruct (Config.SOUL_ID cfg) as [| c soul] eqn:Hsoul.
  - unfold PipelineOrchestrator.run_generation. rewrite Hsoul.
    eexists [], _. split; [reflexivity | apply sublist_nil_l].
  - destruct (run_generation_outcome L E cfg queue_ids s) as (ids & s' & Hrun & Hout).
    { rewrite Hsoul. discriminate. }
    exists ids, s'. split; [exact Hrun | apply (go_sublist _ _ _ _ Hout)].
Qed.

Lemma run_scheduling_length queue_ids platforms s ids s' :
  PipelineOrchestrator.run_scheduling L E cfg queue_ids platforms s = (Ok ids, s') ->
  length ids <= length queue_ids.
Proof.
  intros Hrun. apply run_scheduling_prefix in Hrun as (n & _ & -> & _).
  pose proof (List.filter_length_le nonzero (firstn n (batched (st_db s) queue_ids))) as H1.
  pose proof (List.filter_length_le (eligibleb (st_db s)) queue_ids) as H2.
  rewrite List.length_firstn in H1. unfold batched in *. lia.
Qed.

(** X4.  The summary of a full run.  When [run_full_pipeline] returns, its
    counts go down the phases: no more items scheduled than generated, no
    more generated than discovered, none negative.  So a run that discovers
    nothing generates and schedules nothing. *)
Theorem run_full_pipeline_counts s summary s' :
  PipelineOrchestrator.run_full_pipeline L E cfg s = (Ok summary, s') ->
  (0 <= PipelineOrchestrator.scheduled summary
   <= PipelineOrchestrator.generated summary)%Z
  /\ (PipelineOrchestrator.generated summary
      <= PipelineOrchestrator.discovered summary)%Z.
Proof.
  unfold PipelineOrchestrator.run_full_pipeline.
  do 3 (unfold bind at 1; cbn [log]).
  unfold bind at 1.
  destruct (PipelineOrchestrator.run_discovery L E cfg 20 _) as [[queue_ids | e] s1];
    [| discriminate].
  unfold bind at 1.
  assert (Hgen : forall s0, exists ids s2,
            (match queue_ids with
             | [] => ret []
             | _ => PipelineOrchestrator.run_generation L E cfg queue_ids
             end) s0 = (Ok ids, s2) /\ length ids <= length queue_ids).
  { intros s0. destruct queue_ids as [| q qs]; [eexists [], _; split; [reflexivity | cbn; lia] |].
    destruct (run_generation_sublist (q :: qs) s0) as (ids & s2 & Hrun & Hsub).
    exists ids, s2. split; [exact Hrun | apply sublist_length; exact Hsub]. }
  destruct (Hgen s1) as (generated_ids & s2 & -> & Hlen1). clear Hgen.
  unfold bind at 1.
  destruct ((match generated_ids with
             | [] => ret []
             | _ => PipelineOrchestrator.run_scheduling L E cfg generated_ids None
             end) s2) as [[scheduled_ids | e] s3] eqn:Hsched; [| discriminate].
  assert (Hlen2 : length scheduled_ids <= length generated_ids).
  { destruct generated_ids as [| g gs].
    - injection Hsched as <- _. cbn. lia.
    - eapply run_scheduling_length. exact Hsched. }
  unfold bind, log, ret. intros [= <- _]. cbn. lia.
Qed.

End FullPipeline.

(* ===================================================================== *)
(** * Files: what the editor touches                                      *)
(* ===================================================================== *)

Section Touches.
Context {W : Type}.
Implicit Types s : state W.

Lemma touches_keeps {A} S (m : M W A) : keeps st_fs m -> touches S m.
Proof. intros H s q _. rewrite H. reflexivity. Qed.

Lemma touches_writes_only {A} (S : pystr -> Prop) p (m : M W A) :
  S p -> writes_only p m -> touches S m.
Proof. intros Hp Hw s q Hq. apply Hw. intros ->. contradiction. Qed.

Lemma touches_bind {A B} S (m : M W A) (k : A -> M W B) :
  touches S m -> (forall a, touches S (k a)) -> touches S (bind m k).
Proof.
  intros Hm Hk s q Hq. unfold bind. specialize (Hm s q Hq).
  destruct (m s) as [[a | e] s1]; cbn in *; [| exact Hm].
  rewrite Hk by exact Hq. exact Hm.
Qed.

Lemma touches_try_except {A} S (m : M W A) (h : exn -> M W A) :
  touches S m -> (forall e, touches S (h e)) -> touches S (try_except m h).
Proof.
  intros Hm Hh s q Hq. unfold try_except. specialize (Hm s q Hq).
  destruct (m s) as [[a | e] s1]; cbn in *; [exact Hm |].
  rewrite Hh by exact Hq. exact Hm.
Qed.

(** What a [bind] that returns went through. *)
Lemma bind_ok {A B} (m : M W A) (k : A -> M W B) s b s' :
  bind m k s = (Ok b, s') -> exists a s1, m s = (Ok a, s1) /\ k a s1 = (Ok b, s').
Proof.
  unfold bind. destruct (m s) as [[a | e] s1]; [eauto | discriminate].
Qed.

End Touches.

Ltac touches_step :=
  lazymatch goal with
  | |- touches _ (bind _ _) => apply touches_bind; [| intros ?]
  | |- touches _ (try_except _ _) => apply touches_try_except; [| intros ?]
  | |- touches _ (match ?x with _ => _ end) => destruct x
  | |- touches _ _ =>
      solve [auto with frame | apply touches_keeps; solve [auto with frame | repeat keeps_step]]
  end.

Section EditorFiles.
Context {W : Type} (L : Py.lib) (E : externals W) (cfg : Config.t).
Implicit Types s : state W.

Lemma run_and_verify_writes self args out done :
  last args = Some out -> writes_only out (VideoEditor.run_and_verify E self args out done).
Proof.
  intros Hlast. unfold VideoEditor.run_and_verify.
  pose proof (_run_ffmpeg_writes E self out args Hlast).
  pose proof (verify_file_fs (W := W)).
  apply writes_only_bind; [assumption | intros ran].
  apply writes_only_bind; [destruct ran; apply writes_only_keeps; auto with frame | intros ok].
  destruct ok; apply writes_only_keeps; repeat keeps_step.
Qed.

(** Each ffmpeg pass writes to its output path and nowhere else, whatever
    it is given. *)
Lemma add_intro_card_writes self video hook out :
  writes_only out (VideoEditor.add_intro_card E self video hook out).
Proof.
  unfold VideoEditor.add_intro_card.
  apply writes_only_bind; [apply writes_only_keeps, keeps_lift | intros text].
  apply run_and_verify_writes. reflexivity.
Qed.

Lemma add_captions_writes self video caption out :
  writes_only out (VideoEditor.add_captions E self video caption out).
Proof.
  unfold VideoEditor.add_captions.
  apply writes_only_bind; [apply writes_only_keeps, keeps_lift | intros text].
  apply run_and_verify_writes. reflexivity.
Qed.

Lemma add_audio_to_video_writes self video audio out :
  writes_only out (VideoEditor.add_audio_to_video L E self video audio out).
Proof.
  unfold VideoEditor.add_audio_to_video. pose proof (_get_duration_fs L E self).
  apply writes_only_bind; [apply writes_only_keeps; auto | intros v_dur].
  apply writes_only_bind; [apply writes_only_keeps; auto | intros a_dur].
  destruct (float_le L v_dur (float_zero L) || float_le L a_dur (float_zero L)).
  - apply writes_only_keeps. repeat keeps_step.
  - destruct (float_lt L v_dur a_dur); apply run_and_verify_writes; reflexivity.
Qed.

Lemma copy2_writes src dst : writes_only (W := W) dst (FileManager.copy2 src dst).
Proof.
  intros s q Hq. unfold FileManager.copy2, bind, get_state.
  destruct (st_fs s !! src) as [size |]; [| reflexivity].
  destruct (pystr_eqb src dst); [reflexivity |].
  cbn. apply lookup_insert_ne. congruence.
Qed.

End EditorFiles.

Section ComposeEffect.
Context {W : Type} (L : Py.lib) (E : externals W) (cfg : Config.t).
Implicit Types s : state W.

Lemma compose_paths_temp out name :
  name <> [] -> forallb (fun c => negb (c =? 47)%N) name = true ->
  compose_paths cfg out (Config.path_join (VideoEditor.temp_dir cfg) name).
Proof. intros Hne Hname. right. apply in_dir_join; assumption. Qed.

(** The three passes and the fallback copy write to the two temporary files
    and to the output path. *)
Lemma compose_steps_touches self video audio caption hook out :
  touches (compose_paths cfg out)
    (VideoEditor.compose_steps L E cfg self video audio caption hook out).
Proof.
  unfold VideoEditor.compose_steps.
  assert (Hintro : compose_paths cfg out
                     (Config.path_join (VideoEditor.temp_dir cfg) (py "step1_intro.mp4")))
    by (apply compose_paths_temp; [discriminate | reflexivity]).
  assert (Hmerged : compose_paths cfg out
                      (Config.path_join (VideoEditor.temp_dir cfg) (py "step2_merged.mp4")))
    by (apply compose_paths_temp; [discriminate | reflexivity]).
  assert (Hout : compose_paths cfg out out) by (left; reflexivity).
  pose proof (verify_file_fs (W := W)).
  apply touches_bind.
  { eapply touches_writes_only; [exact Hintro | apply add_intro_card_writes]. }
  intros r1. apply touches_bind; [repeat touches_step | intros intro_path].
  apply touches_bind.
  { eapply touches_writes_only; [exact Hmerged | apply add_audio_to_video_writes]. }
  intros r2. apply touches_bind; [repeat touches_step | intros merged_path].
  apply touches_bind.
  { eapply touches_writes_only; [exact Hout | apply add_captions_writes]. }
  intros r3. apply touches_bind.
  { destruct (falsy r3); [| repeat touches_step].
    apply touches_bind; [repeat touches_step | intros _].
    eapply touches_writes_only; [exact Hout | apply copy2_writes]. }
  intros _. repeat touches_step.
Qed.

(** A path the passes return is the output path, with a file that passed
    [verify_file]. *)
Lemma compose_steps_result self video audio caption hook out s p s' :
  VideoEditor.compose_steps L E cfg self video audio caption hook out s = (Ok (Some p), s') ->
  p = out /\ valid_file (st_fs s') out.
Proof.
  unfold VideoEditor.compose_steps. intros Hrun.
  do 6 (apply bind_ok in Hrun as (? & ? & _ & Hrun)).
  apply bind_ok in Hrun as (ok & s1 & Hverify & Hrun).
  match type of Hverify with
  | FileManager.verify_file out 1 ?st = _ =>
      destruct (verify_file_run out st) as (b & s2 & Hrun' & Hfs & Hb)
  end.
  rewrite Hrun' in Hverify. injection Hverify as <- <-.
  destruct b; [| discriminate].
  unfold bind, log, ret in Hrun. injection Hrun as <- <-. cbn.
  split; [reflexivity |]. rewrite Hfs. apply Hb. reflexivity.
Qed.

(** X5.  What [compose_final] does to the files, whatever it is given and
    whatever ffmpeg does.  It returns, with [None] or the output path.  No
    file is left in the directory of temporary files; a file that is neither
    there nor at the output path is as it was.  When the output path is
    returned and is not in the temporary directory, the file there exists
    and has at least one byte. *)
Theorem compose_final_effect self video audio caption hook output_path s out s1 :
  VideoEditor.default_output_path L E cfg output_path s = (Ok out, s1) ->
  let temp := VideoEditor.temp_dir cfg in
  exists r s',
    VideoEditor.compose_final L E cfg self video audio caption hook output_path s
    = (Ok r, s')
    /\ (r = None \/ r = Some out)
    /\ (forall p, FileManager.in_dir temp p = true -> st_fs s' !! p = None)
    /\ (forall p, FileManager.in_dir temp p = false -> p <> out ->
                  st_fs s' !! p = st_fs s !! p)
    /\ (r = Some out -> FileManager.in_dir temp out = false -> valid_file (st_fs s') out).
Proof.
  intros Hdef temp.
  destruct (default_output_path_run _ _ _ _ _ _ _ Hdef) as [_ Hfs1].
  unfold VideoEditor.compose_final. unfold bind at 1. rewrite Hdef.
  unfold try_finally. fold temp.
  set (body := try_except _ _).
  assert (Hbody : exists r s2,
            body s1 = (Ok r, s2)
            /\ (r = None \/ r = Some out)
            /\ (forall q, ~ compose_paths cfg out q -> st_fs s2 !! q = st_fs s1 !! q)
            /\ (r = Some out -> valid_file (st_fs s2) out)).
  { subst body. unfold try_except.
    pose proof (compose_steps_touches self video audio caption hook out s1) as Ht.
    destruct (VideoEditor.compose_steps L E cfg self video audio caption hook out s1)
      as [[[p |] | e] s2] eqn:Hsteps; cbn [snd] in Ht.
    - apply compose_steps_result in Hsteps as [-> Hvalid].
      exists (Some out), s2. auto.
    - exists None, s2. repeat split; auto. discriminate.
    - eexists None, _. split; [reflexivity |]. repeat split; auto. discriminate. }
  destruct Hbody as (r & s2 & -> & Hr & Hframe & Hvalid).
  exists r. eexists. cbn. split; [reflexivity |]. split; [exact Hr |]. split; [| split].
  - intros p Hp. apply map_lookup_filter_None. right. intros size _. cbn. congruence.
  - intros p Hp Hne.
    rewrite <- Hfs1, <- Hframe by (intros [? | Hin]; [contradiction | unfold temp in Hp; congruence]).
    destruct (st_fs s2 !! p) as [size |] eqn:Hsize.
    + apply map_lookup_filter_Some. auto.
    + apply map_lookup_filter_None. left. exact Hsize.
  - intros Hsome Hout. destruct (Hvalid Hsome) as (size & Hsize & Hbig).
    exists size. split; [| exact Hbig]. apply map_lookup_filter_Some. auto.
Qed.

End ComposeEffect.

Section WithoutFfmpeg.
Context {W : Type} (L : Py.lib) (E : externals W) (cfg : Config.t).
Implicit Types s : state W.

Lemma _run_ffmpeg_fails self args s :
  ffmpeg_fails E self -> (VideoEditor._run_ffmpeg E self args s).1 = Ok false.
Proof.
  intros [Hno | Hfail]; unfold VideoEditor._run_ffmpeg.
  - rewrite Hno. reflexivity.
  - destruct (VideoEditor.ffmpeg_ok self); [| reflexivity]. cbn [negb].
    unfold bind at 1. cbn [log]. unfold try_except, bind, VideoEditor.subprocess_run_ffmpeg.
    match goal with
    | |- context [subprocess_ffmpeg E ?cmd ?fs ?w] =>
        specialize (Hfail cmd fs w); destruct (subprocess_ffmpeg E cmd fs w) as [[r written] w']
    end.
    cbn [fst] in Hfail. destruct r as [code | e].
    + destruct (Z.eqb_spec code 0) as [-> | Hne]; [congruence |]. reflexivity.
    + destruct (is_timeout_expired e); reflexivity.
Qed.

Lemma run_and_verify_fails self args out done s :
  ffmpeg_fails E self -> (VideoEditor.run_and_verify E self args out done s).1 = Ok None.
Proof.
  intros Hfail. unfold VideoEditor.run_and_verify. unfold bind at 1.
  pose proof (_run_ffmpeg_fails self args s Hfail) as Hran.
  destruct (VideoEditor._run_ffmpeg E self args s) as [r s1]. cbn in Hran. subst r.
  reflexivity.
Qed.

(** A pass that cannot run ffmpeg returns [None], and writes, if at all, to
    its output path. *)
Lemma add_intro_card_fails self video hook out s :
  ffmpeg_fails E self ->
  exists s', VideoEditor.add_intro_card E self video (VStr hook) out s = (Ok None, s')
             /\ same_except out (st_fs s) (st_fs s').
Proof.
  intros Hfail. pose proof (add_intro_card_writes E self video (VStr hook) out s) as Hw.
  unfold VideoEditor.add_intro_card in *. unfold bind at 1 in Hw. unfold bind at 1.
  cbn [as_str lift] in *.
  match goal with
  | |- context [VideoEditor.run_and_verify E self ?args out ?done s] =>
      pose proof (run_and_verify_fails self args out done s Hfail) as Hr;
      destruct (VideoEditor.run_and_verify E self args out done s) as [r s']
  end.
  cbn in Hr. subst r. exists s'. auto.
Qed.

Lemma add_captions_fails self video caption out s :
  ffmpeg_fails E self ->
  exists s', VideoEditor.add_captions E self video (VStr caption) out s = (Ok None, s')
             /\ same_except out (st_fs s) (st_fs s').
Proof.
  intros Hfail. pose proof (add_captions_writes E self video (VStr caption) out s) as Hw.
  unfold VideoEditor.add_captions in *. unfold bind at 1 in Hw. unfold bind at 1.
  cbn [as_str lift] in *.
  match goal with
  | |- context [VideoEditor.run_and_verify E self ?args out ?done s] =>
      pose proof (run_and_verify_fails self args out done s Hfail) as Hr;
      destruct (VideoEditor.run_and_verify E self args out done s) as [r s']
  end.
  cbn in Hr. subst r. exists s'. auto.
Qed.

Lemma add_audio_to_video_fails self video audio out s :
  ffmpeg_fails E self ->
  exists s', VideoEditor.add_audio_to_video L E self video audio out s = (Ok None, s')
             /\ same_except out (st_fs s) (st_fs s').
Proof.
  intros Hfail.
  pose proof (add_audio_to_video_writes L E self video audio out s) as Hw.
  destruct (VideoEditor.add_audio_to_video L E self video audio out s) as [r s'] eqn:Hrun.
  exists s'. split; [| exact Hw]. f_equal.
  revert Hrun. unfold VideoEditor.add_audio_to_video. unfold bind at 1.
  destruct (_get_duration_total L E self video s) as [v_dur Hv].
  destruct (VideoEditor._get_duration L E self video s) as [r1 s1]. cbn in Hv. subst r1.
  unfold bind at 1.
  destruct (_get_duration_total L E self audio s1) as [a_dur Ha].
  destruct (VideoEditor._get_duration L E self audio s1) as [r2 s2]. cbn in Ha. subst r2.
  destruct (float_le L v_dur (float_zero L) || float_le L a_dur (float_zero L)).
  - intros [= <- _]. reflexivity.
  - destruct (float_lt L v_dur a_dur); intros Hrun;
      match type of Hrun with
      | VideoEditor.run_and_verify E self ?args out ?done s2 = _ =>
          pose proof (run_and_verify_fails self args out done s2 Hfail) as Hr;
          rewrite Hrun in Hr; exact Hr
      end.
Qed.

Lemma compose_steps_copies self video audio caption hook out s size :
  ffmpeg_fails E self ->
  st_fs s !! video = Some size -> (1 <= size)%N ->
  FileManager.in_dir (VideoEditor.temp_dir cfg) video = false ->
  out <> video ->
  exists s',
    VideoEditor.compose_steps L E cfg self video audio (VStr caption) (VStr hook) out s
    = (Ok (Some out), s')
    /\ st_fs s' !! out = Some size.
Proof.
  intros Hfail Hvideo Hsize Hvt Hov.
  destruct (temp_names cfg) as [Hit Hmt].
  pose proof (in_dir_differ _ _ _ Hvt Hit) as Hvi.
  pose proof (in_dir_differ _ _ _ Hvt Hmt) as Hvm.
  unfold VideoEditor.compose_steps.
  unfold bind at 1.
  destruct (add_intro_card_fails self video hook
              (Config.path_join (VideoEditor.temp_dir cfg) (py "step1_intro.mp4")) s Hfail)
    as (s2 & -> & Hw2).
  rewrite <- (Hw2 video Hvi) in Hvideo. clear Hw2.
  cbn [falsy]. unfold bind at 1 2. unfold log at 1. cbn beta iota. cbn [ret].
  unfold bind at 1.
  match goal with
  | |- context [VideoEditor.add_audio_to_video L E self video audio ?m ?st] =>
      assert (Hvideo' : st_fs st !! video = Some size) by exact Hvideo;
      destruct (add_audio_to_video_fails self video audio m st Hfail) as (s3 & -> & Hw3)
  end.
  rewrite <- (Hw3 video Hvm) in Hvideo'. clear Hw3 Hvideo.
  cbn [falsy]. unfold bind at 1 2. unfold log at 1. cbn beta iota. cbn [ret].
  unfold bind at 1.
  match goal with
  | |- context [VideoEditor.add_captions E self video (VStr caption) out ?st] =>
      assert (Hvideo : st_fs st !! video = Some size) by exact Hvideo';
      destruct (add_captions_fails self video caption out st Hfail) as (s4 & -> & Hw4)
  end.
  rewrite <- (Hw4 video (not_eq_sym Hov)) in Hvideo. clear Hw4 Hvideo'.
  cbn [falsy]. unfold bind at 1 2. unfold log at 1. cbn beta iota.
  unfold FileManager.copy2, bind at 1, get_state. cbn beta iota.
  match goal with
  | |- context [st_fs ?st !! video] =>
      change (st_fs st !! video) with (st_fs s4 !! video)
  end.
  rewrite Hvideo. unfold pystr_eqb. rewrite bool_decide_eq_false_2 by congruence.
  cbn [modify_fs]. unfold bind at 1.
  match goal with
  | |- context [FileManager.verify_file out 1 ?st] =>
      destruct (verify_file_run out st) as (b & s5 & -> & Hfs & Hb);
      assert (Hout : st_fs st !! out = Some size) by (cbn; apply lookup_insert_eq)
  end.
  assert (b = true) as ->.
  { apply Hb. exists size. auto. }
  eexists. split; [reflexivity |]. cbn. rewrite Hfs. exact Hout.
Qed.

(** X6.  Composition when ffmpeg is of no use (not installed, or failing at
    every run).  Given caption and hook strings, a video of at least one
    byte that is neither in the temporary directory nor at the output path,
    and an output path that is not in the temporary directory (the default
    one never is), [compose_final] still returns the output path, and the
    file it leaves there is a copy of the input video: it has the same
    size. *)
Theorem compose_final_copies_when_ffmpeg_fails
    self video audio caption hook output_path s out s1 size :
  ffmpeg_fails E self ->
  VideoEditor.default_output_path L E cfg output_path s = (Ok out, s1) ->
  st_fs s !! video = Some size -> (1 <= size)%N ->
  FileManager.in_dir (VideoEditor.temp_dir cfg) video = false ->
  FileManager.in_dir (VideoEditor.temp_dir cfg) out = false ->
  out <> video ->
  exists s',
    VideoEditor.compose_final L E cfg self video audio (VStr caption) (VStr hook)
      output_path s = (Ok (Some out), s')
    /\ st_fs s' !! out = Some size.
Proof.
  intros Hfail Hdef Hvideo Hsize Hvt Hot Hov.
  destruct (default_output_path_run _ _ _ _ _ _ _ Hdef) as [_ Hfs1].
  rewrite <- Hfs1 in Hvideo.
  destruct (compose_steps_copies self video audio caption hook out s1 size
              Hfail Hvideo Hsize Hvt Hov) as (s2 & Hsteps & Hout).
  unfold VideoEditor.compose_final. unfold bind at 1. rewrite Hdef.
  unfold try_finally, try_except. rewrite Hsteps.
  eexists. cbn. split; [reflexivity |].
  apply map_lookup_filter_Some. auto.
Qed.

End WithoutFfmpeg.

(* ===================================================================== *)
(** * The services: polling, downloads, synthesis                         *)
(* ===================================================================== *)

Section Polling.
Context {W : Type} (L : Py.lib) (E : externals W) (cfg : Config.t).
Implicit Types s : state W.

(** One poll: one GET request, whatever comes back. *)
Lemma poll_once_run self url status_key done_value s :
  exists r s',
    HiggsFieldGenerator.poll_once E self url status_key done_value s = (Ok r, s')
    /\ st_calls s' = st_calls s ++ [EvGetJson url (HiggsFieldGenerator._headers self)]
    /\ forall data, r = Some (Some data) -> says_done status_key done_value data.
Proof.
  unfold HiggsFieldGenerator.poll_once, try_except. unfold bind at 1, call.
  destruct (requests_get_json E url (HiggsFieldGenerator._headers self) (st_world s))
    as [[data | e] w].
  2: { eexists _, _. split; [reflexivity |]. split; [reflexivity | discriminate]. }
  unfold bind at 1, lift. destruct (as_dict data) as [d | e] eqn:Hd.
  2: { eexists _, _. split; [reflexivity |]. split; [reflexivity | discriminate]. }
  unfold bind at 1. cbn [log].
  destruct (is_str (get d status_key (VStr (py "unknown"))) done_value
            || is_str (get d status_key (VStr (py "unknown"))) (py "ready")) eqn:Hdone.
  { eexists _, _. split; [reflexivity |]. split; [reflexivity |].
    intros data' [= <-]. exists d. auto. }
  destruct (is_str (get d status_key (VStr (py "unknown"))) (py "failed")
            || is_str (get d status_key (VStr (py "unknown"))) (py "error"));
    eexists _, _; (split; [reflexivity |]); (split; [reflexivity | discriminate]).
Qed.

(** The polling loop: what it sends and what it returns. *)
Lemma _poll_status_run self url status_key done_value max_polls s :
  exists r s' new,
    HiggsFieldGenerator._poll_status E self url status_key done_value max_polls s
    = (Ok r, s')
    /\ st_calls s' = st_calls s ++ new
    /\ length new <= max_polls
    /\ Forall (fun ev => ev = EvGetJson url (HiggsFieldGenerator._headers self)) new
    /\ (forall data, r = Some data -> says_done status_key done_value data)
    /\ (forall data, r = Some data -> new <> []).
Proof.
  revert s. induction max_polls as [| n IH]; intros s.
  - cbn. eexists None, _, []. rewrite app_nil_r. split; [reflexivity |].
    split; [reflexivity |]. split; [cbn; lia |]. split; [constructor |].
    split; discriminate.
  - cbn [HiggsFieldGenerator._poll_status]. unfold bind at 1.
    destruct (poll_once_run self url status_key done_value s) as (r & s1 & -> & Hcalls & Hdone).
    destruct r as [result |].
    + exists result, s1, [EvGetJson url (HiggsFieldGenerator._headers self)].
      split; [reflexivity |]. split; [exact Hcalls |]. split; [cbn; lia |].
      split; [repeat constructor |]. split; [| discriminate].
      intros data ->. apply Hdone. reflexivity.
    + destruct (IH s1) as (r & s' & new & -> & Hcalls' & Hlen & Hall & Hres & _).
      exists r, s', (EvGetJson url (HiggsFieldGenerator._headers self) :: new).
      split; [reflexivity |]. split.
      { rewrite Hcalls', Hcalls, <- app_assoc. reflexivity. }
      split; [cbn; lia |]. split; [constructor; [reflexivity | exact Hall] |].
      split; [exact Hres | discriminate].
Qed.

(** X7.  Polling is bounded.  [_poll_status] returns after at most
    [max_polls] GET requests, all of them to the URL it was given and with
    its headers, and it makes no other external call; the answer it returns,
    if any, is one whose status is the awaited value or "ready". *)
Theorem _poll_status_bounded self url status_key done_value max_polls s :
  exists r s' new,
    HiggsFieldGenerator._poll_status E self url status_key done_value max_polls s
    = (Ok r, s')
    /\ st_calls s' = st_calls s ++ new
    /\ length new <= max_polls
    /\ Forall (fun ev => ev = EvGetJson url (HiggsFieldGenerator._headers self)) new
    /\ forall data, r = Some data -> says_done status_key done_value data.
Proof.
  destruct (_poll_status_run self url status_key done_value max_polls s)
    as (r & s' & new & Hrun & Hcalls & Hlen & Hall & Hdone & _).
  exists r, s', new. auto.
Qed.

End Polling.

Section VerifiedPaths.
Context {W : Type} (L : Py.lib) (E : externals W) (cfg : Config.t).
Implicit Types s : state W.

(** The end [generate_video] and [synthesize] share: the path is returned
    only when [verify_file] has passed. *)
Lemma verified_tail path done s q s' :
  (ok <- FileManager.verify_file path 1 ;;
   if ok then log INFO done ;; ret (Some path) else ret None) s = (Ok (Some q), s') ->
  q = path /\ valid_file (st_fs s') path.
Proof.
  unfold bind at 1.
  destruct (verify_file_run path s) as (b & s1 & -> & Hfs & Hb).
  destruct b; [| discriminate]. unfold bind, log, ret. intros [= <- <-]. cbn.
  split; [reflexivity |]. rewrite Hfs. apply Hb. reflexivity.
Qed.

Lemma try_except_some {A} (m : M W (option A)) msg s a s' :
  try_except m (fun exc => log ERROR msg ;; ret None) s = (Ok (Some a), s') ->
  m s = (Ok (Some a), s').
Proof.
  unfold try_except. destruct (m s) as [[r | e] s1]; [auto |].
  unfold bind, log, ret. discriminate.
Qed.

(** X8.  A path [generate_video] returns names a file that is on disk and
    has at least one byte when the call returns. *)
Theorem generate_video_returns_a_file self prompt soul_id s p s' :
  HiggsFieldGenerator.generate_video L E cfg self prompt soul_id s = (Ok (Some p), s') ->
  valid_file (st_fs s') p.
Proof.
  unfold HiggsFieldGenerator.generate_video.
  destruct (HiggsFieldGenerator.api_key self); [unfold bind, log, ret; discriminate |].
  intros Hrun. apply try_except_some in Hrun.
  unfold HiggsFieldGenerator.generate_video_request in Hrun.
  apply bind_ok in Hrun as (data & s1 & _ & Hrun).
  apply bind_ok in Hrun as (d & s2 & _ & Hrun).
  destruct (truthy (get d (py "generation_id") (get d (py "id") (VStr [])))); cbn [negb] in Hrun;
    [| unfold bind, log, ret in Hrun; discriminate].
  apply bind_ok in Hrun as (result & s3 & _ & Hrun).
  destruct result as [result |]; [| unfold bind, log, ret in Hrun; discriminate].
  destruct (truthy result); cbn [negb] in Hrun;
    [| unfold bind, log, ret in Hrun; discriminate].
  apply bind_ok in Hrun as (r & s4 & _ & Hrun).
  apply bind_ok in Hrun as (output & s5 & _ & Hrun).
  destruct (truthy (get r (py "video_url") (get output (py "url") (VStr []))));
    cbn [negb] in Hrun; [| unfold bind, log, ret in Hrun; discriminate].
  apply bind_ok in Hrun as (u & s6 & _ & Hrun).
  apply verified_tail in Hrun as [-> Hvalid]. exact Hvalid.
Qed.

(** X9.  A path [synthesize] or [synthesize_script] returns names a file
    that is on disk and has at least one byte when the call returns. *)
Theorem synthesize_returns_a_file self s p s' :
  ((exists text voice_id output_path,
      ElevenLabsVoice.synthesize L E cfg self text voice_id output_path s = (Ok (Some p), s'))
   \/ (exists script voice_id,
         ElevenLabsVoice.synthesize_script L E cfg self script voice_id s
         = (Ok (Some p), s'))) ->
  valid_file (st_fs s') p.
Proof.
  assert (Hsyn : forall text voice_id output_path s0,
            ElevenLabsVoice.synthesize L E cfg self text voice_id output_path s0
            = (Ok (Some p), s') -> valid_file (st_fs s') p).
  { intros text voice_id output_path s0. unfold ElevenLabsVoice.synthesize.
    destruct (ElevenLabsVoice.client self); [| unfold bind, log, ret; discriminate].
    intros Hrun. apply bind_ok in Hrun as (resolved & s1 & _ & Hrun).
    destruct (truthy resolved); cbn [negb] in Hrun;
      [| unfold bind, log, ret in Hrun; discriminate].
    apply bind_ok in Hrun as (out & s2 & _ & Hrun).
    apply try_except_some in Hrun.
    apply bind_ok in Hrun as (u & s3 & _ & Hrun).
    apply verified_tail in Hrun as [-> Hvalid]. exact Hvalid. }
  intros [(text & voice_id & output_path & Hrun) | (script & voice_id & Hrun)].
  - eapply Hsyn. exact Hrun.
  - unfold ElevenLabsVoice.synthesize_script in Hrun.
    apply bind_ok in Hrun as (d & s1 & _ & Hrun).
    apply bind_ok in Hrun as (full_script & s2 & _ & Hrun).
    destruct (truthy full_script); cbn [negb] in Hrun;
      [| unfold bind, log, ret in Hrun; discriminate].
    eapply Hsyn. exact Hrun.
Qed.

End VerifiedPaths.

(* ===================================================================== *)
(** * Captions: escaping and the first line                               *)
(* ===================================================================== *)

Section Escaping.

Lemma replace_elements c new s x :
  x ∈ replace c new s -> x ∈ new \/ (x ∈ s /\ x <> c).
Proof.
  induction s as [| y s IH]; cbn; intros Hx.
  - apply not_elem_of_nil in Hx. contradiction.
  - destruct (N.eqb_spec y c) as [-> | Hne].
    + apply elem_of_app in Hx as [Hx | Hx]; [auto |].
      destruct (IH Hx) as [H | [H1 H2]]; [auto |]. right. split; [right; exact H1 | exact H2].
    + apply elem_of_cons in Hx as [-> | Hx].
      * right. split; [left | exact Hne].
      * destruct (IH Hx) as [H | [H1 H2]]; [auto |]. right. split; [right; exact H1 | exact H2].
Qed.

Lemma replace_absent c new s : c ∉ s -> replace c new s = s.
Proof.
  induction s as [| y s IH]; cbn; intros Hc; [reflexivity |].
  apply not_elem_of_cons in Hc as [Hne Hc].
  destruct (N.eqb_spec y c) as [-> | _]; [congruence |]. rewrite IH by exact Hc. reflexivity.
Qed.

(** After [replace(":", "\\:")] a colon comes after a backslash. *)
Lemma replace_colon_escaped s : forall pre post,
  replace 58 [92; 58]%N s = pre ++ 58%N :: post -> exists pre', pre = pre' ++ [92%N].
Proof.
  induction s as [| y s IH]; cbn; intros pre post Heq.
  - destruct pre; discriminate.
  - destruct (N.eqb_spec y 58) as [-> | Hne].
    + destruct pre as [| a [| b pre]]; cbn in Heq.
      * discriminate.
      * injection Heq as <- _. exists []. reflexivity.
      * injection Heq as <- <- Heq. destruct (IH _ _ Heq) as [pre' ->].
        exists (92%N :: 58%N :: pre'). reflexivity.
    + destruct pre as [| a pre]; cbn in Heq.
      * injection Heq as -> _. congruence.
      * injection Heq as <- Heq. destruct (IH _ _ Heq) as [pre' ->].
        exists (y :: pre'). reflexivity.
Qed.

(** X10.  The text put between the quotes of the drawtext filter.
    [escape_drawtext] leaves no apostrophe in it, so the text cannot close
    the quotes; every colon in it comes right after a backslash; and a text
    with neither character is left as it is. *)
Theorem escape_drawtext_is_quotable text :
  (39%N ∉ VideoEditor.escape_drawtext text)
  /\ (forall pre post,
        VideoEditor.escape_drawtext text = pre ++ 58%N :: post ->
        exists pre', pre = pre' ++ [92%N])
  /\ (39%N ∉ text -> 58%N ∉ text -> VideoEditor.escape_drawtext text = text).
Proof.
  unfold VideoEditor.escape_drawtext. split; [| split].
  - intros Hin. apply replace_elements in Hin as [Hin | [Hin _]].
    + apply elem_of_cons in Hin as [H | Hin]; [discriminate |].
      apply list_elem_of_singleton in Hin. discriminate.
    + apply replace_elements in Hin as [Hin | [_ Hne]]; [| congruence].
      apply list_elem_of_singleton in Hin. discriminate.
  - apply replace_colon_escaped.
  - intros H39 H58. rewrite (replace_absent 39) by exact H39. apply replace_absent. exact H58.
Qed.

End Escaping.

Section FirstLine.

(** The wrapping loop once the open line holds a word: the lines closed
    from then on are not empty. *)
Lemma wrap_step_nonempty pre rest cur w :
  is_word w -> cur <> [] -> tight cur -> Forall (fun l => l <> []) rest ->
  exists rest' cur',
    VideoEditor.wrap_step (pre ++ rest, cur) w = (pre ++ rest', cur')
    /\ cur' <> [] /\ tight cur' /\ Forall (fun l : pystr => l <> []) rest'.
Proof.
  intros Hw Hne Ht Hrest. unfold VideoEditor.wrap_step.
  destruct (len cur + len w + 1 >? 40)%Z.
  - exists (rest ++ [cur]), w. rewrite app_assoc. split; [reflexivity |].
    split; [apply Hw |]. split; [apply tight_word; exact Hw |].
    apply Forall_app. split; [exact Hrest | repeat constructor; exact Hne].
  - destruct (strip_join cur w Hne Ht Hw) as [Hs Ht']. rewrite Hs.
    exists rest, (cur ++ py " " ++ w). split; [reflexivity |].
    split; [| split; assumption]. destruct cur; [congruence | discriminate].
Qed.

Lemma wrap_fold_nonempty pre ws : forall rest cur,
  Forall is_word ws -> cur <> [] -> tight cur -> Forall (fun l => l <> []) rest ->
  exists rest' cur',
    fold_left VideoEditor.wrap_step ws (pre ++ rest, cur) = (pre ++ rest', cur')
    /\ cur' <> [] /\ Forall (fun l : pystr => l <> []) rest'.
Proof.
  induction ws as [| w ws IH]; intros rest cur Hws Hne Ht Hrest.
  - exists rest, cur. auto.
  - apply Forall_cons in Hws as [Hw Hws]. cbn [fold_left].
    destruct (wrap_step_nonempty pre rest cur w Hw Hne Ht Hrest)
      as (rest1 & cur1 & -> & Hne1 & Ht1 & Hrest1).
    apply IH; assumption.
Qed.

(** X11.  The first line of a wrapped caption.  When the first word of the
    caption has 40 characters or more, the wrapping loop of [add_captions]
    closes the empty line it started with: the first line is empty, and it
    is the only empty one.  Otherwise no line is empty. *)
Theorem wrap_lines_first_line caption w ws :
  split caption = w :: ws ->
  exists rest,
    VideoEditor.wrap_lines caption = (if (40 <=? len w)%Z then [[]] else []) ++ rest
    /\ Forall (fun l => l <> []) rest.
Proof.
  intros Hsplit. pose proof (split_words caption) as Hwords. rewrite Hsplit in Hwords.
  apply Forall_cons in Hwords as [Hw Hws].
  unfold VideoEditor.wrap_lines. rewrite Hsplit. cbn [fold_left].
  unfold VideoEditor.wrap_step at 2.
  change (len [] + len w + 1 >? 40)%Z with (0 + len w + 1 >? 40)%Z.
  destruct (Z.leb_spec 40 (len w)) as [Hlong | Hshort].
  - replace (0 + len w + 1 >? 40)%Z with true by (symmetry; apply Z.gtb_lt; lia).
    destruct (wrap_fold_nonempty [[]] ws [] w Hws) as (rest & cur & Hfold & Hne & Hrest);
      [apply Hw | apply tight_word; exact Hw | constructor |].
    match goal with
    | |- context [fold_left ?f ?l ?a] =>
        replace (fold_left f l a) with ([[]] ++ rest, cur) by (symmetry; exact Hfold)
    end.
    destruct cur as [| c cur]; [congruence |].
    exists (rest ++ [c :: cur]). rewrite app_assoc. split; [reflexivity |].
    apply Forall_app. split; [exact Hrest | repeat constructor; discriminate].
  - replace (0 + len w + 1 >? 40)%Z with false
      by (symmetry; apply not_true_iff_false; rewrite Z.gtb_lt; lia).
    rewrite (strip_space_word _ Hw).
    destruct (wrap_fold_nonempty [] ws [] w Hws) as (rest & cur & Hfold & Hne & Hrest);
      [apply Hw | apply tight_word; exact Hw | constructor |].
    match goal with
    | |- context [fold_left ?f ?l ?a] =>
        replace (fold_left f l a) with ([] ++ rest, cur) by (symmetry; exact Hfold)
    end.
    destruct cur as [| c cur]; [congruence |].
    exists (rest ++ [c :: cur]). split; [reflexivity |].
    apply Forall_app. split; [exact Hrest | repeat constructor; discriminate].
Qed.

End FirstLine.

(* ===================================================================== *)
(** * The queue table: insert, look up                                    *)
(* ===================================================================== *)

Section QueueTable.
Context {W : Type} (L : Py.lib) (E : externals W).
Implicit Types s : state W.

(** X12.  Insert, then look up.  On a table whose ids all came from the
    counter, [add_content] that returns gives a fresh id, one past the
    counter; [get_content] of that id then returns the row just stored, in
    status [pending], with the four values as SQLite binds them and no path
    or submission id; every other row is as it was. *)
Theorem add_content_then_get source_url topic script caption s id s' :
  ids_below (st_db s) ->
  Database.add_content L E source_url topic script caption s = (Ok id, s') ->
  id = (Db.seq (st_db s) + 1)%Z
  /\ Db.content_queue (st_db s) !! id = None
  /\ ids_below (st_db s')
  /\ (forall id', id' <> id ->
        Db.content_queue (st_db s') !! id' = Db.content_queue (st_db s) !! id')
  /\ exists r,
       Database.get_content id s' = (Ok (Some r), s')
       /\ Db.status r = Db.Pending
       /\ Database.sql_bind L source_url = Ok (Db.source_url r)
       /\ Database.sql_bind L topic = Ok (Db.topic r)
       /\ Db.script r = Some script
       /\ Database.sql_bind L caption = Ok (Db.caption r)
       /\ Db.video_path r = None /\ Db.audio_path r = None
       /\ Db.final_video_path r = None /\ Db.post_submission_id r = None.
Proof.
  intros [Hseq Hwf]. unfold Database.add_content.
  unfold bind at 1, lift. destruct (Database.sql_bind L source_url) as [su | e]; [| discriminate].
  unfold bind at 1. destruct (Database.sql_bind L topic) as [tp | e]; [| discriminate].
  unfold bind at 1. destruct (Database.sql_bind L caption) as [cp | e]; [| discriminate].
  unfold bind at 1, ask. destruct (clock_now E (st_world s)) as [now w].
  unfold bind, get_state, modify_db, log, ret. cbn.
  assert (Hfresh : Db.content_queue (st_db s) !! (Db.seq (st_db s) + 1)%Z = None).
  { destruct (Db.content_queue (st_db s) !! (Db.seq (st_db s) + 1)%Z) eqn:Hrow; [| reflexivity].
    assert (Hsome : is_Some (Db.content_queue (st_db s) !! (Db.seq (st_db s) + 1)%Z))
      by (rewrite Hrow; eauto).
    apply Hwf in Hsome. lia. }
  destruct (Z.eqb_spec (Db.seq (st_db s) + 1) 0) as [H0 | _]; [lia |].
  intros [= <- <-]. cbn.
  split; [reflexivity |]. split; [exact Hfresh |]. split; [| split].
  - split; cbn; [lia |]. intros id' Hrow.
    destruct (decide (Db.seq (st_db s) + 1 = id'))%Z as [<- | Hne]; [lia |].
    rewrite lookup_insert_ne in Hrow by exact Hne. apply Hwf in Hrow. lia.
  - intros id' Hne. cbn. apply lookup_insert_ne. congruence.
  - eexists. unfold Database.get_content, bind, get_state, ret. cbn.
    rewrite lookup_insert_eq. split; [reflexivity |]. cbn. repeat split; reflexivity.
Qed.

End QueueTable.

(* ===================================================================== *)
(** * Analysis: one request for each item                                 *)
(* ===================================================================== *)

Section Dicts.

Lemma assoc_setitem k v d : assoc k (setitem k v d) = Some v.
Proof.
  assert (Hkk : pystr_eqb k k = true) by (apply bool_decide_eq_true_2; reflexivity).
  induction d as [| [k' v'] d IH]; cbn [assoc setitem].
  - rewrite Hkk. reflexivity.
  - destruct (pystr_eqb k k') eqn:Hk; cbn [assoc].
    + rewrite Hkk. reflexivity.
    + rewrite Hk. exact IH.
Qed.

Lemma assoc_setitem_other k k' v d : k' <> k -> assoc k' (setitem k v d) = assoc k' d.
Proof.
  intros Hne.
  assert (Hkk : pystr_eqb k' k = false) by (apply bool_decide_eq_false_2; exact Hne).
  induction d as [| [k0 v0] d IH]; cbn [assoc setitem].
  - rewrite Hkk. reflexivity.
  - destruct (pystr_eqb k k0) eqn:Hk; cbn [assoc].
    + apply bool_decide_eq_true in Hk. subst k0. rewrite !Hkk. reflexivity.
    + rewrite IH. reflexivity.
Qed.

End Dicts.

Section AnalyzerCalls.
Context {W : Type} (L : Py.lib) (E : externals W).
Implicit Types s : state W.

(** [_call_gemini] sends its prompt once, whatever comes back. *)
Lemma _call_gemini_calls self prompt s :
  st_calls (GeminiAnalyzer._call_gemini L E self prompt s).2
  = st_calls s ++ [EvGemini prompt].
Proof.
  unfold GeminiAnalyzer._call_gemini. unfold bind at 1, try_except. unfold bind at 1, call.
  destruct (gemini_generate_content E prompt (st_world s)) as [[text | e] w]; cbn [ret].
  - match goal with
    | |- context [json_loads L ?t] => destruct (json_loads L t) as [v | e]
    end; [reflexivity |].
    destruct (is_json_decode_error e); reflexivity.
  - destruct (is_json_decode_error e); reflexivity.
Qed.

Lemma analyze_item_run self item s r s' :
  GeminiAnalyzer.analyze_item L E self item s = (Ok r, s') ->
  st_calls s' = st_calls s ++ [EvGemini (prompt_of L item)]
  /\ forall a, r = Some a -> stamped item a.
Proof.
  unfold GeminiAnalyzer.analyze_item. unfold bind at 1. cbn [log].
  fold (prompt_of L item). unfold bind at 1.
  match goal with
  | |- context [GeminiAnalyzer._call_gemini L E self ?p ?st] =>
      pose proof (_call_gemini_calls self p st) as Hcalls;
      destruct (GeminiAnalyzer._call_gemini L E self p st) as [[analysis | e] s1]
  end; [| discriminate].
  cbn [snd] in Hcalls. cbn [st_calls] in Hcalls.
  destruct (truthy analysis).
  2: { intros [= <- <-]. split; [exact Hcalls | discriminate]. }
  destruct analysis as [| | | | | d]; cbn [setitem_val lift bind]; try discriminate.
  unfold bind, lift, ret. cbn. intros [= <- <-]. split; [exact Hcalls |].
  intros a [= <-]. eexists. split; [reflexivity |]. split.
  - rewrite assoc_setitem_other by discriminate. apply assoc_setitem.
  - apply assoc_setitem.
Qed.

(** X14.  One request for each item.  When [analyze_content] returns, it
    has sent Gemini exactly one prompt for each scraped item, in order, and
    made no other external call; it returns at most one analysis for each
    item, each a dictionary stamped with the URL and the platform of an item
    of the list. *)
Theorem analyze_content_one_call_each self content_list s results s' :
  GeminiAnalyzer.analyze_content L E self content_list s = (Ok results, s') ->
  st_calls s' = st_calls s ++ map (fun item => EvGemini (prompt_of L item)) content_list
  /\ length results <= length content_list
  /\ Forall (fun a => exists item, item ∈ content_list /\ stamped item a) results.
Proof.
  unfold GeminiAnalyzer.analyze_content. intros Hrun.
  apply bind_ok in Hrun as (acc & s1 & Hloop & Hrun).
  unfold bind, log, ret in Hrun. injection Hrun as <- <-. cbn [st_calls].
  assert (Hgen : forall l acc0 s0 acc1 s2,
            for_each l acc0
              (fun results item =>
                 r <- GeminiAnalyzer.analyze_item L E self item ;;
                 match r with
                 | Some analysis => ret (results ++ [analysis])
                 | None => ret results
                 end) s0 = (Ok acc1, s2) ->
            st_calls s2 = st_calls s0 ++ map (fun item => EvGemini (prompt_of L item)) l
            /\ exists new, acc1 = acc0 ++ new /\ length new <= length l
                 /\ Forall (fun a => exists item, item ∈ l /\ stamped item a) new).
  { clear. induction l as [| item l IH]; intros acc0 s0 acc1 s2 Hrun.
    - cbn in Hrun. injection Hrun as <- <-. cbn. rewrite !app_nil_r.
      split; [reflexivity |]. exists []. rewrite app_nil_r. cbn. auto.
    - cbn [for_each] in Hrun. apply bind_ok in Hrun as (acc' & s1 & Hstep & Hrun).
      apply bind_ok in Hstep as (r & s1' & Hitem & Hstep).
      apply analyze_item_run in Hitem as [Hcalls Hstamp].
      destruct (IH _ _ _ _ Hrun) as (Hcalls' & new & -> & Hlen & Hall).
      assert (Hall' : Forall (fun a => exists item0, item0 ∈ item :: l /\ stamped item0 a) new).
      { eapply Forall_impl; [exact Hall |]. intros a (item0 & Hin & Hs).
        exists item0. split; [right; exact Hin | exact Hs]. }
      destruct r as [analysis |]; unfold ret in Hstep; injection Hstep as <- <-.
      + split; [rewrite Hcalls', Hcalls, <- app_assoc; reflexivity |].
        exists (analysis :: new). rewrite <- app_assoc. split; [reflexivity |].
        split; [cbn; lia |]. constructor; [| exact Hall'].
        exists item. split; [left | apply Hstamp; reflexivity].
      + split; [rewrite Hcalls', Hcalls, <- app_assoc; reflexivity |].
        exists new. split; [reflexivity |]. split; [cbn; lia | exact Hall']. }
  destruct (Hgen _ _ _ _ _ Hloop) as (Hcalls & new & -> & Hlen & Hall).
  cbn [app]. auto.
Qed.

End AnalyzerCalls.

(* ===================================================================== *)
(** * Discovery: the rows it queues                                       *)
(* ===================================================================== *)

Section DiscoveryQueue.
Context {W : Type} (L : Py.lib) (E : externals W) (cfg : Config.t).
Implicit Types s : state W.

(** A call of [add_content] that raises has written nothing; one that
    returns has inserted one row, at the id after the counter. *)
Lemma add_content_run source_url topic script caption s :
  match Database.add_content L E source_url topic script caption s with
  | (Ok id, s') =>
      exists su tp cp now,
        id = (Db.seq (st_db s) + 1)%Z
        /\ st_db s' = (Db.insert_content su tp (Some script) cp now (st_db s)).2
  | (Raise _, s') => st_db s' = st_db s
  end.
Proof.
  unfold Database.add_content.
  unfold bind at 1, lift. destruct (Database.sql_bind L source_url) as [su | e]; [| reflexivity].
  unfold bind at 1. destruct (Database.sql_bind L topic) as [tp | e]; [| reflexivity].
  unfold bind at 1. destruct (Database.sql_bind L caption) as [cp | e]; [| reflexivity].
  unfold bind at 1, ask. destruct (clock_now E (st_world s)) as [now w].
  unfold bind, get_state, modify_db, log, ret. cbn.
  exists su, tp, cp, now. split; [| reflexivity].
  destruct (Z.eqb_spec (Db.seq (st_db s) + 1) 0) as [-> | _]; reflexivity.
Qed.

Lemma queue_item_run acc item s acc' s' :
  PipelineOrchestrator.queue_item L E acc item s = (Ok acc', s') ->
  (acc' = acc /\ st_db s' = st_db s)
  \/ exists su tp sc cp now,
       acc' = acc ++ [(Db.seq (st_db s) + 1)%Z]
       /\ st_db s' = (Db.insert_content su tp sc cp now (st_db s)).2.
Proof.
  unfold PipelineOrchestrator.queue_item, try_except.
  unfold bind at 1, lift.
  destruct (as_dict item) as [d | e].
  2: { unfold bind, log, ret. intros [= <- <-]. left. split; reflexivity. }
  unfold bind at 1.
  match goal with
  | |- context [Database.add_content L E ?a ?b ?c ?d0 s] =>
      pose proof (add_content_run a b c d0 s) as Hadd;
      destruct (Database.add_content L E a b c d0 s) as [[id | e] s1]
  end.
  - destruct Hadd as (su & tp & cp & now & -> & Hdb).
    unfold ret. intros [= <- <-]. right. eauto 10.
  - unfold bind, log, ret. intros [= <- <-]. left. split; [reflexivity | exact Hadd].
Qed.

Lemma queued_refl d : ids_below d -> queued d [] d.
Proof.
  intros Hd. split; cbn; try reflexivity; try exact Hd.
  - lia.
  - intros id Hin. apply elem_of_nil in Hin. destruct Hin.
  - intros id Hin. apply elem_of_nil in Hin. destruct Hin.
Qed.

Lemma queued_insert d0 ids d su tp sc cp now :
  ids_below d0 -> queued d0 ids d ->
  queued d0 (ids ++ [(Db.seq d + 1)%Z]) (Db.insert_content su tp sc cp now d).2.
Proof.
  intros [Hseq0 Hd0] [Hids Hseq Hfresh Hpending Hothers [Hseqd Hbelow]].
  assert (Hnew : forall id, id ∈ ids -> id <> (Db.seq d + 1)%Z).
  { intros id Hin ->. specialize (Hpending _ Hin). unfold status_of in Hpending.
    destruct (Db.content_queue d !! (Db.seq d + 1)%Z) eqn:Hrow; [| discriminate].
    assert (Hsome : is_Some (Db.content_queue d !! (Db.seq d + 1)%Z)) by (rewrite Hrow; eauto).
    apply Hbelow in Hsome. lia. }
  split; cbn.
  - rewrite length_app. cbn. rewrite Nat.add_1_r. rewrite seq_S, map_app. cbn.
    rewrite <- Hids. f_equal. f_equal. lia.
  - rewrite length_app. cbn. lia.
  - intros id Hin. apply elem_of_app in Hin as [Hin | Hin]; [apply Hfresh; exact Hin |].
    apply list_elem_of_singleton in Hin. subst id.
    destruct (Db.content_queue d0 !! (Db.seq d + 1)%Z) eqn:Hrow; [| reflexivity].
    assert (Hsome : is_Some (Db.content_queue d0 !! (Db.seq d + 1)%Z)) by (rewrite Hrow; eauto).
    apply Hd0 in Hsome. lia.
  - intros id Hin. unfold status_of. cbn.
    apply elem_of_app in Hin as [Hin | Hin].
    + rewrite lookup_insert_ne by (intros Heq; apply (Hnew _ Hin); congruence).
      apply Hpending. exact Hin.
    + apply list_elem_of_singleton in Hin. subst id. rewrite lookup_insert_eq. reflexivity.
  - intros id Hout. rewrite lookup_insert_ne.
    + apply Hothers. intros Hin. apply Hout. apply elem_of_app. left. exact Hin.
    + intros Heq. apply Hout. apply elem_of_app. right. apply list_elem_of_singleton.
      congruence.
  - split; cbn; [lia |]. intros id Hrow.
    destruct (decide (Db.seq d + 1 = id))%Z as [<- | Hne]; [lia |].
    rewrite lookup_insert_ne in Hrow by exact Hne. apply Hbelow in Hrow. lia.
Qed.

Lemma queue_loop_run d0 analyses : forall acc s ids s',
  ids_below d0 -> queued d0 acc (st_db s) ->
  for_each analyses acc (PipelineOrchestrator.queue_item L E) s = (Ok ids, s') ->
  queued d0 ids (st_db s').
Proof.
  induction analyses as [| item analyses IH]; intros acc s ids s' Hd0 Hq Hrun.
  - cbn in Hrun. injection Hrun as <- <-. exact Hq.
  - cbn [for_each] in Hrun. apply bind_ok in Hrun as (acc1 & s1 & Hstep & Hrun).
    apply queue_item_run in Hstep as [[-> Hdb] | (su & tp & sc & cp & now & -> & Hdb)].
    + apply (IH _ _ _ _ Hd0) in Hrun; [exact Hrun |]. rewrite Hdb. exact Hq.
    + apply (IH _ _ _ _ Hd0) in Hrun; [exact Hrun |]. rewrite Hdb.
      apply queued_insert; assumption.
Qed.

Lemma queued_NoDup d0 ids d : queued d0 ids d -> NoDup ids.
Proof.
  intros [Hids _ _ _ _ _]. rewrite Hids.
  apply NoDup_fmap_2; [| apply NoDup_seq].
  intros a b Hab. lia.
Qed.

Lemma run_discovery_queued count s ids s' :
  ids_below (st_db s) ->
  PipelineOrchestrator.run_discovery L E cfg count s = (Ok ids, s') ->
  queued (st_db s) ids (st_db s').
Proof.
  intros Hd0 Hrun. unfold PipelineOrchestrator.run_discovery in Hrun.
  apply bind_ok in Hrun as ([] & s0 & Hlog & Hrun).
  assert (Hdb0 : st_db s0 = st_db s) by (injection Hlog as <-; reflexivity).
  apply bind_ok in Hrun as (raw_content & s1 & Hscrape & Hrun).
  assert (Hdb1 : st_db s1 = st_db s0).
  { assert (Hkeeps : keeps st_db
              (try_except
                 (scraper <- ApifyScraper.__init__ cfg ;;
                  ApifyScraper.get_top_content L E cfg scraper count)
                 (fun exc => log ERROR (py "Scraping failed: %s") ;; ret [])))
      by (repeat keeps_step).
    specialize (Hkeeps s0). rewrite Hscrape in Hkeeps. exact Hkeeps. }
  destruct raw_content as [| item0 raw_content].
  { unfold bind, log, ret in Hrun. injection Hrun as <- <-. cbn.
    rewrite Hdb1, Hdb0. apply queued_refl. exact Hd0. }
  apply bind_ok in Hrun as (analyses & s2 & Hanalyse & Hrun).
  assert (Hdb2 : st_db s2 = st_db s1).
  { assert (Hkeeps : keeps st_db
              (try_except
                 (analyzer <- GeminiAnalyzer.__init__ cfg ;;
                  GeminiAnalyzer.analyze_content L E analyzer (item0 :: raw_content))
                 (fun exc => log ERROR (py "Analysis failed: %s") ;; ret [])))
      by (repeat keeps_step).
    specialize (Hkeeps s1). rewrite Hanalyse in Hkeeps. exact Hkeeps. }
  destruct analyses as [| a analyses].
  { unfold bind, log, ret in Hrun. injection Hrun as <- <-. cbn.
    rewrite Hdb2, Hdb1, Hdb0. apply queued_refl. exact Hd0. }
  apply bind_ok in Hrun as (queue_ids & s3 & Hloop & Hrun).
  unfold bind, log, ret in Hrun. injection Hrun as <- <-. cbn [st_db with_log].
  eapply queue_loop_run; [exact Hd0 | | exact Hloop].
  rewrite Hdb2, Hdb1, Hdb0. apply queued_refl. exact Hd0.
Qed.

(** X15.  The rows discovery queues.  On a table whose ids all came from
    the counter, [run_discovery] returns, and the ids it returns are those
    the counter gives out next, one after the other: each names a row that
    was not there before and is now [pending]; no other row is added or
    changed.  So the ids are distinct and name pending rows only, which is
    what a call of [run_generation] on them needs. *)
Theorem run_discovery_queues_pending_rows count s :
  ids_below (st_db s) ->
  exists ids s',
    PipelineOrchestrator.run_discovery L E cfg count s = (Ok ids, s')
    /\ queued (st_db s) ids (st_db s')
    /\ guarded (st_db s') (PipelineOrchestrator.Generation ids).
Proof.
  intros Hd0.
  destruct (run_discovery_total L E cfg count s) as [ids Hok].
  destruct (PipelineOrchestrator.run_discovery L E cfg count s) as [r s'] eqn:Hrun.
  cbn in Hok. subst r. exists ids, s'. split; [reflexivity |].
  pose proof (run_discovery_queued count s ids s' Hd0 Hrun) as Hq.
  split; [exact Hq |]. split; [exact (queued_NoDup _ _ _ Hq) |].
  intros id r Hin Hrow. pose proof (qu_pending _ _ _ Hq id Hin) as Hst.
  unfold status_of in Hst. rewrite Hrow in Hst. cbn in Hst. congruence.
Qed.

End DiscoveryQueue.

(* ===================================================================== *)
(** * Scheduling: the post log                                            *)
(* ===================================================================== *)

Section PostLog.
Context {W : Type} (L : Py.lib) (E : externals W) (cfg : Config.t).
Implicit Types s : state W.

Lemma log_post_run qid platform sub status s u s1 :
  Database.log_post L E qid platform sub status s = (Ok u, s1) ->
  exists e,
    Db.post_log (st_db s1) = Db.post_log (st_db s) ++ [e]
    /\ Db.pl_content_id e = qid /\ Db.pl_platform e = platform /\ Db.pl_status e = status.
Proof.
  unfold Database.log_post, bind, lift, ask, modify_db.
  destruct (clock_now E (st_world s)) as [now w]. cbn.
  destruct (Database.sql_bind L sub) as [pid | e]; cbn; [| discriminate].
  intros [= <- <-]. cbn. eexists. split; [reflexivity |]. cbn. auto.
Qed.

Lemma logged_nil platforms : logged platforms [] [].
Proof. split; [reflexivity | constructor]. Qed.

Lemma logged_app platforms ids1 new1 ids2 new2 :
  logged platforms ids1 new1 -> logged platforms ids2 new2 ->
  logged platforms (ids1 ++ ids2) (new1 ++ new2).
Proof.
  intros [H1 A1] [H2 A2]. split.
  - rewrite map_app, flat_map_app, H1, H2. reflexivity.
  - apply Forall_app. auto.
Qed.

(** The loop over the platforms, for one id. *)
Lemma log_posts_run qid sub platforms : forall u s u' s',
  for_each platforms u
    (fun _ platform => Database.log_post L E qid platform sub (py "scheduled")) s
  = (Ok u', s') ->
  exists new,
    Db.post_log (st_db s') = Db.post_log (st_db s) ++ new
    /\ List.map (fun e => (Db.pl_content_id e, Db.pl_platform e)) new
       = List.map (fun p => (qid, p)) platforms
    /\ Forall (fun e => Db.pl_status e = py "scheduled") new.
Proof.
  induction platforms as [| p rest IH]; intros u s u' s' Hrun.
  - cbn in Hrun. injection Hrun as <- <-. exists []. rewrite app_nil_r.
    split; [reflexivity |]. split; [reflexivity | constructor].
  - cbn [for_each] in Hrun. apply bind_ok in Hrun as (u1 & s1 & Hpost & Hrun).
    apply log_post_run in Hpost as (e & Hlog & Hid & Hp & Hst).
    apply IH in Hrun as (new & Hlog' & Hkeys & Hall).
    exists (e :: new). split; [| split].
    + rewrite Hlog', Hlog, <- app_assoc. reflexivity.
    + cbn. rewrite Hid, Hp, Hkeys. reflexivity.
    + constructor; assumption.
Qed.

Lemma update_row_post_log id st now fields d :
  Db.post_log (Db.update_row id st now fields d) = Db.post_log d.
Proof. unfold Db.update_row. destruct (Db.content_queue d !! id); reflexivity. Qed.

(** A round of the marking loop logs the posts of the id it adds. *)
Lemma mark_scheduled_logs platforms id_map acc entry s acc' s' :
  PipelineOrchestrator.mark_scheduled L E platforms id_map acc entry s = (Ok acc', s') ->
  exists ids new,
    acc' = acc ++ ids
    /\ Db.post_log (st_db s') = Db.post_log (st_db s) ++ new
    /\ logged platforms ids new.
Proof.
  destruct entry as [i sub]. unfold PipelineOrchestrator.mark_scheduled.
  assert (Hskip : forall a s0, (Ok acc, s) = (Ok a, s0) ->
            exists ids new, a = acc ++ ids
              /\ Db.post_log (st_db s0) = Db.post_log (st_db s) ++ new
              /\ logged platforms ids new).
  { intros a s0 [= <- <-]. exists [], []. rewrite !app_nil_r.
    split; [reflexivity |]. split; [reflexivity | apply logged_nil]. }
  destruct (id_map !! i) as [qid |]; [| apply Hskip].
  destruct (negb (qid =? 0)%Z && truthy sub); [| apply Hskip].
  clear Hskip. intros Hrun.
  apply bind_ok in Hrun as ([] & s1 & Hup & Hrun).
  apply bind_ok in Hrun as (u & s2 & Hposts & Hrun).
  unfold ret in Hrun. injection Hrun as <- <-.
  pose proof (update_content_status_wp L E qid Db.Scheduled
                [(Db.Col_post_submission_id, sub)] s) as Hwp.
  unfold wp in Hwp. rewrite Hup in Hwp. cbn [fst snd] in Hwp.
  destruct Hwp as (now & params & _ & Hdb1).
  apply log_posts_run in Hposts as (new & Hlog & Hkeys & Hall).
  exists [qid], new. split; [reflexivity |]. split.
  - rewrite Hlog, Hdb1, update_row_post_log. reflexivity.
  - split; [| exact Hall]. cbn. rewrite app_nil_r. exact Hkeys.
Qed.

Lemma mark_loop_logs platforms id_map entries : forall acc s acc' s',
  for_each entries acc (PipelineOrchestrator.mark_scheduled L E platforms id_map) s
  = (Ok acc', s') ->
  exists ids new,
    acc' = acc ++ ids
    /\ Db.post_log (st_db s') = Db.post_log (st_db s) ++ new
    /\ logged platforms ids new.
Proof.
  induction entries as [| entry rest IH]; intros acc s acc' s' Hrun.
  - cbn in Hrun. injection Hrun as <- <-. exists [], []. rewrite !app_nil_r.
    split; [reflexivity |]. split; [reflexivity | apply logged_nil].
  - cbn [for_each] in Hrun. apply bind_ok in Hrun as (acc1 & s1 & Hround & Hrun).
    apply mark_scheduled_logs in Hround as (ids1 & new1 & -> & Hlog1 & Hl1).
    apply IH in Hrun as (ids2 & new2 & -> & Hlog2 & Hl2).
    exists (ids1 ++ ids2), (new1 ++ new2). split; [rewrite app_assoc; reflexivity |].
    split; [rewrite Hlog2, Hlog1, <- app_assoc; reflexivity |].
    apply logged_app; assumption.
Qed.

(** X16.  What [run_scheduling] writes to the post log.  When the call
    returns, the log has gained, in the order of the ids returned, one entry
    for each of them on each platform (the platforms given, or those of the
    configuration when none is given), all in status "scheduled"; the
    entries that were there are kept.  So a call that returns no id logs
    nothing. *)
Theorem run_scheduling_logs_each_platform queue_ids platforms s ids s' :
  PipelineOrchestrator.run_scheduling L E cfg queue_ids platforms s = (Ok ids, s') ->
  exists new,
    Db.post_log (st_db s') = Db.post_log (st_db s) ++ new
    /\ logged (platforms_or_default cfg platforms) ids new.
Proof.
  assert (Hnone : forall s0, st_db s0 = st_db s ->
            exists new, Db.post_log (st_db s0) = Db.post_log (st_db s) ++ new
              /\ logged (platforms_or_default cfg platforms) [] new).
  { intros s0 ->. exists []. rewrite app_nil_r. split; [reflexivity | apply logged_nil]. }
  unfold PipelineOrchestrator.run_scheduling. fold (platforms_or_default cfg platforms).
  intros Hrun.
  apply bind_ok in Hrun as ([] & s0 & Hlog & Hrun).
  assert (Hdb0 : st_db s0 = st_db s) by (injection Hlog as <-; reflexivity).
  apply bind_ok in Hrun as (blotato & s1 & Hinit & Hrun).
  assert (Hdb1 : st_db s1 = st_db s0).
  { pose proof (blato_init_db cfg s0) as Hk. rewrite Hinit in Hk. exact Hk. }
  destruct (Config.BLOTATO_API_KEY cfg) as [| c key].
  { unfold bind, log, ret in Hrun. injection Hrun as <- <-. apply Hnone.
    cbn. congruence. }
  apply bind_ok in Hrun as ([batch id_map] & s2 & Hbatch & Hrun).
  assert (Hdb2 : st_db s2 = st_db s1).
  { assert (Hk : keeps st_db (for_each queue_ids ([], ∅)
                                (PipelineOrchestrator.batch_step (W := W))))
      by (unfold PipelineOrchestrator.batch_step; repeat keeps_step).
    specialize (Hk s1). rewrite Hbatch in Hk. exact Hk. }
  destruct batch as [| item batch].
  { unfold bind, log, ret in Hrun. injection Hrun as <- <-. apply Hnone.
    cbn. congruence. }
  apply bind_ok in Hrun as (subs & s3 & Hsched & Hrun).
  assert (Hdb3 : st_db s3 = st_db s2).
  { pose proof (schedule_batch_db L E cfg blotato (item :: batch)
                  (platforms_or_default cfg platforms) s2) as Hk.
    rewrite Hsched in Hk. exact Hk. }
  apply bind_ok in Hrun as (marked & s4 & Hloop & Hrun).
  unfold bind, log, ret in Hrun. injection Hrun as <- <-. cbn [st_db with_log].
  apply mark_loop_logs in Hloop as (ids' & new & -> & Hlog' & Hl).
  exists new. split; [| exact Hl].
  rewrite Hlog', Hdb3, Hdb2, Hdb1, Hdb0. reflexivity.
Qed.

End PostLog.

(* ===================================================================== *)
(** * Scheduling: the requests of a batch, round by round                 *)
(* ===================================================================== *)

Section BatchRounds.
Context {W : Type} (L : Py.lib) (E : externals W) (cfg : Config.t).
Implicit Types s : state W.

Lemma video_present_run v s r s1 :
  BlatoScheduler.video_present v s = (Ok r, s1) ->
  s1 = s /\ forall p, r = Some p -> is_Some (st_fs s !! p).
Proof.
  unfold BlatoScheduler.video_present. destruct (truthy v); cbn [negb].
  2: { intros [= <- <-]. split; [reflexivity | discriminate]. }
  destruct v as [| | | path | |]; try (unfold raise; discriminate).
  unfold FileManager.exists_, bind, get_state, ret. intros [= <- <-].
  split; [reflexivity |]. intros p.
  destruct (bool_decide (is_Some (st_fs s !! path))) eqn:Hb; [| discriminate].
  intros [= <-]. apply bool_decide_eq_true in Hb. exact Hb.
Qed.

(** [upload_media] returns; it sends its request only for a file that is on
    disk, and returns nothing when it has sent none. *)
Lemma upload_media_run self p s :
  exists m s1,
    BlatoScheduler.upload_media E self p s = (Ok m, s1)
    /\ st_fs s1 = st_fs s
    /\ ((st_calls s1 = st_calls s /\ truthy m = false)
        \/ (is_Some (st_fs s !! p) /\ BlatoScheduler.api_key self <> []
            /\ st_calls s1 = st_calls s ++ [upload_request self p])).
Proof.
  unfold BlatoScheduler.upload_media.
  destruct (BlatoScheduler.api_key self) as [| c key] eqn:Hkey.
  { do 2 eexists. split; [reflexivity |]. cbn. auto. }
  unfold try_except, bind at 1, FileManager.exists_, bind at 1, get_state, ret.
  destruct (bool_decide (is_Some (st_fs s !! p))) eqn:Hp; cbn [negb].
  2: { do 2 eexists. split; [reflexivity |]. cbn. auto. }
  apply bool_decide_eq_true in Hp.
  unfold bind at 1, call.
  destruct (requests_post_file E _ _ p (st_world s)) as [[data | e] w].
  2: { do 2 eexists. split; [reflexivity |]. cbn. split; [reflexivity |]. right.
       split; [exact Hp |]. split; [discriminate | reflexivity]. }
  unfold bind at 1, lift. destruct (as_dict data) as [d | e].
  2: { do 2 eexists. split; [reflexivity |]. cbn. split; [reflexivity |]. right.
       split; [exact Hp |]. split; [discriminate | reflexivity]. }
  destruct (truthy (get d (py "media_id") (get d (py "id") (VStr [])))).
  - do 2 eexists. split; [reflexivity |]. cbn. split; [reflexivity |]. right.
    split; [exact Hp |]. split; [discriminate | reflexivity].
  - do 2 eexists. split; [reflexivity |]. cbn. split; [reflexivity |]. right.
    split; [exact Hp |]. split; [discriminate | reflexivity].
Qed.

(** With a key, [schedule_post] returns after exactly one request. *)
Lemma schedule_post_run self media_id caption platforms t s :
  BlatoScheduler.api_key self <> [] ->
  exists sub s1,
    BlatoScheduler.schedule_post E self media_id caption platforms (Some (isoformat L t)) s
    = (Ok sub, s1)
    /\ st_fs s1 = st_fs s
    /\ st_calls s1 = st_calls s ++ [schedule_request L self platforms media_id caption t].
Proof.
  intros Hkey. unfold BlatoScheduler.schedule_post.
  destruct (BlatoScheduler.api_key self) as [| c key]; [congruence |].
  unfold try_except, bind at 1, call.
  destruct (requests_post_json E _ _ _ (st_world s)) as [[data | e] w].
  2: { do 2 eexists. split; [reflexivity |]. cbn. split; reflexivity. }
  unfold bind at 1, lift. destruct (as_dict data) as [d | e].
  2: { do 2 eexists. split; [reflexivity |]. cbn. split; reflexivity. }
  destruct (truthy (get d (py "post_submission_id") (get d (py "id") (VStr [])))).
  - do 2 eexists. split; [reflexivity |]. cbn. split; reflexivity.
  - do 2 eexists. split; [reflexivity |]. cbn. split; reflexivity.
Qed.

Lemma schedule_item_round self platforms now acc entry s acc' s' :
  BlatoScheduler.schedule_item L E cfg self platforms now acc entry s = (Ok acc', s') ->
  st_fs s' = st_fs s
  /\ exists calls ids,
       st_calls s' = st_calls s ++ calls
       /\ acc' = acc ++ ids
       /\ batch_round L self platforms (st_fs s) calls ids.
Proof.
  destruct entry as [i item]. unfold BlatoScheduler.schedule_item. intros Hrun.
  apply bind_ok in Hrun as (present & s1 & Hpresent & Hrun).
  apply video_present_run in Hpresent as [-> Hfile].
  destruct present as [p |].
  2: { unfold bind, log, ret in Hrun. injection Hrun as <- <-. cbn.
       split; [reflexivity |]. exists [], []. rewrite !app_nil_r.
       split; [reflexivity |]. split; [reflexivity |]. left. auto. }
  specialize (Hfile p eq_refl).
  apply bind_ok in Hrun as (dt & s1 & Hdt & Hrun).
  unfold lift in Hdt. injection Hdt as Hdt <-.
  apply bind_ok in Hrun as ([] & s2 & Hlog & Hrun).
  unfold log in Hlog. injection Hlog as <-.
  apply bind_ok in Hrun as (media_id & s3 & Hupload & Hrun).
  destruct (upload_media_run self p (with_log (st_log s ++ [(INFO, py "Scheduling %d/%d for %s")]) s))
    as (m & s3' & Hup & Hfs3 & Hcalls3).
  rewrite Hupload in Hup. injection Hup as <- <-. cbn in Hfs3, Hcalls3.
  destruct (truthy media_id) eqn:Hmedia; cbn [negb] in Hrun.
  2: { unfold ret in Hrun. injection Hrun as <- <-. split; [exact Hfs3 |].
       destruct Hcalls3 as [[Hcalls _] | (_ & _ & Hcalls)].
       - exists [], []. rewrite !app_nil_r. split; [exact Hcalls |].
         split; [reflexivity |]. left. auto.
       - exists [upload_request self p], []. rewrite app_nil_r. split; [exact Hcalls |].
         split; [reflexivity |]. right. exists p. split; [exact Hfile |]. left. auto. }
  destruct Hcalls3 as [[_ Hfalse] | (_ & Hkey & Hcalls3)]; [congruence |].
  apply bind_ok in Hrun as (sub_id & s4 & Hpost & Hrun).
  destruct (schedule_post_run self media_id (get item (py "caption") (VStr [])) platforms
              dt s3 Hkey) as (sub & s4' & Hp & Hfs4 & Hcalls4).
  rewrite Hpost in Hp. injection Hp as <- <-.
  split.
  { destruct (truthy sub_id); unfold ret in Hrun; injection Hrun as <- <-; congruence. }
  exists [upload_request self p;
          schedule_request L self platforms media_id (get item (py "caption") (VStr [])) dt].
  destruct (truthy sub_id) eqn:Hsub; unfold ret in Hrun; injection Hrun as <- <-.
  - exists [sub_id]. split; [rewrite Hcalls4, Hcalls3, <- app_assoc; reflexivity |].
    split; [reflexivity |]. right. exists p. split; [exact Hfile |]. right.
    exists media_id, (get item (py "caption") (VStr [])), dt.
    split; [exact Hmedia |]. split; [reflexivity |]. right. eauto.
  - exists []. split; [rewrite Hcalls4, Hcalls3, <- app_assoc; reflexivity |].
    rewrite app_nil_r. split; [reflexivity |]. right. exists p. split; [exact Hfile |]. right.
    exists media_id, (get item (py "caption") (VStr [])), dt.
    split; [exact Hmedia |]. split; [reflexivity |]. left. reflexivity.
Qed.

Lemma schedule_loop_rounds self platforms now entries : forall acc s acc' s',
  for_each entries acc (BlatoScheduler.schedule_item L E cfg self platforms now) s
  = (Ok acc', s') ->
  st_fs s' = st_fs s
  /\ exists rounds : list (list event * list val),
       st_calls s' = st_calls s ++ concat rounds.*1
       /\ acc' = acc ++ concat rounds.*2
       /\ length rounds = length entries
       /\ Forall (fun r => batch_round L self platforms (st_fs s) r.1 r.2) rounds.
Proof.
  induction entries as [| entry rest IH]; intros acc s acc' s' Hrun.
  - cbn in Hrun. injection Hrun as <- <-. split; [reflexivity |]. exists [].
    cbn. rewrite !app_nil_r. repeat split. constructor.
  - cbn [for_each] in Hrun. apply bind_ok in Hrun as (acc1 & s1 & Hround & Hrun).
    apply schedule_item_round in Hround as (Hfs1 & calls & ids & Hcalls1 & -> & Hr).
    apply IH in Hrun as (Hfs & rounds & Hcalls & -> & Hlen & Hall).
    split; [congruence |]. exists ((calls, ids) :: rounds). cbn.
    split; [rewrite Hcalls, Hcalls1, <- app_assoc; reflexivity |].
    split; [rewrite <- app_assoc; reflexivity |].
    split; [lia |]. constructor; [exact Hr |]. rewrite <- Hfs1. exact Hall.
Qed.

(** X17.  The requests of a batch, round by round.  When [schedule_batch]
    returns, what it has sent is, for each video in turn, nothing, or the
    upload of a file that is on disk, or that upload followed by one post
    request for the media id that came back.  It changes no file, never
    uploads a file that is not there, never posts without a media id, and
    returns at most one submission id for each post request, none of them
    empty. *)
Theorem schedule_batch_round_by_round self batch platforms s subs s' :
  BlatoScheduler.schedule_batch L E cfg self batch platforms s = (Ok subs, s') ->
  st_fs s' = st_fs s
  /\ exists rounds : list (list event * list val),
       st_calls s' = st_calls s ++ concat rounds.*1
       /\ subs = concat rounds.*2
       /\ length rounds <= length batch
       /\ Forall (fun r => batch_round L self platforms (st_fs s) r.1 r.2) rounds.
Proof.
  unfold BlatoScheduler.schedule_batch.
  destruct (BlatoScheduler.api_key self) as [| c key].
  { unfold bind, log, ret. intros [= <- <-]. split; [reflexivity |]. exists [].
    cbn. rewrite app_nil_r. repeat split; [lia | constructor]. }
  intros Hrun. apply bind_ok in Hrun as (now & s1 & Hnow & Hrun).
  assert (Hs1 : st_fs s1 = st_fs s /\ st_calls s1 = st_calls s).
  { unfold ask in Hnow. destruct (clock_now E (st_world s)) as [t w].
    injection Hnow as _ <-. split; reflexivity. }
  destruct Hs1 as [Hfs1 Hcalls1].
  apply bind_ok in Hrun as (ids & s2 & Hloop & Hrun).
  unfold bind, log, ret in Hrun. injection Hrun as <- <-. cbn [st_fs st_calls with_log].
  apply schedule_loop_rounds in Hloop as (Hfs & rounds & Hcalls & -> & Hlen & Hall).
  split; [congruence |]. exists rounds.
  split; [rewrite Hcalls, Hcalls1; reflexivity |].
  split; [reflexivity |].
  split; [unfold enumerate in Hlen; rewrite length_enumerate_from in Hlen; lia |].
  rewrite <- Hfs1. exact Hall.
Qed.

End BatchRounds.

(* ===================================================================== *)
(** * Video generation: the requests of one call                          *)
(* ===================================================================== *)

Section GenerationRequests.
Context {W : Type} (L : Py.lib) (E : externals W) (cfg : Config.t).
Implicit Types s : state W.

Lemma verify_file_calls path n : keeps (W := W) st_calls (FileManager.verify_file path n).
Proof. unfold FileManager.verify_file. repeat keeps_step. Qed.

(** A download that returns has sent one request; one that raises has sent
    one or, for a URL that is no string, none. *)
Lemma _download_file_calls url path s r s' :
  HiggsFieldGenerator._download_file E url path s = (r, s') ->
  (exists u, st_calls s' = st_calls s ++ [EvDownload u])
  \/ (st_calls s' = st_calls s /\ exists e, r = Raise e).
Proof.
  unfold HiggsFieldGenerator._download_file.
  destruct url as [| | | u | |];
    try (unfold raise; intros [= <- <-]; right; split; [reflexivity | eauto]).
  left. exists u. unfold write_stream in H.
  destruct (requests_get_stream E u (st_world s)) as [[[size [e |]] | e] w];
    injection H as <- <-; reflexivity.
Qed.

Lemma generate_video_request_calls self payload s r s' :
  HiggsFieldGenerator.generate_video_request L E cfg self payload s = (r, s') ->
  exists new,
    st_calls s' = st_calls s ++ new
    /\ generation_requests self new (exists p, r = Ok (Some p)).
Proof.
  set (post := EvPostJson (HiggsFieldGenerator.base_url self ++ py "/v1/generations")
                 (HiggsFieldGenerator._headers self) payload).
  assert (Hstop : forall polls poll_url s0,
            st_calls s0 = st_calls s ++ post :: polls ->
            length polls <= 20 ->
            Forall (fun ev => ev = EvGetJson poll_url (HiggsFieldGenerator._headers self)) polls ->
            (forall p, r <> Ok (Some p)) ->
            exists new, st_calls s0 = st_calls s ++ new
              /\ generation_requests self new (exists p, r = Ok (Some p))).
  { intros polls poll_url s0 Hcalls Hlen Hall Hr. exists (post :: polls ++ []).
    split; [rewrite app_nil_r; exact Hcalls |].
    exists payload, poll_url, polls, [].
    split; [reflexivity |]. split; [exact Hlen |]. split; [exact Hall |].
    split; [left; reflexivity |]. intros [p Hp]. destruct (Hr p Hp). }
  assert (Hload : forall polls poll_url u s0,
            st_calls s0 = st_calls s ++ post :: polls ++ [EvDownload u] ->
            length polls <= 20 ->
            Forall (fun ev => ev = EvGetJson poll_url (HiggsFieldGenerator._headers self)) polls ->
            polls <> [] ->
            exists new, st_calls s0 = st_calls s ++ new
              /\ generation_requests self new (exists p, r = Ok (Some p))).
  { intros polls poll_url u s0 Hcalls Hlen Hall Hne. exists (post :: polls ++ [EvDownload u]).
    split; [exact Hcalls |].
    exists payload, poll_url, polls, [EvDownload u].
    split; [reflexivity |]. split; [exact Hlen |]. split; [exact Hall |].
    split; [right; eauto | discriminate]. }
  unfold HiggsFieldGenerator.generate_video_request. fold post.
  unfold bind at 1, call.
  destruct (requests_post_json E _ _ payload (st_world s)) as [[data | e] w].
  2: { intros [= <- <-]. apply (Hstop [] []); [reflexivity | cbn; lia | constructor | discriminate]. }
  unfold bind at 1, lift. destruct (as_dict data) as [d | e].
  2: { intros [= <- <-]. apply (Hstop [] []); [reflexivity | cbn; lia | constructor | discriminate]. }
  set (generation_id := get d (py "generation_id") (get d (py "id") (VStr []))).
  destruct (truthy generation_id); cbn [negb].
  2: { unfold bind, log, ret. intros [= <- <-].
       apply (Hstop [] []); [reflexivity | cbn; lia | constructor | discriminate]. }
  set (poll_url := HiggsFieldGenerator.base_url self ++ py "/v1/generations/"
                   ++ str_of_val L generation_id).
  set (s1 := with_calls (st_calls s ++ [post]) (with_world w s)).
  unfold bind at 1.
  destruct (_poll_status_run E self poll_url (py "status") (py "completed") 20 s1)
    as (res & s2 & polls & -> & Hcalls2 & Hlen & Hall & _ & Hsome).
  assert (Hcalls : st_calls s2 = st_calls s ++ post :: polls).
  { rewrite Hcalls2. subst s1. cbn. rewrite <- app_assoc. reflexivity. }
  destruct res as [result |].
  2: { unfold bind, log, ret. intros [= <- <-].
       apply (Hstop polls poll_url); [exact Hcalls | exact Hlen | exact Hall | discriminate]. }
  specialize (Hsome result eq_refl).
  destruct (truthy result); cbn [negb].
  2: { unfold bind, log, ret. intros [= <- <-].
       apply (Hstop polls poll_url); [exact Hcalls | exact Hlen | exact Hall | discriminate]. }
  unfold bind at 1, lift. destruct (as_dict result) as [rd | e].
  2: { intros [= <- <-].
       apply (Hstop polls poll_url); [exact Hcalls | exact Hlen | exact Hall | discriminate]. }
  unfold bind at 1. destruct (as_dict (get rd (py "output") (VDict []))) as [output | e].
  2: { intros [= <- <-].
       apply (Hstop polls poll_url); [exact Hcalls | exact Hlen | exact Hall | discriminate]. }
  set (video_url := get rd (py "video_url") (get output (py "url") (VStr []))).
  destruct (truthy video_url); cbn [negb].
  2: { unfold bind, log, ret. intros [= <- <-].
       apply (Hstop polls poll_url); [exact Hcalls | exact Hlen | exact Hall | discriminate]. }
  set (output_path := Config.path_join (Config.VIDEOS_DIR cfg)
                        (str_of_val L generation_id ++ py ".mp4")).
  unfold bind at 1.
  destruct (HiggsFieldGenerator._download_file E video_url output_path s2) as [rd' s3] eqn:Hdl.
  apply _download_file_calls in Hdl as [[u Hdl] | [Hdl [e ->]]].
  2: { intros [= <- <-].
       apply (Hstop polls poll_url); [congruence | exact Hlen | exact Hall | discriminate]. }
  assert (Hcalls3 : st_calls s3 = st_calls s ++ post :: polls ++ [EvDownload u]).
  { rewrite Hdl, Hcalls, <- app_assoc. reflexivity. }
  destruct rd' as [[] | e].
  2: { intros [= <- <-]. apply (Hload polls poll_url u); assumption. }
  unfold bind at 1.
  pose proof (verify_file_calls output_path 1 s3) as Hv.
  destruct (FileManager.verify_file output_path 1 s3) as [[ok | e] s4]; cbn [snd] in Hv.
  2: { intros [= <- <-]. apply (Hload polls poll_url u); [congruence | assumption ..]. }
  destruct ok; unfold bind, log, ret; intros [= <- <-];
    apply (Hload polls poll_url u); cbn [st_calls with_log]; (congruence || assumption).
Qed.

(** X18.  The requests of one video.  [generate_video] returns, whatever
    the service does.  Without a key it sends nothing.  With one it sends
    exactly one POST to the generations endpoint, then at most 20 polls, all
    to one URL, then at most one download, and never a download before a
    poll; a call that returns a path has downloaded. *)
Theorem generate_video_requests self prompt soul_id s :
  exists r s' new,
    HiggsFieldGenerator.generate_video L E cfg self prompt soul_id s = (Ok r, s')
    /\ st_calls s' = st_calls s ++ new
    /\ match HiggsFieldGenerator.api_key self with
       | [] => new = [] /\ r = None
       | _ => generation_requests self new (is_Some r)
       end.
Proof.
  unfold HiggsFieldGenerator.generate_video.
  destruct (HiggsFieldGenerator.api_key self) as [| c key].
  { eexists None, _, []. split; [reflexivity |]. cbn. rewrite app_nil_r. auto. }
  unfold try_except.
  match goal with
  | |- context [HiggsFieldGenerator.generate_video_request L E cfg self ?p s] =>
      destruct (HiggsFieldGenerator.generate_video_request L E cfg self p s)
        as [[r | e] s1] eqn:Hrun;
      apply generate_video_request_calls in Hrun
        as (new & Hcalls & payload & poll_url & polls & tail & -> & Hlen & Hall & Htail & Hret)
  end.
  - exists r, s1. eexists. split; [reflexivity |]. split; [exact Hcalls |].
    exists payload, poll_url, polls, tail. split; [reflexivity |].
    split; [exact Hlen |]. split; [exact Hall |]. split; [exact Htail |].
    intros [p ->]. apply Hret. eauto.
  - exists None. eexists. eexists. split; [reflexivity |]. split; [exact Hcalls |].
    exists payload, poll_url, polls, tail. split; [reflexivity |].
    split; [exact Hlen |]. split; [exact Hall |]. split; [exact Htail |].
    intros [p Hp]. discriminate Hp.
Qed.

End GenerationRequests.

(* ===================================================================== *)
(** * Voice synthesis: which voice, which requests                        *)
(* ===================================================================== *)

Section VoiceRequests.
Context {W : Type} (L : Py.lib) (E : externals W) (cfg : Config.t).
Implicit Types s : state W.

(** Once the voice is resolved: one request, whatever comes back. *)
Lemma synthesize_tail resolved_id text output_path s :
  exists r s',
    (output_path <-
       (if falsy output_path
        then filename <- FileManager.timestamped_name L E (py "voice") (py "mp3") ;;
             ret (Config.path_join (Config.AUDIO_DIR cfg) filename)
        else ret (default [] output_path)) ;;
     try_except
       (write_stream (EvTextToSpeech resolved_id text)
                     (text_to_speech_convert E resolved_id text) output_path ;;
        ok <- FileManager.verify_file output_path 1 ;;
        if ok
        then log INFO (py "Synthesized audio saved: %s") ;; ret (Some output_path)
        else ret None)
       (fun exc => log ERROR (py "Speech synthesis failed: %s") ;; ret None))%pym s
    = (Ok r, s')
    /\ st_calls s' = st_calls s ++ [EvTextToSpeech resolved_id text].
Proof.
  unfold bind at 1.
  assert (Hpath : exists p s0,
            (if falsy output_path
             then filename <- FileManager.timestamped_name L E (py "voice") (py "mp3") ;;
                  ret (Config.path_join (Config.AUDIO_DIR cfg) filename)
             else ret (default [] output_path))%pym s = (Ok p, s0)
            /\ st_calls s0 = st_calls s /\ st_world s0 = st_world s0).
  { destruct (falsy output_path).
    - unfold FileManager.timestamped_name, bind, ask, ret.
      destruct (clock_now E (st_world s)) as [t w]. eexists _, _. split; [reflexivity |].
      split; reflexivity.
    - eexists _, _. split; [reflexivity |]. split; reflexivity. }
  destruct Hpath as (p & s0 & -> & Hcalls0 & _).
  unfold try_except, bind at 1, write_stream.
  destruct (text_to_speech_convert E resolved_id text (st_world s0)) as [[[size [e |]] | e] w].
  - eexists _, _. split; [reflexivity |]. cbn. rewrite Hcalls0. reflexivity.
  - unfold bind at 1.
    match goal with
    | |- context [FileManager.verify_file p 1 ?st] =>
        pose proof (verify_file_calls p 1 st) as Hv;
        destruct (FileManager.verify_file p 1 st) as [[[] | e] s1]; cbn [snd] in Hv
    end.
    + eexists _, _. split; [reflexivity |]. cbn. rewrite Hv. cbn. rewrite Hcalls0. reflexivity.
    + eexists _, _. split; [reflexivity |]. rewrite Hv. cbn. rewrite Hcalls0. reflexivity.
    + eexists _, _. split; [reflexivity |]. cbn. rewrite Hv. cbn. rewrite Hcalls0. reflexivity.
  - eexists _, _. split; [reflexivity |]. cbn. rewrite Hcalls0. reflexivity.
Qed.

(** X19.  Which voice, which requests.  [synthesize] returns, whatever the
    service does.  Without a client it sends nothing and returns [None].
    With a voice given, or else one configured, it sends exactly one
    text-to-speech request, with that voice and the text, and never lists
    the voices.  With neither, it lists the voices once, and then sends at
    most one text-to-speech request. *)
Theorem synthesize_voice_and_requests self text voice_id output_path s :
  exists r s' new,
    ElevenLabsVoice.synthesize L E cfg self text voice_id output_path s = (Ok r, s')
    /\ st_calls s' = st_calls s ++ new
    /\ match ElevenLabsVoice.client self, known_voice cfg voice_id with
       | None, _ => new = [] /\ r = None
       | Some _, Some v => new = [EvTextToSpeech v text]
       | Some _, None =>
           (new = [EvVoicesGetAll] /\ r = None)
           \/ exists v, new = [EvVoicesGetAll; EvTextToSpeech v text]
       end.
Proof.
  unfold ElevenLabsVoice.synthesize, known_voice.
  destruct (ElevenLabsVoice.client self) as [key |] eqn:Hclient.
  2: { eexists None, _, []. split; [reflexivity |]. cbn. rewrite app_nil_r. auto. }
  unfold bind at 1, ElevenLabsVoice._resolve_voice_id.
  destruct (truthy voice_id) eqn:Hgiven.
  { cbn [ret]. rewrite Hgiven. cbn [negb].
    destruct (synthesize_tail voice_id text output_path s) as (r & s' & Hrun & Hcalls).
    exists r, s', [EvTextToSpeech voice_id text]. split; [exact Hrun |]. auto. }
  destruct (Config.ELEVENLABS_VOICE_ID cfg) as [| c rest] eqn:Hcfg.
  2: { cbn [ret truthy negb].
       destruct (synthesize_tail (VStr (c :: rest)) text output_path s)
         as (r & s' & Hrun & Hcalls).
       exists r, s', [EvTextToSpeech (VStr (c :: rest)) text]. split; [exact Hrun |]. auto. }
  rewrite Hclient. unfold try_except, bind at 1, call.
  destruct (voices_get_all E (st_world s)) as [[voice_list | e] w].
  2: { eexists None, _, [EvVoicesGetAll]. split; [reflexivity |]. cbn. auto. }
  destruct voice_list as [| fallback_id voice_list].
  { eexists None, _, [EvVoicesGetAll]. split; [reflexivity |]. cbn. auto. }
  unfold bind at 1. cbn [log ret].
  destruct (truthy fallback_id); cbn [negb].
  2: { eexists None, _, [EvVoicesGetAll]. split; [reflexivity |]. cbn. auto. }
  match goal with
  | |- context [bind _ _ ?st] =>
      destruct (synthesize_tail fallback_id text output_path st) as (r & s' & Hrun & Hcalls)
  end.
  exists r, s', [EvVoicesGetAll; EvTextToSpeech fallback_id text].
  split; [exact Hrun |]. split.
  - rewrite Hcalls. cbn. rewrite <- app_assoc. reflexivity.
  - right. eauto.
Qed.

End VoiceRequests.

(* ===================================================================== *)
(** * More statements at work in the example world                        *)
(* ===================================================================== *)

Section MoreExamples.
Import Example Scenario.
Local Open Scope Z_scope.

Lemma ids_below_empty : ids_below Db.empty.
Proof.
  split; [cbn; lia |]. intros id [r Hr]. cbn in Hr. rewrite lookup_empty in Hr.
  discriminate Hr.
Defined.

(** A run, from its result. *)
Lemma run_result {A} (out : result A * state nat) (r : result A) :
  out.1 = r -> out = (r, out.2).
Proof. destruct out as [r' s']. cbn. intros ->. reflexivity. Qed.

(** ** Generation *)

(** Discovery queues three rows; generation is asked for the first two.  The
    video API serves one request only: row 1 ends generated and row 2
    failed. *)
Lemma run_generation_finishes_every_item_witness :
  Config.SOUL_ID cfg <> []
  /\ (PipelineOrchestrator.run_generation the_lib the_world cfg [1; 2] discovered).1 = Ok [1]
  /\ status_of (st_db generation_run.2) 2 = Some Db.Failed
  /\ exists ids s',
       PipelineOrchestrator.run_generation the_lib the_world cfg [1; 2] discovered
       = (Ok ids, s')
       /\ generation_outcome [1; 2] (st_db discovered) ids (st_db s').
Proof.
  assert (Hsoul : Config.SOUL_ID cfg <> []) by discriminate.
  split; [exact Hsoul |]. split; [vm_compute; reflexivity |].
  split; [vm_compute; reflexivity |].
  exact (run_generation_finishes_every_item the_lib the_world cfg [1; 2] discovered Hsoul).
Defined.

(** ** Scheduling *)

(** Rows 1 and 2 are both generated, and the upload of the video of row 1
    fails.  The one submission id that comes back is for the video of row 2;
    it is at position 0 of the list returned, so row 1 is the one marked
    scheduled, and row 2 stays generated. *)
Lemma run_scheduling_marks_by_position_witness :
  PipelineOrchestrator.run_scheduling the_lib upload_of_a_fails cfg [1; 2] None
    two_generated = (Ok [1], scheduling_after_failed_upload.2)
  /\ batched (st_db two_generated) [1; 2] = [1; 2]
  /\ status_of (st_db scheduling_after_failed_upload.2) 2 = Some Db.Generated
  /\ exists n,
       (n <= length (batched (st_db two_generated) [1; 2]%Z))%nat
       /\ [1] = List.filter nonzero (firstn n (batched (st_db two_generated) [1; 2]))
       /\ Forall (fun id => status_of (st_db scheduling_after_failed_upload.2) id
                            = Some Db.Scheduled) [1].
Proof.
  assert (Hrun : PipelineOrchestrator.run_scheduling the_lib upload_of_a_fails cfg [1; 2] None
    two_generated = (Ok [1], scheduling_after_failed_upload.2))
    by (apply run_result; vm_compute; reflexivity).
  split; [exact Hrun |]. split; [vm_compute; reflexivity |].
  split; [vm_compute; reflexivity |].
  exact (run_scheduling_marks_by_position the_lib upload_of_a_fails cfg [1; 2] None
           two_generated [1] scheduling_after_failed_upload.2 Hrun).
Defined.

(** One row scheduled on the three platforms of the configuration: three
    entries. *)
Lemma run_scheduling_logs_each_platform_witness :
  PipelineOrchestrator.run_scheduling the_lib the_world cfg [1] None generated_once = (Ok [1], scheduling_run.2)
  /\ exists new,
       Db.post_log (st_db scheduling_run.2) = Db.post_log (st_db generated_once) ++ new
       /\ logged [py "tiktok"; py "instagram"; py "youtube"] [1] new.
Proof.
  assert (Hrun : PipelineOrchestrator.run_scheduling the_lib the_world cfg [1] None generated_once = (Ok [1], scheduling_run.2))
    by (apply run_result; vm_compute; reflexivity).
  split; [exact Hrun |].
  exact (run_scheduling_logs_each_platform the_lib the_world cfg [1] None generated_once
           [1] scheduling_run.2 Hrun).
Defined.

(** A batch of four videos, all on disk and all accepted. *)
Lemma schedule_batch_round_by_round_witness :
  (BlatoScheduler.schedule_batch the_lib the_world cfg scheduler four_videos
     (Config.PLATFORMS cfg) with_videos).1 = Ok [VStr (py "sub-1"); VStr (py "sub-1"); VStr (py "sub-1"); VStr (py "sub-1")]
  /\ st_fs batch_run.2 = st_fs with_videos
  /\ exists rounds : list (list event * list val),
       st_calls batch_run.2 = st_calls with_videos ++ concat rounds.*1
       /\ [VStr (py "sub-1"); VStr (py "sub-1"); VStr (py "sub-1"); VStr (py "sub-1")]
          = concat rounds.*2
       /\ (length rounds <= length four_videos)%nat
       /\ Forall (fun r => batch_round the_lib scheduler (Config.PLATFORMS cfg)
                             (st_fs with_videos) r.1 r.2) rounds.
Proof.
  assert (Hrun : BlatoScheduler.schedule_batch the_lib the_world cfg scheduler four_videos
    (Config.PLATFORMS cfg) with_videos
                 = (Ok [VStr (py "sub-1"); VStr (py "sub-1"); VStr (py "sub-1");
                        VStr (py "sub-1")], batch_run.2))
    by (apply run_result; vm_compute; reflexivity).
  split; [vm_compute; reflexivity |].
  exact (schedule_batch_round_by_round the_lib the_world cfg scheduler four_videos
           (Config.PLATFORMS cfg) with_videos _ batch_run.2 Hrun).
Defined.

(** ** Discovery *)

Lemma run_discovery_without_items_witness :
  no_items empty_apify
  /\ exists s',
       PipelineOrchestrator.run_discovery the_lib empty_apify cfg 20 start = (Ok [], s')
       /\ st_db s' = st_db start
       /\ exists new, st_calls s' = st_calls start ++ new /\ Forall is_apify new.
Proof.
  assert (Hno : no_items empty_apify).
  { intros dataset_id w items H. cbn in H. injection H as <-. reflexivity. }
  split; [exact Hno |].
  exact (run_discovery_without_items the_lib empty_apify cfg 20 start Hno).
Defined.

Lemma run_discovery_queues_pending_rows_witness :
  ids_below (st_db start)
  /\ (PipelineOrchestrator.run_discovery the_lib the_world cfg 20 start).1 = Ok [1; 2; 3]
  /\ exists ids s',
       PipelineOrchestrator.run_discovery the_lib the_world cfg 20 start = (Ok ids, s')
       /\ queued (st_db start) ids (st_db s')
       /\ guarded (st_db s') (PipelineOrchestrator.Generation ids).
Proof.
  split; [exact ids_below_empty |]. split; [vm_compute; reflexivity |].
  exact (run_discovery_queues_pending_rows the_lib the_world cfg 20 start ids_below_empty).
Defined.

Lemma analyze_content_one_call_each_witness :
  exists results,
    GeminiAnalyzer.analyze_content the_lib the_world analyzer scraped start = (Ok results, analysis_run.2)
    /\ st_calls analysis_run.2
       = st_calls start ++ List.map (fun item => EvGemini (prompt_of the_lib item)) scraped
    /\ (length results <= length scraped)%nat
    /\ Forall (fun a => exists item, item ∈ scraped /\ stamped item a) results.
Proof.
  exists (match analysis_run.1 with Ok results => results | Raise _ => [] end).
  assert (Hrun : GeminiAnalyzer.analyze_content the_lib the_world analyzer scraped start
                 = (Ok (match analysis_run.1 with Ok results => results | Raise _ => [] end),
                    analysis_run.2))
    by (apply run_result; vm_compute; reflexivity).
  split; [exact Hrun |].
  exact (analyze_content_one_call_each the_lib the_world analyzer scraped start _
           analysis_run.2 Hrun).
Defined.

(** ** The full pipeline *)

Lemma run_full_pipeline_counts_witness :
  PipelineOrchestrator.run_full_pipeline the_lib the_world cfg start
  = (Ok {| PipelineOrchestrator.discovered := 3;
           PipelineOrchestrator.generated := 1;
           PipelineOrchestrator.scheduled := 1 |}, pipeline_run.2)
  /\ (0 <= 1 <= 1) /\ 1 <= 3.
Proof.
  assert (Hrun : PipelineOrchestrator.run_full_pipeline the_lib the_world cfg start
                 = (Ok {| PipelineOrchestrator.discovered := 3;
                          PipelineOrchestrator.generated := 1;
                          PipelineOrchestrator.scheduled := 1 |}, pipeline_run.2))
    by (apply run_result; vm_compute; reflexivity).
  split; [exact Hrun |].
  exact (run_full_pipeline_counts the_lib the_world cfg start _ pipeline_run.2 Hrun).
Defined.

(** ** Composition *)

Lemma compose_final_effect_witness :
  (VideoEditor.default_output_path the_lib the_world cfg None with_raw_video).1 = Ok final_path
  /\ exists r s',
       VideoEditor.compose_final the_lib the_world cfg editor raw_video raw_audio
         (VStr (py "Three tools you need")) (VStr (py "Three tools")) None with_raw_video
       = (Ok r, s')
       /\ (r = None \/ r = Some final_path)
       /\ (forall p, FileManager.in_dir (VideoEditor.temp_dir cfg) p = true ->
                     st_fs s' !! p = None)
       /\ (forall p, FileManager.in_dir (VideoEditor.temp_dir cfg) p = false ->
                     p <> final_path -> st_fs s' !! p = st_fs with_raw_video !! p)
       /\ (r = Some final_path ->
           FileManager.in_dir (VideoEditor.temp_dir cfg) final_path = false ->
           valid_file (st_fs s') final_path).
Proof.
  split; [vm_compute; reflexivity |].
  apply (compose_final_effect the_lib the_world cfg editor raw_video raw_audio
           (VStr (py "Three tools you need")) (VStr (py "Three tools")) None with_raw_video
           final_path
           (VideoEditor.default_output_path the_lib the_world cfg None with_raw_video).2).
  vm_compute. reflexivity.
Defined.

(** Without ffmpeg the final video is the raw video, copied. *)
Lemma compose_final_copies_when_ffmpeg_fails_witness :
  ffmpeg_fails the_world editor_without_ffmpeg
  /\ st_fs with_raw_video !! raw_video = Some 4096%N
  /\ exists s',
       VideoEditor.compose_final the_lib the_world cfg editor_without_ffmpeg raw_video
         raw_audio (VStr (py "Three tools you need")) (VStr (py "Three tools")) None
         with_raw_video
       = (Ok (Some final_path), s')
       /\ st_fs s' !! final_path = Some 4096%N.
Proof.
  assert (Hff : ffmpeg_fails the_world editor_without_ffmpeg) by (left; reflexivity).
  assert (Hfile : st_fs with_raw_video !! raw_video = Some 4096%N)
    by (vm_compute; reflexivity).
  split; [exact Hff |]. split; [exact Hfile |].
  apply (compose_final_copies_when_ffmpeg_fails the_lib the_world cfg editor_without_ffmpeg
           raw_video raw_audio (py "Three tools you need") (py "Three tools") None
           with_raw_video final_path
           (VideoEditor.default_output_path the_lib the_world cfg None with_raw_video).2
           4096%N Hff).
  - vm_compute. reflexivity.
  - exact Hfile.
  - vm_compute. discriminate.
  - vm_compute. reflexivity.
  - vm_compute. reflexivity.
  - intros H. vm_compute in H. discriminate H.
Defined.

(** ** The services *)

Lemma generate_video_returns_a_file_witness :
  HiggsFieldGenerator.generate_video the_lib the_world cfg generator
    (VStr (py "Three tools")) (py "soul-1") start = (Ok (Some (py "/app/outputs/videos/gen-1.mp4")), video_run.2)
  /\ valid_file (st_fs video_run.2) (py "/app/outputs/videos/gen-1.mp4").
Proof.
  assert (Hrun : HiggsFieldGenerator.generate_video the_lib the_world cfg generator
    (VStr (py "Three tools")) (py "soul-1") start = (Ok (Some (py "/app/outputs/videos/gen-1.mp4")), video_run.2))
    by (apply run_result; vm_compute; reflexivity).
  split; [exact Hrun |].
  exact (generate_video_returns_a_file the_lib the_world cfg generator
           (VStr (py "Three tools")) (py "soul-1") start _ video_run.2 Hrun).
Defined.

Lemma synthesize_returns_a_file_witness :
  ElevenLabsVoice.synthesize the_lib the_world cfg voice (VStr (py "Here are three tools"))
    VNone None start = (Ok (Some voice_path), voice_run.2)
  /\ valid_file (st_fs voice_run.2) voice_path.
Proof.
  assert (Hrun : ElevenLabsVoice.synthesize the_lib the_world cfg voice (VStr (py "Here are three tools"))
    VNone None start = (Ok (Some voice_path), voice_run.2))
    by (apply run_result; vm_compute; reflexivity).
  split; [exact Hrun |].
  apply (synthesize_returns_a_file the_lib the_world cfg voice start voice_path voice_run.2).
  left. exists (VStr (py "Here are three tools")), VNone, None. exact Hrun.
Defined.

(** ** Captions *)

(** The link is too long for a line: the first line is empty. *)
Lemma wrap_lines_first_line_witness :
  split link_caption
  = [py "https://example.org/three-tools-you-need-now"; py "watch"; py "this"]
  /\ VideoEditor.wrap_lines link_caption
     = [[]; py "https://example.org/three-tools-you-need-now"; py "watch this"]
  /\ exists rest,
       VideoEditor.wrap_lines link_caption = [[]] ++ rest
       /\ Forall (fun l => l <> []) rest.
Proof.
  assert (Hsplit : split link_caption
                   = [py "https://example.org/three-tools-you-need-now"; py "watch"; py "this"])
    by (vm_compute; reflexivity).
  split; [exact Hsplit |]. split; [vm_compute; reflexivity |].
  exact (wrap_lines_first_line link_caption _ _ Hsplit).
Defined.

(** ** The queue table *)

Lemma add_content_then_get_witness :
  ids_below (st_db start)
  /\ Database.add_content the_lib the_world (VStr (py "https://example.org/v/1"))
    (VStr (py "AI tools")) (py "{}") (VStr (py "Three tools you need")) start = (Ok 1, insert_run.2)
  /\ exists r,
       Database.get_content 1 insert_run.2 = (Ok (Some r), insert_run.2)
       /\ Db.status r = Db.Pending
       /\ Db.topic r = Some (py "AI tools").
Proof.
  assert (Hrun : Database.add_content the_lib the_world (VStr (py "https://example.org/v/1"))
    (VStr (py "AI tools")) (py "{}") (VStr (py "Three tools you need")) start = (Ok 1, insert_run.2))
    by (apply run_result; vm_compute; reflexivity).
  split; [exact ids_below_empty |]. split; [exact Hrun |].
  destruct (add_content_then_get the_lib the_world (VStr (py "https://example.org/v/1"))
              (VStr (py "AI tools")) (py "{}") (VStr (py "Three tools you need")) start
              1 insert_run.2 ids_below_empty Hrun)
    as (_ & _ & _ & _ & r & Hget & Hst & _ & Htopic & _).
  exists r. split; [exact Hget |]. split; [exact Hst |].
  cbn in Htopic. injection Htopic as <-. reflexivity.
Defined.

End MoreExamples.
